(** * logpack: the line-differential codec of [pack/pack.go]

    A shallow embedding of the Go package [pack] and the properties of
    its compressor and decompressor.

    Conventions of the embedding.
    - A byte is a [Z] in [0, 256); byte arithmetic is written with its
      wrap-around ([to_byte]).  A Go [int] is a [Z]: every [int] of the
      package is bounded by the length of a slice, so no 64-bit
      wrap-around can occur.
    - A slice is the [list Z] of the bytes it gives access to.  Re-slicing
      [dst = dst[n:]] keeps the view [skipn n dst]; a callee that writes
      through a sub-slice returns the updated view, which the caller puts
      back in place.  The capacity of a slice is taken equal to its length.
    - A run-time panic of Go (index or slice bound out of range, division
      by zero) is the result [Panic].  Loops that are not [range] loops
      run on fuel chosen by the embedding; [OutOfFuel] is kept apart from
      [Panic]. *)

From Stdlib Require Import ZArith List Lia Bool.
From Stdlib Require Import Floats.SpecFloat.
Import ListNotations.
Open Scope Z_scope.

(** ** Results of partial computations *)

Inductive result (A : Type) : Type :=
| Ok (a : A)
| Panic
| OutOfFuel.

Arguments Ok {A} a.
Arguments Panic {A}.
Arguments OutOfFuel {A}.

Definition bind {A B : Type} (m : result A) (k : A -> result B) : result B :=
  match m with
  | Ok a => k a
  | Panic => Panic
  | OutOfFuel => OutOfFuel
  end.

Notation "x <- m ;; k" := (bind m (fun x => k))
  (at level 61, m at next level, right associativity).
Notation "' p <- m ;; k" := (bind m (fun p => k))
  (at level 61, p pattern, m at next level, right associativity).

(** ** Bytes and slices *)

Definition to_byte (z : Z) : Z := z mod 256.

Definition len {A : Type} (s : list A) : Z := Z.of_nat (length s).

(** [s[i]] *)
Definition index {A : Type} (s : list A) (i : Z) : result A :=
  if 0 <=? i then
    match nth_error s (Z.to_nat i) with
    | Some a => Ok a
    | None => Panic
    end
  else Panic.

(** [s[i] = v] *)
Definition store {A : Type} (s : list A) (i : Z) (v : A) : result (list A) :=
  if (0 <=? i) && (i <? len s)
  then Ok (firstn (Z.to_nat i) s ++ v :: skipn (Z.to_nat (i + 1)) s)
  else Panic.

(** [s[lo:hi]] *)
Definition slice {A : Type} (s : list A) (lo hi : Z) : result (list A) :=
  if (0 <=? lo) && (lo <=? hi) && (hi <=? len s)
  then Ok (firstn (Z.to_nat (hi - lo)) (skipn (Z.to_nat lo) s))
  else Panic.

(** [s[lo:]] *)
Definition slice_from {A : Type} (s : list A) (lo : Z) : result (list A) :=
  slice s lo (len s).

(** [s[:hi]] *)
Definition slice_to {A : Type} (s : list A) (hi : Z) : result (list A) :=
  slice s 0 hi.

(** The slice [s] after a callee has written [sub'] through [s[lo:]]. *)
Definition put_back {A : Type} (s : list A) (lo : Z) (sub' : list A) : list A :=
  firstn (Z.to_nat lo) s ++ sub'.

(** ** Constants *)

Definition NOT_ENOUGH_INPUT : Z := -1.
Definition NOT_ENOUGH_OUTPUT_SPACE : Z := -2.
Definition CORRUPT_INPUT : Z := -3.

Definition ESCAPE_BYTE : Z := 128.
Definition NO_SHARED_PREFIX_FLAG : Z := 64.
Definition LENGTH_BASE : Z := 127.
Definition MAX_BACKREFERENCE_CAPACITY : Z := 64.
Definition SIZEOF_INT16 : Z := 2.
Definition HEADER_SIZE : Z := 2 * SIZEOF_INT16.
Definition MAX_CHUNK_SIZE : Z := 65535 + 1.
Definition MAX_SIMILARITY : Z := 140.

Definition COMPRESSION_LEVEL_WORST : Z := 1.
Definition COMPRESSION_LEVEL_BEST : Z := 9.
Definition COMPRESSION_LEVEL_DEFAULT : Z := 4.

Definition SPACE : Z := 32.
Definition NEWLINE : Z := 10.

(** Go's [a % b] on [int]: truncated remainder, a panic when [b] is 0. *)
Definition go_rem (a b : Z) : result Z :=
  if b =? 0 then Panic else Ok (Z.rem a b).

(** [copy(dst, src)]: the first [min(len(dst), len(src))] bytes are
    overwritten. *)
Definition copy (dst src : list Z) : list Z :=
  let n := Nat.min (length dst) (length src) in
  firstn n src ++ skipn n dst.

(** ** Small helpers of the package *)

Definition min2 (a b : Z) : Z := if a <? b then a else b.

Definition min3 (a b c : Z) : Z :=
  let ab := if a <? b then a else b in
  if ab <? c then ab else c.

(** Every [lengthLimit] of the package is non-negative, so [slice[:lengthLimit]]
    cannot panic here. *)
Definition limitSlice (s : list Z) (lengthLimit : Z) : list Z :=
  if len s >? lengthLimit then firstn (Z.to_nat lengthLimit) s else s.

(** ** Numeric codec *)

(** The loop [for i := 0; i < count; i++ { dst[offset+i] = 0xFF }]. *)
Fixpoint fillBigLength (count : nat) (dst : list Z) (pos : Z) : result (list Z) :=
  match count with
  | O => Ok dst
  | S k =>
      d <- store dst pos (Z.lor ESCAPE_BYTE LENGTH_BASE) ;;
      fillBigLength k d (pos + 1)
  end.

Definition encodeLength (sameStringLength : Z) (dst : list Z) (offset : Z)
  : result (list Z * Z) :=
  if sameStringLength =? 0 then Ok (dst, 0)
  else
    let bigLengthBytesCount := Z.quot sameStringLength LENGTH_BASE in
    if bigLengthBytesCount =? 0 then
      d <- store dst offset (Z.lor ESCAPE_BYTE (to_byte sameStringLength)) ;;
      Ok (d, 1)
    else
      d <- fillBigLength (Z.to_nat bigLengthBytesCount) dst offset ;;
      d' <- store d (offset + bigLengthBytesCount)
              (Z.lor ESCAPE_BYTE (to_byte (Z.rem sameStringLength LENGTH_BASE))) ;;
      Ok (d', bigLengthBytesCount + 1).

(** The [range] loop of [decodeLength], with its two accumulators. *)
Fixpoint decodeLength_loop (compressed : list Z) (sameStringLength bytesRead : Z)
  : Z * Z :=
  match compressed with
  | [] => (sameStringLength, bytesRead)
  | bite :: rest =>
      let sameStringLength' := sameStringLength + to_byte (bite - ESCAPE_BYTE) in
      let bytesRead' := bytesRead + 1 in
      if bite <? Z.lor ESCAPE_BYTE LENGTH_BASE
      then (sameStringLength', bytesRead')
      else decodeLength_loop rest sameStringLength' bytesRead'
  end.

Definition decodeLength (compressed : list Z) : Z * Z :=
  decodeLength_loop compressed 0 0.

(** ** Byte quoter *)

Fixpoint quote_loop (src dst : list Z) (i escapedCharsCount : Z)
  : result (list Z * Z) :=
  match src with
  | [] => Ok (dst, escapedCharsCount)
  | char :: rest =>
      if Z.land char ESCAPE_BYTE =? 0 then
        d <- store dst (i + escapedCharsCount) char ;;
        quote_loop rest d (i + 1) escapedCharsCount
      else
        d <- store dst (i + escapedCharsCount) ESCAPE_BYTE ;;
        d' <- store d (i + (escapedCharsCount + 1)) char ;;
        quote_loop rest d' (i + 1) (escapedCharsCount + 1)
  end.

(** [quote(dst, src)]: the updated [dst] and [bytesWritten]. *)
Definition quote (dst src : list Z) : result (list Z * Z) :=
  '(d, escapedCharsCount) <- quote_loop src dst 0 0 ;;
  Ok (d, len src + escapedCharsCount).

(** The [range] loop of [quoteSafely]; [n] is [len(src)] of the whole
    source, [dst] keeps its length throughout. *)
Fixpoint quoteSafely_loop (n : Z) (src dst : list Z) (i escapedCharsCount : Z)
  : result (list Z * Z * Z) :=
  match src with
  | [] => Ok (dst, n, n + escapedCharsCount)
  | char :: rest =>
      if Z.land char ESCAPE_BYTE =? 0 then
        d <- store dst (i + escapedCharsCount) char ;;
        quoteSafely_loop n rest d (i + 1) escapedCharsCount
      else
        if i + escapedCharsCount + 2 >? len dst
        then Ok (dst, i, i + escapedCharsCount)
        else
          d <- store dst (i + escapedCharsCount) ESCAPE_BYTE ;;
          d' <- store d (i + (escapedCharsCount + 1)) char ;;
          quoteSafely_loop n rest d' (i + 1) (escapedCharsCount + 1)
  end.

(** [quoteSafely(dst, src)]: the updated [dst], [bytesRead] and
    [bytesWritten]. *)
Definition quoteSafely (dst src : list Z) : result (list Z * Z * Z) :=
  quoteSafely_loop (len src) src dst 0 0.

(** ** Line splitter and space search *)

Fixpoint scanSpace (buffer : list Z) (i : Z) : Z :=
  match buffer with
  | [] => i
  | c :: rest => if c =? SPACE then i else scanSpace rest (i + 1)
  end.

(** A negative [startIdx] makes [buffer[i]] panic; a [startIdx] past the
    end is returned unchanged. *)
Definition indexOfFirstSpace (startIdx : Z) (buffer : list Z) : result Z :=
  if startIdx <? 0 then Panic
  else Ok (scanSpace (skipn (Z.to_nat startIdx) buffer) startIdx).

Fixpoint newlineIndex (src : list Z) (i : Z) : option Z :=
  match src with
  | [] => None
  | char :: rest => if char =? NEWLINE then Some i else newlineIndex rest (i + 1)
  end.

Definition nextLine (src : list Z) : list Z * list Z :=
  match newlineIndex src 0 with
  | Some i => (firstn (Z.to_nat (i + 1)) src, skipn (Z.to_nat (i + 1)) src)
  | None => (src, [])
  end.

(** ** Backreference ring *)

Record backrefBuffer : Type := mkBackref {
  writeIdx : Z;
  oldestLineIdx : Z;
  capacity : Z;
  lines : list (list Z)
}.

(** The zero value [backrefBuffer{}] with its capacity set. *)
Definition newBackrefBuffer (cap : Z) : backrefBuffer :=
  mkBackref 0 0 cap (repeat [] (Z.to_nat MAX_BACKREFERENCE_CAPACITY)).

Definition add (backref : backrefBuffer) (line : list Z) : result backrefBuffer :=
  ls <- store (lines backref) (writeIdx backref) line ;;
  w <- go_rem (writeIdx backref + 1) (capacity backref) ;;
  if w =? oldestLineIdx backref then
    o <- go_rem (oldestLineIdx backref + 1) (capacity backref) ;;
    Ok (mkBackref w o (capacity backref) ls)
  else Ok (mkBackref w (oldestLineIdx backref) (capacity backref) ls).

Definition getLineAt (backref : backrefBuffer) (linesBefore : Z) : result (list Z) :=
  if linesBefore >? capacity backref then Panic
  else
    let i := writeIdx backref - linesBefore in
    let i := if i <? 0 then capacity backref + i else i in
    index (lines backref) i.

(** ** Similarity estimator *)

(** The first [range] loop of [estimateSimilarity]. *)
Fixpoint commonPrefix (refLine currLine : list Z) : Z :=
  match refLine, currLine with
  | char :: r, c :: cs => if char =? c then 1 + commonPrefix r cs else 0
  | _, _ => 0
  end.

Fixpoint similarity_loop (fuel : nat) (refLine currLine : list Z)
  (lenLimit idxRefLine idxCurrLine sameStringLength similarityScore : Z)
  : result Z :=
  match fuel with
  | O => OutOfFuel
  | S fuel' =>
      if (idxRefLine <? lenLimit) && (idxCurrLine <? lenLimit) then
        c <- index currLine idxCurrLine ;;
        r <- index refLine idxRefLine ;;
        if c =? r then
          similarity_loop fuel' refLine currLine lenLimit
            (idxRefLine + 1) (idxCurrLine + 1) (sameStringLength + 1)
            similarityScore
        else
          ir <- indexOfFirstSpace idxRefLine refLine ;;
          ic <- indexOfFirstSpace idxCurrLine currLine ;;
          similarity_loop fuel' refLine currLine lenLimit ir ic 0
            (similarityScore + sameStringLength)
      else Ok (similarityScore + sameStringLength)
  end.

(** [(commonPrefixLength, similarityScore)] *)
Definition estimateSimilarity (refLine currLine : list Z) : result (Z * Z) :=
  let lenLimit := min3 (len refLine) (len currLine) MAX_SIMILARITY in
  let refLine := limitSlice refLine lenLimit in
  let currLine := limitSlice currLine lenLimit in
  let commonPrefixLength := commonPrefix refLine currLine in
  idxRefLine <- indexOfFirstSpace commonPrefixLength refLine ;;
  idxCurrLine <- indexOfFirstSpace commonPrefixLength currLine ;;
  let commonPrefixLength' :=
    if (commonPrefixLength =? 0) && (idxRefLine <? len refLine)
       && (idxCurrLine <? len currLine)
    then - idxRefLine else commonPrefixLength in
  similarityScore <-
    similarity_loop (S (2 * Z.to_nat lenLimit)) refLine currLine lenLimit
      idxRefLine idxCurrLine 0 commonPrefixLength ;;
  Ok (commonPrefixLength', similarityScore).

(** ** Compression parameters *)

(** [float32] is IEEE 754 binary32: 24 bits of precision, [emax] 128. *)
Definition float32 : Type := spec_float.

(** [float32(n)] for an [int] n, rounded to nearest even. *)
Definition float32_of_int (n : Z) : float32 := binary_normalize 24 128 n 0 false.

Definition float32_mul (x y : float32) : float32 := SFmul 24 128 x y.

(** [x >= y] *)
Definition float32_ge (x y : float32) : bool := SFleb y x.

(** The constant [p/100] converted to [float32] (correctly rounded). *)
Definition float32_percent (p : Z) : float32 :=
  SFdiv 24 128 (float32_of_int p) (float32_of_int 100).

Record compressionParameters : Type := mkParams {
  backreferenceCapacity : Z;
  goodEnoughFactor : float32
}.

Definition compressionLevelPresets : list compressionParameters :=
  [ mkParams 2 (float32_percent 80);
    mkParams 2 (float32_percent 80);
    mkParams 4 (float32_percent 80);
    mkParams 8 (float32_percent 80);
    mkParams 16 (float32_percent 80);
    mkParams 32 (float32_percent 80);
    mkParams 64 (float32_percent 80);
    mkParams 64 (float32_percent 90);
    mkParams 64 (float32_percent 95);
    mkParams 64 (float32_percent 100) ].

Definition getCompressionParameters (compressionLevel : Z)
  : result compressionParameters :=
  let row :=
    if compressionLevel <? 0 then 0
    else if compressionLevel =? 0 then COMPRESSION_LEVEL_DEFAULT
    else if compressionLevel >? COMPRESSION_LEVEL_BEST then COMPRESSION_LEVEL_BEST
    else compressionLevel in
  index compressionLevelPresets row.

(** ** Key-line selector *)

Record lineReference : Type := mkLineRef {
  line : list Z;
  linesBefore : Z;
  prefixLength : Z;
  similarityScore : Z
}.

(** One pass of the loop [for linesBefore := 1; ; linesBefore++]. *)
Fixpoint chooseReferenceLine_loop (fuel : nat) (backref : backrefBuffer)
  (compressedLine : list Z) (goodEnoughSimilarityScore : float32)
  (before : Z) (lineRef : lineReference) : result lineReference :=
  match fuel with
  | O => OutOfFuel
  | S fuel' =>
      let i := writeIdx backref - before in
      let i := if i <? 0 then capacity backref + i else i in
      candidate <- index (lines backref) i ;;
      '(prefix, similarity) <- estimateSimilarity candidate compressedLine ;;
      if similarity >? similarityScore lineRef then
        let lineRef' := mkLineRef candidate (to_byte before) prefix similarity in
        if float32_ge (float32_of_int similarity) goodEnoughSimilarityScore
        then Ok lineRef'
        else if i =? oldestLineIdx backref then Ok lineRef'
        else chooseReferenceLine_loop fuel' backref compressedLine
               goodEnoughSimilarityScore (before + 1) lineRef'
      else if i =? oldestLineIdx backref then Ok lineRef
      else chooseReferenceLine_loop fuel' backref compressedLine
             goodEnoughSimilarityScore (before + 1) lineRef
  end.

(** The loop ends (or panics on [lines[i]] with a negative [i]) within
    [writeIdx + capacity + 1] passes. *)
Definition chooseReferenceLine (backref : backrefBuffer) (compressedLine : list Z)
  (factor : float32) : result lineReference :=
  let goodEnoughSimilarityScore :=
    float32_mul factor
      (float32_of_int (min2 (len compressedLine) MAX_SIMILARITY)) in
  chooseReferenceLine_loop
    (S (Z.to_nat (writeIdx backref + capacity backref)))
    backref compressedLine goodEnoughSimilarityScore 1
    (mkLineRef [] 1 0 0).

(** ** Line compressor *)

(** The main loop of [compressLine]; at its exit the destination, the
    cursor in [currLine], the pending matched length and the output
    position. *)
Fixpoint compressLine_loop (fuel : nat) (keyLine currLine dst : list Z)
  (idxKeyLine idxCurrLine sameStringLength bytesWritten : Z)
  : result (list Z * Z * Z * Z) :=
  match fuel with
  | O => OutOfFuel
  | S fuel' =>
      if (idxKeyLine <? len keyLine) && (idxCurrLine <? len currLine) then
        c <- index currLine idxCurrLine ;;
        k <- index keyLine idxKeyLine ;;
        if c =? k then
          compressLine_loop fuel' keyLine currLine dst
            (idxKeyLine + 1) (idxCurrLine + 1) (sameStringLength + 1) bytesWritten
        else
          '(d1, w1) <- encodeLength sameStringLength dst bytesWritten ;;
          let bytesWritten1 := bytesWritten + w1 in
          idxKeyLine' <- indexOfFirstSpace idxKeyLine keyLine ;;
          idxNextSpaceCurrLine <- indexOfFirstSpace idxCurrLine currLine ;;
          sub <- slice_from d1 bytesWritten1 ;;
          token <- slice currLine idxCurrLine idxNextSpaceCurrLine ;;
          '(sub', w2) <- quote sub token ;;
          compressLine_loop fuel' keyLine currLine
            (put_back d1 bytesWritten1 sub')
            idxKeyLine' idxNextSpaceCurrLine 0 (bytesWritten1 + w2)
      else Ok (dst, idxCurrLine, sameStringLength, bytesWritten)
  end.

(** [compressLine(lineRef, currLine, dst)]: the updated [dst] and
    [bytesWritten]. *)
Definition compressLine (lineRef : lineReference) (currLine dst : list Z)
  : result (list Z * Z) :=
  let keyLine := line lineRef in
  d0 <- store dst 0 (to_byte (linesBefore lineRef + ESCAPE_BYTE)) ;;
  let bytesWritten := 1 in
  '(d1, idxKeyLine, idxCurrLine, sameStringLength, bytesWritten) <-
    (if prefixLength lineRef <? 0 then
       let idxKeyLine := - prefixLength lineRef in
       b0 <- index d0 0 ;;
       d <- store d0 0 (Z.lor b0 NO_SHARED_PREFIX_FLAG) ;;
       '(d', w) <- encodeLength idxKeyLine d bytesWritten ;;
       Ok (d', idxKeyLine, 0, 0, bytesWritten + w)
     else
       Ok (d0, prefixLength lineRef, prefixLength lineRef,
           prefixLength lineRef, bytesWritten)) ;;
  '(d2, idxCurrLine, sameStringLength, bytesWritten) <-
    compressLine_loop (S (length keyLine + length currLine)) keyLine currLine d1
      idxKeyLine idxCurrLine sameStringLength bytesWritten ;;
  '(d3, w) <- encodeLength sameStringLength d2 bytesWritten ;;
  let bytesWritten := bytesWritten + w in
  sub <- slice_from d3 bytesWritten ;;
  tail <- slice_from currLine idxCurrLine ;;
  '(sub', w') <- quote sub tail ;;
  Ok (put_back d3 bytesWritten sub', bytesWritten + w').

(** ** Chunk headers *)

Definition uint16 (z : Z) : Z := z mod 65536.

(** [binary.LittleEndian.PutUint16(b, v)] *)
Definition PutUint16 (b : list Z) (v : Z) : result (list Z) :=
  _ <- index b 1 ;;
  b' <- store b 0 (to_byte v) ;;
  store b' 1 (to_byte (Z.shiftr v 8)).

(** [binary.LittleEndian.Uint16(b)] *)
Definition Uint16 (b : list Z) : result Z :=
  _ <- index b 1 ;;
  b0 <- index b 0 ;;
  b1 <- index b 1 ;;
  Ok (Z.lor b0 (Z.shiftl b1 8)).

Definition storeHeader (header : list Z) (compressedSize rawSize : Z)
  : result (list Z) :=
  h <- PutUint16 header (uint16 (compressedSize - 1)) ;;
  rest <- slice_from h SIZEOF_INT16 ;;
  rest' <- PutUint16 rest (uint16 (rawSize - 1)) ;;
  Ok (put_back h SIZEOF_INT16 rest').

(** [(compressedSize, rawSize)] *)
Definition readHeader (header : list Z) : result (Z * Z) :=
  c <- Uint16 header ;;
  rest <- slice_from header SIZEOF_INT16 ;;
  r <- Uint16 rest ;;
  Ok (c + 1, r + 1).

Definition DecompressBound : Z := MAX_CHUNK_SIZE + HEADER_SIZE.

(** ** Chunk compressor *)

(** The state of [Compress] between the first line and the header:
    [cs_header] is [dst[:HEADER_SIZE]], [cs_done] the payload bytes already
    behind the cursor [dst], [cs_dst] the current [dst], [cs_beyond] the
    bytes of the caller's buffer past the [MAX_CHUNK_SIZE] window. *)
Record chunkState : Type := mkChunkState {
  cs_header : list Z;
  cs_beyond : list Z;
  cs_params : compressionParameters;
  cs_backref : backrefBuffer;
  cs_src : list Z;
  cs_done : list Z;
  cs_dst : list Z;
  cs_bytesRead : Z;
  cs_bytesWritten : Z
}.

(** [Compress] up to and including [dst = dst[bytesWritten:]] after the
    first line. *)
Definition Compress_start (dst src : list Z) (compressionLevel : Z)
  : result chunkState :=
  header <- slice_to dst HEADER_SIZE ;;
  body <- slice_from dst HEADER_SIZE ;;
  let src := limitSlice src MAX_CHUNK_SIZE in
  let window := limitSlice body MAX_CHUNK_SIZE in
  let beyond := skipn (length window) body in
  compressionParams <- getCompressionParameters compressionLevel ;;
  let backref := newBackrefBuffer (backreferenceCapacity compressionParams) in
  let '(firstLine, src) := nextLine src in
  backref <- add backref firstLine ;;
  '(window', bytesRead, bytesWritten) <- quoteSafely window firstLine ;;
  dst' <- slice_from window' bytesWritten ;;
  Ok (mkChunkState header beyond compressionParams backref src
        (firstn (Z.to_nat bytesWritten) window') dst' bytesRead bytesWritten).

(** The loop over the lines after the first. *)
Fixpoint Compress_loop (fuel : nat) (st : chunkState) : result chunkState :=
  match fuel with
  | O => OutOfFuel
  | S fuel' =>
      let '(currLine, src) := nextLine (cs_src st) in
      if len currLine >? 0 then
        if len (cs_dst st) <? 2 * len currLine + 2 then Ok st
        else
          lineRef <- chooseReferenceLine (cs_backref st) currLine
                       (goodEnoughFactor (cs_params st)) ;;
          '(d, compressedLineSize) <- compressLine lineRef currLine (cs_dst st) ;;
          dst' <- slice_from d compressedLineSize ;;
          backref <- add (cs_backref st) currLine ;;
          Compress_loop fuel'
            (mkChunkState (cs_header st) (cs_beyond st) (cs_params st) backref src
               (cs_done st ++ firstn (Z.to_nat compressedLineSize) d) dst'
               (cs_bytesRead st + len currLine)
               (cs_bytesWritten st + compressedLineSize))
      else Ok st
  end.

(** [Compress(dst, src, compressionLevel)]: the caller's buffer after the
    call, [bytesRead] and [bytesWritten]. *)
Definition Compress (dst src : list Z) (compressionLevel : Z)
  : result (list Z * Z * Z) :=
  st <- Compress_start dst src compressionLevel ;;
  st' <- Compress_loop (S (length (cs_src st))) st ;;
  header <- storeHeader (cs_header st') (cs_bytesWritten st') (cs_bytesRead st') ;;
  Ok (header ++ cs_done st' ++ cs_dst st' ++ cs_beyond st',
      cs_bytesRead st', cs_bytesWritten st' + HEADER_SIZE).

(** ** Decompressor *)

(** The lines that [decompressChunk] keeps in its ring are slices
    [dst[idxLineBegin:bytesWritten]] of the output.  They are kept here as
    values: [bytesWritten] never decreases and every later write to [dst]
    lies at or after it, so a kept line is never overwritten. *)

(** How the inner loop of [decompressChunk] leaves a line: [return -1], or
    the end of the loop ([break] or exhausted input). *)
Inductive lineOutcome : Type :=
| LineCorrupt (dst : list Z)
| LineDone (dst : list Z) (idxCompressed bytesWritten idxLineBegin : Z)
    (lastDecompressedLine : list Z).

Fixpoint decompressLine_loop (fuel : nat) (compressed keyLine dst : list Z)
  (idxCompressed idxKeyLine bytesWritten idxLineBegin : Z) : result lineOutcome :=
  match fuel with
  | O => OutOfFuel
  | S fuel' =>
      if idxCompressed <? len compressed then
        b <- index compressed idxCompressed ;;
        if b >? ESCAPE_BYTE then
          tail <- slice_from compressed idxCompressed ;;
          let '(length, diffCompressed) := decodeLength tail in
          let idxCompressed := idxCompressed + diffCompressed in
          if len keyLine - idxKeyLine <? length then Ok (LineCorrupt dst)
          else
            target <- slice_from dst bytesWritten ;;
            piece <- slice keyLine idxKeyLine (idxKeyLine + length) ;;
            let dst := put_back dst bytesWritten (copy target piece) in
            idxKeyLine <- indexOfFirstSpace (idxKeyLine + length) keyLine ;;
            let bytesWritten := bytesWritten + length in
            last <- index dst (bytesWritten - 1) ;;
            if last =? NEWLINE then
              lastDecompressedLine <- slice dst idxLineBegin bytesWritten ;;
              Ok (LineDone dst idxCompressed bytesWritten bytesWritten
                    lastDecompressedLine)
            else
              decompressLine_loop fuel' compressed keyLine dst
                idxCompressed idxKeyLine bytesWritten idxLineBegin
        else
          let unfinished :=
            (b =? ESCAPE_BYTE) && (idxCompressed + 1 >=? len compressed) in
          let idxCompressed :=
            if b =? ESCAPE_BYTE then idxCompressed + 1 else idxCompressed in
          if unfinished then Ok (LineCorrupt dst)
          else if bytesWritten >=? len dst then Ok (LineCorrupt dst)
          else
            literal <- index compressed idxCompressed ;;
            dst <- store dst bytesWritten literal ;;
            let idxCompressed := idxCompressed + 1 in
            let bytesWritten := bytesWritten + 1 in
            last <- index dst (bytesWritten - 1) ;;
            if last =? NEWLINE then
              lastDecompressedLine <- slice dst idxLineBegin bytesWritten ;;
              Ok (LineDone dst idxCompressed bytesWritten bytesWritten
                    lastDecompressedLine)
            else
              decompressLine_loop fuel' compressed keyLine dst
                idxCompressed idxKeyLine bytesWritten idxLineBegin
      else Ok (LineDone dst idxCompressed bytesWritten idxLineBegin [])
  end.

(** The outer loop [for len(compressed) > 0]: the updated [dst] and the
    value returned by [decompressChunk]. *)
Fixpoint decompressChunk_loop (fuel : nat) (backref : backrefBuffer)
  (compressed dst : list Z) (bytesWritten idxLineBegin : Z)
  : result (list Z * Z) :=
  match fuel with
  | O => OutOfFuel
  | S fuel' =>
      if len compressed >? 0 then
        first <- index compressed 0 ;;
        '(compressed, keyLine, idxKeyLine) <-
          (if first >? ESCAPE_BYTE then
             let firstByte := first in
             compressed <- slice_from compressed 1 ;;
             let before :=
               Z.land firstByte
                 (Z.lxor 255 (Z.lor ESCAPE_BYTE NO_SHARED_PREFIX_FLAG)) in
             keyLine <- getLineAt backref before ;;
             if negb (Z.land firstByte NO_SHARED_PREFIX_FLAG =? 0) then
               let '(initialIdxKeyLine, bytesRead) := decodeLength compressed in
               compressed <- slice_from compressed bytesRead ;;
               Ok (compressed, keyLine, initialIdxKeyLine)
             else Ok (compressed, keyLine, 0)
           else Ok (compressed, [], 0)) ;;
        outcome <- decompressLine_loop (S (length compressed)) compressed keyLine
                     dst 0 idxKeyLine bytesWritten idxLineBegin ;;
        match outcome with
        | LineCorrupt dst => Ok (dst, -1)
        | LineDone dst idxCompressed bytesWritten idxLineBegin
            lastDecompressedLine =>
            backref <- add backref lastDecompressedLine ;;
            compressed <- slice_from compressed idxCompressed ;;
            decompressChunk_loop fuel' backref compressed dst bytesWritten
              idxLineBegin
        end
      else Ok (dst, bytesWritten)
  end.

Definition decompressChunk (compressed dst : list Z) : result (list Z * Z) :=
  let backref := newBackrefBuffer MAX_BACKREFERENCE_CAPACITY in
  first <- index compressed 0 ;;
  if first >? ESCAPE_BYTE then Ok (dst, -1)
  else decompressChunk_loop (S (length compressed)) backref compressed dst 0 0.

(** The loop [for len(srcCompressed) >= HEADER_SIZE] of [Decompress].
    [chunkResult] is the variable assigned before the loop; [done] is the
    part of the caller's [dst] behind the cursor. *)
Fixpoint Decompress_loop (fuel : nat) (chunkResult : Z)
  (done dst srcCompressed : list Z) (bytesRead bytesWritten : Z)
  : result (list Z * Z * Z) :=
  match fuel with
  | O => OutOfFuel
  | S fuel' =>
      if len srcCompressed >=? HEADER_SIZE then
        '(chunkSize, rawSize) <- readHeader srcCompressed ;;
        srcCompressed <- slice_from srcCompressed HEADER_SIZE ;;
        if len srcCompressed <? chunkSize then Ok (done ++ dst, bytesRead, bytesWritten)
        else if len dst <? rawSize then Ok (done ++ dst, bytesRead, bytesWritten)
        else
          chunk <- slice_to srcCompressed chunkSize ;;
          out <- slice_to dst rawSize ;;
          '(out', r) <- decompressChunk chunk out ;;
          let dst := out' ++ skipn (Z.to_nat rawSize) dst in
          let bytesWritten := bytesWritten + r in
          if chunkResult <? 0 then Ok (done ++ dst, CORRUPT_INPUT, 0)
          else
            srcCompressed <- slice_from srcCompressed chunkSize ;;
            dst' <- slice_from dst rawSize ;;
            Decompress_loop fuel' chunkResult
              (done ++ firstn (Z.to_nat rawSize) dst) dst' srcCompressed
              (bytesRead + (chunkSize + HEADER_SIZE)) bytesWritten
      else Ok (done ++ dst, bytesRead, bytesWritten)
  end.

(** [Decompress(dst, srcCompressed)]: the caller's [dst] after the call,
    [bytesRead] and [bytesWritten]. *)
Definition Decompress (dst srcCompressed : list Z) : result (list Z * Z * Z) :=
  if len srcCompressed <? HEADER_SIZE then Ok (dst, NOT_ENOUGH_INPUT, 0)
  else
    '(chunkSize, rawSize) <- readHeader srcCompressed ;;
    srcCompressed <- slice_from srcCompressed HEADER_SIZE ;;
    if len srcCompressed <? chunkSize then Ok (dst, NOT_ENOUGH_INPUT, 0)
    else if len dst <? rawSize then Ok (dst, NOT_ENOUGH_OUTPUT_SPACE, 0)
    else
      let bytesRead := 0 + (chunkSize + HEADER_SIZE) in
      chunk <- slice_to srcCompressed chunkSize ;;
      out <- slice_to dst rawSize ;;
      '(out', chunkResult) <- decompressChunk chunk out ;;
      let dst := out' ++ skipn (Z.to_nat rawSize) dst in
      if chunkResult <? 0 then Ok (dst, CORRUPT_INPUT, 0)
      else
        let bytesWritten := 0 + chunkResult in
        srcCompressed <- slice_from srcCompressed chunkSize ;;
        dst' <- slice_from dst rawSize ;;
        Decompress_loop (S (length srcCompressed)) chunkResult
          (firstn (Z.to_nat rawSize) dst) dst' srcCompressed
          bytesRead bytesWritten.

(** ** Reachable rings *)

(** The ring after the lines [ls] have been pushed, oldest first. *)
Fixpoint addAll (backref : backrefBuffer) (ls : list (list Z))
  : result backrefBuffer :=
  match ls with
  | [] => Ok backref
  | l :: rest => b <- add backref l ;; addAll b rest
  end.

(** What [add] maintains on a ring of capacity [K] that holds a line. *)
Definition ring_inv (K : Z) (backref : backrefBuffer) : Prop :=
  capacity backref = K
  /\ len (lines backref) = MAX_BACKREFERENCE_CAPACITY
  /\ 0 <= writeIdx backref < K
  /\ ((oldestLineIdx backref = 0 /\ 1 <= writeIdx backref)
      \/ oldestLineIdx backref = (writeIdx backref + 1) mod K).

(** The slot of the ring visited by [chooseReferenceLine] at distance
    [before]. *)
Definition slot (backref : backrefBuffer) (before : Z) : Z :=
  let i := writeIdx backref - before in
  if i <? 0 then capacity backref + i else i.

(** ** Sizes *)

(** The number of bytes [quote] writes for [src]. *)
Fixpoint quotedSize (src : list Z) : Z :=
  match src with
  | [] => 0
  | char :: rest =>
      (if Z.land char ESCAPE_BYTE =? 0 then 1 else 2) + quotedSize rest
  end.

(** The number of newline bytes of [s]. *)
Definition newlines (s : list Z) : Z :=
  Z.of_nat (count_occ Z.eq_dec s NEWLINE).

(** ** A costly input *)

(** Five lines of 128 to 130 bytes; each has its only space at offset 127
    and no common prefix with the line before it. *)
Definition costlyLines : list Z :=
  let lineA := repeat 195 127 ++ [SPACE; NEWLINE] in
  let lineB := repeat 196 127 ++ [SPACE; 197; NEWLINE] in
  lineA ++ lineB ++ lineA ++ lineB ++ repeat 195 127 ++ [SPACE].

(** ** What the encoder writes *)

(** A byte value. *)
Definition is_byte (c : Z) : Prop := 0 <= c < 256.

(** The bytes [quote] writes for [src]. *)
Fixpoint quoted (src : list Z) : list Z :=
  match src with
  | [] => []
  | char :: rest =>
      (if Z.land char ESCAPE_BYTE =? 0 then [char] else [ESCAPE_BYTE; char])
      ++ quoted rest
  end.

(** The bytes [encodeLength] writes for a length [n >= 0]. *)
Definition lengthCode (n : Z) : list Z :=
  if n =? 0 then []
  else repeat 255 (Z.to_nat (n / 127)) ++ [Z.lor ESCAPE_BYTE (n mod 127)].

(** [dst] with [bytes] written from position [pos] on. *)
Definition overwrite (dst : list Z) (pos : Z) (bytes : list Z) : list Z :=
  firstn (Z.to_nat pos) dst ++ bytes
  ++ skipn (Z.to_nat (pos + len bytes)) dst.

(** ** The history of lines *)

(** The line pushed [i] lines ago ([1] is the last one), or the empty
    line when the history [ls] is shorter. *)
Definition recent (ls : list (list Z)) (i : Z) : list Z :=
  if (1 <=? i) && (i <=? len ls)
  then nth (Z.to_nat (len ls - i)) ls []
  else [].

(** What the slots of a ring of capacity [K] hold after the lines [ls]. *)
Definition ring_content (K : Z) (backref : backrefBuffer) (ls : list (list Z))
  : Prop :=
  capacity backref = K
  /\ len (lines backref) = MAX_BACKREFERENCE_CAPACITY
  /\ 0 <= writeIdx backref < K
  /\ forall i, 1 <= i <= K ->
       index (lines backref) (slot backref i) = Ok (recent ls i).

(** ** References to earlier lines *)

(** What the caller of [chooseReferenceLine] may rely on: the reference is
    the initial one (no key line), or it names a line of the ring and
    carries the prefix length and the positive score that
    [estimateSimilarity] gives for that line. *)
Definition sound_reference (backref : backrefBuffer) (currLine : list Z)
  (lineRef : lineReference) : Prop :=
  lineRef = mkLineRef [] 1 0 0
  \/ (1 <= linesBefore lineRef <= capacity backref - 1
      /\ getLineAt backref (linesBefore lineRef) = Ok (line lineRef)
      /\ estimateSimilarity (line lineRef) currLine
         = Ok (prefixLength lineRef, similarityScore lineRef)
      /\ 0 < similarityScore lineRef).

(** ** What the line compressor writes *)

(** [buffer[i]] for an index in range. *)
Definition byteAt (buffer : list Z) (i : Z) : Z := nth (Z.to_nat i) buffer 0.

(** The value of [indexOfFirstSpace(i, buffer)] for [0 <= i]. *)
Definition spaceFrom (buffer : list Z) (i : Z) : Z :=
  scanSpace (skipn (Z.to_nat i) buffer) i.

(** The bytes written by the loop of [compressLine] and by the two
    statements after it, from the loop state [idxKeyLine], [idxCurrLine],
    [sameStringLength] on. *)
Fixpoint lineCode_loop (fuel : nat) (keyLine currLine : list Z)
  (idxKeyLine idxCurrLine sameStringLength : Z) : list Z :=
  match fuel with
  | O => []
  | S fuel' =>
      if (idxKeyLine <? len keyLine) && (idxCurrLine <? len currLine) then
        if byteAt currLine idxCurrLine =? byteAt keyLine idxKeyLine then
          lineCode_loop fuel' keyLine currLine
            (idxKeyLine + 1) (idxCurrLine + 1) (sameStringLength + 1)
        else
          let idxNextSpaceCurrLine := spaceFrom currLine idxCurrLine in
          lengthCode sameStringLength
          ++ quoted (firstn (Z.to_nat (idxNextSpaceCurrLine - idxCurrLine))
                       (skipn (Z.to_nat idxCurrLine) currLine))
          ++ lineCode_loop fuel' keyLine currLine
               (spaceFrom keyLine idxKeyLine) idxNextSpaceCurrLine 0
      else
        lengthCode sameStringLength
        ++ quoted (skipn (Z.to_nat idxCurrLine) currLine)
  end.

(** The bytes written by [compressLine(lineRef, currLine, dst)]. *)
Definition lineCode (lineRef : lineReference) (currLine : list Z) : list Z :=
  let fuel := S (length (line lineRef) + length currLine) in
  if prefixLength lineRef <? 0 then
    Z.lor (to_byte (linesBefore lineRef + ESCAPE_BYTE)) NO_SHARED_PREFIX_FLAG
    :: lengthCode (- prefixLength lineRef)
    ++ lineCode_loop fuel (line lineRef) currLine (- prefixLength lineRef) 0 0
  else
    to_byte (linesBefore lineRef + ESCAPE_BYTE)
    :: lineCode_loop fuel (line lineRef) currLine
         (prefixLength lineRef) (prefixLength lineRef) (prefixLength lineRef).

(** ** The lines of a chunk *)

(** A reference that the decompressor can resolve with the lines
    [history] it has produced so far: the initial reference, or one of
    the last [K - 1] lines with the prefix length and the positive score
    that [estimateSimilarity] gives for it. *)
Definition valid_reference (K : Z) (history : list (list Z))
  (currLine : list Z) (lineRef : lineReference) : Prop :=
  lineRef = mkLineRef [] 1 0 0
  \/ (1 <= linesBefore lineRef <= K - 1
      /\ line lineRef = recent history (linesBefore lineRef)
      /\ estimateSimilarity (line lineRef) currLine
         = Ok (prefixLength lineRef, similarityScore lineRef)
      /\ 0 < similarityScore lineRef).

(** A line as [nextLine] returns it when the source holds a newline. *)
Definition whole_line (currLine : list Z) : Prop :=
  exists body, currLine = body ++ [NEWLINE] /\ ~ In NEWLINE body.

(** The lines after the first that one call of [Compress] takes, each
    with the reference chosen for it: every line ends at its only
    newline, except that the last one may have none. *)
Fixpoint valid_lines (K : Z) (history : list (list Z))
  (items : list (lineReference * list Z)) : Prop :=
  match items with
  | [] => True
  | (lineRef, currLine) :: rest =>
      valid_reference K history currLine lineRef
      /\ (whole_line currLine
          \/ (currLine <> [] /\ ~ In NEWLINE currLine /\ rest = []))
      /\ valid_lines K (history ++ [currLine]) rest
  end.

Definition linesText (items : list (lineReference * list Z)) : list Z :=
  flat_map snd items.

Definition linesCode (items : list (lineReference * list Z)) : list Z :=
  flat_map (fun item => lineCode (fst item) (snd item)) items.

(** ** The lines of the decompressor *)

(** How the inner loop of [decompressChunk] leaves a line of [n] bytes
    that begins at [idxLineBegin]: after a newline ([ends]) the line is
    kept for the ring and the next line begins behind it; at the end of
    the input nothing is kept. *)
Definition lineResult (ends : bool) (dst : list Z)
  (idxCompressed idxLineBegin n : Z) : lineOutcome :=
  LineDone dst idxCompressed (idxLineBegin + n)
    (if ends then idxLineBegin + n else idxLineBegin)
    (if ends
     then firstn (Z.to_nat n) (skipn (Z.to_nat idxLineBegin) dst)
     else []).

(** ** Streams of chunks *)

(** [PackBuffer] of [pack_test.go]: the loop
    [for ...; len(fileContent) > 0; { ... }] that packs a buffer chunk by
    chunk.  [done] is the part of the caller's [outBuff] behind the
    cursor; the result is the caller's buffer and [totalBytesWritten].
    Every pass that returns consumes one byte or more, and a pass that
    consumes none is followed by one more pass at most. *)
Fixpoint PackBuffer_loop (fuel : nat) (fileContent done outBuff : list Z)
  (compressionLevel totalBytesWritten : Z) : result (list Z * Z) :=
  match fuel with
  | O => OutOfFuel
  | S fuel' =>
      if len fileContent >? 0 then
        '(d, read, written) <- Compress outBuff fileContent compressionLevel ;;
        fileContent' <- slice_from fileContent read ;;
        outBuff' <- slice_from d written ;;
        PackBuffer_loop fuel' fileContent'
          (done ++ firstn (Z.to_nat written) d) outBuff' compressionLevel
          (totalBytesWritten + written)
      else Ok (done ++ outBuff, totalBytesWritten)
  end.

Definition PackBuffer (fileContent outBuff : list Z) (compressionLevel : Z)
  : result (list Z * Z) :=
  PackBuffer_loop (S (S (length fileContent))) fileContent [] outBuff
    compressionLevel 0.

(** A chunk (header and payload) that [Decompress] turns into [text]. *)
Definition decodes (chunk text : list Z) : Prop :=
  exists header payload,
    chunk = header ++ payload
    /\ len header = HEADER_SIZE
    /\ (forall more, readHeader (header ++ more) = Ok (len payload, len text))
    /\ 0 < len text
    /\ (forall out, len out = len text ->
        decompressChunk payload out = Ok (text, len text)).

(** What stops the loop of [Decompress] in front of [tail] with [room]
    bytes of output left: no whole header, a chunk that is not whole, or
    a chunk that needs more output space. *)
Definition stalls (tail : list Z) (room : Z) : Prop :=
  len tail < HEADER_SIZE
  \/ exists chunkSize rawSize,
       readHeader tail = Ok (chunkSize, rawSize)
       /\ (len tail - HEADER_SIZE < chunkSize \/ room < rawSize).

(** [1] when the last byte of [s] is a newline, [0] otherwise (and for an
    empty [s]). *)
Definition endsLine (s : list Z) : Z :=
  if last s 0 =? NEWLINE then 1 else 0.

(** * Properties *)

(** Case analysis on the first computation of a [bind] that returned
    [Ok]: the two other cases are absurd. *)
Tactic Notation "bind_inv" hyp(H) "as" simple_intropattern(p) ident(E) :=
  match type of H with
  | bind ?m _ = Ok _ =>
      destruct m as [p| |] eqn:E;
      [cbn [bind] in H | discriminate H | discriminate H]
  end.

Tactic Notation "bind_inv" hyp(H) "as" simple_intropattern(p) :=
  let E := fresh "E" in bind_inv H as p E; clear E.

(** ** Slices *)

Lemma len_nonneg {A : Type} (s : list A) : 0 <= len s.
Proof. unfold len. lia. Qed.

Lemma len_nil {A : Type} : len (@nil A) = 0.
Proof. reflexivity. Qed.

Lemma len_cons {A : Type} (a : A) (s : list A) : len (a :: s) = len s + 1.
Proof. unfold len. cbn [length]. lia. Qed.

Lemma len_app {A : Type} (s t : list A) : len (s ++ t) = len s + len t.
Proof. unfold len. rewrite length_app. lia. Qed.

Lemma len_repeat {A : Type} (a : A) (n : nat) : len (repeat a n) = Z.of_nat n.
Proof. unfold len. now rewrite repeat_length. Qed.

Lemma len_firstn {A : Type} (s : list A) (n : Z) :
  0 <= n <= len s -> len (firstn (Z.to_nat n) s) = n.
Proof. unfold len. intros H. rewrite length_firstn. lia. Qed.

Lemma len_skipn {A : Type} (s : list A) (n : Z) :
  0 <= n <= len s -> len (skipn (Z.to_nat n) s) = len s - n.
Proof. unfold len. intros H. rewrite length_skipn. lia. Qed.

Lemma to_nat_len {A : Type} (s : list A) : Z.to_nat (len s) = length s.
Proof. unfold len. lia. Qed.

Lemma store_app {A : Type} (pre post : list A) (x v : A) :
  store (pre ++ x :: post) (len pre) v = Ok (pre ++ v :: post).
Proof.
  unfold store. rewrite len_app, len_cons.
  pose proof (len_nonneg pre). pose proof (len_nonneg post).
  replace (0 <=? len pre) with true by (symmetry; apply Z.leb_le; lia).
  replace (len pre <? len pre + (len post + 1)) with true
    by (symmetry; apply Z.ltb_lt; lia).
  cbn [andb]. rewrite to_nat_len.
  rewrite firstn_app, firstn_all, Nat.sub_diag. cbn [firstn].
  rewrite app_nil_r.
  replace (Z.to_nat (len pre + 1)) with (length pre + 1)%nat
    by (unfold len; lia).
  rewrite skipn_app, skipn_all2 by lia.
  replace (length pre + 1 - length pre)%nat with 1%nat by lia.
  reflexivity.
Qed.

Lemma store_len {A : Type} (s s' : list A) (i : Z) (v : A) :
  store s i v = Ok s' -> len s' = len s /\ 0 <= i < len s.
Proof.
  unfold store. destruct (0 <=? i) eqn:E1; [|discriminate].
  destruct (i <? len s) eqn:E2; [|discriminate]. cbn [andb].
  intros H. injection H as <-.
  apply Z.leb_le in E1. apply Z.ltb_lt in E2. split; [|lia].
  rewrite len_app, len_cons.
  rewrite len_firstn by lia.
  rewrite len_skipn by lia. lia.
Qed.

Lemma store_in_range {A : Type} (s : list A) (i : Z) (v : A) :
  0 <= i < len s -> exists s', store s i v = Ok s'.
Proof.
  intros H. unfold store.
  replace (0 <=? i) with true by (symmetry; apply Z.leb_le; lia).
  replace (i <? len s) with true by (symmetry; apply Z.ltb_lt; lia).
  eexists. reflexivity.
Qed.

Lemma store_out_of_range {A : Type} (s : list A) (i : Z) (v : A) :
  len s <= i -> store s i v = Panic.
Proof.
  intros H. unfold store.
  replace (i <? len s) with false by (symmetry; apply Z.ltb_ge; lia).
  now rewrite andb_false_r.
Qed.

(** A bounded universal statement, decided by enumeration. *)
Lemma forall_below (P : Z -> bool) (n : nat) :
  forallb P (map Z.of_nat (seq 0 n)) = true ->
  forall z, 0 <= z < Z.of_nat n -> P z = true.
Proof.
  intros H z Hz. rewrite forallb_forall in H. apply H.
  apply in_map_iff. exists (Z.to_nat z). split; [lia|].
  apply in_seq. lia.
Qed.

(** ** Numeric codec *)

Lemma lor_escape_small (r : Z) :
  0 <= r < 128 -> Z.lor ESCAPE_BYTE r = 128 + r.
Proof.
  intros H.
  apply Z.eqb_eq.
  apply (forall_below (fun r => Z.lor ESCAPE_BYTE r =? 128 + r) 128);
    [vm_compute; reflexivity | lia].
Qed.

Lemma fillBigLength_app (mid pre post : list Z) :
  fillBigLength (length mid) (pre ++ mid ++ post) (len pre)
  = Ok (pre ++ repeat 255 (length mid) ++ post).
Proof.
  revert pre. induction mid as [|x mid IH]; intros pre.
  - reflexivity.
  - cbn [length fillBigLength app repeat].
    rewrite store_app. cbn [bind].
    replace (pre ++ Z.lor ESCAPE_BYTE LENGTH_BASE :: mid ++ post)
      with ((pre ++ [255]) ++ mid ++ post)
      by (rewrite <- app_assoc; reflexivity).
    replace (len pre + 1) with (len (pre ++ [255]))
      by (rewrite len_app; reflexivity).
    rewrite IH. rewrite <- app_assoc. reflexivity.
Qed.

Lemma decodeLength_loop_big (q : nat) (rest : list Z) (acc k : Z) :
  decodeLength_loop (repeat 255 q ++ rest) acc k
  = decodeLength_loop rest (acc + 127 * Z.of_nat q) (k + Z.of_nat q).
Proof.
  revert acc k. induction q as [|q IH]; intros acc k.
  - cbn [repeat app]. f_equal; lia.
  - cbn [repeat app decodeLength_loop].
    change (255 <? Z.lor ESCAPE_BYTE LENGTH_BASE) with false. cbv iota.
    rewrite IH. change (to_byte (255 - ESCAPE_BYTE)) with 127.
    f_equal; lia.
Qed.

Lemma decodeLength_loop_read (compressed : list Z) (acc k : Z) :
  k <= snd (decodeLength_loop compressed acc k) <= k + len compressed.
Proof.
  revert acc k. induction compressed as [|b rest IH]; intros acc k.
  - cbn. lia.
  - cbn [decodeLength_loop]. rewrite len_cons. pose proof (len_nonneg rest).
    destruct (b <? Z.lor ESCAPE_BYTE LENGTH_BASE).
    + cbn [snd]. lia.
    + specialize (IH (acc + to_byte (b - ESCAPE_BYTE)) (k + 1)). lia.
Qed.

(** C7.  Numeric codec round trip: for every [n >= 1], [encodeLength]
    writes at [offset] exactly [n / 127] bytes [0xFF] followed by the byte
    [0x80 | (n mod 127)], leaves the rest of [dst] as it was and returns
    [n / 127 + 1]; [decodeLength] on any slice that begins with these
    bytes returns [(n, n / 127 + 1)], whatever follows them; and
    [decodeLength] never reads more bytes than the slice has. *)
Theorem encodeLength_decodeLength_roundtrip
  (n : Z) (pre mid post rest : list Z) :
  1 <= n ->
  len mid = n / 127 + 1 ->
  encodeLength n (pre ++ mid ++ post) (len pre)
  = Ok (pre ++ repeat 255 (Z.to_nat (n / 127))
            ++ [Z.lor ESCAPE_BYTE (n mod 127)] ++ post,
        n / 127 + 1)
  /\ decodeLength (repeat 255 (Z.to_nat (n / 127))
                   ++ [Z.lor ESCAPE_BYTE (n mod 127)] ++ rest)
     = (n, n / 127 + 1)
  /\ (forall compressed : list Z,
        0 <= snd (decodeLength compressed) <= len compressed).
Proof.
  intros Hn Hmid.
  assert (Hq : 0 <= n / 127) by (apply Z.div_pos; lia).
  assert (Hr : 0 <= n mod 127 < 127) by (apply Z.mod_pos_bound; lia).
  assert (Hdiv : n = 127 * (n / 127) + n mod 127) by (apply Z.div_mod; lia).
  assert (Hquot : Z.quot n LENGTH_BASE = n / 127)
    by (apply Z.quot_div_nonneg; unfold LENGTH_BASE; lia).
  assert (Hrem : Z.rem n LENGTH_BASE = n mod 127)
    by (apply Z.rem_mod_nonneg; unfold LENGTH_BASE; lia).
  split; [|split].
  - unfold encodeLength.
    replace (n =? 0) with false by (symmetry; apply Z.eqb_neq; lia).
    rewrite Hquot, Hrem.
    destruct (n / 127 =? 0) eqn:E.
    + apply Z.eqb_eq in E. rewrite E in *.
      destruct mid as [|x [|y mid]];
        try (exfalso; unfold len in Hmid; cbn [length] in Hmid; lia).
      change ([x] ++ post) with (x :: post). rewrite store_app. cbn [bind Z.to_nat repeat app].
      unfold to_byte. rewrite (Z.mod_small n 256) by lia.
      replace (n mod 127) with n by lia. reflexivity.
    + apply Z.eqb_neq in E.
      assert (Hm : exists body x, mid = body ++ [x]
                                  /\ length body = Z.to_nat (n / 127)).
      { destruct (exists_last (l := mid)) as [body [x ->]].
        - intros ->. cbn in Hmid. lia.
        - exists body, x. split; [reflexivity|].
          rewrite len_app in Hmid. unfold len in Hmid. cbn in Hmid. lia. }
      destruct Hm as [body [x [-> Hbody]]].
      rewrite <- Hbody. rewrite <- (app_assoc body).
      rewrite fillBigLength_app. cbn [bind].
      replace (len pre + n / 127) with (len (pre ++ repeat 255 (length body)))
        by (rewrite len_app, len_repeat; lia).
      rewrite (app_assoc pre). cbn [app]. rewrite store_app. cbn [bind].
      unfold to_byte. rewrite (Z.mod_small (n mod 127) 256) by lia.
      rewrite <- app_assoc. reflexivity.
  - unfold decodeLength. rewrite decodeLength_loop_big.
    cbn [app decodeLength_loop].
    rewrite lor_escape_small by lia.
    change (Z.lor ESCAPE_BYTE LENGTH_BASE) with 255.
    replace (128 + n mod 127 <? 255) with true
      by (symmetry; apply Z.ltb_lt; lia).
    unfold to_byte, ESCAPE_BYTE.
    replace (128 + n mod 127 - 128) with (n mod 127) by lia.
    rewrite (Z.mod_small (n mod 127) 256) by lia.
    f_equal; lia.
  - intros compressed. unfold decodeLength.
    pose proof (decodeLength_loop_read compressed 0 0). lia.
Qed.

Lemma encodeLength_decodeLength_roundtrip_witness :
  encodeLength 300 ([7] ++ [0; 0; 0] ++ [9]) (len [7])
  = Ok ([7] ++ repeat 255 (Z.to_nat (300 / 127))
            ++ [Z.lor ESCAPE_BYTE (300 mod 127)] ++ [9],
        300 / 127 + 1)
  /\ decodeLength (repeat 255 (Z.to_nat (300 / 127))
                   ++ [Z.lor ESCAPE_BYTE (300 mod 127)] ++ [1; 2])
     = (300, 300 / 127 + 1)
  /\ (forall compressed : list Z,
        0 <= snd (decodeLength compressed) <= len compressed).
Proof.
  apply (encodeLength_decodeLength_roundtrip 300 [7] [0; 0; 0] [9] [1; 2]).
  - lia.
  - reflexivity.
Defined.

Lemma index_in_range {A : Type} (s : list A) (i : Z) :
  0 <= i < len s -> exists a, index s i = Ok a.
Proof.
  intros H. unfold index.
  destruct (Z.leb_spec 0 i); [|lia].
  destruct (nth_error s (Z.to_nat i)) eqn:E; [eauto|].
  apply nth_error_None in E. unfold len in H. lia.
Qed.

Lemma index_Ok_range {A : Type} (s : list A) (i : Z) (a : A) :
  index s i = Ok a -> 0 <= i < len s.
Proof.
  unfold index. destruct (Z.leb_spec 0 i); [|discriminate].
  destruct (nth_error s (Z.to_nat i)) eqn:E; [|discriminate].
  intros _. assert (Hn : nth_error s (Z.to_nat i) <> None) by congruence.
  apply nth_error_Some in Hn. unfold len. lia.
Qed.

Lemma index_skipn {A : Type} (s : list A) (i : Z) (a : A) :
  index s i = Ok a ->
  skipn (Z.to_nat i) s = a :: skipn (Z.to_nat (i + 1)) s.
Proof.
  unfold index. destruct (Z.leb_spec 0 i); [|discriminate].
  destruct (nth_error s (Z.to_nat i)) eqn:E; [|discriminate].
  intros Ha. injection Ha as ->.
  replace (Z.to_nat (i + 1)) with (S (Z.to_nat i)) by lia.
  revert E. generalize (Z.to_nat i). clear.
  induction s as [|x s IH]; intros [|n] E; cbn in E; try discriminate.
  - injection E as ->. reflexivity.
  - cbn [skipn]. rewrite (IH n E). reflexivity.
Qed.

(** ** Space search *)

Lemma scanSpace_bounds (buffer : list Z) (i : Z) :
  i <= scanSpace buffer i <= i + len buffer.
Proof.
  revert i. induction buffer as [|c rest IH]; intros i.
  - cbn. lia.
  - cbn [scanSpace]. rewrite len_cons. pose proof (len_nonneg rest).
    destruct (c =? SPACE); [lia|]. specialize (IH (i + 1)). lia.
Qed.

Lemma scanSpace_found (buffer : list Z) (i : Z) :
  scanSpace buffer i < i + len buffer -> In SPACE buffer.
Proof.
  revert i. induction buffer as [|c rest IH]; intros i.
  - cbn. lia.
  - cbn [scanSpace]. rewrite len_cons.
    destruct (Z.eqb_spec c SPACE) as [->|Hc]; [left; reflexivity|].
    intros H. right. apply (IH (i + 1)). lia.
Qed.

Lemma indexOfFirstSpace_Ok (i : Z) (buffer : list Z) :
  0 <= i ->
  exists j, indexOfFirstSpace i buffer = Ok j /\ i <= j.
Proof.
  intros H. unfold indexOfFirstSpace.
  destruct (Z.ltb_spec i 0); [lia|].
  eexists. split; [reflexivity|]. apply scanSpace_bounds.
Qed.

Lemma indexOfFirstSpace_inv (i j : Z) (buffer : list Z) :
  indexOfFirstSpace i buffer = Ok j -> 0 <= i <= j.
Proof.
  unfold indexOfFirstSpace. destruct (Z.ltb_spec i 0); [discriminate|].
  intros E. injection E as <-.
  pose proof (scanSpace_bounds (skipn (Z.to_nat i) buffer) i). lia.
Qed.

Lemma indexOfFirstSpace_advances (i j c : Z) (buffer : list Z) :
  indexOfFirstSpace i buffer = Ok j ->
  index buffer i = Ok c -> c <> SPACE -> i + 1 <= j.
Proof.
  unfold indexOfFirstSpace. destruct (Z.ltb_spec i 0); [discriminate|].
  intros E Hc Hne. injection E as <-.
  rewrite (index_skipn _ _ _ Hc). cbn [scanSpace].
  destruct (Z.eqb_spec c SPACE); [contradiction|].
  apply scanSpace_bounds.
Qed.

Lemma indexOfFirstSpace_found (j : Z) (buffer : list Z) :
  indexOfFirstSpace 0 buffer = Ok j -> j < len buffer -> In SPACE buffer.
Proof.
  unfold indexOfFirstSpace. cbn [Z.ltb Z.compare Z.to_nat skipn].
  intros E H. injection E as <-. apply (scanSpace_found buffer 0). lia.
Qed.

(** ** Similarity estimator *)

Lemma min3_bounds (a b c : Z) :
  min3 a b c <= a /\ min3 a b c <= b /\ min3 a b c <= c
  /\ (0 <= a -> 0 <= b -> 0 <= c -> 0 <= min3 a b c).
Proof.
  unfold min3. destruct (Z.ltb_spec a b);
    [destruct (Z.ltb_spec a c) | destruct (Z.ltb_spec b c)]; lia.
Qed.

Lemma limitSlice_len (s : list Z) (n : Z) :
  0 <= n <= len s -> len (limitSlice s n) = n.
Proof.
  intros H. unfold limitSlice. rewrite Z.gtb_ltb.
  destruct (Z.ltb_spec n (len s)); [apply len_firstn; lia | lia].
Qed.

Lemma limitSlice_incl (s : list Z) (n : Z) (x : Z) :
  In x (limitSlice s n) -> In x s.
Proof.
  unfold limitSlice. destruct (len s >? n); [|trivial].
  intros H. rewrite <- (firstn_skipn (Z.to_nat n) s). apply in_or_app. now left.
Qed.

Lemma commonPrefix_nonneg (refLine currLine : list Z) :
  0 <= commonPrefix refLine currLine.
Proof.
  revert currLine. induction refLine as [|r rs IH]; intros [|c cs];
    cbn [commonPrefix]; try lia.
  destruct (r =? c); [specialize (IH cs)|]; lia.
Qed.

Lemma similarity_loop_total (fuel : nat) (refLine currLine : list Z)
  (lenLimit idxRefLine idxCurrLine same score : Z) :
  len refLine = lenLimit -> len currLine = lenLimit ->
  0 <= idxRefLine -> 0 <= idxCurrLine ->
  (Z.to_nat (lenLimit - idxRefLine) + Z.to_nat (lenLimit - idxCurrLine) < fuel)%nat ->
  exists s, similarity_loop fuel refLine currLine lenLimit
              idxRefLine idxCurrLine same score = Ok s.
Proof.
  intros Hr Hc. revert idxRefLine idxCurrLine same score.
  induction fuel as [|fuel IH]; intros ir ic same score Hir Hic Hfuel; [lia|].
  cbn [similarity_loop].
  destruct (Z.ltb_spec ir lenLimit) as [Hir'|Hir']; cbn [andb]; [|eauto].
  destruct (Z.ltb_spec ic lenLimit) as [Hic'|Hic']; [|eauto].
  destruct (index_in_range currLine ic) as [c Ec]; [lia|].
  destruct (index_in_range refLine ir) as [r Er]; [lia|].
  rewrite Ec, Er. cbn [bind].
  destruct (Z.eqb_spec c r) as [Heq|Hne].
  - apply IH; lia.
  - destruct (indexOfFirstSpace_Ok ir refLine Hir) as [ir' [Eir Hir'']].
    destruct (indexOfFirstSpace_Ok ic currLine Hic) as [ic' [Eic Hic'']].
    rewrite Eir, Eic. cbn [bind].
    assert (Hadv : ir + 1 <= ir' \/ ic + 1 <= ic').
    { destruct (Z.eq_dec r SPACE) as [Hrs|Hrs].
      - right. apply (indexOfFirstSpace_advances ic ic' c currLine Eic Ec).
        congruence.
      - left. apply (indexOfFirstSpace_advances ir ir' r refLine Eir Er Hrs). }
    apply IH; lia.
Qed.

(** [estimateSimilarity] always returns; a negative prefix length is the
    opposite of an offset below [MAX_SIMILARITY], and then [currLine] holds
    a space. *)
Lemma estimateSimilarity_total (refLine currLine : list Z) :
  exists p s, estimateSimilarity refLine currLine = Ok (p, s)
    /\ (p < 0 -> 0 < - p < MAX_SIMILARITY /\ In SPACE currLine).
Proof.
  unfold estimateSimilarity.
  pose proof (min3_bounds (len refLine) (len currLine) MAX_SIMILARITY) as HL.
  pose proof (len_nonneg refLine). pose proof (len_nonneg currLine).
  set (L := min3 (len refLine) (len currLine) MAX_SIMILARITY) in *.
  assert (HL0 : 0 <= L) by (apply HL; unfold MAX_SIMILARITY; lia).
  assert (Hr : len (limitSlice refLine L) = L) by (apply limitSlice_len; lia).
  assert (Hc : len (limitSlice currLine L) = L) by (apply limitSlice_len; lia).
  set (ref' := limitSlice refLine L) in *.
  set (cur' := limitSlice currLine L) in *.
  pose proof (commonPrefix_nonneg ref' cur') as Hp.
  destruct (indexOfFirstSpace_Ok _ ref' Hp) as [ir [Eir Hir]].
  destruct (indexOfFirstSpace_Ok _ cur' Hp) as [ic [Eic Hic]].
  rewrite Eir, Eic. cbn [bind].
  destruct (similarity_loop_total (S (2 * Z.to_nat L)) ref' cur' L ir ic 0
              (commonPrefix ref' cur') Hr Hc) as [s Es]; try lia.
  rewrite Es. cbn [bind]. eexists. eexists. split; [reflexivity|].
  destruct (Z.eqb_spec (commonPrefix ref' cur') 0) as [E0|E0]; cbn [andb]; [|lia].
  destruct (Z.ltb_spec ir (len ref')); cbn [andb]; [|lia].
  destruct (Z.ltb_spec ic (len cur')); [|lia].
  intros Hneg. split; [lia|].
  apply (limitSlice_incl currLine L). fold cur'.
  rewrite E0 in Eic. apply (indexOfFirstSpace_found ic cur' Eic). lia.
Qed.

(** ** Backreference ring *)

Lemma succ_mod (w K : Z) :
  0 <= w < K -> (w + 1) mod K = if w + 1 <? K then w + 1 else 0.
Proof.
  intros H. destruct (Z.ltb_spec (w + 1) K).
  - apply Z.mod_small. lia.
  - replace (w + 1) with K by lia. apply Z_mod_same_full.
Qed.

Lemma go_rem_succ (w K : Z) :
  0 <= w < K -> go_rem (w + 1) K = Ok ((w + 1) mod K).
Proof.
  intros H. unfold go_rem. destruct (Z.eqb_spec K 0); [lia|].
  rewrite Z.rem_mod_nonneg by lia. reflexivity.
Qed.

Section Ring.

(** A ring of one of the capacities of [compressionLevelPresets], or of
    the decompressor. *)
Variable K : Z.
Hypothesis HK : 2 <= K <= MAX_BACKREFERENCE_CAPACITY.

Lemma add_fresh (l : list Z) :
  exists ls, add (newBackrefBuffer K) l = Ok (mkBackref 1 0 K ls)
    /\ len ls = MAX_BACKREFERENCE_CAPACITY
    /\ index ls 0 = Ok l.
Proof.
  unfold add, newBackrefBuffer.
  cbn [lines writeIdx capacity oldestLineIdx].
  pose proof (store_app (@nil (list Z)) (repeat [] 63) [] l) as Hs.
  change (store (repeat [] (Z.to_nat MAX_BACKREFERENCE_CAPACITY)) 0 l
          = Ok (l :: repeat [] 63)) in Hs.
  rewrite Hs. cbn [bind].
  rewrite (go_rem_succ 0 K) by lia. cbn [bind].
  rewrite succ_mod by lia. cbn [Z.add].
  destruct (Z.ltb_spec 1 K); [|lia]. cbn [Z.eqb].
  eexists. split; [reflexivity|]. split; [|reflexivity].
  rewrite len_cons, len_repeat. reflexivity.
Qed.

Lemma add_fresh_inv (l : list Z) :
  exists b, add (newBackrefBuffer K) l = Ok b /\ ring_inv K b.
Proof.
  destruct (add_fresh l) as [ls [E [Hl _]]].
  eexists. split; [exact E|].
  unfold ring_inv. cbn [capacity lines writeIdx oldestLineIdx].
  repeat split; lia.
Qed.

Lemma add_inv (backref : backrefBuffer) (l : list Z) :
  ring_inv K backref ->
  exists b, add backref l = Ok b /\ ring_inv K b.
Proof.
  intros [Hcap [Hlen [Hw Ho]]]. unfold add.
  destruct (store_in_range (lines backref) (writeIdx backref) l) as [ls Els];
    [lia|].
  rewrite Els. cbn [bind]. apply store_len in Els. destruct Els as [Els _].
  rewrite Hcap. rewrite go_rem_succ by lia. cbn [bind].
  pose proof (succ_mod (writeIdx backref) K Hw) as Hw'.
  assert (Hwr : 0 <= (writeIdx backref + 1) mod K < K)
    by (apply Z.mod_pos_bound; lia).
  destruct (Z.eqb_spec ((writeIdx backref + 1) mod K) (oldestLineIdx backref))
    as [Heq|Hne].
  - rewrite go_rem_succ by lia. cbn [bind].
    eexists. split; [reflexivity|].
    unfold ring_inv. cbn [capacity lines writeIdx oldestLineIdx].
    repeat split; try lia. right. rewrite <- Heq. reflexivity.
  - eexists. split; [reflexivity|].
    unfold ring_inv. cbn [capacity lines writeIdx oldestLineIdx].
    destruct (Z.ltb_spec (writeIdx backref + 1) K); repeat split; lia.
Qed.

Lemma addAll_inv (ls : list (list Z)) (backref : backrefBuffer) :
  ring_inv K backref ->
  exists b, addAll backref ls = Ok b /\ ring_inv K b.
Proof.
  revert backref. induction ls as [|l ls IH]; intros backref Hinv.
  - exists backref. split; [reflexivity | exact Hinv].
  - cbn [addAll]. destruct (add_inv backref l Hinv) as [b [E Hb]].
    rewrite E. cbn [bind]. apply IH. exact Hb.
Qed.

(** ** Key-line selector *)

Lemma slot_in_range (backref : backrefBuffer) (before : Z) :
  ring_inv K backref -> 1 <= before <= K - 1 ->
  0 <= slot backref before < K.
Proof.
  intros [Hcap [_ [Hw _]]] Hb. unfold slot. rewrite Hcap.
  destruct (Z.ltb_spec (writeIdx backref - before) 0); lia.
Qed.

(** The search meets the oldest slot before distance [K]. *)
Lemma slot_oldest (backref : backrefBuffer) :
  ring_inv K backref ->
  exists stop, 1 <= stop <= K - 1 /\ slot backref stop = oldestLineIdx backref.
Proof.
  intros [Hcap [_ [Hw Ho]]]. unfold slot. rewrite Hcap.
  destruct Ho as [[Ho Hw1]|Ho].
  - exists (writeIdx backref). split; [lia|].
    rewrite Z.sub_diag. cbn. congruence.
  - exists (K - 1). split; [lia|]. rewrite Ho, succ_mod by lia.
    destruct (Z.ltb_spec (writeIdx backref - (K - 1)) 0);
      destruct (Z.ltb_spec (writeIdx backref + 1) K); lia.
Qed.

(** From distance [before] on, the search ends at distance [stop] at the
    latest, and never keeps a distance above [K - 1]. *)
Lemma chooseReferenceLine_loop_range (backref : backrefBuffer)
  (compressedLine : list Z) (goodEnough : float32) (stop : Z) :
  ring_inv K backref ->
  1 <= stop <= K - 1 -> slot backref stop = oldestLineIdx backref ->
  forall (n fuel : nat) (before : Z) (lineRef : lineReference),
    1 <= before <= stop -> Z.to_nat (stop - before) = n -> (n < fuel)%nat ->
    1 <= linesBefore lineRef <= K - 1 ->
    exists lr,
      chooseReferenceLine_loop fuel backref compressedLine goodEnough
        before lineRef = Ok lr
      /\ 1 <= linesBefore lr <= K - 1.
Proof.
  intros Hinv Hstop Hslot.
  induction n as [|n IH]; intros fuel before lineRef Hb Hn Hfuel Hlr;
    (destruct fuel as [|fuel]; [lia|]);
    cbn [chooseReferenceLine_loop]; fold (slot backref before);
    (destruct (slot_in_range backref before Hinv) as [Hs0 Hs1]; [lia|]);
    (destruct (index_in_range (lines backref) (slot backref before))
      as [cand Ecand];
      [destruct Hinv as [_ [Hlen _]]; rewrite Hlen; lia|]);
    rewrite Ecand; cbn [bind];
    destruct (estimateSimilarity_total cand compressedLine) as [p [s [Es _]]];
    rewrite Es; cbn [bind];
    assert (Hbyte : to_byte before = before)
      by (unfold to_byte; apply Z.mod_small;
          unfold MAX_BACKREFERENCE_CAPACITY in HK; lia).
  - assert (before = stop) by lia. subst before. rewrite Hslot, Z.eqb_refl.
    destruct (s >? similarityScore lineRef).
    + destruct (float32_ge _ _); eexists; (split; [reflexivity|]);
        cbn [linesBefore]; lia.
    + eexists. split; [reflexivity | exact Hlr].
  - assert (Hnext : forall lr', 1 <= linesBefore lr' <= K - 1 ->
              exists lr,
                (if slot backref before =? oldestLineIdx backref
                 then Ok lr'
                 else chooseReferenceLine_loop fuel backref compressedLine
                        goodEnough (before + 1) lr') = Ok lr
                /\ 1 <= linesBefore lr <= K - 1).
    { intros lr' Hlr'.
      destruct (slot backref before =? oldestLineIdx backref).
      - eexists. split; [reflexivity | exact Hlr'].
      - apply IH; lia. }
    destruct (s >? similarityScore lineRef).
    + destruct (float32_ge _ _).
      * eexists. split; [reflexivity|]. cbn [linesBefore]. lia.
      * apply Hnext. cbn [linesBefore]. lia.
    + apply Hnext. exact Hlr.
Qed.

End Ring.

Lemma header_byte_unambiguous (before : Z) :
  1 <= before <= 63 ->
  let headerByte := to_byte (before + ESCAPE_BYTE) in
  let mask := Z.lxor 255 (Z.lor ESCAPE_BYTE NO_SHARED_PREFIX_FLAG) in
  headerByte = Z.lor before ESCAPE_BYTE
  /\ Z.land headerByte NO_SHARED_PREFIX_FLAG = 0
  /\ Z.land headerByte mask = before
  /\ Z.land (Z.lor headerByte NO_SHARED_PREFIX_FLAG) mask = before.
Proof.
  intros H.
  pose proof (forall_below
    (fun b =>
       (b =? 0)
       || ((to_byte (b + ESCAPE_BYTE) =? Z.lor b ESCAPE_BYTE)
           && (Z.land (to_byte (b + ESCAPE_BYTE)) NO_SHARED_PREFIX_FLAG =? 0)
           && (Z.land (to_byte (b + ESCAPE_BYTE))
                 (Z.lxor 255 (Z.lor ESCAPE_BYTE NO_SHARED_PREFIX_FLAG)) =? b)
           && (Z.land (Z.lor (to_byte (b + ESCAPE_BYTE)) NO_SHARED_PREFIX_FLAG)
                 (Z.lxor 255 (Z.lor ESCAPE_BYTE NO_SHARED_PREFIX_FLAG)) =? b)))
    64 eq_refl before) as Hall.
  cbv beta in Hall.
  destruct (Z.eqb_spec before 0); [lia|]. cbn [orb] in Hall.
  specialize (Hall ltac:(lia)).
  repeat (apply andb_prop in Hall; destruct Hall as [Hall ?]).
  cbv zeta. repeat split; apply Z.eqb_eq; assumption.
Qed.

(** C10.  On every ring reached from the fresh ring of capacity
    [K] in {2, 4, 8, 16, 32, 64} by one or more [add], [chooseReferenceLine]
    returns a line reference whose [linesBefore] is in [1, 63] (indeed at
    most [K - 1]: a full ring of 64 is never searched at distance 64).
    The header byte [linesBefore + 0x80] of [compressLine] then equals
    [linesBefore | 0x80], has bit [0x40] clear, and the decoder's mask
    recovers [linesBefore] from it with or without
    [NO_SHARED_PREFIX_FLAG]. *)
Theorem chooseReferenceLine_linesBefore_range
  (K : Z) (l : list Z) (ls : list (list Z)) (compressedLine : list Z)
  (factor : float32) :
  In K [2; 4; 8; 16; 32; 64] ->
  exists backref lineRef,
    addAll (newBackrefBuffer K) (l :: ls) = Ok backref
    /\ chooseReferenceLine backref compressedLine factor = Ok lineRef
    /\ 1 <= linesBefore lineRef <= 63
    /\ linesBefore lineRef <= K - 1
    /\ to_byte (linesBefore lineRef + ESCAPE_BYTE)
       = Z.lor (linesBefore lineRef) ESCAPE_BYTE
    /\ Z.land (to_byte (linesBefore lineRef + ESCAPE_BYTE))
         NO_SHARED_PREFIX_FLAG = 0
    /\ Z.land (to_byte (linesBefore lineRef + ESCAPE_BYTE))
         (Z.lxor 255 (Z.lor ESCAPE_BYTE NO_SHARED_PREFIX_FLAG))
       = linesBefore lineRef
    /\ Z.land (Z.lor (to_byte (linesBefore lineRef + ESCAPE_BYTE))
                 NO_SHARED_PREFIX_FLAG)
         (Z.lxor 255 (Z.lor ESCAPE_BYTE NO_SHARED_PREFIX_FLAG))
       = linesBefore lineRef.
Proof.
  intros HK.
  assert (HK' : 2 <= K <= MAX_BACKREFERENCE_CAPACITY).
  { unfold MAX_BACKREFERENCE_CAPACITY. cbn [In] in HK.
    repeat (destruct HK as [<-|HK]; [lia|]). contradiction. }
  cbn [addAll].
  destruct (add_fresh_inv K HK' l) as [b0 [E0 Hb0]]. rewrite E0. cbn [bind].
  destruct (addAll_inv K HK' ls b0 Hb0) as [backref [E Hinv]].
  destruct (slot_oldest K HK' backref Hinv) as [stop [Hstop Hslot]].
  unfold chooseReferenceLine.
  destruct (chooseReferenceLine_loop_range K HK' backref compressedLine
              (float32_mul factor
                 (float32_of_int (min2 (len compressedLine) MAX_SIMILARITY)))
              stop Hinv Hstop Hslot
              (Z.to_nat (stop - 1))
              (S (Z.to_nat (writeIdx backref + capacity backref)))
              1 (mkLineRef [] 1 0 0)) as [lr [Elr Hlr]];
    try (cbn [linesBefore]; lia).
  { destruct Hinv as [Hcap [_ [Hw _]]]. lia. }
  exists backref, lr. split; [exact E|]. split; [exact Elr|].
  unfold MAX_BACKREFERENCE_CAPACITY in HK'.
  assert (H63 : 1 <= linesBefore lr <= 63) by lia.
  pose proof (header_byte_unambiguous (linesBefore lr) H63) as Hh.
  cbv zeta in Hh. destruct Hh as [H1 [H2 [H3 H4]]].
  repeat split; try assumption; lia.
Qed.

Lemma chooseReferenceLine_linesBefore_range_witness :
  exists backref lineRef,
    addAll (newBackrefBuffer 2) ([97; 10] :: []) = Ok backref
    /\ chooseReferenceLine backref [97; 10] (float32_percent 80) = Ok lineRef
    /\ 1 <= linesBefore lineRef <= 63
    /\ linesBefore lineRef <= 2 - 1
    /\ to_byte (linesBefore lineRef + ESCAPE_BYTE)
       = Z.lor (linesBefore lineRef) ESCAPE_BYTE
    /\ Z.land (to_byte (linesBefore lineRef + ESCAPE_BYTE))
         NO_SHARED_PREFIX_FLAG = 0
    /\ Z.land (to_byte (linesBefore lineRef + ESCAPE_BYTE))
         (Z.lxor 255 (Z.lor ESCAPE_BYTE NO_SHARED_PREFIX_FLAG))
       = linesBefore lineRef
    /\ Z.land (Z.lor (to_byte (linesBefore lineRef + ESCAPE_BYTE))
                 NO_SHARED_PREFIX_FLAG)
         (Z.lxor 255 (Z.lor ESCAPE_BYTE NO_SHARED_PREFIX_FLAG))
       = linesBefore lineRef.
Proof.
  apply (chooseReferenceLine_linesBefore_range 2 [97; 10] [] [97; 10]
           (float32_percent 80)).
  cbn [In]. left. reflexivity.
Defined.

(** ** Sizes of what the quoter and the numeric codec write *)

Lemma quotedSize_app (s t : list Z) :
  quotedSize (s ++ t) = quotedSize s + quotedSize t.
Proof.
  induction s as [|c s IH]; cbn [app quotedSize]; [reflexivity | lia].
Qed.

Lemma quotedSize_bounds (s : list Z) : len s <= quotedSize s <= 2 * len s.
Proof.
  induction s as [|c s IH]; cbn [quotedSize].
  - cbn. lia.
  - rewrite len_cons. destruct (Z.land c ESCAPE_BYTE =? 0); lia.
Qed.

Lemma quotedSize_space (s : list Z) :
  In SPACE s -> quotedSize s <= 2 * len s - 1.
Proof.
  induction s as [|c s IH]; cbn [In quotedSize]; [contradiction|].
  rewrite len_cons. pose proof (quotedSize_bounds s) as Hb.
  intros [->|Hin].
  - change (Z.land SPACE ESCAPE_BYTE =? 0) with true. cbv iota. lia.
  - specialize (IH Hin). destruct (Z.land c ESCAPE_BYTE =? 0); lia.
Qed.

Lemma quote_loop_size (src dst d : list Z) (i esc esc' : Z) :
  quote_loop src dst i esc = Ok (d, esc') ->
  esc' + len src = esc + quotedSize src /\ len d = len dst.
Proof.
  revert dst i esc. induction src as [|c src IH]; intros dst i esc H;
    cbn [quote_loop] in H.
  - injection H as <- <-. cbn. lia.
  - cbn [quotedSize]. rewrite len_cons.
    destruct (Z.land c ESCAPE_BYTE =? 0).
    + bind_inv H as d1 E1. apply store_len in E1. apply IH in H. lia.
    + bind_inv H as d1 E1.
      bind_inv H as d2 E2. apply store_len in E1. apply store_len in E2.
      apply IH in H. lia.
Qed.

Lemma quote_size (dst src d : list Z) (w : Z) :
  quote dst src = Ok (d, w) -> w = quotedSize src /\ len d = len dst.
Proof.
  unfold quote.
  destruct (quote_loop src dst 0 0) as [[d1 esc]| |] eqn:E; try discriminate.
  cbn [bind]. intros H. injection H as <- <-.
  apply quote_loop_size in E. lia.
Qed.

(** [quoteSafely] either consumes the whole source or stops with less than
    two free bytes; both ways it writes at most two bytes per byte read. *)
Lemma quoteSafely_loop_size (n : Z) (src dst d : list Z) (i esc r w : Z) :
  quoteSafely_loop n src dst i esc = Ok (d, r, w) ->
  0 <= esc <= i -> n = i + len src ->
  len d = len dst /\ 0 <= r <= n /\ 0 <= w <= 2 * r
  /\ (r = n \/ len dst < w + 2).
Proof.
  revert dst i esc. induction src as [|c src IH]; intros dst i esc H Hesc Hn;
    cbn [quoteSafely_loop] in H.
  - injection H as <- <- <-. cbn in Hn. lia.
  - rewrite len_cons in Hn. pose proof (len_nonneg src).
    destruct (Z.land c ESCAPE_BYTE =? 0).
    + bind_inv H as d1 E1. apply store_len in E1.
      apply IH in H; [|lia|lia]. lia.
    + rewrite Z.gtb_ltb in H.
      destruct (Z.ltb_spec (len dst) (i + esc + 2)).
      * injection H as <- <- <-. lia.
      * bind_inv H as d1 E1.
        bind_inv H as d2 E2. apply store_len in E1. apply store_len in E2.
        apply IH in H; [|lia|lia]. lia.
Qed.

Lemma quoteSafely_size (dst src d : list Z) (r w : Z) :
  quoteSafely dst src = Ok (d, r, w) ->
  len d = len dst /\ 0 <= r <= len src /\ 0 <= w <= 2 * r
  /\ (r = len src \/ len dst < w + 2).
Proof.
  unfold quoteSafely. intros H.
  apply quoteSafely_loop_size in H; [exact H | lia | lia].
Qed.

Lemma fillBigLength_len (count : nat) (dst d : list Z) (pos : Z) :
  fillBigLength count dst pos = Ok d -> len d = len dst.
Proof.
  revert dst pos. induction count as [|k IH]; intros dst pos H;
    cbn [fillBigLength] in H.
  - now injection H as <-.
  - bind_inv H as d1 E. apply store_len in E. apply IH in H. lia.
Qed.

Lemma encodeLength_size (n : Z) (dst d : list Z) (offset w : Z) :
  encodeLength n dst offset = Ok (d, w) -> 0 <= n ->
  len d = len dst /\ 0 <= w <= n /\ (n < 254 -> w <= 2).
Proof.
  unfold encodeLength. intros H Hn.
  destruct (Z.eqb_spec n 0) as [->|Hn0].
  { injection H as <- <-. lia. }
  rewrite Z.quot_div_nonneg in H by (unfold LENGTH_BASE; lia).
  unfold LENGTH_BASE in H.
  destruct (Z.eqb_spec (n / 127) 0) as [Hq|Hq].
  - bind_inv H as d1 E. injection H as <- <-. apply store_len in E. lia.
  - bind_inv H as d1 E1.
    bind_inv H as d2 E2. injection H as <- <-.
    apply fillBigLength_len in E1. apply store_len in E2.
    assert (0 <= n / 127) by (apply Z.div_pos; lia).
    assert (n / 127 + 1 <= n)
      by (pose proof (Z.div_mod n 127); pose proof (Z.mod_pos_bound n 127); lia).
    assert (n < 254 -> n / 127 < 2) by (intros; apply Z.div_lt_upper_bound; lia).
    lia.
Qed.

(** ** Slices of a line *)

Lemma slice_Ok {A : Type} (s t : list A) (lo hi : Z) :
  slice s lo hi = Ok t ->
  0 <= lo <= hi /\ hi <= len s
  /\ t = firstn (Z.to_nat (hi - lo)) (skipn (Z.to_nat lo) s).
Proof.
  unfold slice.
  destruct (Z.leb_spec 0 lo); [|discriminate].
  destruct (Z.leb_spec lo hi); [|discriminate].
  destruct (Z.leb_spec hi (len s)); [|discriminate].
  cbn [andb]. intros Hs. injection Hs as <-.
  split; [lia|]. split; [lia | reflexivity].
Qed.

Lemma slice_from_Ok {A : Type} (s t : list A) (lo : Z) :
  slice_from s lo = Ok t ->
  0 <= lo <= len s /\ t = skipn (Z.to_nat lo) s.
Proof.
  unfold slice_from. intros H. apply slice_Ok in H.
  destruct H as [H1 [H2 ->]]. split; [lia|].
  apply firstn_all2. unfold len in *. rewrite length_skipn. lia.
Qed.

Lemma firstn_slice {A : Type} (s : list A) (lo hi : Z) :
  0 <= lo <= hi ->
  firstn (Z.to_nat hi) s
  = firstn (Z.to_nat lo) s
      ++ firstn (Z.to_nat (hi - lo)) (skipn (Z.to_nat lo) s).
Proof.
  intros H.
  rewrite <- (firstn_skipn (Z.to_nat lo) s) at 1.
  rewrite firstn_app.
  rewrite firstn_firstn.
  replace (Nat.min (Z.to_nat hi) (Z.to_nat lo)) with (Z.to_nat lo) by lia.
  f_equal.
  destruct (Nat.le_gt_cases (Z.to_nat lo) (length s)) as [Hl|Hl].
  - rewrite length_firstn.
    replace (Nat.min (Z.to_nat lo) (length s)) with (Z.to_nat lo) by lia.
    f_equal. lia.
  - rewrite skipn_all2 by lia. now rewrite !firstn_nil.
Qed.

Lemma firstn_index {A : Type} (s : list A) (i : Z) (a : A) :
  index s i = Ok a ->
  firstn (Z.to_nat (i + 1)) s = firstn (Z.to_nat i) s ++ [a].
Proof.
  intros H. pose proof (index_Ok_range _ _ _ H) as Hr.
  rewrite (firstn_slice s i (i + 1)) by lia. f_equal.
  rewrite (index_skipn _ _ _ H).
  replace (Z.to_nat (i + 1 - i)) with 1%nat by lia. reflexivity.
Qed.

(** ** Line compressor *)

Lemma compressLine_loop_monotone (fuel : nat) (keyLine currLine dst d : list Z)
  (ik ic same bw ic' same' bw' : Z) :
  compressLine_loop fuel keyLine currLine dst ik ic same bw
  = Ok (d, ic', same', bw') ->
  ic <= ic'.
Proof.
  revert dst ik ic same bw. induction fuel as [|fuel IH];
    intros dst ik ic same bw H; cbn [compressLine_loop] in H; [discriminate|].
  destruct ((ik <? len keyLine) && (ic <? len currLine)).
  2:{ injection H as <- <- <- <-. lia. }
  bind_inv H as c Ec.
  bind_inv H as k Ek.
  destruct (c =? k).
  - apply IH in H. lia.
  - bind_inv H as [d1 w1] E1.
    bind_inv H as ik' Eik.
    bind_inv H as inext Eic.
    bind_inv H as sub Esub.
    bind_inv H as token Etok.
    bind_inv H as [sub' w2] Eq.
    apply IH in H. apply indexOfFirstSpace_inv in Eic. lia.
Qed.

(** The cost invariant of the main loop: what is written, plus the
    pending matched length, never exceeds the quoted size of the part of
    [currLine] behind the cursor (plus the line header [hdr]). *)
Lemma compressLine_loop_cost (hdr : Z) (fuel : nat)
  (keyLine currLine dst d : list Z) (ik ic same bw ic' same' bw' : Z) :
  compressLine_loop fuel keyLine currLine dst ik ic same bw
  = Ok (d, ic', same', bw') ->
  0 <= ic -> 0 <= same ->
  bw + same <= hdr + quotedSize (firstn (Z.to_nat ic) currLine) ->
  0 <= same'
  /\ bw' + same' <= hdr + quotedSize (firstn (Z.to_nat ic') currLine).
Proof.
  revert dst ik ic same bw. induction fuel as [|fuel IH];
    intros dst ik ic same bw H Hic Hsame Hinv;
    cbn [compressLine_loop] in H; [discriminate|].
  destruct ((ik <? len keyLine) && (ic <? len currLine)).
  2:{ injection H as <- <- <- <-. lia. }
  bind_inv H as c Ec.
  bind_inv H as k Ek.
  destruct (c =? k).
  - apply IH in H; try lia.
    rewrite (firstn_index _ _ _ Ec), quotedSize_app.
    pose proof (quotedSize_bounds [c]) as Hc. rewrite len_cons in Hc.
    cbn [len length Z.of_nat] in Hc. lia.
  - bind_inv H as [d1 w1] E1.
    bind_inv H as ik' Eik.
    bind_inv H as inext Eic.
    bind_inv H as sub Esub.
    bind_inv H as token Etok.
    bind_inv H as [sub' w2] Eq.
    apply encodeLength_size in E1; [|lia].
    apply slice_Ok in Etok. destruct Etok as [Hlo [Hhi ->]].
    apply quote_size in Eq. destruct Eq as [-> _].
    apply IH in H; try lia.
    rewrite (firstn_slice currLine ic inext) by lia.
    rewrite quotedSize_app. lia.
Qed.

Lemma compressLine_cost (lineRef : lineReference) (currLine dst d : list Z)
  (w : Z) :
  compressLine lineRef currLine dst = Ok (d, w) ->
  (prefixLength lineRef < 0 -> - prefixLength lineRef < 254) ->
  w <= 1 + (if prefixLength lineRef <? 0 then 2 else 0) + quotedSize currLine.
Proof.
  unfold compressLine. intros H Hoff.
  bind_inv H as d0 E0.
  bind_inv H as [[[[d1 ik] ic] same] bw] Einit.
  bind_inv H as [[[d2 ic'] same'] bw'] Eloop.
  bind_inv H as [d3 w3] E3.
  bind_inv H as sub Esub.
  bind_inv H as tail Etail.
  bind_inv H as [sub' w4] Eq. injection H as <- <-.
  apply slice_from_Ok in Etail. destruct Etail as [Hic' ->].
  apply quote_size in Eq. destruct Eq as [-> _].
  pose proof (compressLine_loop_monotone _ _ _ _ _ _ _ _ _ _ _ _ Eloop) as Hmono.
  set (hdr := 1 + (if prefixLength lineRef <? 0 then 2 else 0)).
  assert (Hstart : 0 <= ic /\ 0 <= same
                   /\ bw + same <= hdr + quotedSize (firstn (Z.to_nat ic) currLine)).
  { subst hdr. destruct (Z.ltb_spec (prefixLength lineRef) 0) as [Hneg|Hpos].
    - bind_inv Einit as b0.
      bind_inv Einit as d0'.
      bind_inv Einit as [d0'' w0] Eoff.
      assert (Hic0 : ic = 0) by congruence.
      assert (Hsame0 : same = 0) by congruence.
      assert (Hbw : bw = 1 + w0) by congruence.
      rewrite Hic0, Hsame0, Hbw.
      apply encodeLength_size in Eoff; [|lia].
      cbn [Z.to_nat firstn quotedSize]. specialize (Hoff Hneg). lia.
    - assert (Hic0 : ic = prefixLength lineRef) by congruence.
      assert (Hsame0 : same = prefixLength lineRef) by congruence.
      assert (Hbw : bw = 1) by congruence.
      rewrite Hic0, Hsame0, Hbw.
      pose proof (quotedSize_bounds (firstn (Z.to_nat (prefixLength lineRef))
                                       currLine)) as Hq.
      rewrite len_firstn in Hq by lia. lia. }
  destruct Hstart as [Hic [Hsame Hinv]].
  destruct (compressLine_loop_cost hdr _ _ _ _ _ _ _ _ _ _ _ _ Eloop Hic Hsame Hinv)
    as [Hsame' Hcost].
  apply encodeLength_size in E3; [|lia].
  rewrite <- (firstn_skipn (Z.to_nat ic') currLine) at 2.
  rewrite quotedSize_app. lia.
Qed.

(** ** Key-line selector: negative prefix lengths *)

Lemma chooseReferenceLine_loop_prefix (fuel : nat) (backref : backrefBuffer)
  (compressedLine : list Z) (goodEnough : float32) (before : Z)
  (lineRef lr : lineReference) :
  chooseReferenceLine_loop fuel backref compressedLine goodEnough before lineRef
  = Ok lr ->
  (prefixLength lineRef < 0 ->
   0 < - prefixLength lineRef < MAX_SIMILARITY /\ In SPACE compressedLine) ->
  prefixLength lr < 0 ->
  0 < - prefixLength lr < MAX_SIMILARITY /\ In SPACE compressedLine.
Proof.
  revert before lineRef. induction fuel as [|fuel IH];
    intros before lineRef H Hlr; cbn [chooseReferenceLine_loop] in H;
    [discriminate|].
  fold (slot backref before) in H.
  bind_inv H as cand.
  destruct (estimateSimilarity_total cand compressedLine) as [p [s [Es Hp]]].
  rewrite Es in H. cbn [bind] in H.
  destruct (s >? similarityScore lineRef).
  - destruct (float32_ge _ _).
    + injection H as <-. exact Hp.
    + destruct (slot backref before =? oldestLineIdx backref).
      * injection H as <-. exact Hp.
      * exact (IH _ _ H Hp).
  - destruct (slot backref before =? oldestLineIdx backref).
    + injection H as <-. exact Hlr.
    + exact (IH _ _ H Hlr).
Qed.

(** ** Line splitter *)

Lemma newlines_nonneg (s : list Z) : 0 <= newlines s.
Proof. unfold newlines. lia. Qed.

Lemma newlines_app (s t : list Z) : newlines (s ++ t) = newlines s + newlines t.
Proof. unfold newlines. rewrite count_occ_app. lia. Qed.

Lemma newlines_In (s : list Z) : In NEWLINE s -> 1 <= newlines s.
Proof.
  intros H. unfold newlines.
  apply (count_occ_In Z.eq_dec) in H. lia.
Qed.

Lemma newlineIndex_Some (src : list Z) (i j : Z) :
  newlineIndex src i = Some j ->
  i <= j /\ In NEWLINE (firstn (Z.to_nat (j - i + 1)) src).
Proof.
  revert i. induction src as [|c rest IH]; intros i H; cbn [newlineIndex] in H;
    [discriminate|].
  destruct (Z.eqb_spec c NEWLINE) as [->|Hc].
  - injection H as <-. split; [lia|].
    replace (i - i + 1) with 1 by lia. left. reflexivity.
  - apply IH in H. destruct H as [Hij Hin]. split; [lia|].
    replace (Z.to_nat (j - i + 1)) with (S (Z.to_nat (j - (i + 1) + 1))) by lia.
    right. exact Hin.
Qed.

Lemma nextLine_split (src l r : list Z) :
  nextLine src = (l, r) ->
  src = l ++ r /\ (r <> [] -> 1 <= newlines l).
Proof.
  unfold nextLine. destruct (newlineIndex src 0) as [j|] eqn:E; intros H;
    injection H as <- <-.
  - split; [symmetry; apply firstn_skipn|]. intros _.
    apply newlineIndex_Some in E. destruct E as [_ Hin].
    replace (j - 0 + 1) with (j + 1) in Hin by lia.
    apply newlines_In. exact Hin.
  - split; [symmetry; apply app_nil_r|]. intros Hr. contradiction.
Qed.

(** ** The source of a chunk *)

Lemma firstn_limitSlice (s : list Z) (n limit : Z) :
  0 <= n <= len (limitSlice s limit) ->
  firstn (Z.to_nat n) (limitSlice s limit) = firstn (Z.to_nat n) s.
Proof.
  unfold limitSlice. rewrite Z.gtb_ltb.
  destruct (Z.ltb_spec limit (len s)) as [Hl|Hl]; [|reflexivity].
  intros Hn. rewrite firstn_firstn. f_equal.
  unfold len in *. rewrite length_firstn in Hn. lia.
Qed.

(** ** Compression parameters *)

Lemma getCompressionParameters_total (level : Z) :
  exists params,
    getCompressionParameters level = Ok params
    /\ 2 <= backreferenceCapacity params <= MAX_BACKREFERENCE_CAPACITY.
Proof.
  unfold getCompressionParameters.
  set (row := if level <? 0 then 0
              else if level =? 0 then COMPRESSION_LEVEL_DEFAULT
              else if level >? COMPRESSION_LEVEL_BEST then COMPRESSION_LEVEL_BEST
              else level).
  assert (Hrow : 0 <= row < 10).
  { subst row. unfold COMPRESSION_LEVEL_DEFAULT, COMPRESSION_LEVEL_BEST.
    rewrite Z.gtb_ltb.
    destruct (Z.ltb_spec level 0); [lia|].
    destruct (Z.eqb_spec level 0); [lia|].
    destruct (Z.ltb_spec 9 level); lia. }
  clearbody row.
  assert (Hall : forallb
            (fun r => match index compressionLevelPresets r with
                      | Ok p => (2 <=? backreferenceCapacity p)
                                && (backreferenceCapacity p <=? 64)
                      | _ => false
                      end)
            (map Z.of_nat (seq 0 10)) = true) by (vm_compute; reflexivity).
  pose proof (forall_below _ 10 Hall row ltac:(lia)) as Hr. cbv beta in Hr.
  destruct (index compressionLevelPresets row) as [p| |]; try discriminate.
  exists p. split; [reflexivity|].
  apply andb_prop in Hr. destruct Hr as [H1 H2].
  apply Z.leb_le in H1. apply Z.leb_le in H2.
  unfold MAX_BACKREFERENCE_CAPACITY. lia.
Qed.

(** ** The first line of a chunk *)

Lemma slice_in_range {A : Type} (s : list A) (lo hi : Z) :
  0 <= lo <= hi -> hi <= len s ->
  slice s lo hi = Ok (firstn (Z.to_nat (hi - lo)) (skipn (Z.to_nat lo) s)).
Proof.
  intros H1 H2. unfold slice.
  destruct (Z.leb_spec 0 lo); [|lia].
  destruct (Z.leb_spec lo hi); [|lia].
  destruct (Z.leb_spec hi (len s)); [|lia]. reflexivity.
Qed.

(** C6, amended.  When [Compress] starts a chunk, the one entry of the
    fresh ring is the whole first line that [nextLine] returns on the
    source cut to [MAX_CHUNK_SIZE] bytes, pushed before [quoteSafely] runs;
    it is the consumed prefix of [src] whenever [quoteSafely] consumes the
    line completely. *)
Theorem Compress_start_ring (dst src : list Z) (level : Z) (st : chunkState) :
  Compress_start dst src level = Ok st ->
  let firstLine := fst (nextLine (limitSlice src MAX_CHUNK_SIZE)) in
  writeIdx (cs_backref st) = 1
  /\ oldestLineIdx (cs_backref st) = 0
  /\ index (lines (cs_backref st)) 0 = Ok firstLine
  /\ getLineAt (cs_backref st) 1 = Ok firstLine
  /\ (cs_bytesRead st = len firstLine ->
      firstn (Z.to_nat (cs_bytesRead st)) src = firstLine).
Proof.
  unfold Compress_start. intros H.
  bind_inv H as header.
  bind_inv H as body.
  destruct (getCompressionParameters_total level) as [params [Ep HK]].
  rewrite Ep in H. cbn [bind] in H.
  destruct (nextLine (limitSlice src MAX_CHUNK_SIZE)) as [firstLine rest] eqn:En.
  destruct (add_fresh (backreferenceCapacity params) HK firstLine)
    as [ls [Ea [Hls Hl0]]].
  rewrite Ea in H. cbn [bind] in H.
  bind_inv H as [[window' r] w].
  bind_inv H as dst'. injection H as <-.
  cbn [cs_backref cs_bytesRead writeIdx oldestLineIdx lines fst].
  split; [reflexivity|]. split; [reflexivity|]. split; [exact Hl0|].
  split.
  - unfold getLineAt. cbn [capacity writeIdx lines].
    rewrite Z.gtb_ltb.
    destruct (Z.ltb_spec (backreferenceCapacity params) 1); [lia|].
    exact Hl0.
  - intros ->. apply nextLine_split in En. destruct En as [Hsplit _].
    rewrite <- (firstn_limitSlice src (len firstLine) MAX_CHUNK_SIZE).
    + rewrite Hsplit. rewrite to_nat_len.
      replace (length firstLine) with (length firstLine + 0)%nat at 1 by lia.
      rewrite firstn_app_2. cbn [firstn]. apply app_nil_r.
    + rewrite Hsplit, len_app.
      pose proof (len_nonneg firstLine). pose proof (len_nonneg rest). lia.
Qed.

Lemma Compress_start_ring_witness :
  exists st,
    Compress_start (repeat 0 8) [97; 10] 4 = Ok st
    /\ writeIdx (cs_backref st) = 1
    /\ oldestLineIdx (cs_backref st) = 0
    /\ index (lines (cs_backref st)) 0 = Ok [97; 10]
    /\ getLineAt (cs_backref st) 1 = Ok [97; 10]
    /\ (cs_bytesRead st = len [97; 10] ->
        firstn (Z.to_nat (cs_bytesRead st)) [97; 10] = [97; 10]).
Proof.
  destruct (Compress_start (repeat 0 8) [97; 10] 4) as [st| |] eqn:E;
    [|vm_compute in E; discriminate E|vm_compute in E; discriminate E].
  exists st. split; [reflexivity|].
  exact (Compress_start_ring (repeat 0 8) [97; 10] 4 st E).
Defined.

(** C6 fails as stated: with two bytes of room [quoteSafely] consumes
    one byte of the three-byte first line, and the ring holds all three. *)
Lemma Compress_start_ring_counterexample :
  exists st,
    Compress_start (repeat 0 6) [195; 169; 10] 4 = Ok st
    /\ cs_bytesRead st = 1
    /\ index (lines (cs_backref st)) 0 = Ok [195; 169; 10]
    /\ index (lines (cs_backref st)) 0
       <> Ok (firstn (Z.to_nat (cs_bytesRead st)) [195; 169; 10]).
Proof.
  vm_compute. eexists. split; [reflexivity|].
  split; [reflexivity|]. split; [reflexivity|]. discriminate.
Qed.

(** ** [quoteSafely] does not guard plain bytes *)

Lemma quoteSafely_loop_plain_overflow (n : Z) (m : nat) (dst : list Z)
  (i esc : Z) :
  0 <= i + esc <= len dst -> len dst < i + esc + Z.of_nat m ->
  quoteSafely_loop n (repeat 97 m) dst i esc = Panic.
Proof.
  revert dst i. induction m as [|m IH]; intros dst i Hpos Hover; [lia|].
  cbn [repeat quoteSafely_loop].
  change (Z.land 97 ESCAPE_BYTE =? 0) with true. cbv iota.
  destruct (Z.eq_dec (i + esc) (len dst)) as [Heq|Hne].
  - rewrite store_out_of_range by lia. reflexivity.
  - destruct (store_in_range dst (i + esc) 97) as [d Ed]; [lia|].
    rewrite Ed. cbn [bind]. apply store_len in Ed. destruct Ed as [Ed _].
    apply IH; lia.
Qed.

Lemma newlineIndex_repeat (m : nat) (i : Z) :
  newlineIndex (repeat 97 m) i = None.
Proof.
  revert i. induction m as [|m IH]; intros i; cbn [repeat newlineIndex];
    [reflexivity|].
  change (97 =? NEWLINE) with false. cbv iota. apply IH.
Qed.

(** One escaped byte followed by plain bytes up to the chunk size: the
    last plain byte is stored one past the end of the window. *)
Lemma Compress_long_first_line (dst : list Z) (m : nat) (level : Z) :
  len dst = DecompressBound -> Z.of_nat m = MAX_CHUNK_SIZE - 1 ->
  Compress dst (ESCAPE_BYTE :: repeat 97 m) level = Panic.
Proof.
  unfold DecompressBound, MAX_CHUNK_SIZE, HEADER_SIZE, SIZEOF_INT16.
  intros Hdst Hm.
  unfold Compress, Compress_start, slice_to, slice_from.
  rewrite (slice_in_range dst 0 HEADER_SIZE)
    by (unfold HEADER_SIZE, SIZEOF_INT16; lia).
  cbn [bind].
  rewrite (slice_in_range dst HEADER_SIZE (len dst))
    by (unfold HEADER_SIZE, SIZEOF_INT16; lia).
  cbn [bind].
  destruct (getCompressionParameters_total level) as [params [Ep HK]].
  rewrite Ep. cbn [bind].
  set (body := firstn (Z.to_nat (len dst - HEADER_SIZE))
                 (skipn (Z.to_nat HEADER_SIZE) dst)).
  assert (Hbody : len body = 65536).
  { subst body. unfold HEADER_SIZE, SIZEOF_INT16.
    unfold len in *. rewrite length_firstn, length_skipn. lia. }
  set (src := ESCAPE_BYTE :: repeat 97 m).
  assert (Hsrc : len src = 65536)
    by (subst src; rewrite len_cons, len_repeat; lia).
  assert (Hls : limitSlice src MAX_CHUNK_SIZE = src).
  { unfold limitSlice, MAX_CHUNK_SIZE. rewrite Hsrc. reflexivity. }
  assert (Hlb : limitSlice body MAX_CHUNK_SIZE = body).
  { unfold limitSlice, MAX_CHUNK_SIZE. rewrite Hbody. reflexivity. }
  rewrite Hls, Hlb.
  assert (Hnl : nextLine src = (src, [])).
  { unfold nextLine. subst src. cbn [newlineIndex].
    change (ESCAPE_BYTE =? NEWLINE) with false. cbv iota.
    rewrite newlineIndex_repeat. reflexivity. }
  rewrite Hnl.
  destruct (add_fresh (backreferenceCapacity params) HK src) as [ls [Ea _]].
  rewrite Ea. cbn [bind].
  assert (Hq : quoteSafely body src = Panic).
  { unfold quoteSafely. subst src. cbn [quoteSafely_loop].
    change (Z.land ESCAPE_BYTE ESCAPE_BYTE =? 0) with false. cbv iota.
    rewrite Z.gtb_ltb.
    destruct (Z.ltb_spec (len body) (0 + 0 + 2)); [lia|].
    destruct (store_in_range body (0 + 0) ESCAPE_BYTE) as [d1 E1]; [lia|].
    rewrite E1. cbn [bind]. apply store_len in E1. destruct E1 as [E1 _].
    destruct (store_in_range d1 (0 + (0 + 1)) ESCAPE_BYTE) as [d2 E2]; [lia|].
    rewrite E2. cbn [bind]. apply store_len in E2. destruct E2 as [E2 _].
    apply quoteSafely_loop_plain_overflow; lia. }
  rewrite Hq. reflexivity.
Qed.

(** C1.  The round trip fails on the 65536-byte sequence made of one
    byte [0x80] and 65535 bytes ['a']: given [DecompressBound()] bytes of
    destination, the first [Compress] panics in [quoteSafely], which stores
    the last plain byte at index 65536 of its 65536-byte window. *)
Theorem Compress_faults_on_long_first_line :
  Compress (repeat 0 (Z.to_nat DecompressBound))
    (ESCAPE_BYTE :: repeat 97 (Z.to_nat (MAX_CHUNK_SIZE - 1)))
    COMPRESSION_LEVEL_DEFAULT
  = Panic.
Proof.
  apply Compress_long_first_line.
  - rewrite len_repeat. apply Z2Nat.id. unfold DecompressBound. 
    unfold MAX_CHUNK_SIZE, HEADER_SIZE, SIZEOF_INT16. lia.
  - apply Z2Nat.id. unfold MAX_CHUNK_SIZE. lia.
Qed.

(** C5.  [quoteSafely] stores a plain byte (high bit clear) without
    checking that it fits: with no room left it panics, at the first byte
    or after an escaped pair, and so does [Compress] when [dst] holds the
    header only. *)
Theorem quoteSafely_faults_on_plain_byte :
  quoteSafely [] [65] = Panic
  /\ quoteSafely [0; 0] [195; 65] = Panic
  /\ Compress (repeat 0 4) [65] COMPRESSION_LEVEL_DEFAULT = Panic.
Proof.
  split; [|split]; vm_compute; reflexivity.
Qed.

(** C4.  [Compress] on an empty source returns [(0, 4)] and writes the
    header [FF FF FF FF], which [readHeader] reads as a chunk of 65536
    compressed and 65536 raw bytes. *)
Theorem Compress_empty_writes_header :
  Compress (repeat 0 8) [] COMPRESSION_LEVEL_DEFAULT
  = Ok ([255; 255; 255; 255; 0; 0; 0; 0], 0, 4)
  /\ readHeader [255; 255; 255; 255] = Ok (MAX_CHUNK_SIZE, MAX_CHUNK_SIZE).
Proof.
  split; vm_compute; reflexivity.
Qed.

(** C2.  A length token that copies past the declared raw size: the
    chunk declares 4 raw bytes, its first line ["ab\n"] fills 3 of them and
    the token [0x83] copies 3 more from that line.  [Decompress] panics on
    [dst[bytesWritten-1]] with [bytesWritten = 6]. *)
Theorem Decompress_faults_on_long_backreference :
  Decompress (repeat 0 10) [4; 0; 3; 0; 97; 98; 10; 129; 131] = Panic.
Proof.
  vm_compute. reflexivity.
Qed.

(** C3.  A corrupt second chunk: [decompressChunk] reports [-1] for it,
    and [Decompress] returns [(11, 1)], the [-1] added to the two bytes of
    the first chunk, because it tests the result of the first chunk
    again. *)
Theorem Decompress_ignores_later_corruption :
  decompressChunk [129] [0] = Ok ([0], -1)
  /\ Decompress (repeat 0 10) [1; 0; 1; 0; 97; 98; 0; 0; 0; 0; 129]
     = Ok ([97; 98; 0; 0; 0; 0; 0; 0; 0; 0], 11, 1).
Proof.
  split; vm_compute; reflexivity.
Qed.

(** ** Line reference at the start of a chunk *)

(** C9 fails as stated: a chunk may open with [0x80], the escape of a
    literal byte; it decodes to that byte. *)
Lemma Decompress_escape_first_counterexample :
  index [1; 0; 0; 0; 128; 195] HEADER_SIZE = Ok ESCAPE_BYTE
  /\ decompressChunk [128; 195] [0] = Ok ([195], 1)
  /\ Decompress (repeat 0 4) [1; 0; 0; 0; 128; 195] = Ok ([195; 0; 0; 0], 6, 1)
  /\ Decompress (repeat 0 4) [1; 0; 0; 0; 128; 195]
     <> Ok (repeat 0 4, CORRUPT_INPUT, 0).
Proof.
  split; [reflexivity|]. split; [vm_compute; reflexivity|].
  split; [vm_compute; reflexivity|]. vm_compute. discriminate.
Qed.

Lemma decompressChunk_line_reference_first (first : Z) (rest dst : list Z) :
  ESCAPE_BYTE < first -> decompressChunk (first :: rest) dst = Ok (dst, -1).
Proof.
  intros H. unfold decompressChunk. cbn [index Z.leb Z.compare Z.to_nat nth_error bind].
  rewrite Z.gtb_ltb. destruct (Z.ltb_spec ESCAPE_BYTE first); [reflexivity | lia].
Qed.

(** C9, amended.  For every chunk whose first payload byte is greater
    than [0x80], [decompressChunk] reports corruption; when that chunk is
    the first of the input, whole and with room for its declared raw size,
    [Decompress] returns [CORRUPT_INPUT] with zero bytes written and
    leaves [dst] as it was. *)
Theorem Decompress_line_reference_first
  (dst src : list Z) (chunkSize rawSize first : Z) :
  HEADER_SIZE <= len src ->
  readHeader src = Ok (chunkSize, rawSize) ->
  1 <= chunkSize <= len src - HEADER_SIZE ->
  0 <= rawSize <= len dst ->
  index src HEADER_SIZE = Ok first ->
  ESCAPE_BYTE < first ->
  (forall rest out, decompressChunk (first :: rest) out = Ok (out, -1))
  /\ Decompress dst src = Ok (dst, CORRUPT_INPUT, 0).
Proof.
  intros Hlen Hh Hc Hr Hf Hb.
  split; [intros rest out; apply decompressChunk_line_reference_first; exact Hb|].
  unfold Decompress.
  destruct (Z.ltb_spec (len src) HEADER_SIZE); [lia|].
  rewrite Hh. cbn [bind]. unfold slice_from, slice_to.
  assert (H4 : 0 <= HEADER_SIZE) by (unfold HEADER_SIZE, SIZEOF_INT16; lia).
  rewrite (slice_in_range src HEADER_SIZE (len src)) by lia. cbn [bind].
  set (payload := firstn (Z.to_nat (len src - HEADER_SIZE))
                    (skipn (Z.to_nat HEADER_SIZE) src)).
  assert (Hp : payload = skipn (Z.to_nat HEADER_SIZE) src).
  { subst payload. apply firstn_all2. rewrite length_skipn.
    unfold len in *. lia. }
  assert (Hpl : len payload = len src - HEADER_SIZE)
    by (rewrite Hp; apply len_skipn; lia).
  destruct (Z.ltb_spec (len payload) chunkSize); [lia|].
  destruct (Z.ltb_spec (len dst) rawSize); [lia|].
  rewrite (slice_in_range payload 0 chunkSize) by lia. cbn [bind].
  rewrite (slice_in_range dst 0 rawSize) by lia. cbn [bind].
  cbn [Z.to_nat skipn]. rewrite !Z.sub_0_r.
  rewrite Hp, (index_skipn _ _ _ Hf).
  replace (Z.to_nat chunkSize) with (S (Z.to_nat (chunkSize - 1))) by lia.
  cbn [firstn].
  rewrite decompressChunk_line_reference_first by exact Hb.
  cbn [bind]. change (-1 <? 0) with true. cbv iota.
  rewrite firstn_skipn. reflexivity.
Qed.

Lemma Decompress_line_reference_first_witness :
  (forall rest out, decompressChunk (129 :: rest) out = Ok (out, -1))
  /\ Decompress [0; 0; 0] [0; 0; 0; 0; 129] = Ok ([0; 0; 0], CORRUPT_INPUT, 0).
Proof.
  apply (Decompress_line_reference_first [0; 0; 0] [0; 0; 0; 0; 129] 1 1 129).
  - vm_compute. discriminate.
  - reflexivity.
  - vm_compute. split; discriminate.
  - vm_compute. split; discriminate.
  - reflexivity.
  - reflexivity.
Defined.

(** ** Writing into a buffer *)

Lemma overwrite_nil (dst : list Z) (pos : Z) : overwrite dst pos [] = dst.
Proof.
  unfold overwrite. rewrite len_nil, Z.add_0_r. cbn [app].
  apply firstn_skipn.
Qed.

Lemma overwrite_len (dst : list Z) (pos : Z) (bytes : list Z) :
  0 <= pos -> pos + len bytes <= len dst ->
  len (overwrite dst pos bytes) = len dst.
Proof.
  intros H0 H1. pose proof (len_nonneg bytes). unfold overwrite.
  rewrite !len_app, len_firstn, len_skipn by lia. lia.
Qed.

Lemma overwrite_app (dst : list Z) (pos : Z) (a b : list Z) :
  0 <= pos -> pos + len a + len b <= len dst ->
  overwrite (overwrite dst pos a) (pos + len a) b = overwrite dst pos (a ++ b).
Proof.
  intros H0 H1. pose proof (len_nonneg a). pose proof (len_nonneg b).
  unfold overwrite. rewrite len_app, <- !app_assoc.
  assert (Hf : length (firstn (Z.to_nat pos) dst) = Z.to_nat pos)
    by (rewrite length_firstn; unfold len in *; lia).
  rewrite firstn_app, Hf, firstn_firstn.
  replace (Nat.min (Z.to_nat (pos + len a)) (Z.to_nat pos))
    with (Z.to_nat pos) by lia.
  replace (Z.to_nat (pos + len a) - Z.to_nat pos)%nat with (length a)
    by (unfold len; lia).
  rewrite firstn_app, firstn_all, Nat.sub_diag. cbn [firstn]. rewrite app_nil_r.
  rewrite <- app_assoc. do 3 f_equal.
  rewrite skipn_app, Hf.
  rewrite (skipn_all2 (firstn _ dst)) by (rewrite Hf; lia). cbn [app].
  replace (Z.to_nat (pos + len a + len b) - Z.to_nat pos)%nat
    with (length a + length b)%nat by (unfold len; lia).
  rewrite skipn_app, (skipn_all2 a) by lia. cbn [app].
  replace (length a + length b - length a)%nat with (length b) by lia.
  rewrite skipn_skipn. f_equal. unfold len in *. lia.
Qed.

Lemma store_overwrite (dst : list Z) (i v : Z) :
  0 <= i < len dst -> store dst i v = Ok (overwrite dst i [v]).
Proof.
  intros H. unfold store, overwrite.
  destruct (Z.leb_spec 0 i); [|lia]. destruct (Z.ltb_spec i (len dst)); [|lia].
  reflexivity.
Qed.

Lemma store_Panic (dst : list Z) (i v : Z) :
  ~ (0 <= i < len dst) -> store dst i v = Panic.
Proof.
  intros H. unfold store.
  destruct (Z.leb_spec 0 i); destruct (Z.ltb_spec i (len dst));
    try reflexivity; lia.
Qed.

Lemma overwrite_firstn (dst : list Z) (pos : Z) (bytes : list Z) :
  0 <= pos <= len dst ->
  firstn (Z.to_nat pos) (overwrite dst pos bytes) = firstn (Z.to_nat pos) dst.
Proof.
  intros H. unfold overwrite.
  rewrite firstn_app, firstn_firstn, Nat.min_id.
  rewrite length_firstn.
  replace (Z.to_nat pos - Nat.min (Z.to_nat pos) (length dst))%nat with 0%nat
    by (unfold len in *; lia).
  cbn [firstn]. apply app_nil_r.
Qed.

Lemma overwrite_skipn (dst : list Z) (pos : Z) (bytes : list Z) :
  0 <= pos -> pos + len bytes <= len dst ->
  skipn (Z.to_nat (pos + len bytes)) (overwrite dst pos bytes)
  = skipn (Z.to_nat (pos + len bytes)) dst.
Proof.
  intros H0 H1. pose proof (len_nonneg bytes). unfold overwrite.
  rewrite app_assoc, skipn_app.
  rewrite skipn_all2
    by (rewrite length_app, length_firstn; unfold len in *; lia).
  cbn [app].
  replace (Z.to_nat (pos + len bytes)
           - length (firstn (Z.to_nat pos) dst ++ bytes))%nat with 0%nat
    by (rewrite length_app, length_firstn; unfold len in *; lia).
  reflexivity.
Qed.

(** The bytes written can be read back. *)
Lemma overwrite_slice (dst : list Z) (pos : Z) (bytes : list Z) :
  0 <= pos -> pos + len bytes <= len dst ->
  firstn (length bytes) (skipn (Z.to_nat pos) (overwrite dst pos bytes)) = bytes.
Proof.
  intros H0 H1. pose proof (len_nonneg bytes). unfold overwrite.
  rewrite skipn_app.
  rewrite skipn_all2 by (rewrite length_firstn; unfold len in *; lia).
  rewrite length_firstn.
  replace (Z.to_nat pos - Nat.min (Z.to_nat pos) (length dst))%nat with 0%nat
    by (unfold len in *; lia).
  cbn [app skipn].
  rewrite firstn_app, firstn_all, Nat.sub_diag. cbn [firstn]. apply app_nil_r.
Qed.

(** Writing at the start of a buffer that is the tail of another. *)
Lemma put_back_overwrite (dst : list Z) (pos : Z) (bytes : list Z) :
  0 <= pos <= len dst ->
  put_back dst pos (overwrite (skipn (Z.to_nat pos) dst) 0 bytes)
  = overwrite dst pos bytes.
Proof.
  intros H. unfold put_back, overwrite. cbn [Z.to_nat firstn app].
  rewrite skipn_skipn. do 3 f_equal. pose proof (len_nonneg bytes). lia.
Qed.

(** ** The quoter, as a function *)

Lemma quoted_len (src : list Z) : len (quoted src) = quotedSize src.
Proof.
  induction src as [|c src IH]; [reflexivity|].
  cbn [quoted quotedSize]. rewrite len_app, IH.
  destruct (Z.land c ESCAPE_BYTE =? 0); reflexivity.
Qed.

Lemma quoted_app (s t : list Z) : quoted (s ++ t) = quoted s ++ quoted t.
Proof.
  induction s as [|c s IH]; [reflexivity|].
  cbn [app quoted]. rewrite IH. apply app_assoc.
Qed.

(** Lengths of written buffers, then linear arithmetic. *)
Ltac len_lia :=
  repeat first
    [ rewrite overwrite_len by len_lia
    | rewrite quoted_len
    | rewrite len_app
    | rewrite len_cons
    | rewrite len_repeat
    | rewrite (@len_nil Z) ];
  lia.

Lemma quote_loop_writes (src dst : list Z) (i esc : Z) :
  0 <= i + esc -> i + esc + quotedSize src <= len dst ->
  quote_loop src dst i esc
  = Ok (overwrite dst (i + esc) (quoted src),
        esc + (quotedSize src - len src)).
Proof.
  revert dst i esc. induction src as [|c src IH]; intros dst i esc H0 H1.
  - cbn [quote_loop quoted quotedSize]. rewrite overwrite_nil.
    cbn [len length Z.of_nat]. do 2 f_equal. lia.
  - cbn [quote_loop quoted quotedSize] in *. rewrite len_cons.
    pose proof (quotedSize_bounds src) as Hq. pose proof (len_nonneg src).
    destruct (Z.land c ESCAPE_BYTE =? 0).
    + rewrite store_overwrite by lia. cbn [bind].
      rewrite IH by len_lia.
      replace (i + 1 + esc) with (i + esc + len [c]) by len_lia.
      rewrite overwrite_app by len_lia.
      do 2 f_equal. lia.
    + rewrite store_overwrite by lia. cbn [bind].
      rewrite store_overwrite
        by len_lia.
      cbn [bind].
      replace (i + (esc + 1)) with (i + esc + len [ESCAPE_BYTE]) by len_lia.
      rewrite overwrite_app by len_lia.
      rewrite IH by len_lia.
      replace (i + 1 + (esc + 1)) with (i + esc + len ([ESCAPE_BYTE] ++ [c]))
        by len_lia.
      rewrite overwrite_app by len_lia.
      do 2 f_equal. lia.
Qed.

Lemma quote_loop_overflow (src dst : list Z) (i esc : Z) :
  0 <= i + esc <= len dst -> len dst < i + esc + quotedSize src ->
  quote_loop src dst i esc = Panic.
Proof.
  revert dst i esc. induction src as [|c src IH]; intros dst i esc H0 H1.
  - cbn [quotedSize] in H1. lia.
  - cbn [quote_loop quotedSize] in *.
    destruct (Z.land c ESCAPE_BYTE =? 0).
    + destruct (Z.eq_dec (i + esc) (len dst)) as [Heq|Hne].
      * rewrite store_Panic by lia. reflexivity.
      * rewrite store_overwrite by lia. cbn [bind].
        apply IH; len_lia.
    + destruct (Z.eq_dec (i + esc) (len dst)) as [Heq|Hne].
      * rewrite store_Panic by lia. reflexivity.
      * rewrite store_overwrite by lia. cbn [bind].
        destruct (Z.eq_dec (i + esc + 1) (len dst)) as [Heq'|Hne'].
        -- rewrite store_Panic
             by len_lia.
           reflexivity.
        -- rewrite store_overwrite
             by len_lia.
           cbn [bind].
           apply IH; len_lia.
Qed.

Lemma quote_fits (dst src : list Z) :
  quotedSize src <= len dst ->
  quote dst src = Ok (overwrite dst 0 (quoted src), quotedSize src).
Proof.
  intros H. unfold quote. pose proof (quotedSize_bounds src).
  rewrite quote_loop_writes by lia. cbn [bind]. do 2 f_equal. lia.
Qed.

(** X1. [quote] as a function of its arguments: when [dst] has room for
    the quoted form of [src] (every byte with the high bit set preceded
    by [ESCAPE_BYTE]), the quoted form is written at the start of [dst],
    the rest of [dst] is kept and the quoted size is returned; when [dst]
    is shorter than the quoted form, the call panics. *)
Theorem quote_spec (dst src : list Z) :
  quote dst src
  = if quotedSize src <=? len dst
    then Ok (quoted src ++ skipn (Z.to_nat (quotedSize src)) dst, quotedSize src)
    else Panic.
Proof.
  destruct (Z.leb_spec (quotedSize src) (len dst)) as [H|H].
  - rewrite quote_fits by exact H. unfold overwrite.
    cbn [Z.to_nat firstn app]. rewrite quoted_len, Z.add_0_l. reflexivity.
  - unfold quote. pose proof (len_nonneg dst).
    rewrite quote_loop_overflow by lia. reflexivity.
Qed.

(** ** [quoteSafely], as a function *)

Lemma quoteSafely_loop_fits (n : Z) (src dst : list Z) (i esc : Z) :
  n = i + len src -> 0 <= i + esc -> i + esc + quotedSize src <= len dst ->
  quoteSafely_loop n src dst i esc
  = Ok (overwrite dst (i + esc) (quoted src), n,
        i + esc + quotedSize src).
Proof.
  revert dst i esc. induction src as [|c src IH]; intros dst i esc Hn H0 H1.
  - cbn [quoteSafely_loop quoted quotedSize]. rewrite overwrite_nil.
    rewrite (@len_nil Z) in Hn. do 2 f_equal. lia.
  - cbn [quoteSafely_loop quoted quotedSize] in *. rewrite len_cons in Hn.
    pose proof (quotedSize_bounds src) as Hq. pose proof (len_nonneg src).
    destruct (Z.land c ESCAPE_BYTE =? 0).
    + rewrite store_overwrite by lia. cbn [bind].
      rewrite IH by len_lia.
      replace (i + 1 + esc) with (i + esc + len [c]) by len_lia.
      rewrite overwrite_app by len_lia.
      do 2 f_equal. len_lia.
    + rewrite Z.gtb_ltb. destruct (Z.ltb_spec (len dst) (i + esc + 2)); [lia|].
      rewrite store_overwrite by lia. cbn [bind].
      rewrite store_overwrite by len_lia.
      cbn [bind].
      replace (i + (esc + 1)) with (i + esc + len [ESCAPE_BYTE]) by len_lia.
      rewrite overwrite_app by len_lia.
      rewrite IH by len_lia.
      replace (i + 1 + (esc + 1)) with (i + esc + len ([ESCAPE_BYTE] ++ [c]))
        by len_lia.
      rewrite overwrite_app by len_lia.
      do 2 f_equal. len_lia.
Qed.

Lemma quoteSafely_fits (dst src : list Z) :
  quotedSize src <= len dst ->
  quoteSafely dst src = Ok (overwrite dst 0 (quoted src), len src, quotedSize src).
Proof.
  intros H. unfold quoteSafely.
  rewrite quoteSafely_loop_fits by lia. reflexivity.
Qed.

Lemma firstn_succ_cons {A : Type} (c : A) (s : list A) (k : Z) :
  0 <= k -> firstn (Z.to_nat (k + 1)) (c :: s) = c :: firstn (Z.to_nat k) s.
Proof.
  intros H. replace (Z.to_nat (k + 1)) with (S (Z.to_nat k)) by lia. reflexivity.
Qed.

Lemma index_cons_succ {A : Type} (c : A) (s : list A) (k : Z) :
  0 <= k -> index (c :: s) (k + 1) = index s k.
Proof.
  intros H. unfold index.
  destruct (Z.leb_spec 0 (k + 1)); [|lia]. destruct (Z.leb_spec 0 k); [|lia].
  replace (Z.to_nat (k + 1)) with (S (Z.to_nat k)) by lia. reflexivity.
Qed.

Lemma quoteSafely_loop_returns (n : Z) (src dst d : list Z) (i esc r w : Z) :
  quoteSafely_loop n src dst i esc = Ok (d, r, w) ->
  n = i + len src -> 0 <= i + esc <= len dst ->
  exists k,
    0 <= k <= len src /\ r = i + k
    /\ w = i + esc + quotedSize (firstn (Z.to_nat k) src)
    /\ w <= len dst
    /\ d = overwrite dst (i + esc) (quoted (firstn (Z.to_nat k) src))
    /\ (k = len src
        \/ exists c, index src k = Ok c /\ Z.land c ESCAPE_BYTE <> 0
                     /\ len dst < w + 2).
Proof.
  revert dst i esc. induction src as [|c src IH]; intros dst i esc H Hn H0;
    cbn [quoteSafely_loop] in H.
  - injection H as <- <- <-. exists 0. rewrite (@len_nil Z) in *.
    cbn [Z.to_nat firstn quoted quotedSize]. rewrite overwrite_nil.
    split; [lia|]. split; [lia|]. split; [lia|]. split; [lia|].
    split; [reflexivity|]. left. reflexivity.
  - rewrite len_cons in *. pose proof (len_nonneg src) as Hs.
    destruct (Z.eqb_spec (Z.land c ESCAPE_BYTE) 0) as [Hc|Hc].
    + bind_inv H as d1 E1. pose proof (store_len _ _ _ _ E1) as [Hl Hi].
      rewrite store_overwrite in E1 by lia. injection E1 as <-.
      apply IH in H; [|lia|lia]. destruct H as [k [Hk [Hr [Hw [Hwl [Hd Hstop]]]]]].
      exists (k + 1). rewrite firstn_succ_cons by lia.
      cbn [quoted quotedSize]. destruct (Z.eqb_spec (Z.land c ESCAPE_BYTE) 0); [|lia].
      split; [lia|]. split; [lia|]. split; [lia|]. split; [lia|]. split.
      * rewrite Hd.
        replace (i + 1 + esc) with (i + esc + len [c]) by len_lia.
        apply overwrite_app; [lia|].
        rewrite quoted_len. cbn [len length Z.of_nat] in *. lia.
      * destruct Hstop as [->|[c' [Ec' Hc']]]; [left; lia|].
        right. exists c'. rewrite index_cons_succ by lia. split; [exact Ec'|].
        split; [apply Hc'|lia].
    + rewrite Z.gtb_ltb in H.
      destruct (Z.ltb_spec (len dst) (i + esc + 2)) as [Hfull|Hroom].
      * injection H as <- <- <-. exists 0.
        cbn [Z.to_nat firstn quoted quotedSize]. rewrite overwrite_nil.
        split; [lia|]. split; [lia|]. split; [lia|]. split; [lia|].
        split; [reflexivity|]. right. exists c. split; [reflexivity|].
        split; [exact Hc | lia].
      * bind_inv H as d1 E1. rewrite store_overwrite in E1 by lia.
        injection E1 as <-.
        bind_inv H as d2 E2. rewrite store_overwrite in E2 by len_lia.
        injection E2 as <-.
        replace (i + (esc + 1)) with (i + esc + len [ESCAPE_BYTE]) in H
          by len_lia.
        rewrite overwrite_app in H by len_lia.
        apply IH in H; [|lia|len_lia].
        destruct H as [k [Hk [Hr [Hw [Hwl [Hd Hstop]]]]]].
        rewrite overwrite_len in Hwl, Hstop by len_lia.
        exists (k + 1). rewrite firstn_succ_cons by lia.
        cbn [quoted quotedSize].
        destruct (Z.eqb_spec (Z.land c ESCAPE_BYTE) 0); [contradiction|].
        split; [lia|]. split; [lia|]. split; [lia|]. split; [lia|]. split.
        -- rewrite Hd.
           replace (i + 1 + (esc + 1))
             with (i + esc + len ([ESCAPE_BYTE] ++ [c])) by len_lia.
           apply overwrite_app; [lia|].
           rewrite quoted_len. cbn [len length Z.of_nat app] in *. lia.
        -- destruct Hstop as [->|[c' [Ec' Hc']]]; [left; lia|].
           right. exists c'. rewrite index_cons_succ by lia.
           split; [exact Ec'|]. split; [apply Hc'|lia].
Qed.

(** X2. Whenever [quoteSafely] returns, it has consumed a prefix of
    [src] of [bytesRead] bytes, written exactly the quoted form of that
    prefix at the start of [dst] ([bytesWritten] bytes, within [dst]) and
    kept the rest of [dst]; it stopped before the end of [src] only in
    front of a byte that needs an escape, with fewer than two bytes of
    room left. *)
Theorem quoteSafely_returns (dst src d : list Z) (bytesRead bytesWritten : Z) :
  quoteSafely dst src = Ok (d, bytesRead, bytesWritten) ->
  0 <= bytesRead <= len src
  /\ bytesWritten = quotedSize (firstn (Z.to_nat bytesRead) src)
  /\ bytesWritten <= len dst
  /\ d = quoted (firstn (Z.to_nat bytesRead) src)
         ++ skipn (Z.to_nat bytesWritten) dst
  /\ (bytesRead = len src
      \/ exists c, index src bytesRead = Ok c /\ Z.land c ESCAPE_BYTE <> 0
                   /\ len dst < bytesWritten + 2).
Proof.
  unfold quoteSafely. intros H. pose proof (len_nonneg dst).
  apply quoteSafely_loop_returns in H; [|lia|lia].
  destruct H as [k [Hk [Hr [Hw [Hwl [Hd Hstop]]]]]].
  cbn [Z.add] in Hr. subst bytesRead.
  split; [lia|]. split; [lia|]. split; [lia|]. split; [|exact Hstop].
  rewrite Hd. unfold overwrite. cbn [Z.to_nat firstn app Z.add].
  rewrite quoted_len. do 3 f_equal. lia.
Qed.

Lemma quoteSafely_returns_witness :
  quoteSafely [0; 0; 0] [97; 195; 169] = Ok ([97; 128; 195], 2, 3)
  /\ 0 <= 2 <= len [97; 195; 169]
  /\ 3 = quotedSize (firstn (Z.to_nat 2) [97; 195; 169])
  /\ 3 <= len [0; 0; 0]
  /\ [97; 128; 195] = quoted (firstn (Z.to_nat 2) [97; 195; 169])
                      ++ skipn (Z.to_nat 3) [0; 0; 0]
  /\ (2 = len [97; 195; 169]
      \/ exists c, index [97; 195; 169] 2 = Ok c /\ Z.land c ESCAPE_BYTE <> 0
                   /\ len [0; 0; 0] < 3 + 2).
Proof.
  split; [reflexivity|].
  apply (quoteSafely_returns [0; 0; 0] [97; 195; 169] [97; 128; 195] 2 3).
  reflexivity.
Defined.

(** ** The numeric codec, as a function *)

Lemma lengthCode_len (n : Z) :
  0 <= n -> len (lengthCode n) = if n =? 0 then 0 else n / 127 + 1.
Proof.
  intros H. unfold lengthCode. destruct (Z.eqb_spec n 0); [reflexivity|].
  rewrite len_app, len_repeat. cbn [len length Z.of_nat].
  assert (0 <= n / 127) by (apply Z.div_pos; lia). lia.
Qed.

Lemma lengthCode_len_bounds (n : Z) :
  0 <= n -> 0 <= len (lengthCode n) <= n /\ (n < 254 -> len (lengthCode n) <= 2)
  /\ (0 < n -> 1 <= len (lengthCode n)).
Proof.
  intros H. rewrite lengthCode_len by exact H.
  destruct (Z.eqb_spec n 0); [lia|].
  assert (0 <= n / 127) by (apply Z.div_pos; lia).
  pose proof (Z.div_mod n 127). pose proof (Z.mod_pos_bound n 127).
  assert (n < 254 -> n / 127 < 2) by (intros; apply Z.div_lt_upper_bound; lia).
  lia.
Qed.

Lemma fillBigLength_writes (count : nat) (dst : list Z) (pos : Z) :
  0 <= pos -> pos + Z.of_nat count <= len dst ->
  fillBigLength count dst pos = Ok (overwrite dst pos (repeat 255 count)).
Proof.
  revert dst pos. induction count as [|k IH]; intros dst pos H0 H1.
  - cbn [fillBigLength repeat]. now rewrite overwrite_nil.
  - cbn [fillBigLength repeat]. rewrite store_overwrite by lia. cbn [bind].
    rewrite IH by len_lia.
    change (Z.lor ESCAPE_BYTE LENGTH_BASE) with 255.
    replace (pos + 1) with (pos + len [255]) by len_lia.
    rewrite overwrite_app by len_lia. reflexivity.
Qed.

Lemma encodeLength_writes (n : Z) (dst : list Z) (offset : Z) :
  0 <= n -> 0 <= offset -> offset + len (lengthCode n) <= len dst ->
  encodeLength n dst offset
  = Ok (overwrite dst offset (lengthCode n), len (lengthCode n)).
Proof.
  intros Hn H0 H1. rewrite lengthCode_len in * by exact Hn.
  unfold encodeLength, lengthCode.
  destruct (Z.eqb_spec n 0) as [->|Hn0]; [now rewrite overwrite_nil|].
  assert (Hq : 0 <= n / 127) by (apply Z.div_pos; lia).
  assert (Hr : 0 <= n mod 127 < 127) by (apply Z.mod_pos_bound; lia).
  rewrite Z.quot_div_nonneg, Z.rem_mod_nonneg by (unfold LENGTH_BASE; lia).
  unfold LENGTH_BASE, to_byte.
  destruct (Z.eqb_spec (n / 127) 0) as [Hq0|Hq0].
  - rewrite store_overwrite by lia. cbn [bind]. rewrite Hq0.
    cbn [Z.to_nat repeat app].
    assert (n < 127) by (pose proof (Z.div_mod n 127); lia).
    rewrite (Z.mod_small n 256), (Z.mod_small n 127) by lia. reflexivity.
  - rewrite fillBigLength_writes by lia. cbn [bind].
    replace (offset + n / 127)
      with (offset + len (repeat 255 (Z.to_nat (n / 127))))
      by len_lia.
    rewrite store_overwrite by len_lia.
    cbn [bind]. rewrite overwrite_app by len_lia.
    rewrite (Z.mod_small (n mod 127) 256) by lia. reflexivity.
Qed.

Lemma decodeLength_lengthCode (n : Z) (rest : list Z) :
  0 < n -> decodeLength (lengthCode n ++ rest) = (n, len (lengthCode n)).
Proof.
  intros Hn. rewrite lengthCode_len by lia. unfold lengthCode.
  destruct (Z.eqb_spec n 0); [lia|].
  assert (Hq : 0 <= n / 127) by (apply Z.div_pos; lia).
  assert (Hr : 0 <= n mod 127 < 127) by (apply Z.mod_pos_bound; lia).
  pose proof (Z.div_mod n 127).
  unfold decodeLength. rewrite <- app_assoc, decodeLength_loop_big.
  cbn [app decodeLength_loop].
  rewrite lor_escape_small by lia.
  change (Z.lor ESCAPE_BYTE LENGTH_BASE) with 255.
  destruct (Z.ltb_spec (128 + n mod 127) 255); [|lia].
  unfold to_byte, ESCAPE_BYTE.
  replace (128 + n mod 127 - 128) with (n mod 127) by lia.
  rewrite (Z.mod_small (n mod 127) 256) by lia.
  f_equal; lia.
Qed.

(** The first byte of a length code marks it as one. *)
Lemma lengthCode_head (n : Z) (rest : list Z) :
  0 < n -> exists b tl, lengthCode n ++ rest = b :: tl /\ ESCAPE_BYTE < b.
Proof.
  intros Hn. unfold lengthCode. destruct (Z.eqb_spec n 0); [lia|].
  assert (Hq : 0 <= n / 127) by (apply Z.div_pos; lia).
  assert (Hr : 0 <= n mod 127 < 127) by (apply Z.mod_pos_bound; lia).
  pose proof (Z.div_mod n 127).
  destruct (Z.to_nat (n / 127)) as [|k] eqn:Ek.
  - cbn [repeat app]. eexists. eexists. split; [reflexivity|].
    rewrite lor_escape_small by lia. unfold ESCAPE_BYTE. 
    assert (n / 127 = 0) by lia. lia.
  - cbn [repeat app]. eexists. eexists. split; [reflexivity|].
    unfold ESCAPE_BYTE. lia.
Qed.

(** ** Chunk headers *)

Lemma PutUint16_writes (a b : Z) (rest : list Z) (v : Z) :
  PutUint16 (a :: b :: rest) v
  = Ok (to_byte v :: to_byte (Z.shiftr v 8) :: rest).
Proof.
  unfold PutUint16. cbn [index Z.leb Z.compare Z.to_nat Pos.to_nat
                         Pos.iter_op Nat.add nth_error bind].
  pose proof (store_app [] (b :: rest) a (to_byte v)) as Hs.
  change (store (a :: b :: rest) 0 (to_byte v)
          = Ok (to_byte v :: b :: rest)) in Hs.
  rewrite Hs. cbn [bind].
  exact (store_app [to_byte v] rest b (to_byte (Z.shiftr v 8))).
Qed.

Lemma Uint16_reads (a b : Z) (rest : list Z) :
  Uint16 (a :: b :: rest) = Ok (Z.lor a (Z.shiftl b 8)).
Proof. reflexivity. Qed.

Lemma uint16_bytes (v : Z) :
  0 <= v < 65536 ->
  Z.lor (to_byte v) (Z.shiftl (to_byte (Z.shiftr v 8)) 8) = v.
Proof.
  intros H. unfold to_byte.
  rewrite Z.shiftr_div_pow2, Z.shiftl_mul_pow2 by lia.
  change (2 ^ 8) with 256.
  assert (Hhi : 0 <= v / 256 < 256)
    by (split; [apply Z.div_pos; lia | apply Z.div_lt_upper_bound; lia]).
  rewrite (Z.mod_small (v / 256) 256) by lia.
  pose proof (Z.mod_pos_bound v 256 ltac:(lia)) as Hlo.
  rewrite <- Z.lxor_lor.
  - rewrite <- Z.add_nocarry_lxor.
    + pose proof (Z.div_mod v 256). lia.
    + apply Z.bits_inj'. intros n Hn. rewrite Z.land_spec, Z.bits_0.
      destruct (Z.ltb_spec n 8).
      * replace (v / 256 * 256) with (Z.shiftl (v / 256) 8)
          by (rewrite Z.shiftl_mul_pow2 by lia; reflexivity).
        rewrite Z.shiftl_spec_low by lia. apply andb_false_r.
      * rewrite (Z.bits_above_log2 (v mod 256) n); [reflexivity|lia|].
        destruct (Z.eq_dec (v mod 256) 0) as [->|Hnz]; [cbn; lia|].
        apply Z.log2_lt_pow2; [lia|].
        apply Z.lt_le_trans with (2 ^ 8); [change (2 ^ 8) with 256; lia|].
        apply Z.pow_le_mono_r; lia.
  - apply Z.bits_inj'. intros n Hn. rewrite Z.land_spec, Z.bits_0.
    destruct (Z.ltb_spec n 8).
    + replace (v / 256 * 256) with (Z.shiftl (v / 256) 8)
        by (rewrite Z.shiftl_mul_pow2 by lia; reflexivity).
      rewrite Z.shiftl_spec_low by lia. apply andb_false_r.
    + rewrite (Z.bits_above_log2 (v mod 256) n); [reflexivity|lia|].
      destruct (Z.eq_dec (v mod 256) 0) as [->|Hnz]; [cbn; lia|].
      apply Z.log2_lt_pow2; [lia|].
      apply Z.lt_le_trans with (2 ^ 8); [change (2 ^ 8) with 256; lia|].
      apply Z.pow_le_mono_r; lia.
Qed.

Lemma storeHeader_writes (h0 h1 h2 h3 : Z) (compressedSize rawSize : Z) :
  storeHeader [h0; h1; h2; h3] compressedSize rawSize
  = Ok [to_byte (uint16 (compressedSize - 1));
        to_byte (Z.shiftr (uint16 (compressedSize - 1)) 8);
        to_byte (uint16 (rawSize - 1));
        to_byte (Z.shiftr (uint16 (rawSize - 1)) 8)].
Proof.
  unfold storeHeader. rewrite PutUint16_writes. cbn [bind].
  unfold slice_from, SIZEOF_INT16.
  rewrite slice_in_range by (unfold len; cbn [length]; lia). cbn [bind].
  replace (Z.to_nat (len [to_byte (uint16 (compressedSize - 1));
                          to_byte (Z.shiftr (uint16 (compressedSize - 1)) 8);
                          h2; h3] - 2)) with 2%nat
    by (unfold len; cbn [length]; lia).
  change (Z.to_nat 2) with 2%nat. cbn [skipn firstn].
  rewrite PutUint16_writes. cbn [bind]. reflexivity.
Qed.

Lemma readHeader_reads (b0 b1 b2 b3 : Z) (payload : list Z) :
  readHeader (b0 :: b1 :: b2 :: b3 :: payload)
  = Ok (Z.lor b0 (Z.shiftl b1 8) + 1, Z.lor b2 (Z.shiftl b3 8) + 1).
Proof.
  unfold readHeader. rewrite Uint16_reads. cbn [bind].
  unfold slice_from, SIZEOF_INT16.
  rewrite slice_in_range by (rewrite !len_cons; pose proof (len_nonneg payload); lia).
  cbn [bind]. change (Z.to_nat 2) with 2%nat. cbn [skipn].
  rewrite firstn_all2 by (unfold len; cbn [length]; lia).
  rewrite Uint16_reads. reflexivity.
Qed.

Lemma header_roundtrip
  (header payload : list Z) (compressedSize rawSize : Z) :
  len header = HEADER_SIZE ->
  1 <= compressedSize <= MAX_CHUNK_SIZE ->
  1 <= rawSize <= MAX_CHUNK_SIZE ->
  exists stored,
    storeHeader header compressedSize rawSize = Ok stored
    /\ len stored = HEADER_SIZE
    /\ readHeader (stored ++ payload) = Ok (compressedSize, rawSize).
Proof.
  unfold HEADER_SIZE, SIZEOF_INT16, MAX_CHUNK_SIZE. intros Hh Hc Hr.
  destruct header as [|h0 [|h1 [|h2 [|h3 [|h4 header]]]]];
    try (exfalso; unfold len in Hh; cbn [length] in Hh; lia).
  rewrite storeHeader_writes. eexists. split; [reflexivity|].
  split; [reflexivity|]. cbn [app]. rewrite readHeader_reads.
  unfold uint16. rewrite !Z.mod_small by lia.
  rewrite !uint16_bytes by lia. do 2 f_equal; lia.
Qed.

(** X5. Chunk headers round-trip: for sizes between 1 and
    [MAX_CHUNK_SIZE], [storeHeader] fills the 4-byte header and
    [readHeader] gets both sizes back from the header followed by any
    payload (the sizes are stored minus one, so 65536 fits 16 bits). *)
Theorem storeHeader_readHeader_roundtrip
  (header payload : list Z) (compressedSize rawSize : Z) :
  len header = HEADER_SIZE ->
  1 <= compressedSize <= MAX_CHUNK_SIZE ->
  1 <= rawSize <= MAX_CHUNK_SIZE ->
  exists stored,
    storeHeader header compressedSize rawSize = Ok stored
    /\ len stored = HEADER_SIZE
    /\ readHeader (stored ++ payload) = Ok (compressedSize, rawSize).
Proof. exact (header_roundtrip header payload compressedSize rawSize). Qed.

Lemma storeHeader_readHeader_roundtrip_witness :
  exists stored,
    storeHeader [0; 0; 0; 0] 65536 300 = Ok stored
    /\ len stored = HEADER_SIZE
    /\ readHeader (stored ++ [1; 2; 3]) = Ok (65536, 300).
Proof.
  apply (storeHeader_readHeader_roundtrip [0; 0; 0; 0] [1; 2; 3] 65536 300).
  - reflexivity.
  - unfold MAX_CHUNK_SIZE. lia.
  - unfold MAX_CHUNK_SIZE. lia.
Defined.

(** ** The line splitter, as a function *)

Lemma newlineIndex_spec (src : list Z) (i : Z) :
  match newlineIndex src i with
  | Some j => exists body rest,
                src = body ++ NEWLINE :: rest /\ ~ In NEWLINE body
                /\ j = i + len body
  | None => ~ In NEWLINE src
  end.
Proof.
  revert i. induction src as [|c src IH]; intros i; cbn [newlineIndex].
  - intros [].
  - destruct (Z.eqb_spec c NEWLINE) as [->|Hc].
    + exists [], src. split; [reflexivity|]. split; [intros []|].
      rewrite (@len_nil Z). lia.
    + specialize (IH (i + 1)). destruct (newlineIndex src (i + 1)) as [j|].
      * destruct IH as [body [rest [-> [Hb ->]]]].
        exists (c :: body), rest. split; [reflexivity|]. split.
        -- intros [H|H]; [congruence | contradiction].
        -- rewrite len_cons. lia.
      * intros [H|H]; [congruence | contradiction].
Qed.

Lemma nextLine_shape (src : list Z) :
  src = fst (nextLine src) ++ snd (nextLine src)
  /\ ((exists body, fst (nextLine src) = body ++ [NEWLINE]
                    /\ ~ In NEWLINE body)
      \/ (fst (nextLine src) = src /\ snd (nextLine src) = []
          /\ ~ In NEWLINE src))
  /\ (fst (nextLine src) = [] -> src = []).
Proof.
  unfold nextLine. pose proof (newlineIndex_spec src 0) as H.
  destruct (newlineIndex src 0) as [j|]; cbn [fst snd].
  - destruct H as [body [rest [-> [Hb ->]]]].
    replace (Z.to_nat (0 + len body + 1)) with (length body + 1)%nat
      by (unfold len; lia).
    assert (Hf : firstn (length body + 1) (body ++ NEWLINE :: rest)
                 = body ++ [NEWLINE]).
    { rewrite firstn_app, firstn_all2 by lia.
      replace (length body + 1 - length body)%nat with 1%nat by lia.
      reflexivity. }
    rewrite Hf. split; [|split].
    + rewrite skipn_app, skipn_all2 by lia.
      replace (length body + 1 - length body)%nat with 1%nat by lia.
      cbn [skipn app]. rewrite <- app_assoc. reflexivity.
    + left. exists body. split; [reflexivity | exact Hb].
    + intros E. destruct body; discriminate E.
  - split; [symmetry; apply app_nil_r|]. split.
    + right. split; [reflexivity|]. split; [reflexivity | exact H].
    + trivial.
Qed.

(** X3. [nextLine] splits its argument in two: the line and the
    remainder concatenate to the source; the line ends with the first
    newline of the source and holds no other newline, or the source has
    no newline and the line is the whole source with an empty remainder;
    the line is empty only for an empty source. *)
Theorem nextLine_spec (src : list Z) :
  src = fst (nextLine src) ++ snd (nextLine src)
  /\ ((exists body, fst (nextLine src) = body ++ [NEWLINE]
                    /\ ~ In NEWLINE body)
      \/ (fst (nextLine src) = src /\ snd (nextLine src) = []
          /\ ~ In NEWLINE src))
  /\ (fst (nextLine src) = [] -> src = []).
Proof. exact (nextLine_shape src). Qed.

(** ** The space search, as a function *)

Lemma scanSpace_spec (buffer : list Z) (i : Z) :
  i <= scanSpace buffer i <= i + len buffer
  /\ ~ In SPACE (firstn (Z.to_nat (scanSpace buffer i - i)) buffer)
  /\ (scanSpace buffer i < i + len buffer ->
      index buffer (scanSpace buffer i - i) = Ok SPACE).
Proof.
  revert i. induction buffer as [|c rest IH]; intros i; cbn [scanSpace].
  - rewrite (@len_nil Z). split; [lia|]. split; [|lia].
    rewrite firstn_nil. intros [].
  - rewrite len_cons. pose proof (len_nonneg rest).
    destruct (Z.eqb_spec c SPACE) as [->|Hc].
    + split; [lia|]. rewrite Z.sub_diag. split; [intros []|]. reflexivity.
    + destruct (IH (i + 1)) as [Hb [Hn Hf]].
      split; [lia|].
      replace (scanSpace rest (i + 1) - i)
        with (scanSpace rest (i + 1) - (i + 1) + 1) by lia.
      rewrite firstn_succ_cons, index_cons_succ by lia.
      split.
      * intros [H'|H']; [congruence | contradiction].
      * intros Hlt. apply Hf. lia.
Qed.

Lemma index_skipn_shift {A : Type} (s : list A) (i k : Z) :
  0 <= i -> 0 <= k ->
  index (skipn (Z.to_nat i) s) k = index s (i + k).
Proof.
  intros Hi Hk. unfold index.
  destruct (Z.leb_spec 0 k); [|lia]. destruct (Z.leb_spec 0 (i + k)); [|lia].
  rewrite nth_error_skipn. replace (Z.to_nat (i + k))
    with (Z.to_nat i + Z.to_nat k)%nat by lia. reflexivity.
Qed.

Lemma indexOfFirstSpace_bounds (start j : Z) (buffer : list Z) :
  indexOfFirstSpace start buffer = Ok j -> start <= len buffer ->
  0 <= start <= j /\ j <= len buffer.
Proof.
  unfold indexOfFirstSpace. destruct (Z.ltb_spec start 0); [discriminate|].
  intros E Hs. injection E as <-.
  pose proof (scanSpace_spec (skipn (Z.to_nat start) buffer) start) as [Hb _].
  rewrite len_skipn in Hb by lia. lia.
Qed.

Lemma indexOfFirstSpace_at (start j : Z) (buffer : list Z) :
  indexOfFirstSpace start buffer = Ok j -> j < len buffer ->
  index buffer j = Ok SPACE.
Proof.
  unfold indexOfFirstSpace. destruct (Z.ltb_spec start 0); [discriminate|].
  intros E Hj. injection E as <-.
  pose proof (scanSpace_spec (skipn (Z.to_nat start) buffer) start)
    as [Hb [_ Hf]].
  set (j := scanSpace (skipn (Z.to_nat start) buffer) start) in *.
  destruct (Z.le_gt_cases start (len buffer)) as [Hs|Hs].
  - rewrite len_skipn in Hb, Hf by lia.
    rewrite index_skipn_shift in Hf by lia.
    replace (start + (j - start)) with j in Hf by lia. apply Hf. lia.
  - rewrite skipn_all2 in Hb by (unfold len in *; lia).
    rewrite (@len_nil Z) in Hb. lia.
Qed.

(** X4. [indexOfFirstSpace start buffer], for a [start] inside the
    buffer, returns the position of the first space at or after [start],
    or [len buffer] when there is none. *)
Theorem indexOfFirstSpace_spec (start : Z) (buffer : list Z) :
  0 <= start <= len buffer ->
  exists j,
    indexOfFirstSpace start buffer = Ok j
    /\ start <= j <= len buffer
    /\ (forall k, start <= k < j -> index buffer k <> Ok SPACE)
    /\ (j < len buffer -> index buffer j = Ok SPACE).
Proof.
  intros Hs. destruct (indexOfFirstSpace_Ok start buffer) as [j [E Hj]]; [lia|].
  exists j. split; [exact E|].
  pose proof (indexOfFirstSpace_bounds _ _ _ E ltac:(lia)) as Hb.
  split; [lia|]. split; [|apply (indexOfFirstSpace_at _ _ _ E)].
  intros k Hk Hsp.
  unfold indexOfFirstSpace in E. destruct (Z.ltb_spec start 0); [lia|].
  injection E as E.
  pose proof (scanSpace_spec (skipn (Z.to_nat start) buffer) start)
    as [_ [Hn _]].
  rewrite E in Hn. apply Hn.
  assert (Hsp' : index (skipn (Z.to_nat start) buffer) (k - start) = Ok SPACE).
  { rewrite index_skipn_shift by lia.
    replace (start + (k - start)) with k by lia. exact Hsp. }
  clear Hsp. rename Hsp' into Hsp.
  unfold index in Hsp. destruct (Z.leb_spec 0 (k - start)); [|lia].
  destruct (nth_error (skipn (Z.to_nat start) buffer) (Z.to_nat (k - start)))
    as [x|] eqn:Ex; [|discriminate].
  injection Hsp as ->.
  apply (nth_error_In (firstn (Z.to_nat (j - start))
                         (skipn (Z.to_nat start) buffer))
           (Z.to_nat (k - start))).
  rewrite nth_error_firstn.
  destruct (Nat.ltb_spec (Z.to_nat (k - start)) (Z.to_nat (j - start)));
    [exact Ex | lia].
Qed.

Lemma indexOfFirstSpace_spec_witness :
  exists j,
    indexOfFirstSpace 1 [32; 97; 98; 32; 99] = Ok j
    /\ 1 <= j <= len [32; 97; 98; 32; 99]
    /\ (forall k, 1 <= k < j -> index [32; 97; 98; 32; 99] k <> Ok SPACE)
    /\ (j < len [32; 97; 98; 32; 99] -> index [32; 97; 98; 32; 99] j = Ok SPACE).
Proof.
  apply (indexOfFirstSpace_spec 1 [32; 97; 98; 32; 99]).
  unfold len. cbn [length]. lia.
Defined.

(** ** What the ring holds *)

Lemma index_store_same {A : Type} (s s' : list A) (i : Z) (v : A) :
  store s i v = Ok s' -> index s' i = Ok v.
Proof.
  intros H. pose proof (store_len _ _ _ _ H) as [_ Hi].
  unfold store in H. destruct (Z.leb_spec 0 i); [|lia].
  destruct (Z.ltb_spec i (len s)); [|lia]. cbn [andb] in H.
  injection H as <-. unfold index. destruct (Z.leb_spec 0 i); [|lia].
  rewrite nth_error_app2 by (rewrite length_firstn; unfold len in *; lia).
  rewrite length_firstn.
  replace (Z.to_nat i - Nat.min (Z.to_nat i) (length s))%nat with 0%nat
    by (unfold len in *; lia).
  reflexivity.
Qed.

Lemma index_store_other {A : Type} (s s' : list A) (i j : Z) (v : A) :
  store s i v = Ok s' -> j <> i -> index s' j = index s j.
Proof.
  intros H Hne. pose proof (store_len _ _ _ _ H) as [_ Hi].
  unfold store in H. destruct (Z.leb_spec 0 i); [|lia].
  destruct (Z.ltb_spec i (len s)); [|lia]. cbn [andb] in H.
  injection H as <-. unfold index. destruct (Z.leb_spec 0 j); [|reflexivity].
  destruct (Z.ltb_spec j i).
  - rewrite nth_error_app1 by (rewrite length_firstn; unfold len in *; lia).
    rewrite nth_error_firstn.
    destruct (Nat.ltb_spec (Z.to_nat j) (Z.to_nat i)); [reflexivity | lia].
  - rewrite nth_error_app2 by (rewrite length_firstn; unfold len in *; lia).
    rewrite length_firstn.
    replace (Z.to_nat j - Nat.min (Z.to_nat i) (length s))%nat
      with (S (Z.to_nat j - Z.to_nat (i + 1)))
      by (unfold len in *; lia).
    cbn [nth_error]. rewrite nth_error_skipn.
    replace (Z.to_nat (i + 1) + (Z.to_nat j - Z.to_nat (i + 1)))%nat
      with (Z.to_nat j) by lia.
    reflexivity.
Qed.

Lemma recent_nil (i : Z) : recent [] i = [].
Proof.
  unfold recent. destruct ((1 <=? i) && (i <=? len (@nil (list Z))));
    [destruct (Z.to_nat _); reflexivity | reflexivity].
Qed.

Lemma recent_last (ls : list (list Z)) (l : list Z) :
  recent (ls ++ [l]) 1 = l.
Proof.
  unfold recent. rewrite len_app, len_cons, (@len_nil (list Z)).
  pose proof (len_nonneg ls).
  replace ((1 <=? 1) && (1 <=? len ls + (0 + 1))) with true
    by (symmetry; apply andb_true_intro; split; apply Z.leb_le; lia).
  replace (Z.to_nat (len ls + (0 + 1) - 1)) with (length ls)
    by (unfold len; lia).
  apply nth_middle.
Qed.

Lemma recent_older (ls : list (list Z)) (l : list Z) (i : Z) :
  2 <= i -> recent (ls ++ [l]) i = recent ls (i - 1).
Proof.
  intros Hi. unfold recent. rewrite len_app, len_cons, (@len_nil (list Z)).
  destruct (Z.leb_spec 1 i); [|lia]. destruct (Z.leb_spec 1 (i - 1)); [|lia].
  cbn [andb].
  destruct (Z.leb_spec i (len ls + (0 + 1)));
    destruct (Z.leb_spec (i - 1) (len ls)); try lia;
    [|reflexivity].
  rewrite app_nth1 by (unfold len in *; lia). f_equal. lia.
Qed.

Section RingContent.

Variable K : Z.
Hypothesis HK : 2 <= K <= MAX_BACKREFERENCE_CAPACITY.

Lemma ring_content_fresh : ring_content K (newBackrefBuffer K) [].
Proof.
  unfold ring_content, newBackrefBuffer, MAX_BACKREFERENCE_CAPACITY in *.
  cbn [capacity lines writeIdx]. rewrite len_repeat.
  split; [reflexivity|]. split; [reflexivity|]. split; [lia|].
  intros i Hi. rewrite recent_nil. unfold slot. cbn [writeIdx capacity].
  unfold index.
  destruct (Z.ltb_spec (0 - i) 0); [|lia].
  destruct (Z.leb_spec 0 (K + (0 - i))); [|lia].
  rewrite nth_error_repeat by lia. reflexivity.
Qed.

Lemma ring_content_add (backref : backrefBuffer) (ls : list (list Z))
  (l : list Z) :
  ring_content K backref ls ->
  exists b, add backref l = Ok b /\ ring_content K b (ls ++ [l]).
Proof.
  intros [Hcap [Hlen [Hw Hc]]]. unfold add.
  unfold MAX_BACKREFERENCE_CAPACITY in *.
  destruct (store_in_range (lines backref) (writeIdx backref) l) as [ls' Els];
    [lia|].
  rewrite Els. cbn [bind]. pose proof (store_len _ _ _ _ Els) as [Hlen' _].
  rewrite Hcap. rewrite go_rem_succ by lia. cbn [bind].
  pose proof (succ_mod (writeIdx backref) K Hw) as Hw'.
  assert (Hcontent : forall o,
            ring_content K (mkBackref ((writeIdx backref + 1) mod K) o K ls')
              (ls ++ [l])).
  { intros o. unfold ring_content. cbn [capacity lines writeIdx].
    split; [reflexivity|].
    split; [unfold MAX_BACKREFERENCE_CAPACITY; lia|].
    split; [destruct (Z.ltb_spec (writeIdx backref + 1) K); lia|].
    intros i Hi. unfold slot. cbn [writeIdx capacity].
    destruct (Z.eq_dec i 1) as [->|Hi1].
    - rewrite recent_last.
      replace (if (writeIdx backref + 1) mod K - 1 <? 0
               then K + ((writeIdx backref + 1) mod K - 1)
               else (writeIdx backref + 1) mod K - 1)
        with (writeIdx backref)
        by (rewrite Hw'; destruct (Z.ltb_spec (writeIdx backref + 1) K);
            [destruct (Z.ltb_spec (writeIdx backref + 1 - 1) 0); lia
            |destruct (Z.ltb_spec (0 - 1) 0); lia]).
      apply (index_store_same _ _ _ _ Els).
    - rewrite recent_older by lia.
      specialize (Hc (i - 1) ltac:(lia)). unfold slot in Hc. rewrite Hcap in Hc.
      rewrite <- Hc. 
      assert (Hslot : (if (writeIdx backref + 1) mod K - i <? 0
                       then K + ((writeIdx backref + 1) mod K - i)
                       else (writeIdx backref + 1) mod K - i)
                      = (if writeIdx backref - (i - 1) <? 0
                         then K + (writeIdx backref - (i - 1))
                         else writeIdx backref - (i - 1))
                      /\ (if writeIdx backref - (i - 1) <? 0
                          then K + (writeIdx backref - (i - 1))
                          else writeIdx backref - (i - 1))
                         <> writeIdx backref).
      { rewrite Hw'. destruct (Z.ltb_spec (writeIdx backref + 1) K);
          destruct (Z.ltb_spec (writeIdx backref - (i - 1)) 0);
          [destruct (Z.ltb_spec (writeIdx backref + 1 - i) 0)
          |destruct (Z.ltb_spec (writeIdx backref + 1 - i) 0)
          |destruct (Z.ltb_spec (0 - i) 0)
          |destruct (Z.ltb_spec (0 - i) 0)]; lia. }
      destruct Hslot as [-> Hne].
      apply (index_store_other _ _ _ _ _ Els Hne). }
  destruct ((writeIdx backref + 1) mod K =? oldestLineIdx backref).
  - unfold go_rem. destruct (Z.eqb_spec K 0) as [HK0|_]; [lia|].
    cbn [bind]. eexists. split; [reflexivity|]. apply Hcontent.
  - eexists. split; [reflexivity|]. apply Hcontent.
Qed.

Lemma ring_content_addAll (ls : list (list Z)) (backref : backrefBuffer)
  (before : list (list Z)) :
  ring_content K backref before ->
  exists b, addAll backref ls = Ok b /\ ring_content K b (before ++ ls).
Proof.
  revert backref before. induction ls as [|l ls IH]; intros backref before Hc.
  - exists backref. rewrite app_nil_r. split; [reflexivity | exact Hc].
  - cbn [addAll]. destruct (ring_content_add backref before l Hc) as [b [E Hb]].
    rewrite E. cbn [bind].
    destruct (IH b (before ++ [l]) Hb) as [b' [E' Hb']].
    exists b'. split; [exact E'|]. rewrite <- app_assoc in Hb'. exact Hb'.
Qed.

Lemma ring_content_getLineAt (backref : backrefBuffer) (ls : list (list Z))
  (i : Z) :
  ring_content K backref ls -> 1 <= i <= K ->
  getLineAt backref i = Ok (recent ls i).
Proof.
  intros [Hcap [_ [_ Hc]]] Hi. unfold getLineAt. rewrite Hcap, Z.gtb_ltb.
  destruct (Z.ltb_spec K i); [lia|].
  specialize (Hc i Hi). unfold slot in Hc. rewrite Hcap in Hc. exact Hc.
Qed.

End RingContent.

(** X6. The ring as a history: after pushing the lines [ls], in order,
    into a fresh ring of capacity [K] (2 to 64), [getLineAt backref i]
    is the [i]-th most recent line for every [i] from 1 to [K] (the nil
    slice when fewer than [i] lines were pushed), and a panic for
    [i > K]. *)
Theorem getLineAt_recent (K : Z) (ls : list (list Z)) :
  2 <= K <= MAX_BACKREFERENCE_CAPACITY ->
  exists backref,
    addAll (newBackrefBuffer K) ls = Ok backref
    /\ (forall i, 1 <= i <= K -> getLineAt backref i = Ok (recent ls i))
    /\ (forall i, K < i -> getLineAt backref i = Panic).
Proof.
  intros HK.
  destruct (ring_content_addAll K HK ls (newBackrefBuffer K) []
              (ring_content_fresh K HK)) as [b [E Hb]].
  exists b. split; [exact E|]. split.
  - intros i Hi. apply (ring_content_getLineAt K b ls i Hb Hi).
  - intros i Hi. unfold getLineAt. destruct Hb as [Hcap _]. rewrite Hcap.
    rewrite Z.gtb_ltb. destruct (Z.ltb_spec K i); [reflexivity | lia].
Qed.

Lemma getLineAt_recent_witness :
  exists backref,
    addAll (newBackrefBuffer 2) [[97; 10]; [98; 10]; [99; 10]] = Ok backref
    /\ (forall i, 1 <= i <= 2 ->
        getLineAt backref i = Ok (recent [[97; 10]; [98; 10]; [99; 10]] i))
    /\ (forall i, 2 < i -> getLineAt backref i = Panic).
Proof.
  apply (getLineAt_recent 2 [[97; 10]; [98; 10]; [99; 10]]).
  unfold MAX_BACKREFERENCE_CAPACITY. lia.
Defined.

(** ** The similarity estimator *)

Lemma commonPrefix_spec (refLine currLine : list Z) :
  0 <= commonPrefix refLine currLine
  /\ commonPrefix refLine currLine <= len refLine
  /\ commonPrefix refLine currLine <= len currLine
  /\ firstn (Z.to_nat (commonPrefix refLine currLine)) refLine
     = firstn (Z.to_nat (commonPrefix refLine currLine)) currLine.
Proof.
  revert currLine. induction refLine as [|r rs IH]; intros currLine;
    pose proof (len_nonneg currLine);
    [cbn [commonPrefix]; rewrite (@len_nil Z);
     repeat split; (lia || reflexivity)|].
  pose proof (len_nonneg rs).
  destruct currLine as [|c cs]; cbn [commonPrefix];
    [rewrite len_cons; repeat split; (lia || reflexivity)|].
  rewrite !len_cons in *.
  destruct (Z.eqb_spec r c) as [->|Hne].
  - destruct (IH cs) as [Ha [Hb [Hc Hd]]].
    repeat split; try lia.
    replace (1 + commonPrefix rs cs) with (commonPrefix rs cs + 1) by lia.
    rewrite !firstn_succ_cons by lia. now rewrite Hd.
  - repeat split; (lia || reflexivity).
Qed.

Lemma index_limitSlice (s : list Z) (limit i x : Z) :
  index (limitSlice s limit) i = Ok x -> index s i = Ok x.
Proof.
  unfold limitSlice. destruct (len s >? limit); [|trivial].
  unfold index. destruct (0 <=? i); [|discriminate].
  destruct (nth_error (firstn (Z.to_nat limit) s) (Z.to_nat i)) as [y|] eqn:E;
    [|discriminate].
  intros H. injection H as ->. rewrite nth_error_firstn in E.
  destruct (Nat.ltb (Z.to_nat i) (Z.to_nat limit)); [|discriminate].
  now rewrite E.
Qed.

Lemma similarity_loop_bound (fuel : nat) (refLine currLine : list Z)
  (lenLimit idxRefLine idxCurrLine same score s : Z) :
  len refLine = lenLimit -> len currLine = lenLimit ->
  similarity_loop fuel refLine currLine lenLimit idxRefLine idxCurrLine
    same score = Ok s ->
  0 <= same -> score + same <= idxRefLine <= lenLimit ->
  score + same <= idxCurrLine <= lenLimit ->
  score + same <= s <= lenLimit.
Proof.
  intros Hr Hc. revert idxRefLine idxCurrLine same score.
  induction fuel as [|fuel IH]; intros ir ic same score H Hs Hir Hic;
    [discriminate H|].
  cbn [similarity_loop] in H.
  destruct (Z.ltb_spec ir lenLimit) as [Hir'|Hir']; cbn [andb] in H;
    [|injection H as <-; lia].
  destruct (Z.ltb_spec ic lenLimit) as [Hic'|Hic'];
    [|injection H as <-; lia].
  bind_inv H as c. bind_inv H as r.
  destruct (c =? r).
  - pose proof (IH _ _ _ _ H). lia.
  - bind_inv H as ir' Eir. bind_inv H as ic' Eic.
    pose proof (indexOfFirstSpace_bounds _ _ _ Eir ltac:(lia)).
    pose proof (indexOfFirstSpace_bounds _ _ _ Eic ltac:(lia)).
    pose proof (IH _ _ _ _ H). lia.
Qed.

Lemma similarity_loop_idle (fuel : nat) (refLine currLine : list Z)
  (lenLimit idxRefLine idxCurrLine same score s : Z) :
  similarity_loop fuel refLine currLine lenLimit idxRefLine idxCurrLine
    same score = Ok s ->
  lenLimit <= idxRefLine \/ lenLimit <= idxCurrLine ->
  s = score + same.
Proof.
  destruct fuel as [|fuel]; [discriminate|]. cbn [similarity_loop].
  intros H Hout.
  destruct (Z.ltb_spec idxRefLine lenLimit); cbn [andb] in H;
    [|congruence].
  destruct (Z.ltb_spec idxCurrLine lenLimit); [lia | congruence].
Qed.

Lemma estimateSimilarity_facts (refLine currLine : list Z) :
  exists p s,
    estimateSimilarity refLine currLine = Ok (p, s)
    /\ 0 <= s <= min3 (len refLine) (len currLine) MAX_SIMILARITY
    /\ (0 <= p ->
        p <= s
        /\ firstn (Z.to_nat p) refLine = firstn (Z.to_nat p) currLine)
    /\ (p < 0 ->
        - p < min3 (len refLine) (len currLine) MAX_SIMILARITY
        /\ index refLine (- p) = Ok SPACE /\ In SPACE currLine)
    /\ (p = 0 -> 0 < s -> index refLine 0 = Ok SPACE).
Proof.
  destruct (estimateSimilarity_total refLine currLine) as [p [s [E _]]].
  exists p, s. split; [exact E|].
  unfold estimateSimilarity in E.
  pose proof (min3_bounds (len refLine) (len currLine) MAX_SIMILARITY) as HL.
  pose proof (len_nonneg refLine). pose proof (len_nonneg currLine).
  set (L := min3 (len refLine) (len currLine) MAX_SIMILARITY) in *.
  assert (HL0 : 0 <= L) by (apply HL; unfold MAX_SIMILARITY; lia).
  assert (Hr : len (limitSlice refLine L) = L) by (apply limitSlice_len; lia).
  assert (Hc : len (limitSlice currLine L) = L) by (apply limitSlice_len; lia).
  pose proof (firstn_limitSlice refLine) as Fr.
  pose proof (firstn_limitSlice currLine) as Fc.
  pose proof (index_limitSlice refLine L) as Ir.
  pose proof (limitSlice_incl currLine L) as Ic.
  set (ref' := limitSlice refLine L) in *.
  set (cur' := limitSlice currLine L) in *.
  destruct (commonPrefix_spec ref' cur') as [Hp0 [Hp1 [Hp2 Hp3]]].
  set (cp := commonPrefix ref' cur') in *.
  bind_inv E as ir Eir. bind_inv E as ic Eic. bind_inv E as s' Es.
  assert (p = (if (cp =? 0) && (ir <? len ref') && (ic <? len cur')
               then - ir else cp) /\ s' = s) as [Ep ->]
    by (split; congruence).
  clear E.
  pose proof (indexOfFirstSpace_bounds _ _ _ Eir ltac:(lia)) as Hir.
  pose proof (indexOfFirstSpace_bounds _ _ _ Eic ltac:(lia)) as Hic.
  pose proof (similarity_loop_bound _ _ _ _ _ _ _ _ _ Hr Hc Es) as Hs.
  specialize (Hs ltac:(lia) ltac:(lia) ltac:(lia)).
  split; [lia|].
  destruct (Z.eqb_spec cp 0) as [E0|E0]; cbn [andb] in Ep.
  - destruct (Z.ltb_spec ir (len ref')) as [Hlr|Hlr]; cbn [andb] in Ep.
    + destruct (Z.ltb_spec ic (len cur')) as [Hlc|Hlc].
      * (* both lines have a space within the limit *)
        assert (Hsp : index refLine ir = Ok SPACE).
        { apply Ir. apply (indexOfFirstSpace_at _ _ _ Eir Hlr). }
        assert (Hin : In SPACE currLine).
        { apply Ic. rewrite E0 in Eic.
          apply (indexOfFirstSpace_found ic cur' Eic Hlc). }
        subst p. split; [|split].
        -- intros Hge. assert (ir = 0) by lia. subst ir.
           split; [lia | reflexivity].
        -- intros Hlt. split; [lia|]. split; [|exact Hin].
           replace (- - ir) with ir by lia. exact Hsp.
        -- intros Hz _. assert (ir = 0) by lia. subst ir. exact Hsp.
      * subst p. rewrite E0.
        pose proof (similarity_loop_idle _ _ _ _ _ _ _ _ _ Es ltac:(lia)).
        split; [|split]; [intros _; split; [lia | reflexivity] | lia | lia].
    + subst p. rewrite E0.
      pose proof (similarity_loop_idle _ _ _ _ _ _ _ _ _ Es ltac:(lia)).
      split; [|split]; [intros _; split; [lia | reflexivity] | lia | lia].
  - subst p. split; [|split]; [|lia|lia].
    intros _. split; [lia|].
    rewrite <- (Fr cp L), <- (Fc cp L) by (fold ref'; fold cur'; lia).
    exact Hp3.
Qed.

(** X7. [estimateSimilarity] always returns; the score lies between 0 and
    the examined length (the shorter line, at most [MAX_SIMILARITY]); a
    prefix length [p >= 0] is at most the score and the two lines agree on
    their first [p] bytes; a negative one is the opposite of the offset of
    a space of [refLine] within the examined length, and then [currLine]
    holds a space too; a positive score with prefix length 0 means that
    [refLine] starts with a space. *)
Theorem estimateSimilarity_spec (refLine currLine : list Z) :
  exists p s,
    estimateSimilarity refLine currLine = Ok (p, s)
    /\ 0 <= s <= min3 (len refLine) (len currLine) MAX_SIMILARITY
    /\ (0 <= p ->
        p <= s
        /\ firstn (Z.to_nat p) refLine = firstn (Z.to_nat p) currLine)
    /\ (p < 0 ->
        - p < min3 (len refLine) (len currLine) MAX_SIMILARITY
        /\ index refLine (- p) = Ok SPACE /\ In SPACE currLine)
    /\ (p = 0 -> 0 < s -> index refLine 0 = Ok SPACE).
Proof. exact (estimateSimilarity_facts refLine currLine). Qed.

(** ** The key-line selector *)

Section Selector.

Variable K : Z.
Hypothesis HK : 2 <= K <= MAX_BACKREFERENCE_CAPACITY.

Lemma getLineAt_slot (backref : backrefBuffer) (before : Z) :
  ring_inv K backref -> before <= K ->
  getLineAt backref before = index (lines backref) (slot backref before).
Proof.
  intros [Hcap _] Hb. unfold getLineAt, slot. rewrite Z.gtb_ltb.
  destruct (Z.ltb_spec (capacity backref) before); [lia | reflexivity].
Qed.

Lemma chooseReferenceLine_loop_sound (backref : backrefBuffer)
  (compressedLine : list Z) (goodEnough : float32) (stop : Z) :
  ring_inv K backref ->
  1 <= stop <= K - 1 -> slot backref stop = oldestLineIdx backref ->
  forall (n fuel : nat) (before : Z) (lineRef : lineReference),
    1 <= before <= stop -> Z.to_nat (stop - before) = n -> (n < fuel)%nat ->
    0 <= similarityScore lineRef ->
    sound_reference backref compressedLine lineRef ->
    exists lr,
      chooseReferenceLine_loop fuel backref compressedLine goodEnough
        before lineRef = Ok lr
      /\ 0 <= similarityScore lr
      /\ sound_reference backref compressedLine lr.
Proof.
  intros Hinv Hstop Hslot.
  assert (Hcap : capacity backref = K) by apply Hinv.
  induction n as [|n IH]; intros fuel before lineRef Hb Hn Hfuel Hsc Hlr;
    (destruct fuel as [|fuel]; [lia|]);
    cbn [chooseReferenceLine_loop]; fold (slot backref before);
    (destruct (slot_in_range K backref before Hinv) as [Hs0 Hs1]; [lia|]);
    (destruct (index_in_range (lines backref) (slot backref before))
      as [cand Ecand];
      [destruct Hinv as [_ [Hlen _]]; rewrite Hlen; lia|]);
    rewrite Ecand; cbn [bind];
    destruct (estimateSimilarity_total cand compressedLine) as [p [s [Es _]]];
    rewrite Es; cbn [bind];
    assert (Hbyte : to_byte before = before)
      by (unfold to_byte; apply Z.mod_small;
          unfold MAX_BACKREFERENCE_CAPACITY in HK; lia);
    assert (Hnew : s > similarityScore lineRef ->
              0 <= similarityScore (mkLineRef cand (to_byte before) p s)
              /\ sound_reference backref compressedLine
                   (mkLineRef cand (to_byte before) p s))
      by (intros Hgt; cbn [similarityScore]; split; [lia|]; right;
          cbn [linesBefore line prefixLength similarityScore];
          rewrite Hbyte, Hcap;
          rewrite (getLineAt_slot backref before Hinv) by lia;
          repeat split; (lia || assumption)).
  - assert (before = stop) by lia. subst before. rewrite Hslot, Z.eqb_refl.
    destruct (Z.gtb_spec s (similarityScore lineRef)) as [Hgt|Hle].
    + destruct (float32_ge _ _); eexists; (split; [reflexivity|]);
        apply Hnew; lia.
    + eexists. split; [reflexivity|]. split; assumption.
  - assert (Hnext : forall lr', 0 <= similarityScore lr' ->
              sound_reference backref compressedLine lr' ->
              exists lr,
                (if slot backref before =? oldestLineIdx backref
                 then Ok lr'
                 else chooseReferenceLine_loop fuel backref compressedLine
                        goodEnough (before + 1) lr') = Ok lr
                /\ 0 <= similarityScore lr
                /\ sound_reference backref compressedLine lr).
    { intros lr' Hsc' Hlr'.
      destruct (slot backref before =? oldestLineIdx backref).
      - eexists. split; [reflexivity|]. split; assumption.
      - apply IH; (lia || assumption). }
    destruct (Z.gtb_spec s (similarityScore lineRef)) as [Hgt|Hle].
    + destruct (float32_ge _ _).
      * eexists. split; [reflexivity|]. apply Hnew; lia.
      * apply Hnext; apply Hnew; lia.
    + apply Hnext; assumption.
Qed.

Lemma chooseReferenceLine_returns (backref : backrefBuffer)
  (compressedLine : list Z) (factor : float32) :
  ring_inv K backref ->
  exists lr,
    chooseReferenceLine backref compressedLine factor = Ok lr
    /\ sound_reference backref compressedLine lr.
Proof.
  intros Hinv.
  destruct (slot_oldest K HK backref Hinv) as [stop [Hstop Hslot]].
  unfold chooseReferenceLine.
  destruct (chooseReferenceLine_loop_sound backref compressedLine
              (float32_mul factor
                 (float32_of_int (min2 (len compressedLine) MAX_SIMILARITY)))
              stop Hinv Hstop Hslot
              (Z.to_nat (stop - 1))
              (S (Z.to_nat (writeIdx backref + capacity backref)))
              1 (mkLineRef [] 1 0 0)) as [lr [Elr [_ Hlr]]];
    try (cbn [similarityScore]; lia).
  { destruct Hinv as [Hcap [_ [Hw _]]]. lia. }
  { left. reflexivity. }
  exists lr. split; assumption.
Qed.

End Selector.

(** X8. On a ring that holds one or more lines, of a capacity [K] from 2
    to 64, [chooseReferenceLine] returns, and what it returns is sound:
    either the initial reference (no key line, [linesBefore] 1, prefix
    length and score 0), or a reference to one of the last [K - 1] lines,
    namely the line that [getLineAt] gives for its [linesBefore], with
    the prefix length and the positive score that [estimateSimilarity]
    computes for that line and the current one. *)
Theorem chooseReferenceLine_sound
  (K : Z) (l : list Z) (ls : list (list Z)) (compressedLine : list Z)
  (factor : float32) :
  2 <= K <= MAX_BACKREFERENCE_CAPACITY ->
  exists backref lineRef,
    addAll (newBackrefBuffer K) (l :: ls) = Ok backref
    /\ chooseReferenceLine backref compressedLine factor = Ok lineRef
    /\ (lineRef = mkLineRef [] 1 0 0
        \/ (1 <= linesBefore lineRef <= K - 1
            /\ line lineRef = recent (l :: ls) (linesBefore lineRef)
            /\ getLineAt backref (linesBefore lineRef) = Ok (line lineRef)
            /\ estimateSimilarity (line lineRef) compressedLine
               = Ok (prefixLength lineRef, similarityScore lineRef)
            /\ 0 < similarityScore lineRef)).
Proof.
  intros HK. 
  destruct (ring_content_addAll K HK (l :: ls) (newBackrefBuffer K) []
              (ring_content_fresh K HK)) as [backref [E Hcontent]].
  cbn [app] in Hcontent.
  assert (Hinv : ring_inv K backref).
  { cbn [addAll] in E.
    destruct (add_fresh_inv K HK l) as [b0 [E0 Hb0]]. rewrite E0 in E.
    cbn [bind] in E.
    destruct (addAll_inv K HK ls b0 Hb0) as [b [Eb Hb]]. congruence. }
  destruct (chooseReferenceLine_returns K HK backref compressedLine factor Hinv)
    as [lr [Elr Hlr]].
  exists backref, lr. split; [exact E|]. split; [exact Elr|].
  destruct Hlr as [Hd|[Hb [Hg [He Hs]]]]; [left; exact Hd | right].
  assert (Hcap : capacity backref = K) by apply Hinv.
  rewrite Hcap in Hb.
  rewrite (ring_content_getLineAt K backref (l :: ls) _ Hcontent) in Hg by lia.
  repeat split; try (lia || assumption).
  - congruence.
  - rewrite (ring_content_getLineAt K backref (l :: ls) _ Hcontent) by lia.
    congruence.
Qed.

Lemma chooseReferenceLine_sound_witness :
  exists backref lineRef,
    addAll (newBackrefBuffer 4) ([97; 32; 98; 10] :: [[99; 10]]) = Ok backref
    /\ chooseReferenceLine backref [97; 32; 99; 10] (float32_percent 80)
       = Ok lineRef
    /\ (lineRef = mkLineRef [] 1 0 0
        \/ (1 <= linesBefore lineRef <= 4 - 1
            /\ line lineRef
               = recent ([97; 32; 98; 10] :: [[99; 10]]) (linesBefore lineRef)
            /\ getLineAt backref (linesBefore lineRef) = Ok (line lineRef)
            /\ estimateSimilarity (line lineRef) [97; 32; 99; 10]
               = Ok (prefixLength lineRef, similarityScore lineRef)
            /\ 0 < similarityScore lineRef)).
Proof.
  apply (chooseReferenceLine_sound 4 [97; 32; 98; 10] [[99; 10]]
           [97; 32; 99; 10] (float32_percent 80)).
  unfold MAX_BACKREFERENCE_CAPACITY. lia.
Defined.

(** ** The line compressor, as a function *)

Lemma index_byteAt (s : list Z) (i : Z) :
  0 <= i < len s -> index s i = Ok (byteAt s i).
Proof.
  intros H. unfold index, byteAt. destruct (Z.leb_spec 0 i); [|lia].
  destruct (nth_error s (Z.to_nat i)) as [x|] eqn:E.
  - f_equal. symmetry. apply nth_error_nth. exact E.
  - apply nth_error_None in E. unfold len in H. lia.
Qed.

Lemma index_Ok_byteAt (s : list Z) (i x : Z) :
  index s i = Ok x -> byteAt s i = x.
Proof.
  intros H. pose proof (index_Ok_range _ _ _ H) as Hr.
  rewrite (index_byteAt s i Hr) in H. congruence.
Qed.

Lemma slice_from_in_range {A : Type} (s : list A) (lo : Z) :
  0 <= lo <= len s -> slice_from s lo = Ok (skipn (Z.to_nat lo) s).
Proof.
  intros H. unfold slice_from. rewrite slice_in_range by lia.
  f_equal. apply firstn_all2. rewrite length_skipn. unfold len. lia.
Qed.

Lemma indexOfFirstSpace_spaceFrom (i : Z) (buffer : list Z) :
  0 <= i -> indexOfFirstSpace i buffer = Ok (spaceFrom buffer i).
Proof.
  intros H. unfold indexOfFirstSpace, spaceFrom.
  destruct (Z.ltb_spec i 0); [lia | reflexivity].
Qed.

Lemma spaceFrom_bounds (buffer : list Z) (i : Z) :
  0 <= i <= len buffer -> i <= spaceFrom buffer i <= len buffer.
Proof.
  intros H.
  pose proof (indexOfFirstSpace_bounds i (spaceFrom buffer i) buffer
                (indexOfFirstSpace_spaceFrom i buffer ltac:(lia))).
  lia.
Qed.

Lemma spaceFrom_at (buffer : list Z) (i : Z) :
  0 <= i -> spaceFrom buffer i < len buffer ->
  byteAt buffer (spaceFrom buffer i) = SPACE.
Proof.
  intros H Hlt. apply index_Ok_byteAt.
  apply (indexOfFirstSpace_at i _ buffer
           (indexOfFirstSpace_spaceFrom i buffer H) Hlt).
Qed.

Lemma spaceFrom_advances (buffer : list Z) (i : Z) :
  0 <= i < len buffer -> byteAt buffer i <> SPACE ->
  i + 1 <= spaceFrom buffer i.
Proof.
  intros H Hne.
  apply (indexOfFirstSpace_advances i _ (byteAt buffer i) buffer
           (indexOfFirstSpace_spaceFrom i buffer ltac:(lia))
           (index_byteAt buffer i H) Hne).
Qed.

Lemma spaceFrom_fixed (buffer : list Z) (i : Z) :
  0 <= i < len buffer -> byteAt buffer i = SPACE -> spaceFrom buffer i = i.
Proof.
  intros H Hsp. unfold spaceFrom.
  pose proof (index_byteAt buffer i H) as Hi.
  rewrite (index_skipn _ _ _ Hi). cbn [scanSpace]. rewrite Hsp.
  now rewrite Z.eqb_refl.
Qed.

Lemma compressLine_loop_writes (key curr : list Z) (fuel : nat) :
  forall (dst : list Z) (ik ic same bw : Z),
    0 <= ik -> 0 <= ic <= len curr -> 0 <= same -> 0 <= bw ->
    (Z.to_nat (len key - ik) + Z.to_nat (len curr - ic) < fuel)%nat ->
    bw + len (lineCode_loop fuel key curr ik ic same) <= len dst ->
    exists code ic' same',
      compressLine_loop fuel key curr dst ik ic same bw
      = Ok (overwrite dst bw code, ic', same', bw + len code)
      /\ lineCode_loop fuel key curr ik ic same
         = code ++ lengthCode same' ++ quoted (skipn (Z.to_nat ic') curr)
      /\ 0 <= ic' <= len curr /\ 0 <= same'.
Proof.
  induction fuel as [|fuel IH]; intros dst ik ic same bw Hik Hic Hs Hbw Hfuel Hroom;
    [lia|].
  cbn [compressLine_loop lineCode_loop] in *.
  assert (Hexit : exists code ic' same',
            Ok (dst, ic, same, bw)
            = Ok (overwrite dst bw code, ic', same', bw + len code)
            /\ lengthCode same ++ quoted (skipn (Z.to_nat ic) curr)
               = code ++ lengthCode same' ++ quoted (skipn (Z.to_nat ic') curr)
            /\ 0 <= ic' <= len curr /\ 0 <= same').
  { exists [], ic, same. rewrite overwrite_nil, (@len_nil Z), Z.add_0_r.
    repeat split; (reflexivity || lia). }
  destruct (Z.ltb_spec ik (len key)) as [Hk|Hk]; cbn [andb] in *;
    [|exact Hexit].
  destruct (Z.ltb_spec ic (len curr)) as [Hc|Hc]; [|exact Hexit].
  clear Hexit.
  rewrite (index_byteAt curr ic), (index_byteAt key ik) by lia. cbn [bind].
  destruct (Z.eqb_spec (byteAt curr ic) (byteAt key ik)) as [Heq|Hne].
  - apply IH; try lia.
  - pose proof (spaceFrom_bounds curr ic ltac:(lia)) as Hnext.
    pose proof (spaceFrom_bounds key ik ltac:(lia)) as Hik'.
    assert (Hadv : ik + 1 <= spaceFrom key ik \/ ic + 1 <= spaceFrom curr ic).
    { destruct (Z.eq_dec (byteAt key ik) SPACE) as [Hsp|Hsp].
      - right. apply spaceFrom_advances; [lia | congruence].
      - left. apply spaceFrom_advances; [lia | exact Hsp]. }
    set (next := spaceFrom curr ic) in *. set (ik' := spaceFrom key ik) in *.
    set (token := firstn (Z.to_nat (next - ic)) (skipn (Z.to_nat ic) curr)) in *.
    set (rest := lineCode_loop fuel key curr ik' next 0) in *.
    pose proof (len_nonneg rest) as Hrest.
    pose proof (quotedSize_bounds token) as Htok.
    pose proof (len_nonneg token) as Htok0.
    pose proof (lengthCode_len_bounds same Hs) as [Hlc _].
    rewrite !len_app, quoted_len in Hroom.
    rewrite encodeLength_writes by lia. cbn [bind].
    rewrite !indexOfFirstSpace_spaceFrom by lia. cbn [bind]. fold ik' next.
    set (d1 := overwrite dst bw (lengthCode same)).
    assert (Hd1 : len d1 = len dst) by (unfold d1; apply overwrite_len; lia).
    rewrite slice_from_in_range by lia. cbn [bind].
    rewrite slice_in_range by lia. cbn [bind]. fold token.
    rewrite quote_fits by (rewrite len_skipn by lia; lia). cbn [bind].
    rewrite put_back_overwrite by lia.
    unfold d1. rewrite overwrite_app by (rewrite ?quoted_len; lia).
    set (a := lengthCode same ++ quoted token).
    assert (Ha : len a = len (lengthCode same) + quotedSize token)
      by (unfold a; rewrite len_app, quoted_len; reflexivity).
    replace (bw + len (lengthCode same) + quotedSize token)
      with (bw + len a) by lia.
    destruct (IH (overwrite dst bw a) ik' next 0 (bw + len a))
      as [code [ic' [same' [E [Hcode [Hic' Hs']]]]]]; try lia.
    { rewrite overwrite_len by lia. fold rest. lia. }
    fold rest in Hcode.
    assert (Hcl : len code <= len rest)
      by (rewrite Hcode, len_app;
          pose proof (len_nonneg (lengthCode same'
                                    ++ quoted (skipn (Z.to_nat ic') curr)));
          lia).
    exists (a ++ code), ic', same'. split; [|split; [|split; assumption]].
    + rewrite E.
      rewrite overwrite_app by (pose proof (len_nonneg code); lia).
      do 2 f_equal. rewrite len_app. lia.
    + unfold a. rewrite <- !app_assoc. rewrite Hcode. reflexivity.
Qed.

Lemma skipn_byteAt (s : list Z) (i : Z) :
  0 <= i < len s ->
  skipn (Z.to_nat i) s = byteAt s i :: skipn (Z.to_nat (i + 1)) s.
Proof. intros H. apply index_skipn. apply index_byteAt. exact H. Qed.

Lemma skipn_token (s : list Z) (i j : Z) :
  0 <= i <= j ->
  skipn (Z.to_nat i) s
  = firstn (Z.to_nat (j - i)) (skipn (Z.to_nat i) s) ++ skipn (Z.to_nat j) s.
Proof.
  intros H.
  rewrite <- (firstn_skipn (Z.to_nat (j - i)) (skipn (Z.to_nat i) s)) at 1.
  f_equal. rewrite skipn_skipn. f_equal. lia.
Qed.

Lemma quotedSize_nonneg (s : list Z) : 0 <= quotedSize s.
Proof. pose proof (quotedSize_bounds s). pose proof (len_nonneg s). lia. Qed.

Lemma lineCode_loop_len (key curr : list Z) (fuel : nat) :
  forall ik ic same : Z,
    0 <= ik -> 0 <= ic <= len curr -> 0 <= same ->
    len (lineCode_loop fuel key curr ik ic same)
    <= same + quotedSize (skipn (Z.to_nat ic) curr).
Proof.
  induction fuel as [|fuel IH]; intros ik ic same Hik Hic Hs;
    cbn [lineCode_loop].
  - rewrite (@len_nil Z). pose proof (quotedSize_nonneg (skipn (Z.to_nat ic) curr)).
    lia.
  - pose proof (lengthCode_len_bounds same Hs) as [Hlc _].
    assert (Hexit : len (lengthCode same ++ quoted (skipn (Z.to_nat ic) curr))
                    <= same + quotedSize (skipn (Z.to_nat ic) curr))
      by (rewrite len_app, quoted_len; lia).
    destruct (Z.ltb_spec ik (len key)) as [Hk|Hk]; cbn [andb]; [|exact Hexit].
    destruct (Z.ltb_spec ic (len curr)) as [Hc|Hc]; [|exact Hexit].
    destruct (byteAt curr ic =? byteAt key ik).
    + specialize (IH (ik + 1) (ic + 1) (same + 1)
                    ltac:(lia) ltac:(lia) ltac:(lia)).
      rewrite (skipn_byteAt curr ic) by lia. cbn [quotedSize].
      destruct (Z.land (byteAt curr ic) ESCAPE_BYTE =? 0); lia.
    + pose proof (spaceFrom_bounds curr ic ltac:(lia)) as Hnext.
      pose proof (spaceFrom_bounds key ik ltac:(lia)) as Hik'.
      specialize (IH (spaceFrom key ik) (spaceFrom curr ic) 0
                    ltac:(lia) ltac:(lia) ltac:(lia)).
      rewrite (skipn_token curr ic (spaceFrom curr ic)) at 2 by lia.
      rewrite quotedSize_app, !len_app, quoted_len. lia.
Qed.

Lemma overwrite_app0 (dst a b : list Z) (pos : Z) :
  pos = len a -> len a + len b <= len dst ->
  overwrite (overwrite dst 0 a) pos b = overwrite dst 0 (a ++ b).
Proof.
  intros -> H. pose proof (overwrite_app dst 0 a b) as E.
  rewrite Z.add_0_l in E. apply E; lia.
Qed.

Lemma index_overwrite_head (dst : list Z) (v : Z) :
  1 <= len dst -> index (overwrite dst 0 [v]) 0 = Ok v.
Proof. intros H. reflexivity. Qed.

Lemma overwrite_twice (dst : list Z) (a b : Z) :
  overwrite (overwrite dst 0 [a]) 0 [b] = overwrite dst 0 [b].
Proof. reflexivity. Qed.

(** The loop of [compressLine] and the two statements after it. *)
Lemma compressLine_body (key curr d1 : list Z) (ik ic same bw : Z) :
  0 <= ik -> 0 <= ic <= len curr -> 0 <= same -> 0 <= bw ->
  bw + len (lineCode_loop (S (length key + length curr)) key curr ik ic same)
  <= len d1 ->
  ('(d2, idxCurrLine, sameStringLength, bytesWritten) <-
     compressLine_loop (S (length key + length curr)) key curr d1
       ik ic same bw ;;
   '(d3, w) <- encodeLength sameStringLength d2 bytesWritten ;;
   let bytesWritten := bytesWritten + w in
   sub <- slice_from d3 bytesWritten ;;
   tail <- slice_from curr idxCurrLine ;;
   '(sub', w') <- quote sub tail ;;
   Ok (put_back d3 bytesWritten sub', bytesWritten + w'))
  = Ok (overwrite d1 bw
          (lineCode_loop (S (length key + length curr)) key curr ik ic same),
        bw + len (lineCode_loop (S (length key + length curr)) key curr
                    ik ic same)).
Proof.
  intros Hik Hic Hs Hbw Hroom.
  destruct (compressLine_loop_writes key curr (S (length key + length curr))
              d1 ik ic same bw Hik Hic Hs Hbw)
    as [code [ic' [same' [E [Hcode [Hic' Hs']]]]]];
    [unfold len; lia | exact Hroom |].
  rewrite E. cbn [bind]. rewrite Hcode in *.
  set (tail := skipn (Z.to_nat ic') curr) in *.
  rewrite !len_app, quoted_len in Hroom.
  pose proof (len_nonneg code). pose proof (quotedSize_nonneg tail).
  pose proof (lengthCode_len_bounds same' Hs') as [Hlc _].
  rewrite encodeLength_writes by (rewrite ?overwrite_len; lia). cbn [bind].
  cbv zeta.
  rewrite overwrite_app by lia.
  rewrite slice_from_in_range by (rewrite overwrite_len; len_lia).
  cbn [bind]. rewrite slice_from_in_range by lia. cbn [bind]. fold tail.
  rewrite quote_fits
    by (rewrite len_skipn; rewrite ?overwrite_len; len_lia).
  cbn [bind]. rewrite put_back_overwrite by (rewrite overwrite_len; len_lia).
  replace (bw + len code + len (lengthCode same'))
    with (bw + len (code ++ lengthCode same')) by len_lia.
  rewrite overwrite_app by len_lia.
  rewrite <- app_assoc. do 2 f_equal. len_lia.
Qed.

Lemma compressLine_writes (lineRef : lineReference) (curr dst : list Z) :
  prefixLength lineRef <= len curr ->
  len (lineCode lineRef curr) <= len dst ->
  compressLine lineRef curr dst
  = Ok (overwrite dst 0 (lineCode lineRef curr), len (lineCode lineRef curr)).
Proof.
  intros Hp Hroom. unfold compressLine, lineCode in *.
  pose proof (len_nonneg curr) as Hcurr.
  set (key := line lineRef) in *.
  set (hb := to_byte (linesBefore lineRef + ESCAPE_BYTE)) in *.
  set (p := prefixLength lineRef) in *.
  destruct (Z.ltb_spec p 0) as [Hneg|Hpos].
  - set (rest := lineCode_loop (S (length key + length curr)) key curr
                   (- p) 0 0) in *.
    rewrite len_cons, len_app in Hroom.
    pose proof (len_nonneg rest).
    pose proof (lengthCode_len_bounds (- p) ltac:(lia)) as [Hlc _].
    rewrite store_overwrite by lia. cbn [bind].
    rewrite index_overwrite_head by lia. cbn [bind].
    rewrite store_overwrite by (rewrite overwrite_len; len_lia). cbn [bind].
    rewrite overwrite_twice.
    rewrite encodeLength_writes by (rewrite ?overwrite_len; len_lia).
    cbn [bind].
    set (hb' := Z.lor hb NO_SHARED_PREFIX_FLAG) in *.
    rewrite overwrite_app0 by len_lia.
    etransitivity.
    { apply compressLine_body; try lia.
      fold rest. rewrite overwrite_len by len_lia. len_lia. }
    fold rest. rewrite overwrite_app0 by len_lia.
    cbn [app]. do 2 f_equal. len_lia.
  - set (rest := lineCode_loop (S (length key + length curr)) key curr
                   p p p) in *.
    rewrite len_cons in Hroom. pose proof (len_nonneg rest).
    rewrite store_overwrite by lia. cbn [bind].
    etransitivity.
    { apply compressLine_body; try lia.
      fold rest. rewrite overwrite_len by len_lia. len_lia. }
    fold rest. rewrite overwrite_app0 by len_lia.
    cbn [app]. do 2 f_equal. len_lia.
Qed.

Lemma quotedSize_firstn_skipn (s : list Z) (n : nat) :
  quotedSize s = quotedSize (firstn n s) + quotedSize (skipn n s).
Proof. rewrite <- quotedSize_app, firstn_skipn. reflexivity. Qed.

Lemma lineCode_len_core (lineRef : lineReference) (curr : list Z) :
  lineRef = mkLineRef [] 1 0 0
  \/ (exists s, estimateSimilarity (line lineRef) curr
                = Ok (prefixLength lineRef, s)) ->
  prefixLength lineRef <= len curr
  /\ 1 <= len (lineCode lineRef curr) <= 2 * len curr + 2.
Proof.
  pose proof (len_nonneg curr) as Hcurr.
  pose proof (quotedSize_bounds curr) as Hq.
  intros [->|[s0 Es]]; unfold lineCode.
  - cbn [prefixLength line linesBefore]. cbn [Z.ltb Z.compare].
    pose proof (lineCode_loop_len [] curr (S (length (@nil Z) + length curr))
                  0 0 0 ltac:(lia) ltac:(lia) ltac:(lia)) as Hl.
    cbn [Z.to_nat skipn] in Hl.
    rewrite len_cons.
    pose proof (len_nonneg (lineCode_loop (S (length (@nil Z) + length curr))
                              [] curr 0 0 0)).
    lia.
  - destruct (estimateSimilarity_facts (line lineRef) curr)
      as [p [s [E [Hsb [Hpos [Hneg _]]]]]].
    rewrite Es in E. injection E as <- <-.
    pose proof (min3_bounds (len (line lineRef)) (len curr) MAX_SIMILARITY)
      as [_ [Hm2 [Hm3 _]]].
    set (key := line lineRef) in *. set (p := prefixLength lineRef) in *.
    set (F := S (length key + length curr)).
    destruct (Z.ltb_spec p 0) as [Hlt|Hge].
    + destruct (Hneg Hlt) as [Hoff [_ Hin]].
      pose proof (quotedSize_space curr Hin).
      pose proof (lineCode_loop_len key curr F (- p) 0 0
                    ltac:(lia) ltac:(lia) ltac:(lia)) as Hl.
      cbn [Z.to_nat skipn] in Hl.
      pose proof (lengthCode_len_bounds (- p) ltac:(lia)) as [Hlc [Hlc2 _]].
      unfold MAX_SIMILARITY in *.
      rewrite len_cons, len_app.
      pose proof (len_nonneg (lineCode_loop F key curr (- p) 0 0)).
      lia.
    + destruct (Hpos Hge) as [Hps _].
      pose proof (lineCode_loop_len key curr F p p p
                    ltac:(lia) ltac:(lia) ltac:(lia)) as Hl.
      pose proof (quotedSize_firstn_skipn curr (Z.to_nat p)) as Hsplit.
      pose proof (quotedSize_bounds (firstn (Z.to_nat p) curr)) as Hf.
      rewrite len_firstn in Hf by lia.
      rewrite len_cons.
      pose proof (len_nonneg (lineCode_loop F key curr p p p)).
      lia.
Qed.

Lemma lineCode_len_guard (backref : backrefBuffer) (lineRef : lineReference)
  (curr : list Z) :
  sound_reference backref curr lineRef ->
  prefixLength lineRef <= len curr
  /\ 1 <= len (lineCode lineRef curr) <= 2 * len curr + 2.
Proof.
  intros [Hd|[_ [_ [Es _]]]]; apply lineCode_len_core;
    [left; exact Hd | right; eexists; exact Es].
Qed.

(** X9. The guard of [Compress] is enough for [compressLine]: with a
    reference returned by [chooseReferenceLine] and [2 * len(currLine) + 2]
    bytes of room, [compressLine] does not panic, writes between 1 and
    [2 * len(currLine) + 2] bytes at the start of [dst], returns their
    number and leaves the rest of [dst] as it was. *)
Theorem compressLine_within_room (K : Z) (l : list Z) (ls : list (list Z))
  (currLine dst : list Z) (factor : float32) :
  2 <= K <= MAX_BACKREFERENCE_CAPACITY ->
  2 * len currLine + 2 <= len dst ->
  exists backref lineRef code,
    addAll (newBackrefBuffer K) (l :: ls) = Ok backref
    /\ chooseReferenceLine backref currLine factor = Ok lineRef
    /\ compressLine lineRef currLine dst
       = Ok (code ++ skipn (length code) dst, len code)
    /\ 1 <= len code <= 2 * len currLine + 2.
Proof.
  intros HK Hroom.
  destruct (add_fresh_inv K HK l) as [b0 [E0 Hb0]].
  destruct (addAll_inv K HK ls b0 Hb0) as [backref [E Hinv]].
  destruct (chooseReferenceLine_returns K HK backref currLine factor Hinv)
    as [lr [Elr Hlr]].
  destruct (lineCode_len_guard backref lr currLine Hlr) as [Hp Hlen].
  exists backref, lr, (lineCode lr currLine).
  split; [cbn [addAll]; rewrite E0; exact E|]. split; [exact Elr|].
  split; [|exact Hlen].
  rewrite compressLine_writes by lia. unfold overwrite.
  cbn [Z.to_nat firstn app]. rewrite Z.add_0_l, to_nat_len. reflexivity.
Qed.

Lemma compressLine_within_room_witness :
  exists backref lineRef code,
    addAll (newBackrefBuffer 2) ([97; 32; 98; 10] :: []) = Ok backref
    /\ chooseReferenceLine backref [97; 32; 99; 10] (float32_percent 80)
       = Ok lineRef
    /\ compressLine lineRef [97; 32; 99; 10] (repeat 0 10)
       = Ok (code ++ skipn (length code) (repeat 0 10), len code)
    /\ 1 <= len code <= 2 * len [97; 32; 99; 10] + 2.
Proof.
  apply (compressLine_within_room 2 [97; 32; 98; 10] [] [97; 32; 99; 10]
           (repeat 0 10) (float32_percent 80)).
  - unfold MAX_BACKREFERENCE_CAPACITY. lia.
  - unfold len. cbn [length repeat]. lia.
Defined.

(** ** The chunk compressor, line by line *)

Lemma overwrite0_firstn (dst bytes : list Z) :
  len bytes <= len dst ->
  firstn (Z.to_nat (len bytes)) (overwrite dst 0 bytes) = bytes.
Proof.
  intros H. pose proof (overwrite_slice dst 0 bytes ltac:(lia) ltac:(lia)) as E.
  cbn [Z.to_nat skipn] in E. rewrite to_nat_len. exact E.
Qed.

Lemma overwrite0_skipn (dst bytes : list Z) :
  len bytes <= len dst ->
  skipn (Z.to_nat (len bytes)) (overwrite dst 0 bytes)
  = skipn (length bytes) dst.
Proof.
  intros H. pose proof (overwrite_skipn dst 0 bytes ltac:(lia) ltac:(lia)) as E.
  rewrite Z.add_0_l in E. rewrite E, to_nat_len. reflexivity.
Qed.

Lemma whole_line_nonempty (l : list Z) : whole_line l -> l <> [].
Proof. intros [body [-> _]]. destruct body; discriminate. Qed.

Lemma valid_lines_nonempty (K : Z) (history : list (list Z))
  (items : list (lineReference * list Z)) :
  valid_lines K history items -> linesText items = [] -> items = [].
Proof.
  destruct items as [|[lr curr] rest]; [reflexivity|].
  cbn [valid_lines linesText flat_map snd]. intros [_ [Hshape _]] E.
  apply app_eq_nil in E. destruct E as [E _]. exfalso.
  destruct Hshape as [Hw|[Hne _]]; [apply (whole_line_nonempty _ Hw E) | auto].
Qed.

Section CompressLoop.

Variable K : Z.
Hypothesis HK : 2 <= K <= MAX_BACKREFERENCE_CAPACITY.

Lemma sound_valid (backref : backrefBuffer) (history : list (list Z))
  (curr : list Z) (lr : lineReference) :
  ring_inv K backref -> ring_content K backref history ->
  sound_reference backref curr lr -> valid_reference K history curr lr.
Proof.
  intros Hinv Hc [->|[Hb [Hg [He Hs]]]]; [left; reflexivity | right].
  assert (Hcap : capacity backref = K) by apply Hinv.
  rewrite Hcap in Hb.
  rewrite (ring_content_getLineAt K backref history _ Hc) in Hg by lia.
  repeat split; try (lia || assumption). congruence.
Qed.

Lemma Compress_loop_spec (fuel : nat) :
  forall (st : chunkState) (history : list (list Z)),
    ring_inv K (cs_backref st) -> ring_content K (cs_backref st) history ->
    (length (cs_src st) < fuel)%nat ->
    exists items st',
      Compress_loop fuel st = Ok st'
      /\ valid_lines K history items
      /\ cs_src st = linesText items ++ cs_src st'
      /\ cs_done st' = cs_done st ++ linesCode items
      /\ cs_dst st' = skipn (length (linesCode items)) (cs_dst st)
      /\ len (linesCode items) <= len (cs_dst st)
      /\ cs_bytesRead st' = cs_bytesRead st + len (linesText items)
      /\ cs_bytesWritten st' = cs_bytesWritten st + len (linesCode items)
      /\ cs_header st' = cs_header st /\ cs_beyond st' = cs_beyond st
      /\ (items = [] \/ 4 <= len (cs_dst st)).
Proof.
  induction fuel as [|fuel IH]; intros st history Hinv Hc Hfuel; [lia|].
  cbn [Compress_loop].
  assert (Hstop : exists items st',
            Ok st = Ok st'
            /\ valid_lines K history items
            /\ cs_src st = linesText items ++ cs_src st'
            /\ cs_done st' = cs_done st ++ linesCode items
            /\ cs_dst st' = skipn (length (linesCode items)) (cs_dst st)
            /\ len (linesCode items) <= len (cs_dst st)
            /\ cs_bytesRead st' = cs_bytesRead st + len (linesText items)
            /\ cs_bytesWritten st' = cs_bytesWritten st + len (linesCode items)
            /\ cs_header st' = cs_header st /\ cs_beyond st' = cs_beyond st
            /\ (items = [] \/ 4 <= len (cs_dst st))).
  { exists [], st. cbn [valid_lines linesText linesCode flat_map app length skipn].
    rewrite app_nil_r, (@len_nil Z), !Z.add_0_r.
    pose proof (len_nonneg (cs_dst st)).
    repeat (split; [reflexivity || lia|]). left. reflexivity. }
  pose proof (nextLine_shape (cs_src st)) as [Hsplit [Hshape Hempty]].
  destruct (nextLine (cs_src st)) as [currLine src'] eqn:En.
  cbn [fst snd] in *.
  destruct (Z.gtb_spec (len currLine) 0) as [Hpos|Hz]; [|exact Hstop].
  destruct (Z.ltb_spec (len (cs_dst st)) (2 * len currLine + 2))
    as [Hsmall|Hroom]; [exact Hstop|].
  clear Hstop.
  destruct (chooseReferenceLine_returns K HK (cs_backref st) currLine
              (goodEnoughFactor (cs_params st)) Hinv) as [lr [Elr Hlr]].
  rewrite Elr. cbn [bind].
  destruct (lineCode_len_guard _ lr currLine Hlr) as [Hp Hlen].
  set (code := lineCode lr currLine) in *.
  rewrite compressLine_writes by (fold code; lia). fold code. cbn [bind].
  rewrite slice_from_in_range by (rewrite overwrite_len; lia). cbn [bind].
  destruct (add_inv K HK _ currLine Hinv) as [b [Eb Hb]].
  destruct (ring_content_add K HK _ history currLine Hc) as [b' [Eb' Hb']].
  rewrite Eb in Eb'. injection Eb' as <-.
  rewrite Eb. cbn [bind].
  rewrite overwrite0_firstn, overwrite0_skipn by lia.
  set (st1 := mkChunkState (cs_header st) (cs_beyond st) (cs_params st) b src'
                (cs_done st ++ code) (skipn (length code) (cs_dst st))
                (cs_bytesRead st + len currLine)
                (cs_bytesWritten st + len code)).
  assert (Hlen1 : (length (cs_src st1) < fuel)%nat).
  { cbn [st1 cs_src]. rewrite Hsplit, length_app in Hfuel.
    unfold len in Hpos. lia. }
  destruct (IH st1 (history ++ [currLine]) Hb Hb' Hlen1)
    as [items [st' [E [Hv [Hsrc [Hdone [Hdst [Hcl [Hr [Hw [Hh [Hbe _]]]]]]]]]]]].
  cbn [st1 cs_src cs_done cs_dst cs_bytesRead cs_bytesWritten cs_header
       cs_beyond] in *.
  assert (Hlast : ~ whole_line currLine -> items = []).
  { intros Hnw. destruct Hshape as [Hw'|[_ [Hs' _]]]; [contradiction|].
    subst src'. apply (valid_lines_nonempty K _ items Hv).
    symmetry in Hsrc. apply app_eq_nil in Hsrc. apply Hsrc. }
  exists ((lr, currLine) :: items), st'.
  cbn [valid_lines linesText linesCode flat_map fst snd].
  fold (linesText items). fold (linesCode items). fold code.
  assert (Hcl' : len (linesCode items) <= len (cs_dst st) - len code)
    by (unfold len in *; rewrite length_skipn in Hcl; lia).
  split; [exact E|].
  split; [|split; [|split; [|split; [|split; [|split; [|split; [|split;
    [|split]]]]]]]].
  - split; [apply (sound_valid (cs_backref st)); assumption|].
    split; [|exact Hv].
    destruct Hshape as [Hw'|[Hall [_ Hnn]]]; [left; exact Hw'|].
    right. split; [intros ->; rewrite (@len_nil Z) in Hpos; lia|].
    split; [congruence|]. apply Hlast.
    intros [body [Eb0 _]]. apply Hnn. rewrite <- Hall, Eb0.
    apply in_or_app. right. now left.
  - rewrite Hsplit, Hsrc, app_assoc. reflexivity.
  - rewrite Hdone, app_assoc. reflexivity.
  - rewrite Hdst, skipn_skipn, length_app. f_equal. lia.
  - rewrite len_app. lia.
  - rewrite Hr, len_app. lia.
  - rewrite Hw, len_app. lia.
  - exact Hh.
  - exact Hbe.
  - right. lia.
Qed.

End CompressLoop.

(** ** The start of a chunk *)

Lemma slice_to_Ok {A : Type} (s t : list A) (hi : Z) :
  slice_to s hi = Ok t -> 0 <= hi <= len s /\ t = firstn (Z.to_nat hi) s.
Proof.
  unfold slice_to. intros H. apply slice_Ok in H.
  destruct H as [H0 [H1 ->]]. cbn [Z.to_nat skipn].
  rewrite Z.sub_0_r. split; [lia | reflexivity].
Qed.

Lemma Compress_start_spec (dst src : list Z) (level : Z) (st : chunkState) :
  Compress_start dst src level = Ok st ->
  exists (K : Z) (firstLine : list Z) (k : Z),
    let window := limitSlice (skipn (Z.to_nat HEADER_SIZE) dst) MAX_CHUNK_SIZE in
    2 <= K <= MAX_BACKREFERENCE_CAPACITY
    /\ HEADER_SIZE <= len dst
    /\ nextLine (limitSlice src MAX_CHUNK_SIZE) = (firstLine, cs_src st)
    /\ ring_inv K (cs_backref st)
    /\ ring_content K (cs_backref st) [firstLine]
    /\ cs_header st = firstn (Z.to_nat HEADER_SIZE) dst
    /\ cs_beyond st = skipn (length window) (skipn (Z.to_nat HEADER_SIZE) dst)
    /\ 0 <= k <= len firstLine
    /\ cs_bytesRead st = k
    /\ cs_bytesWritten st = quotedSize (firstn (Z.to_nat k) firstLine)
    /\ cs_done st = quoted (firstn (Z.to_nat k) firstLine)
    /\ cs_dst st
       = skipn (Z.to_nat (quotedSize (firstn (Z.to_nat k) firstLine))) window
    /\ quotedSize (firstn (Z.to_nat k) firstLine) <= len window
    /\ (k = len firstLine \/ len (cs_dst st) < 2).
Proof.
  unfold Compress_start. intros H.
  bind_inv H as header Eh.
  bind_inv H as body Eb.
  destruct (getCompressionParameters_total level) as [params [Ep HK]].
  rewrite Ep in H. cbn [bind] in H.
  destruct (nextLine (limitSlice src MAX_CHUNK_SIZE)) as [firstLine rest] eqn:En.
  set (K := backreferenceCapacity params) in *.
  destruct (add_fresh_inv K HK firstLine) as [b [Ea Hinv]].
  destruct (ring_content_add K HK (newBackrefBuffer K) [] firstLine
              (ring_content_fresh K HK)) as [b' [Ea' Hcont]].
  rewrite Ea in Ea'. injection Ea' as <-. cbn [app] in Hcont.
  rewrite Ea in H. cbn [bind] in H.
  bind_inv H as [[window' r] w] Eq.
  bind_inv H as dst' Es. injection H as <-.
  cbn [cs_src cs_bytesRead cs_bytesWritten cs_dst cs_done cs_backref cs_header
       cs_beyond].
  apply slice_to_Ok in Eh. destruct Eh as [Hh ->].
  apply slice_from_Ok in Eb. destruct Eb as [_ ->].
  set (window := limitSlice (skipn (Z.to_nat HEADER_SIZE) dst) MAX_CHUNK_SIZE)
    in *.
  unfold quoteSafely in Eq. pose proof (len_nonneg window).
  apply quoteSafely_loop_returns in Eq; [|lia|lia].
  destruct Eq as [k [Hk [Hr [Hw [Hwl [Hd Hstop]]]]]].
  cbn [Z.add] in Hr, Hw, Hd. subst r.
  set (q := quotedSize (firstn (Z.to_nat k) firstLine)) in *.
  assert (Hq0 : 0 <= q) by apply quotedSize_nonneg.
  assert (Hw' : w = q) by lia. subst w.
  apply slice_from_Ok in Es. destruct Es as [_ ->].
  assert (Ef : firstn (Z.to_nat q) window' = quoted (firstn (Z.to_nat k) firstLine)).
  { rewrite Hd. unfold q. rewrite <- quoted_len. apply overwrite0_firstn.
    rewrite quoted_len. fold q. lia. }
  assert (Esk : skipn (Z.to_nat q) window' = skipn (Z.to_nat q) window).
  { rewrite Hd. unfold q. rewrite <- quoted_len, overwrite0_skipn, to_nat_len.
    - reflexivity.
    - rewrite quoted_len. fold q. lia. }
  exists K, firstLine, k. cbv zeta. fold window. fold q.
  rewrite Ef, Esk.
  split; [exact HK|]. split; [lia|]. split; [reflexivity|].
  split; [exact Hinv|]. split; [exact Hcont|].
  split; [reflexivity|]. split; [reflexivity|].
  split; [lia|]. split; [reflexivity|]. split; [reflexivity|].
  split; [reflexivity|]. split; [reflexivity|]. split; [lia|].
  destruct Hstop as [Hs|[c [_ [_ Hs]]]]; [left; lia | right].
  rewrite len_skipn by lia. lia.
Qed.

Lemma limitSlice_split (s : list Z) (n : Z) :
  0 <= n -> limitSlice s n ++ skipn (length (limitSlice s n)) s = s.
Proof.
  intros Hn. unfold limitSlice. rewrite Z.gtb_ltb.
  destruct (Z.ltb_spec n (len s)) as [H|H].
  - rewrite length_firstn. unfold len in H.
    replace (Nat.min (Z.to_nat n) (length s)) with (Z.to_nat n) by lia.
    apply firstn_skipn.
  - rewrite skipn_all. apply app_nil_r.
Qed.

Lemma limitSlice_len_le (s : list Z) (n : Z) :
  0 <= n -> len (limitSlice s n) <= n /\ len (limitSlice s n) <= len s.
Proof.
  intros Hn. unfold limitSlice. rewrite Z.gtb_ltb.
  destruct (Z.ltb_spec n (len s)) as [H|H]; [|lia].
  rewrite len_firstn by lia. lia.
Qed.

Lemma skipn_window (window body : list Z) (n : nat) :
  (n <= length window)%nat ->
  skipn n window ++ skipn (length window) (window ++ body)
  = skipn n (window ++ body).
Proof.
  intros H. rewrite !skipn_app, skipn_all, Nat.sub_diag.
  replace (n - length window)%nat with 0%nat by lia. reflexivity.
Qed.

Lemma storeHeader_total (header : list Z) (compressedSize rawSize : Z) :
  len header = HEADER_SIZE ->
  exists stored,
    storeHeader header compressedSize rawSize = Ok stored
    /\ len stored = HEADER_SIZE.
Proof.
  intros Hh.
  destruct header as [|h0 [|h1 [|h2 [|h3 [|h4 header]]]]];
    try (exfalso; unfold len, HEADER_SIZE, SIZEOF_INT16 in Hh;
         cbn [length] in Hh; lia).
  rewrite storeHeader_writes. eexists. split; reflexivity.
Qed.

Lemma storeHeader_len (header stored : list Z) (compressedSize rawSize : Z) :
  storeHeader header compressedSize rawSize = Ok stored ->
  len header = HEADER_SIZE -> len stored = HEADER_SIZE.
Proof.
  intros E Hh.
  destruct (storeHeader_total header compressedSize rawSize Hh) as [s [Es Hs]].
  congruence.
Qed.

(** The shape of what one call of [Compress] returns. *)
Lemma Compress_structure (dst src d : list Z) (level r w : Z) :
  Compress dst src level = Ok (d, r, w) ->
  exists (K : Z) (firstLine rest : list Z) (k : Z)
         (items : list (lineReference * list Z)) (header : list Z),
    let payload := quoted (firstn (Z.to_nat k) firstLine) ++ linesCode items in
    2 <= K <= MAX_BACKREFERENCE_CAPACITY
    /\ HEADER_SIZE <= len dst
    /\ nextLine (limitSlice src MAX_CHUNK_SIZE)
       = (firstLine, linesText items ++ rest)
    /\ 0 <= k <= len firstLine
    /\ (k = len firstLine \/ items = [])
    /\ valid_lines K [firstLine] items
    /\ r = k + len (linesText items)
    /\ w = HEADER_SIZE + len payload
    /\ HEADER_SIZE + len payload <= len dst
    /\ len payload <= MAX_CHUNK_SIZE
    /\ storeHeader (firstn (Z.to_nat HEADER_SIZE) dst) (len payload) r
       = Ok header
    /\ d = header ++ payload
           ++ skipn (Z.to_nat (HEADER_SIZE + len payload)) dst.
Proof.
  unfold Compress. intros H.
  bind_inv H as st Est. bind_inv H as st' El. bind_inv H as header Eh.
  injection H as <- <- <-.
  destruct (Compress_start_spec dst src level st Est)
    as [K [firstLine [k Hst]]].
  cbv zeta in Hst.
  destruct Hst as [HK [Hdst [En [Hinv [Hcont [Hhd [Hbey [Hk [Hr [Hw [Hdone
                  [Hcd [Hq Hstop]]]]]]]]]]]]].
  destruct (Compress_loop_spec K HK (S (length (cs_src st))) st [firstLine]
              Hinv Hcont ltac:(lia))
    as [items [st'' [E [Hv [Hsrc [Hdone' [Hdst' [Hcl [Hr' [Hw' [Hh'
          [Hbe' Hroom]]]]]]]]]]]].
  rewrite El in E. injection E as <-.
  set (body := skipn (Z.to_nat HEADER_SIZE) dst) in *.
  set (window := limitSlice body MAX_CHUNK_SIZE) in *.
  set (q := quotedSize (firstn (Z.to_nat k) firstLine)) in *.
  assert (Hq0 : 0 <= q) by apply quotedSize_nonneg.
  assert (HM : 0 <= MAX_CHUNK_SIZE) by (unfold MAX_CHUNK_SIZE; lia).
  pose proof (limitSlice_len_le body MAX_CHUNK_SIZE HM) as [Hwin1 Hwin2].
  fold window in Hwin1, Hwin2.
  assert (Hbody : len body = len dst - HEADER_SIZE)
    by (unfold body; apply len_skipn; unfold HEADER_SIZE, SIZEOF_INT16 in *; lia).
  pose proof (len_nonneg (linesCode items)) as Hlc0.
  assert (Hcl' : q + len (linesCode items) <= len window)
    by (rewrite Hcd, len_skipn in Hcl by lia; lia).
  exists K, firstLine, (cs_src st'), k, items, header. cbv zeta.
  rewrite len_app, quoted_len. fold q.
  split; [exact HK|]. split; [exact Hdst|].
  split; [rewrite En, Hsrc; reflexivity|].
  split; [exact Hk|].
  split.
  { destruct Hstop as [Hs|Hs]; [left; exact Hs|].
    destruct Hroom as [Hi|Hi]; [right; exact Hi | lia]. }
  split; [exact Hv|]. split; [lia|]. split; [lia|]. split; [lia|].
  split; [lia|].
  split; [rewrite <- Hhd, <- Hh'; rewrite Hw', Hr', Hw, Hr in Eh;
          rewrite <- Eh; do 2 f_equal; lia|].
  rewrite Hdone', Hdone, Hdst', Hcd, Hbe', Hbey.
  rewrite <- !app_assoc. do 3 f_equal.
  rewrite skipn_skipn.
  pose proof (limitSlice_split body MAX_CHUNK_SIZE HM) as Hsplit.
  fold window in Hsplit.
  rewrite <- Hsplit at 1. rewrite skipn_window
    by (unfold len in Hcl'; lia).
  rewrite Hsplit. unfold body. rewrite skipn_skipn. f_equal.
  unfold len, HEADER_SIZE, SIZEOF_INT16 in *. lia.
Qed.

Lemma Compress_start_returns (dst src : list Z) (level : Z) :
  HEADER_SIZE + quotedSize (fst (nextLine (limitSlice src MAX_CHUNK_SIZE)))
  <= len dst ->
  quotedSize (fst (nextLine (limitSlice src MAX_CHUNK_SIZE))) <= MAX_CHUNK_SIZE ->
  exists st,
    Compress_start dst src level = Ok st
    /\ cs_bytesRead st = len (fst (nextLine (limitSlice src MAX_CHUNK_SIZE))).
Proof.
  intros Hroom Hmax. unfold Compress_start.
  destruct (nextLine (limitSlice src MAX_CHUNK_SIZE)) as [firstLine rest] eqn:En.
  cbn [fst] in *.
  pose proof (quotedSize_nonneg firstLine) as Hq0.
  assert (H4 : HEADER_SIZE = 4) by reflexivity.
  unfold slice_to. rewrite slice_in_range by lia. cbn [bind].
  rewrite slice_from_in_range by lia. cbn [bind].
  destruct (getCompressionParameters_total level) as [params [Ep HK]].
  rewrite Ep. cbn [bind].
  destruct (add_fresh_inv _ HK firstLine) as [b [Ea _]].
  rewrite Ea. cbn [bind].
  set (body := skipn (Z.to_nat HEADER_SIZE) dst).
  assert (Hbody : len body = len dst - HEADER_SIZE)
    by (unfold body; apply len_skipn; lia).
  set (window := limitSlice body MAX_CHUNK_SIZE).
  assert (Hwin : quotedSize firstLine <= len window).
  { unfold window, limitSlice. rewrite Z.gtb_ltb.
    destruct (Z.ltb_spec MAX_CHUNK_SIZE (len body)); [|lia].
    rewrite len_firstn; unfold MAX_CHUNK_SIZE in *; lia. }
  rewrite quoteSafely_fits by exact Hwin. cbn [bind].
  rewrite slice_from_in_range by (rewrite overwrite_len; rewrite ?quoted_len; lia).
  cbn [bind]. eexists. split; reflexivity.
Qed.

Lemma limitSlice_nil (s : list Z) (n : Z) :
  0 < n -> limitSlice s n = [] -> s = [].
Proof.
  intros Hn. unfold limitSlice. rewrite Z.gtb_ltb.
  destruct (Z.ltb_spec n (len s)) as [H|H]; [|trivial].
  destruct s as [|x s]; [reflexivity|].
  replace (Z.to_nat n) with (S (Z.to_nat (n - 1))) by lia.
  cbn [firstn]. discriminate.
Qed.

Lemma Compress_total (dst src : list Z) (level : Z) :
  HEADER_SIZE + quotedSize (fst (nextLine (limitSlice src MAX_CHUNK_SIZE)))
  <= len dst ->
  quotedSize (fst (nextLine (limitSlice src MAX_CHUNK_SIZE))) <= MAX_CHUNK_SIZE ->
  exists (d : list Z) (bytesRead bytesWritten : Z),
    Compress dst src level = Ok (d, bytesRead, bytesWritten)
    /\ len (fst (nextLine (limitSlice src MAX_CHUNK_SIZE))) <= bytesRead
    /\ bytesRead <= len src /\ bytesRead <= MAX_CHUNK_SIZE
    /\ (src <> [] -> 0 < bytesRead)
    /\ HEADER_SIZE <= bytesWritten <= len dst
    /\ bytesWritten <= DecompressBound
    /\ len d = len dst
    /\ skipn (Z.to_nat bytesWritten) d = skipn (Z.to_nat bytesWritten) dst.
Proof.
  intros Hroom Hmax.
  destruct (Compress_start_returns dst src level Hroom Hmax) as [st [Est Hst]].
  destruct (Compress_start_spec dst src level st Est)
    as [K [firstLine [k Hspec]]].
  cbv zeta in Hspec.
  destruct Hspec as [HK [Hdst [En [Hinv [Hcont [Hhd [_ [_ [Hr0 _]]]]]]]]].
  destruct (Compress_loop_spec K HK (S (length (cs_src st))) st [firstLine]
              Hinv Hcont ltac:(lia))
    as [items [st' [El [_ [_ [_ [_ [_ [Hr' [_ [Hh' _]]]]]]]]]]].
  assert (H4 : HEADER_SIZE = 4) by reflexivity.
  destruct (storeHeader_total (cs_header st') (cs_bytesWritten st')
              (cs_bytesRead st')) as [header [Eh Hhl]].
  { rewrite Hh', Hhd. apply len_firstn. lia. }
  assert (E : Compress dst src level
              = Ok (header ++ cs_done st' ++ cs_dst st' ++ cs_beyond st',
                    cs_bytesRead st', cs_bytesWritten st' + HEADER_SIZE)).
  { unfold Compress. rewrite Est. cbn [bind]. rewrite El. cbn [bind].
    rewrite Eh. reflexivity. }
  eexists. eexists. eexists. split; [exact E|].
  destruct (Compress_structure _ _ _ _ _ _ E)
    as [K' [firstLine' [rest [k' [items' [header' Hs]]]]]].
  cbv zeta in Hs.
  destruct Hs as [_ [_ [En' [Hk' [_ [_ [Hr [Hw [Hwd [Hpm [Ehd Hd]]]]]]]]]]].
  rewrite En in Hst. cbn [fst] in Hst. rewrite En. cbn [fst].
  rewrite En in En'. injection En' as <- Hsrc.
  pose proof (nextLine_shape (limitSlice src MAX_CHUNK_SIZE)) as [Hsplit [_ Hemp]].
  rewrite En in Hsplit, Hemp. cbn [fst snd] in Hsplit, Hemp.
  assert (HM : 0 <= MAX_CHUNK_SIZE) by (unfold MAX_CHUNK_SIZE; lia).
  pose proof (limitSlice_len_le src MAX_CHUNK_SIZE HM) as [Hl1 Hl2].
  rewrite Hsplit, Hsrc, !len_app in Hl1, Hl2.
  pose proof (len_nonneg rest). pose proof (len_nonneg firstLine).
  pose proof (len_nonneg (linesText items')).
  set (payload := quoted (firstn (Z.to_nat k') firstLine) ++ linesCode items') in *.
  pose proof (len_nonneg payload). pose proof (len_nonneg (linesText items)).
  pose proof (storeHeader_len _ _ _ _ Ehd ltac:(apply len_firstn; lia)) as Hhl'.
  split; [lia|]. split; [lia|]. split; [lia|].
  split.
  { intros Hne.
    assert (firstLine <> []).
    { intros ->. apply Hne. apply (limitSlice_nil src MAX_CHUNK_SIZE).
      - unfold MAX_CHUNK_SIZE. lia.
      - apply Hemp. reflexivity. }
    assert (0 < len firstLine).
    { destruct firstLine as [|x fl]; [contradiction|].
      rewrite len_cons. pose proof (len_nonneg fl). lia. }
    lia. }
  split; [lia|]. split; [unfold DecompressBound; lia|].
  split.
  - rewrite Hd, !len_app, len_skipn by lia. lia.
  - rewrite Hd, Hw, app_assoc.
    rewrite skipn_app, skipn_all2
      by (rewrite length_app; unfold len in *; lia).
    replace (Z.to_nat (HEADER_SIZE + len payload) - length (header' ++ payload))%nat
      with 0%nat by (rewrite length_app; unfold len in *; lia).
    reflexivity.
Qed.

(** X10. [Compress] returns whenever [dst] has room for the header and
    the quoted first line of the chunk (and that quoted line fits a
    chunk): it consumes the whole first line at least, so it makes
    progress on a non-empty source; it consumes at most [MAX_CHUNK_SIZE]
    bytes and writes at most [len(dst)] and at most [DecompressBound()]
    bytes; the buffer keeps its length and the bytes past [bytesWritten]
    are untouched. *)
Theorem Compress_returns (dst src : list Z) (level : Z) :
  HEADER_SIZE + quotedSize (fst (nextLine (limitSlice src MAX_CHUNK_SIZE)))
  <= len dst ->
  quotedSize (fst (nextLine (limitSlice src MAX_CHUNK_SIZE))) <= MAX_CHUNK_SIZE ->
  exists (d : list Z) (bytesRead bytesWritten : Z),
    Compress dst src level = Ok (d, bytesRead, bytesWritten)
    /\ len (fst (nextLine (limitSlice src MAX_CHUNK_SIZE))) <= bytesRead
    /\ bytesRead <= len src /\ bytesRead <= MAX_CHUNK_SIZE
    /\ (src <> [] -> 0 < bytesRead)
    /\ HEADER_SIZE <= bytesWritten <= len dst
    /\ bytesWritten <= DecompressBound
    /\ len d = len dst
    /\ skipn (Z.to_nat bytesWritten) d = skipn (Z.to_nat bytesWritten) dst.
Proof. exact (Compress_total dst src level). Qed.

Lemma Compress_returns_witness :
  exists (d : list Z) (bytesRead bytesWritten : Z),
    Compress (repeat 0 12) [97; 195; 10; 98] 4 = Ok (d, bytesRead, bytesWritten)
    /\ len (fst (nextLine (limitSlice [97; 195; 10; 98] MAX_CHUNK_SIZE)))
       <= bytesRead
    /\ bytesRead <= len [97; 195; 10; 98] /\ bytesRead <= MAX_CHUNK_SIZE
    /\ ([97; 195; 10; 98] <> [] -> 0 < bytesRead)
    /\ HEADER_SIZE <= bytesWritten <= len (repeat 0 12)
    /\ bytesWritten <= DecompressBound
    /\ len d = len (repeat 0 12)
    /\ skipn (Z.to_nat bytesWritten) d
       = skipn (Z.to_nat bytesWritten) (repeat 0 12).
Proof.
  apply (Compress_returns (repeat 0 12) [97; 195; 10; 98] 4).
  - vm_compute. discriminate.
  - vm_compute. discriminate.
Defined.

(** ** One step of the line decoder *)

Lemma skipn_cons_index {A : Type} (s r : list A) (x : A) (i : Z) :
  0 <= i -> skipn (Z.to_nat i) s = x :: r ->
  index s i = Ok x /\ i < len s /\ skipn (Z.to_nat (i + 1)) s = r.
Proof.
  intros Hi E.
  assert (Hn : nth_error s (Z.to_nat i) = Some x).
  { rewrite <- (firstn_skipn (Z.to_nat i) s), E.
    assert (Hl : (Z.to_nat i <= length s)%nat).
    { destruct (Nat.le_gt_cases (Z.to_nat i) (length s)) as [Hle|Hgt]; [exact Hle|].
      rewrite skipn_all2 in E by lia. discriminate. }
    rewrite nth_error_app2 by (rewrite length_firstn; lia).
    rewrite length_firstn.
    replace (Z.to_nat i - Nat.min (Z.to_nat i) (length s))%nat with 0%nat by lia.
    reflexivity. }
  assert (Hlt : (Z.to_nat i < length s)%nat)
    by (apply nth_error_Some; congruence).
  split; [|split].
  - unfold index. destruct (Z.leb_spec 0 i); [|lia]. now rewrite Hn.
  - unfold len. lia.
  - replace (Z.to_nat (i + 1)) with (1 + Z.to_nat i)%nat by lia.
    rewrite <- skipn_skipn, E. reflexivity.
Qed.

Lemma skipn_app_advance {A : Type} (s a r : list A) (i : Z) :
  0 <= i -> skipn (Z.to_nat i) s = a ++ r ->
  skipn (Z.to_nat (i + len a)) s = r.
Proof.
  intros Hi E.
  replace (Z.to_nat (i + len a)) with (length a + Z.to_nat i)%nat
    by (unfold len; lia).
  rewrite <- skipn_skipn, E, skipn_app, skipn_all, Nat.sub_diag. reflexivity.
Qed.

Lemma skipn_len_eq {A : Type} (s t : list A) (i : Z) :
  0 <= i <= len s -> skipn (Z.to_nat i) s = t -> len s = i + len t.
Proof.
  intros Hi <-. rewrite len_skipn by lia. lia.
Qed.

Lemma index_overwrite (dst bytes : list Z) (pos j : Z) :
  0 <= pos -> 0 <= j < len bytes -> pos + len bytes <= len dst ->
  index (overwrite dst pos bytes) (pos + j) = Ok (byteAt bytes j).
Proof.
  intros Hp Hj Hl. unfold overwrite, index, byteAt.
  destruct (Z.leb_spec 0 (pos + j)); [|lia].
  rewrite nth_error_app2 by (rewrite length_firstn; unfold len in *; lia).
  rewrite length_firstn.
  replace (Z.to_nat (pos + j) - Nat.min (Z.to_nat pos) (length dst))%nat
    with (Z.to_nat j) by (unfold len in *; lia).
  rewrite nth_error_app1 by (unfold len in *; lia).
  destruct (nth_error bytes (Z.to_nat j)) as [x|] eqn:E.
  - f_equal. symmetry. apply nth_error_nth. exact E.
  - apply nth_error_None in E. unfold len in *. lia.
Qed.

Lemma land_escape (c : Z) :
  is_byte c -> (Z.land c ESCAPE_BYTE =? 0) = (c <? ESCAPE_BYTE).
Proof.
  intros H.
  pose proof (forall_below
    (fun c => Bool.eqb (Z.land c ESCAPE_BYTE =? 0) (c <? ESCAPE_BYTE))
    256 eq_refl c H) as E.
  cbv beta in E. apply Bool.eqb_prop in E. exact E.
Qed.

(** A literal byte, plain or escaped. *)
Lemma decompressLine_literal (fuel : nat) (compressed key dst rest : list Z)
  (i dk bw lb c : Z) :
  0 <= i -> skipn (Z.to_nat i) compressed = quoted [c] ++ rest ->
  is_byte c -> 0 <= bw < len dst ->
  decompressLine_loop (S fuel) compressed key dst i dk bw lb
  = if c =? NEWLINE
    then lastDecompressedLine <- slice (overwrite dst bw [c]) lb (bw + 1) ;;
         Ok (LineDone (overwrite dst bw [c]) (i + quotedSize [c]) (bw + 1)
               (bw + 1) lastDecompressedLine)
    else decompressLine_loop fuel compressed key (overwrite dst bw [c])
           (i + quotedSize [c]) dk (bw + 1) lb.
Proof.
  intros Hi Hat Hc Hbw. cbn [decompressLine_loop].
  assert (HE : ESCAPE_BYTE = 128) by reflexivity.
  assert (Hlast : index (overwrite dst bw [c]) (bw + 1 - 1) = Ok c).
  { replace (bw + 1 - 1) with (bw + 0) by lia.
    rewrite index_overwrite by (rewrite ?len_cons, ?(@len_nil Z); lia).
    reflexivity. }
  cbn [quoted quotedSize app] in *. rewrite land_escape in * by exact Hc.
  unfold is_byte in Hc.
  destruct (Z.ltb_spec c ESCAPE_BYTE) as [Hplain|Hesc]; cbn [app] in Hat.
  - destruct (skipn_cons_index _ _ _ _ Hi Hat) as [Ei [Hlt _]].
    destruct (Z.ltb_spec i (len compressed)); [|lia].
    rewrite Ei. cbn [bind].
    rewrite Z.gtb_ltb. destruct (Z.ltb_spec ESCAPE_BYTE c); [lia|].
    destruct (Z.eqb_spec c ESCAPE_BYTE); [lia|]. cbn [andb]. cbv zeta.
    rewrite Z.geb_leb. destruct (Z.leb_spec (len dst) bw); [lia|].
    rewrite Ei. cbn [bind]. rewrite store_overwrite by lia. cbn [bind].
    rewrite Hlast. cbn [bind]. rewrite Z.add_0_r. reflexivity.
  - destruct (skipn_cons_index _ _ _ _ Hi Hat) as [Ei [Hlt Hat']].
    destruct (skipn_cons_index compressed rest c (i + 1) ltac:(lia) Hat')
      as [Ei' [Hlt' _]].
    destruct (Z.ltb_spec i (len compressed)); [|lia].
    rewrite Ei. cbn [bind].
    rewrite Z.gtb_ltb, Z.ltb_irrefl, Z.eqb_refl. cbn [andb]. cbv zeta.
    rewrite Z.geb_leb. destruct (Z.leb_spec (len compressed) (i + 1)); [lia|].
    rewrite Z.geb_leb. destruct (Z.leb_spec (len dst) bw); [lia|].
    rewrite Ei'. cbn [bind]. rewrite store_overwrite by lia. cbn [bind].
    rewrite Hlast. cbn [bind].
    replace (i + 1 + 1) with (i + (2 + 0)) by lia. reflexivity.
Qed.

(** A run of literal bytes without a newline. *)
Lemma decompressLine_literals (s : list Z) :
  forall (fuel : nat) (compressed key dst rest : list Z) (i dk bw lb : Z),
    0 <= i -> skipn (Z.to_nat i) compressed = quoted s ++ rest ->
    Forall is_byte s -> ~ In NEWLINE s -> 0 <= bw -> bw + len s <= len dst ->
    decompressLine_loop (length s + fuel) compressed key dst i dk bw lb
    = decompressLine_loop fuel compressed key (overwrite dst bw s)
        (i + quotedSize s) dk (bw + len s) lb.
Proof.
  induction s as [|c s IH]; intros fuel compressed key dst rest i dk bw lb
    Hi Hat Hb Hn Hbw Hroom.
  - cbn [length Nat.add quotedSize]. rewrite overwrite_nil, (@len_nil Z), !Z.add_0_r.
    reflexivity.
  - rewrite len_cons in Hroom. pose proof (len_nonneg s) as Hs.
    inversion Hb as [|c' s' Hc Hb']; subst c' s'.
    assert (Hcn : c <> NEWLINE) by (intros ->; apply Hn; now left).
    assert (Hsn : ~ In NEWLINE s) by (intros H; apply Hn; now right).
    change (c :: s) with ([c] ++ s) in Hat. rewrite quoted_app, <- app_assoc in Hat.
    cbn [length Nat.add].
    rewrite (decompressLine_literal (length s + fuel) compressed key dst
               (quoted s ++ rest) i dk bw lb c Hi Hat Hc ltac:(lia)).
    destruct (Z.eqb_spec c NEWLINE) as [|_]; [contradiction|].
    pose proof (quotedSize_nonneg [c]) as Hq.
    rewrite (IH fuel compressed key (overwrite dst bw [c]) rest
               (i + quotedSize [c]) dk (bw + 1) lb); try (assumption || lia).
    + pose proof (overwrite_app dst bw [c] s Hbw) as E.
      change (len [c]) with 1 in E. rewrite E by lia.
      cbn [app]. f_equal; [|rewrite len_cons; lia].
      change (c :: s) with ([c] ++ s). rewrite quotedSize_app. lia.
    + rewrite <- (quoted_len [c]). apply skipn_app_advance; assumption.
    + rewrite overwrite_len by (rewrite ?len_cons, ?(@len_nil Z); lia). lia.
Qed.

(** A run of literal bytes closed by the newline of the line. *)
Lemma decompressLine_literals_newline (s : list Z) (fuel : nat)
  (compressed key dst rest : list Z) (i dk bw lb : Z) :
  0 <= i -> skipn (Z.to_nat i) compressed = quoted (s ++ [NEWLINE]) ++ rest ->
  Forall is_byte s -> ~ In NEWLINE s ->
  0 <= lb <= bw -> bw + len (s ++ [NEWLINE]) <= len dst ->
  decompressLine_loop (length s + S fuel) compressed key dst i dk bw lb
  = Ok (LineDone (overwrite dst bw (s ++ [NEWLINE]))
          (i + quotedSize (s ++ [NEWLINE]))
          (bw + len (s ++ [NEWLINE])) (bw + len (s ++ [NEWLINE]))
          (firstn (Z.to_nat (bw + len (s ++ [NEWLINE]) - lb))
             (skipn (Z.to_nat lb) (overwrite dst bw (s ++ [NEWLINE]))))).
Proof.
  intros Hi Hat Hb Hn Hlb Hroom.
  rewrite len_app, len_cons, (@len_nil Z) in *. pose proof (len_nonneg s) as Hs.
  rewrite quoted_app, <- app_assoc in Hat.
  rewrite (decompressLine_literals s (S fuel) compressed key dst
             (quoted [NEWLINE] ++ rest) i dk bw lb); try (assumption || lia).
  pose proof (quotedSize_nonneg s) as Hq.
  assert (Hnl : is_byte NEWLINE) by (unfold is_byte, NEWLINE; lia).
  rewrite (decompressLine_literal fuel compressed key (overwrite dst bw s) rest
             (i + quotedSize s) dk (bw + len s) lb NEWLINE); try (assumption || lia).
  - rewrite Z.eqb_refl.
    pose proof (overwrite_app dst bw s [NEWLINE] ltac:(lia)) as E.
    rewrite E by (rewrite ?len_cons, ?(@len_nil Z); lia).
    rewrite slice_in_range
      by (rewrite ?overwrite_len; rewrite ?len_app, ?len_cons, ?(@len_nil Z); lia).
    cbn [bind]. rewrite quotedSize_app.
    replace (i + quotedSize s + quotedSize [NEWLINE])
      with (i + (quotedSize s + quotedSize [NEWLINE])) by lia.
    replace (bw + len s + 1) with (bw + (len s + (0 + 1))) by lia.
    reflexivity.
  - rewrite <- (quoted_len s). apply skipn_app_advance; assumption.
  - rewrite overwrite_len by lia. lia.
Qed.

Lemma decompressLine_exhausted (fuel : nat) (compressed key dst : list Z)
  (i dk bw lb : Z) :
  len compressed <= i ->
  decompressLine_loop (S fuel) compressed key dst i dk bw lb
  = Ok (LineDone dst i bw lb []).
Proof.
  intros H. cbn [decompressLine_loop].
  destruct (Z.ltb_spec i (len compressed)); [lia | reflexivity].
Qed.

Lemma copy_overwrite (dst piece : list Z) (bw : Z) :
  0 <= bw -> bw + len piece <= len dst ->
  put_back dst bw (copy (skipn (Z.to_nat bw) dst) piece)
  = overwrite dst bw piece.
Proof.
  intros Hbw Hroom. unfold put_back, copy, overwrite.
  rewrite length_skipn.
  replace (Nat.min (length dst - Z.to_nat bw) (length piece))
    with (length piece) by (unfold len in *; lia).
  rewrite firstn_all, skipn_skipn. do 3 f_equal. unfold len. lia.
Qed.

Lemma byteAt_piece (key : list Z) (dk n j : Z) :
  0 <= dk -> 0 <= j < n -> dk + n <= len key ->
  byteAt (firstn (Z.to_nat n) (skipn (Z.to_nat dk) key)) j = byteAt key (dk + j).
Proof.
  intros Hdk Hj Hn. unfold byteAt.
  rewrite nth_firstn.
  destruct (Nat.ltb_spec (Z.to_nat j) (Z.to_nat n)); [|lia].
  rewrite nth_skipn. f_equal. lia.
Qed.

(** A length token: a copy from the key line. *)
Lemma decompressLine_token (fuel : nat) (compressed key dst rest : list Z)
  (i dk bw lb n : Z) :
  0 <= i -> skipn (Z.to_nat i) compressed = lengthCode n ++ rest ->
  0 < n -> 0 <= dk -> dk + n <= len key -> 0 <= bw -> bw + n <= len dst ->
  decompressLine_loop (S fuel) compressed key dst i dk bw lb
  = if byteAt key (dk + n - 1) =? NEWLINE
    then lastDecompressedLine <-
           slice (overwrite dst bw
                    (firstn (Z.to_nat n) (skipn (Z.to_nat dk) key)))
             lb (bw + n) ;;
         Ok (LineDone
               (overwrite dst bw (firstn (Z.to_nat n) (skipn (Z.to_nat dk) key)))
               (i + len (lengthCode n)) (bw + n) (bw + n) lastDecompressedLine)
    else decompressLine_loop fuel compressed key
           (overwrite dst bw (firstn (Z.to_nat n) (skipn (Z.to_nat dk) key)))
           (i + len (lengthCode n)) (spaceFrom key (dk + n)) (bw + n) lb.
Proof.
  intros Hi Hat Hn Hdk Hkey Hbw Hroom. cbn [decompressLine_loop].
  destruct (lengthCode_head n rest Hn) as [b [tl [Eb Hb]]].
  pose proof Hat as Hat'. rewrite Eb in Hat'.
  destruct (skipn_cons_index _ _ _ _ Hi Hat') as [Ei [Hlt _]].
  destruct (Z.ltb_spec i (len compressed)); [|lia].
  rewrite Ei. cbn [bind].
  rewrite Z.gtb_ltb. destruct (Z.ltb_spec ESCAPE_BYTE b); [|lia].
  rewrite slice_from_in_range by lia. cbn [bind].
  rewrite Hat, decodeLength_lengthCode by exact Hn.
  destruct (Z.ltb_spec (len key - dk) n); [lia|].
  rewrite slice_from_in_range by lia. cbn [bind].
  rewrite slice_in_range by lia. cbn [bind].
  replace (dk + n - dk) with n by lia.
  set (piece := firstn (Z.to_nat n) (skipn (Z.to_nat dk) key)).
  assert (Hpl : len piece = n).
  { unfold piece. rewrite len_firstn; [reflexivity|].
    rewrite len_skipn by lia. lia. }
  rewrite copy_overwrite by lia.
  rewrite indexOfFirstSpace_spaceFrom by lia. cbn [bind].
  replace (bw + n - 1) with (bw + (n - 1)) by lia.
  rewrite index_overwrite by lia. cbn [bind].
  unfold piece at 1. rewrite byteAt_piece by lia.
  replace (dk + (n - 1)) with (dk + n - 1) by lia.
  reflexivity.
Qed.

(** ** The line decoder on the output of the line compressor *)

Lemma decompressLine_loop_mono (f : nat) :
  forall (f' : nat) (compressed key dst : list Z) (i dk bw lb : Z)
         (r : lineOutcome),
    (f <= f')%nat ->
    decompressLine_loop f compressed key dst i dk bw lb = Ok r ->
    decompressLine_loop f' compressed key dst i dk bw lb = Ok r.
Proof.
  induction f as [|f IH]; intros f' compressed key dst i dk bw lb r Hf H;
    [discriminate H|].
  destruct f' as [|f']; [lia|].
  cbn [decompressLine_loop] in *.
  repeat match type of H with
         | (if ?c then _ else _) = Ok _ => destruct c
         | bind ?m _ = Ok _ =>
             destruct m; cbn [bind] in *; [|discriminate H|discriminate H]
         | (let '(_, _) := ?p in _) = Ok _ => destruct p
         | (let _ := _ in _) = Ok _ => cbv zeta in *
         end;
    try exact H; try (apply IH; [lia | exact H]).
Qed.

Lemma In_skipn_incl {A : Type} (x : A) (n : nat) (l : list A) :
  In x (skipn n l) -> In x l.
Proof.
  intros H. rewrite <- (firstn_skipn n l). apply in_or_app. now right.
Qed.

Lemma In_firstn_incl {A : Type} (x : A) (n : nat) (l : list A) :
  In x (firstn n l) -> In x l.
Proof.
  intros H. rewrite <- (firstn_skipn n l). apply in_or_app. now left.
Qed.

Lemma whole_line_byteAt (curr : list Z) (j : Z) :
  whole_line curr -> 0 <= j < len curr ->
  (byteAt curr j = NEWLINE <-> j = len curr - 1).
Proof.
  intros [body [-> Hb]] Hj. rewrite len_app, len_cons, (@len_nil Z) in *.
  unfold byteAt. split.
  - intros E. destruct (Z.eq_dec j (len body)) as [->|Hne]; [lia|].
    exfalso. apply Hb. rewrite app_nth1 in E by (unfold len in *; lia).
    rewrite <- E. apply nth_In. unfold len in *. lia.
  - intros ->. rewrite app_nth2 by (unfold len; lia).
    replace (Z.to_nat (len body + (0 + 1) - 1) - length body)%nat with 0%nat
      by (unfold len; lia).
    reflexivity.
Qed.

Lemma whole_line_skipn (curr : list Z) (a : Z) :
  whole_line curr -> 0 <= a < len curr ->
  exists s, skipn (Z.to_nat a) curr = s ++ [NEWLINE] /\ ~ In NEWLINE s.
Proof.
  intros [body [-> Hb]] Ha. rewrite len_app, len_cons, (@len_nil Z) in Ha.
  exists (skipn (Z.to_nat a) body). split.
  - rewrite skipn_app.
    replace (Z.to_nat a - length body)%nat with 0%nat by (unfold len in *; lia).
    reflexivity.
  - intros H. apply Hb. rewrite <- (firstn_skipn (Z.to_nat a) body).
    apply in_or_app. now right.
Qed.

Lemma whole_line_firstn (curr : list Z) (a b : Z) :
  whole_line curr -> 0 <= a -> b < len curr ->
  ~ In NEWLINE (firstn (Z.to_nat (b - a)) (skipn (Z.to_nat a) curr)).
Proof.
  intros [body [-> Hb]] Ha Hlt H.
  rewrite len_app, len_cons, (@len_nil Z) in Hlt.
  apply Hb. rewrite skipn_app, firstn_app in H.
  apply in_app_or in H. destruct H as [H|H].
  - apply (In_skipn_incl _ (Z.to_nat a)).
    apply (In_firstn_incl _ (Z.to_nat (b - a))). exact H.
  - exfalso. rewrite length_skipn in H.
    replace (Z.to_nat (b - a) - (length body - Z.to_nat a))%nat with 0%nat in H
      by (unfold len in *; lia).
    rewrite firstn_O in H. exact H.
Qed.

Lemma In_region (x : Z) (s : list Z) (a n : nat) :
  In x (firstn n (skipn a s)) -> In x s.
Proof.
  intros H. apply (In_skipn_incl _ a). apply (In_firstn_incl _ n). exact H.
Qed.

Lemma Forall_region (P : Z -> Prop) (s : list Z) (a n : nat) :
  Forall P s -> Forall P (firstn n (skipn a s)).
Proof.
  rewrite !Forall_forall. intros H x Hx. apply H.
  apply (In_region x s a n Hx).
Qed.

Lemma Forall_skipn' (P : Z -> Prop) (s : list Z) (a : nat) :
  Forall P s -> Forall P (skipn a s).
Proof.
  rewrite !Forall_forall. intros H x Hx. apply H.
  apply (In_skipn_incl _ a). exact Hx.
Qed.

Lemma firstn_extend (s : list Z) (a n : Z) :
  0 <= a -> 0 <= n -> a + n < len s ->
  firstn (Z.to_nat (n + 1)) (skipn (Z.to_nat a) s)
  = firstn (Z.to_nat n) (skipn (Z.to_nat a) s) ++ [byteAt s (a + n)].
Proof.
  intros Ha Hn Hlt.
  assert (Hi : index (skipn (Z.to_nat a) s) n = Ok (byteAt s (a + n))).
  { rewrite index_skipn_shift by lia. apply index_byteAt. lia. }
  apply (firstn_index _ _ _ Hi).
Qed.

Lemma lengthCode_zero : lengthCode 0 = [].
Proof. reflexivity. Qed.

Section LineDecoder.

Variables key curr : list Z.
Variable ends : bool.
Hypothesis Hbytes : Forall is_byte curr.
Hypothesis Hwhole : ends = true -> whole_line curr.
Hypothesis Hpartial : ends = false -> ~ In NEWLINE curr.

(** The last byte of the pending match. *)
Lemma pending_last (same ik ic : Z) :
  0 < same -> same <= ik -> same <= ic -> ik <= len key -> ic <= len curr ->
  firstn (Z.to_nat same) (skipn (Z.to_nat (ik - same)) key)
  = firstn (Z.to_nat same) (skipn (Z.to_nat (ic - same)) curr) ->
  byteAt key (ik - same + same - 1) = byteAt curr (ic - 1).
Proof.
  intros Hs Hik Hic Hk Hc E.
  pose proof (byteAt_piece key (ik - same) same (same - 1)
                ltac:(lia) ltac:(lia) ltac:(lia)) as Ek.
  pose proof (byteAt_piece curr (ic - same) same (same - 1)
                ltac:(lia) ltac:(lia) ltac:(lia)) as Ec.
  rewrite E in Ek. rewrite Ek in Ec.
  replace (ik - same + same - 1) with (ik - same + (same - 1)) by lia.
  rewrite Ec. f_equal. lia.
Qed.

Lemma not_newline_before (j : Z) :
  0 <= j -> j < len curr - 1 \/ ends = false -> j < len curr ->
  byteAt curr j <> NEWLINE.
Proof.
  intros Hj Hcase Hlt E. destruct ends eqn:Ee.
  - destruct Hcase as [Hc|Hc]; [|discriminate].
    apply (whole_line_byteAt curr j (Hwhole eq_refl)) in E; lia.
  - apply (Hpartial eq_refl). rewrite <- E. unfold byteAt. apply nth_In.
    unfold len in *. lia.
Qed.

(** From the exit of the loop of [compressLine] on: the pending match and
    the rest of the line. *)
Lemma decompress_tail (same ik ic : Z) (compressed rest dst : list Z)
  (i lb : Z) :
  0 <= same -> same <= ik -> same <= ic -> ik <= len key -> ic <= len curr ->
  firstn (Z.to_nat same) (skipn (Z.to_nat (ik - same)) key)
  = firstn (Z.to_nat same) (skipn (Z.to_nat (ic - same)) curr) ->
  (ends = true -> ic - same < len curr) ->
  (ends = false -> rest = []) ->
  0 <= i <= len compressed ->
  skipn (Z.to_nat i) compressed
  = lengthCode same ++ quoted (skipn (Z.to_nat ic) curr) ++ rest ->
  0 <= lb -> lb + len curr <= len dst ->
  exists f0,
    (f0 <= S (Z.to_nat (len compressed - i)))%nat
    /\ decompressLine_loop f0 compressed key dst i (ik - same)
         (lb + (ic - same)) lb
       = Ok (lineResult ends
               (overwrite dst (lb + (ic - same))
                  (skipn (Z.to_nat (ic - same)) curr))
               (i + len (lengthCode same ++ quoted (skipn (Z.to_nat ic) curr)))
               lb (len curr)).
Proof.
  intros Hs Hik Hic Hk Hc Epend Hlive Hrest Hi Hat Hlb Hroom.
  set (tail := skipn (Z.to_nat ic) curr) in *.
  remember (firstn (Z.to_nat same) (skipn (Z.to_nat (ic - same)) curr))
    as piece eqn:Epiece.
  assert (Hsplit : skipn (Z.to_nat (ic - same)) curr = piece ++ tail).
  { rewrite (skipn_token curr (ic - same) ic) by lia.
    rewrite Epiece. unfold tail. do 3 f_equal. lia. }
  assert (Htl : len tail = len curr - ic) by (apply len_skipn; lia).
  assert (Hpl : len piece = same).
  { rewrite Epiece. rewrite len_firstn; [reflexivity|].
    rewrite len_skipn by lia. lia. }
  pose proof (quotedSize_bounds tail) as Hq.
  pose proof (len_nonneg rest) as Hr0.
  pose proof (lengthCode_len_bounds same Hs) as [Hlc [_ Hlc1]].
  pose proof (skipn_len_eq _ _ _ Hi Hat) as Hcl.
  rewrite !len_app, quoted_len in Hcl.
  assert (Htb : Forall is_byte tail) by (apply Forall_skipn'; exact Hbytes).
  pose proof not_newline_before as Hnb.
  rewrite Hsplit. unfold lineResult. rewrite len_app, quoted_len.
  destruct (Z.eq_dec same 0) as [Hz|Hnz].
  - (* nothing is pending *)
    clear Hpl. subst same. rewrite lengthCode_zero in *. cbn [app] in Hat.
    assert (Ep : piece = []) by (rewrite Epiece; reflexivity).
    rewrite Ep. cbn [app].
    rewrite (@len_nil Z), !Z.sub_0_r, !Z.add_0_l in *.
    destruct ends eqn:Ee.
    + destruct (whole_line_skipn curr ic (Hwhole eq_refl) ltac:(lia))
        as [s [Es Hsn]].
      fold tail in Es.
      assert (Hsb : Forall is_byte s).
      { rewrite Es in Htb. apply Forall_app in Htb. apply Htb. }
      exists (length s + 1)%nat. split.
      { assert (Hts : len tail = len s + 1)
          by (rewrite Es, len_app, len_cons, (@len_nil Z); lia).
        unfold len in *. lia. }
      rewrite Es in Hat.
      rewrite (decompressLine_literals_newline s 0 compressed key dst rest i
                 ik (lb + ic) lb); try (assumption || lia);
        [|rewrite <- Es; lia].
      rewrite <- Es. do 2 f_equal; try lia. do 2 f_equal. lia.
    + exists (length tail + 1)%nat. split; [unfold len in *; lia|].
      assert (Htn : ~ In NEWLINE tail).
      { intros H. apply (Hpartial eq_refl). apply (In_skipn_incl _ _ _ H). }
      rewrite (Hrest eq_refl) in *. rewrite app_nil_r in Hat.
      rewrite (decompressLine_literals tail 1 compressed key dst [] i ik
                 (lb + ic) lb); try (assumption || lia);
        [|rewrite app_nil_r; exact Hat].
      rewrite decompressLine_exhausted by (rewrite (@len_nil Z) in Hcl; lia).
      do 2 f_equal. lia.
  - (* a length token comes first *)
    assert (Hpos : 0 < same) by lia.
    pose proof Epend as Epend'. rewrite Epiece in Epend'.
    pose proof (pending_last same ik ic Hpos Hik Hic Hk Hc Epend') as Elast.
    clear Epend'.
    assert (Hstep : forall f,
      decompressLine_loop (S f) compressed key dst i (ik - same)
        (lb + (ic - same)) lb
      = if byteAt curr (ic - 1) =? NEWLINE
        then lastDecompressedLine <-
               slice (overwrite dst (lb + (ic - same)) piece) lb (lb + ic) ;;
             Ok (LineDone (overwrite dst (lb + (ic - same)) piece)
                   (i + len (lengthCode same)) (lb + ic) (lb + ic)
                   lastDecompressedLine)
        else decompressLine_loop f compressed key
               (overwrite dst (lb + (ic - same)) piece)
               (i + len (lengthCode same)) (spaceFrom key ik) (lb + ic) lb).
    { intros f.
      rewrite (decompressLine_token f compressed key dst
                 (quoted tail ++ rest) i (ik - same) (lb + (ic - same)) lb same);
        try (assumption || lia).
      rewrite Elast, Epend.
      replace (lb + (ic - same) + same) with (lb + ic) by lia.
      replace (ik - same + same) with ik by lia. reflexivity. }
    assert (Hd1 : len (overwrite dst (lb + (ic - same)) piece) = len dst)
      by (apply overwrite_len; lia).
    assert (Hat1 : skipn (Z.to_nat (i + len (lengthCode same))) compressed
                   = quoted tail ++ rest)
      by (apply skipn_app_advance; [lia | exact Hat]).
    assert (Hjoin : forall t,
              overwrite (overwrite dst (lb + (ic - same)) piece) (lb + ic) t
              = overwrite dst (lb + (ic - same)) (piece ++ t)
                \/ len dst < lb + ic + len t).
    { intros t. destruct (Z.le_gt_cases (lb + ic + len t) (len dst)) as [Hle|Hgt];
        [left | right; lia].
      replace (lb + ic) with (lb + (ic - same) + len piece) by lia.
      apply overwrite_app; lia. }
    destruct ends eqn:Ee.
    + destruct (Z.eq_dec ic (len curr)) as [Hend|Hmid].
      * (* the pending match holds the newline *)
        exists 1%nat. split; [lia|]. rewrite Hstep.
        assert (Enl : byteAt curr (ic - 1) = NEWLINE)
          by (apply (whole_line_byteAt curr (ic - 1) (Hwhole eq_refl)); lia).
        rewrite Enl, Z.eqb_refl.
        rewrite slice_in_range by lia. cbn [bind].
        assert (tail = []) as ->.
        { unfold tail. apply skipn_all2. unfold len in *. lia. }
        rewrite app_nil_r. cbn [quotedSize].
        do 2 f_equal; try lia. do 2 f_equal. lia.
      * destruct (whole_line_skipn curr ic (Hwhole eq_refl) ltac:(lia))
          as [s [Es Hsn]].
        fold tail in Es.
        assert (Hsb : Forall is_byte s).
        { rewrite Es in Htb. apply Forall_app in Htb. apply Htb. }
        exists (S (length s + 1)). split.
        { assert (Hts : len tail = len s + 1)
            by (rewrite Es, len_app, len_cons, (@len_nil Z); lia).
          unfold len in *. lia. }
        rewrite Hstep.
        destruct (Z.eqb_spec (byteAt curr (ic - 1)) NEWLINE) as [Enl|_].
        { exfalso. revert Enl. apply Hnb; lia. }
        rewrite Es in Hat1.
        rewrite (decompressLine_literals_newline s 0 compressed key _ rest
                   (i + len (lengthCode same)) (spaceFrom key ik) (lb + ic) lb);
          try (assumption || lia); [|rewrite <- Es; lia].
        rewrite <- Es.
        destruct (Hjoin tail) as [-> | Hbad]; [|lia].
        do 2 f_equal; try lia. do 2 f_equal. lia.
    + exists (S (length tail + 1)). split; [unfold len in *; lia|].
      rewrite Hstep.
      destruct (Z.eqb_spec (byteAt curr (ic - 1)) NEWLINE) as [Enl|_].
      { exfalso. revert Enl. apply Hnb; (lia || (right; reflexivity)). }
      assert (Htn : ~ In NEWLINE tail).
      { intros H. apply (Hpartial eq_refl). apply (In_skipn_incl _ _ _ H). }
      rewrite (Hrest eq_refl) in *. rewrite app_nil_r in Hat1.
      rewrite (decompressLine_literals tail 1 compressed key _ []
                 (i + len (lengthCode same)) (spaceFrom key ik) (lb + ic) lb);
        try (assumption || lia); [|rewrite app_nil_r; exact Hat1].
      rewrite decompressLine_exhausted by (rewrite (@len_nil Z) in Hcl; lia).
      destruct (Hjoin tail) as [-> | Hbad]; [|lia].
      do 2 f_equal; lia.
Qed.

(** The pending match, when the line goes on after it. *)
Lemma decompress_pending (same ik ic : Z) (compressed R dst : list Z)
  (i lb : Z) :
  0 <= same -> same <= ik -> same <= ic -> ik < len key -> ic < len curr ->
  firstn (Z.to_nat same) (skipn (Z.to_nat (ik - same)) key)
  = firstn (Z.to_nat same) (skipn (Z.to_nat (ic - same)) curr) ->
  (same = 0 -> byteAt key ik = SPACE) ->
  0 <= i -> skipn (Z.to_nat i) compressed = lengthCode same ++ R ->
  0 <= lb -> lb + len curr <= len dst ->
  exists fa : nat,
    Z.of_nat fa <= len (lengthCode same)
    /\ forall f : nat,
         decompressLine_loop (fa + f) compressed key dst i (ik - same)
           (lb + (ic - same)) lb
         = decompressLine_loop f compressed key
             (overwrite dst (lb + (ic - same))
                (firstn (Z.to_nat same) (skipn (Z.to_nat (ic - same)) curr)))
             (i + len (lengthCode same)) (spaceFrom key ik) (lb + ic) lb.
Proof.
  intros Hs Hik Hic Hk Hc Epend Hsp Hi Hat Hlb Hroom.
  pose proof (lengthCode_len_bounds same Hs) as [Hlc [_ Hlc1]].
  destruct (Z.eq_dec same 0) as [Hz|Hnz].
  - exists 0%nat. subst same. rewrite lengthCode_zero. split; [reflexivity|].
    intros f. cbn [Nat.add Z.to_nat firstn]. rewrite overwrite_nil.
    rewrite spaceFrom_fixed by (lia || auto).
    rewrite (@len_nil Z), !Z.sub_0_r, Z.add_0_r. reflexivity.
  - exists 1%nat. split; [lia|]. intros f. cbn [Nat.add].
    assert (Hpos : 0 < same) by lia.
    pose proof (pending_last same ik ic Hpos Hik Hic ltac:(lia) ltac:(lia) Epend)
      as Elast.
    rewrite (decompressLine_token f compressed key dst R i (ik - same)
               (lb + (ic - same)) lb same); try (assumption || lia).
    rewrite Elast, Epend.
    destruct (Z.eqb_spec (byteAt curr (ic - 1)) NEWLINE) as [Enl|_].
    { exfalso. revert Enl. apply not_newline_before; lia. }
    replace (lb + (ic - same) + same) with (lb + ic) by lia.
    replace (ik - same + same) with ik by lia. reflexivity.
Qed.

Lemma lineCode_loop_done (fuel : nat) (ik : Z) :
  lineCode_loop fuel key curr ik (len curr) 0 = [].
Proof.
  destruct fuel as [|fuel]; [reflexivity|]. cbn [lineCode_loop].
  rewrite Z.ltb_irrefl, andb_false_r, lengthCode_zero, to_nat_len, skipn_all.
  reflexivity.
Qed.

(** The line decoder follows the loop of [compressLine]. *)
Lemma decompress_lineCode (fuel : nat) :
  forall (ik ic same : Z) (compressed rest dst : list Z) (i lb : Z),
    0 <= same -> same <= ik -> same <= ic -> ik <= len key -> ic <= len curr ->
    firstn (Z.to_nat same) (skipn (Z.to_nat (ik - same)) key)
    = firstn (Z.to_nat same) (skipn (Z.to_nat (ic - same)) curr) ->
    (same = 0 -> ik < len key -> byteAt key ik = SPACE) ->
    (ends = true -> ic - same < len curr) ->
    (ends = false -> rest = []) ->
    (Z.to_nat (len key - ik) + Z.to_nat (len curr - ic) < fuel)%nat ->
    0 <= i <= len compressed ->
    skipn (Z.to_nat i) compressed
    = lineCode_loop fuel key curr ik ic same ++ rest ->
    0 <= lb -> lb + len curr <= len dst ->
    exists f0,
      (f0 <= S (Z.to_nat (len compressed - i)))%nat
      /\ decompressLine_loop f0 compressed key dst i (ik - same)
           (lb + (ic - same)) lb
         = Ok (lineResult ends
                 (overwrite dst (lb + (ic - same))
                    (skipn (Z.to_nat (ic - same)) curr))
                 (i + len (lineCode_loop fuel key curr ik ic same))
                 lb (len curr)).
Proof.
  induction fuel as [|fuel IH];
    intros ik ic same compressed rest dst i lb Hs Hik Hic Hk Hc Epend Hsp
      Hlive Hrest Hfuel Hi Hat Hlb Hroom; [lia|].
  cbn [lineCode_loop] in *.
  destruct (Z.ltb_spec ik (len key)) as [Hk'|Hk']; cbn [andb] in *.
  2: { rewrite <- app_assoc in Hat. apply (decompress_tail same ik ic compressed rest dst i lb); assumption. }
  destruct (Z.ltb_spec ic (len curr)) as [Hc'|Hc'].
  2: { rewrite <- app_assoc in Hat. apply (decompress_tail same ik ic compressed rest dst i lb); assumption. }
  destruct (Z.eqb_spec (byteAt curr ic) (byteAt key ik)) as [Heq|Hne].
  - (* one more matching byte *)
    replace (ik - same) with (ik + 1 - (same + 1)) by lia.
    replace (ic - same) with (ic + 1 - (same + 1)) by lia.
    apply (IH (ik + 1) (ic + 1) (same + 1) compressed rest dst i lb);
      try (assumption || lia).
    replace (ik + 1 - (same + 1)) with (ik - same) by lia.
    replace (ic + 1 - (same + 1)) with (ic - same) by lia.
    rewrite !firstn_extend by lia. rewrite Epend.
    replace (ik - same + same) with ik by lia.
    replace (ic - same + same) with ic by lia. now rewrite Heq.
  - pose proof (spaceFrom_bounds curr ic ltac:(lia)) as Hnext.
    pose proof (spaceFrom_bounds key ik ltac:(lia)) as Hik'.
    assert (Hadv : ik + 1 <= spaceFrom key ik \/ ic + 1 <= spaceFrom curr ic).
    { destruct (Z.eq_dec (byteAt key ik) SPACE) as [Hsk|Hsk].
      - right. apply spaceFrom_advances; [lia | congruence].
      - left. apply spaceFrom_advances; [lia | exact Hsk]. }
    set (next := spaceFrom curr ic) in *. set (ik' := spaceFrom key ik) in *.
    remember (firstn (Z.to_nat (next - ic)) (skipn (Z.to_nat ic) curr))
      as token eqn:Etoken.
    destruct (Z.eq_dec next (len curr)) as [Hend|Hmid].
    + (* the skipped sequence is the rest of the line *)
      assert (Etail : token = skipn (Z.to_nat ic) curr).
      { rewrite Etoken. apply firstn_all2. rewrite length_skipn.
        unfold len in *. lia. }
      rewrite Hend, lineCode_loop_done, app_nil_r, Etail in *.
      rewrite <- app_assoc in Hat. apply (decompress_tail same ik ic compressed rest dst i lb); assumption.
    + set (code := lineCode_loop fuel key curr ik' next 0) in *.
      remember (firstn (Z.to_nat same) (skipn (Z.to_nat (ic - same)) curr))
        as piece eqn:Epiece.
      assert (Hpl : len piece = same).
      { rewrite Epiece. rewrite len_firstn; [reflexivity|].
        rewrite len_skipn by lia. lia. }
      assert (Htl : len token = next - ic).
      { rewrite Etoken. rewrite len_firstn; [reflexivity|].
        rewrite len_skipn by lia. lia. }
      assert (Htn : ~ In NEWLINE token).
      { rewrite Etoken. destruct ends eqn:Ee.
        - apply whole_line_firstn; [auto | lia | lia].
        - intros H. apply (Hpartial eq_refl). apply (In_region _ _ _ _ H). }
      assert (Htb : Forall is_byte token)
        by (rewrite Etoken; apply Forall_region; exact Hbytes).
      pose proof (quotedSize_bounds token) as Hq.
      pose proof (lengthCode_len_bounds same Hs) as [Hlc [_ Hlc1]].
      pose proof (len_nonneg code) as Hcode0. pose proof (len_nonneg rest) as Hr0.
      pose proof (skipn_len_eq _ _ _ Hi Hat) as Hcl.
      rewrite !len_app, quoted_len in Hcl.
      rewrite <- !app_assoc in Hat.
      assert (Epend' : firstn (Z.to_nat same) (skipn (Z.to_nat (ik - same)) key)
                       = firstn (Z.to_nat same)
                           (skipn (Z.to_nat (ic - same)) curr))
        by (rewrite <- Epiece; exact Epend).
      destruct (decompress_pending same ik ic compressed
                  (quoted token ++ code ++ rest) dst i lb Hs Hik Hic Hk' Hc'
                  Epend' ltac:(auto) ltac:(lia) Hat Hlb Hroom) as [fa [Hfa Ha]].
      rewrite <- Epiece in Ha. fold ik' in Ha.
      assert (Hat1 : skipn (Z.to_nat (i + len (lengthCode same))) compressed
                     = quoted token ++ code ++ rest)
        by (apply skipn_app_advance; [lia | exact Hat]).
      assert (Hat2 : skipn (Z.to_nat (i + len (lengthCode same)
                                      + quotedSize token)) compressed
                     = code ++ rest).
      { rewrite <- (quoted_len token).
        apply skipn_app_advance; [lia | exact Hat1]. }
      set (dstB := overwrite dst (lb + (ic - same)) (piece ++ token)).
      assert (HdB : len dstB = len dst)
        by (apply overwrite_len; rewrite ?len_app; lia).
      destruct (IH ik' next 0 compressed rest dstB
                  (i + len (lengthCode same) + quotedSize token) lb)
        as [f0 [Hf0 E]]; try (assumption || lia).
      { reflexivity. }
      { intros _ Hlt. apply spaceFrom_at; lia. }
      exists (fa + (length token + f0))%nat. split; [unfold len in *; lia|].
      rewrite Ha.
      rewrite (decompressLine_literals token f0 compressed key _ (code ++ rest)
                 (i + len (lengthCode same)) ik' (lb + ic) lb);
        try (assumption || lia);
        [|rewrite overwrite_len by lia; lia].
      replace (overwrite (overwrite dst (lb + (ic - same)) piece) (lb + ic) token)
        with dstB
        by (unfold dstB; replace (lb + ic) with (lb + (ic - same) + len piece)
              by lia; symmetry; apply overwrite_app; lia).
      rewrite !Z.sub_0_r in E.
      replace (lb + ic + len token) with (lb + next) by lia.
      rewrite E. f_equal.
      assert (Hjoin : overwrite dstB (lb + next) (skipn (Z.to_nat next) curr)
                      = overwrite dst (lb + (ic - same))
                          (skipn (Z.to_nat (ic - same)) curr)).
      { unfold dstB.
        replace (lb + next) with (lb + (ic - same) + len (piece ++ token))
          by (rewrite len_app; lia).
        rewrite overwrite_app
          by (rewrite ?len_app, ?len_skipn; lia).
        f_equal. rewrite <- app_assoc.
        rewrite (skipn_token curr (ic - same) ic) by lia.
        rewrite (skipn_token curr ic next) by lia.
        rewrite Epiece, Etoken. do 3 f_equal. lia. }
      rewrite Hjoin. unfold lineResult. f_equal.
      rewrite !len_app, quoted_len. unfold code. lia.
Qed.

End LineDecoder.

(** ** The chunk decoder on the output of the chunk compressor *)

Lemma header_byte_flags (before : Z) :
  1 <= before <= 63 ->
  let headerByte := to_byte (before + ESCAPE_BYTE) in
  let mask := Z.lxor 255 (Z.lor ESCAPE_BYTE NO_SHARED_PREFIX_FLAG) in
  ESCAPE_BYTE < headerByte
  /\ Z.land headerByte NO_SHARED_PREFIX_FLAG = 0
  /\ Z.land headerByte mask = before
  /\ ESCAPE_BYTE < Z.lor headerByte NO_SHARED_PREFIX_FLAG
  /\ Z.land (Z.lor headerByte NO_SHARED_PREFIX_FLAG) NO_SHARED_PREFIX_FLAG <> 0
  /\ Z.land (Z.lor headerByte NO_SHARED_PREFIX_FLAG) mask = before.
Proof.
  intros H.
  pose proof (forall_below
    (fun b =>
       (b =? 0)
       || ((ESCAPE_BYTE <? to_byte (b + ESCAPE_BYTE))
           && (Z.land (to_byte (b + ESCAPE_BYTE)) NO_SHARED_PREFIX_FLAG =? 0)
           && (Z.land (to_byte (b + ESCAPE_BYTE))
                 (Z.lxor 255 (Z.lor ESCAPE_BYTE NO_SHARED_PREFIX_FLAG)) =? b)
           && (ESCAPE_BYTE
               <? Z.lor (to_byte (b + ESCAPE_BYTE)) NO_SHARED_PREFIX_FLAG)
           && negb (Z.land (Z.lor (to_byte (b + ESCAPE_BYTE))
                              NO_SHARED_PREFIX_FLAG)
                      NO_SHARED_PREFIX_FLAG =? 0)
           && (Z.land (Z.lor (to_byte (b + ESCAPE_BYTE)) NO_SHARED_PREFIX_FLAG)
                 (Z.lxor 255 (Z.lor ESCAPE_BYTE NO_SHARED_PREFIX_FLAG)) =? b)))
    64 eq_refl before) as Hall.
  cbv beta in Hall.
  destruct (Z.eqb_spec before 0); [lia|]. cbn [orb] in Hall.
  specialize (Hall ltac:(lia)).
  repeat (apply andb_prop in Hall; destruct Hall as [Hall ?]).
  cbv zeta.
  repeat match goal with
         | H : (_ <? _) = true |- _ => apply Z.ltb_lt in H
         | H : (_ =? _) = true |- _ => apply Z.eqb_eq in H
         | H : negb (_ =? _) = true |- _ =>
             apply negb_true_iff in H; apply Z.eqb_neq in H
         end.
  repeat split; assumption.
Qed.

Lemma overwrite_line (dst curr : list Z) (lb : Z) :
  0 <= lb -> lb + len curr <= len dst ->
  firstn (Z.to_nat (len curr)) (skipn (Z.to_nat lb) (overwrite dst lb curr))
  = curr.
Proof.
  intros Hlb Hroom. rewrite to_nat_len. apply overwrite_slice; lia.
Qed.

(** The end of one pass of the outer loop of [decompressChunk], after the
    inner loop has produced the line [curr]. *)
Lemma chunk_finish (f f0 : nat) (dring : backrefBuffer)
  (X key dst curr code rest : list Z) (dk lb : Z) (ends : bool) :
  X = code ++ rest -> (f0 <= S (length X))%nat ->
  decompressLine_loop f0 X key dst 0 dk lb lb
  = Ok (lineResult ends (overwrite dst lb curr) (len code) lb (len curr)) ->
  0 <= lb -> lb + len curr <= len dst ->
  (outcome <- decompressLine_loop (S (length X)) X key dst 0 dk lb lb ;;
   match outcome with
   | LineCorrupt dst => Ok (dst, -1)
   | LineDone dst idxCompressed bytesWritten idxLineBegin
       lastDecompressedLine =>
       backref <- add dring lastDecompressedLine ;;
       compressed <- slice_from X idxCompressed ;;
       decompressChunk_loop f backref compressed dst bytesWritten idxLineBegin
   end)
  = (backref <- add dring (if ends then curr else []) ;;
     decompressChunk_loop f backref rest (overwrite dst lb curr)
       (lb + len curr) (if ends then lb + len curr else lb)).
Proof.
  intros EX Hf0 Hline Hlb Hroom.
  rewrite (decompressLine_loop_mono f0 (S (length X)) _ _ _ _ _ _ _ _ Hf0 Hline).
  cbn [bind]. unfold lineResult.
  rewrite overwrite_line by lia.
  destruct (add dring (if ends then curr else [])) as [b| |]; cbn [bind];
    try reflexivity.
  pose proof (len_nonneg code). pose proof (len_nonneg rest).
  rewrite slice_from_in_range by (rewrite EX, len_app; lia). cbn [bind].
  rewrite EX, to_nat_len, skipn_app, skipn_all, Nat.sub_diag. reflexivity.
Qed.

Lemma index_cons_zero {A : Type} (x : A) (s : list A) : index (x :: s) 0 = Ok x.
Proof. reflexivity. Qed.

Lemma slice_from_cons_one {A : Type} (x : A) (s : list A) :
  slice_from (x :: s) 1 = Ok s.
Proof.
  rewrite slice_from_in_range by (rewrite len_cons; pose proof (len_nonneg s); lia).
  reflexivity.
Qed.

Lemma len_cons_pos {A : Type} (x : A) (s : list A) : (len (x :: s) >? 0) = true.
Proof.
  rewrite len_cons, Z.gtb_ltb. pose proof (len_nonneg s).
  destruct (Z.ltb_spec 0 (len s + 1)); [reflexivity | lia].
Qed.

(** One pass of the outer loop of [decompressChunk] on the code of one
    line. *)
Lemma chunk_line (K : Z) (f : nat) (dring : backrefBuffer)
  (history : list (list Z)) (lr : lineReference) (curr rest dst : list Z)
  (lb : Z) (ends : bool) :
  2 <= K <= MAX_BACKREFERENCE_CAPACITY ->
  valid_reference K history curr lr ->
  ring_content MAX_BACKREFERENCE_CAPACITY dring history ->
  Forall is_byte curr -> curr <> [] ->
  (ends = true -> whole_line curr) -> (ends = false -> ~ In NEWLINE curr) ->
  (ends = false -> rest = []) ->
  0 <= lb -> lb + len curr <= len dst ->
  decompressChunk_loop (S f) dring (lineCode lr curr ++ rest) dst lb lb
  = (backref <- add dring (if ends then curr else []) ;;
     decompressChunk_loop f backref rest (overwrite dst lb curr)
       (lb + len curr) (if ends then lb + len curr else lb)).
Proof.
  intros HK Hvalid Hring Hbytes Hne Hwhole Hpartial Hrest Hlb Hroom.
  assert (H64 : 2 <= MAX_BACKREFERENCE_CAPACITY <= MAX_BACKREFERENCE_CAPACITY)
    by (unfold MAX_BACKREFERENCE_CAPACITY; lia).
  assert (Hcurr : 0 < len curr).
  { destruct curr as [|x c]; [contradiction|].
    rewrite len_cons. pose proof (len_nonneg c). lia. }
  assert (Hb : 1 <= linesBefore lr <= 63).
  { destruct Hvalid as [->|[Hb _]]; [cbn [linesBefore]; lia|].
    unfold MAX_BACKREFERENCE_CAPACITY in HK. lia. }
  pose proof (header_byte_flags (linesBefore lr) Hb) as Hflags.
  cbv zeta in Hflags.
  destruct Hflags as [Hgt [Hf0 [Hm [Hgt' [Hf1 Hm']]]]].
  assert (Hget : getLineAt dring (linesBefore lr)
                 = Ok (recent history (linesBefore lr))).
  { apply (ring_content_getLineAt MAX_BACKREFERENCE_CAPACITY dring history);
      [exact Hring | unfold MAX_BACKREFERENCE_CAPACITY; lia]. }
  set (dkey := recent history (linesBefore lr)) in *.
  set (hb := to_byte (linesBefore lr + ESCAPE_BYTE)) in *.
  set (F := S (length (line lr) + length curr)).
  assert (HF : forall ik ic : Z, 0 <= ik -> 0 <= ic ->
             (Z.to_nat (len (line lr) - ik) + Z.to_nat (len curr - ic) < F)%nat)
    by (intros; unfold F, len; lia).
  (* what the inner loop does with the body of the line *)
  assert (Hbody : forall X, X = lineCode_loop F (line lr) curr
                                  (if prefixLength lr <? 0
                                   then - prefixLength lr else prefixLength lr)
                                  (if prefixLength lr <? 0
                                   then 0 else prefixLength lr)
                                  (if prefixLength lr <? 0
                                   then 0 else prefixLength lr) ++ rest ->
            exists f0,
              (f0 <= S (length X))%nat
              /\ decompressLine_loop f0 X dkey dst 0
                   (if prefixLength lr <? 0 then - prefixLength lr else 0)
                   lb lb
                 = Ok (lineResult ends (overwrite dst lb curr)
                         (len (lineCode_loop F (line lr) curr
                                 (if prefixLength lr <? 0
                                  then - prefixLength lr else prefixLength lr)
                                 (if prefixLength lr <? 0
                                  then 0 else prefixLength lr)
                                 (if prefixLength lr <? 0
                                  then 0 else prefixLength lr)))
                         lb (len curr))).
  { intros X EX.
    destruct Hvalid as [->|[_ [Hline [Hes Hs]]]].
    - (* the initial reference: literal bytes only *)
      cbn [prefixLength line] in *. cbn [Z.ltb Z.compare] in *.
      assert (Ecode : lineCode_loop F [] curr 0 0 0
                      = lengthCode 0 ++ quoted (skipn (Z.to_nat 0) curr))
        by reflexivity.
      rewrite Ecode in *. rewrite <- app_assoc in EX.
      destruct (decompress_tail dkey curr ends Hbytes Hwhole Hpartial
                  0 0 0 X rest dst 0 lb) as [f0 [Hf0' E]];
        try (reflexivity || assumption
             || (intros; pose proof (len_nonneg X);
                 pose proof (len_nonneg dkey); lia)).
      exists f0. split; [unfold len in Hf0'; lia|].
      rewrite !Z.sub_0_r in E. cbn [Z.to_nat skipn] in E.
      rewrite Z.add_0_r, Z.add_0_l in E. exact E.
    - destruct (estimateSimilarity_facts (line lr) curr)
        as [p [s [E [Hsb [Hpos [Hneg Hzero]]]]]].
      rewrite Hes in E. injection E as <- <-.
      pose proof (min3_bounds (len (line lr)) (len curr) MAX_SIMILARITY)
        as [Hm1 [Hm2 _]].
      assert (Ekey : dkey = line lr) by (unfold dkey; congruence).
      rewrite Ekey.
      destruct (Z.ltb_spec (prefixLength lr) 0) as [Hlt|Hge].
      + destruct (Hneg Hlt) as [Hoff [Hsp _]].
        assert (Hsp' : 0 = 0 -> - prefixLength lr < len (line lr) ->
                       byteAt (line lr) (- prefixLength lr) = SPACE)
          by (intros _ _; apply index_Ok_byteAt; exact Hsp).
        destruct (decompress_lineCode (line lr) curr ends Hbytes Hwhole Hpartial
                    F (- prefixLength lr) 0 0 X rest dst 0 lb)
          as [f0 [Hf0' E]];
          try (reflexivity || assumption || (apply HF; lia)
               || (intros; pose proof (len_nonneg X); lia)).
        exists f0. split; [unfold len in Hf0'; lia|].
        rewrite !Z.sub_0_r in E. cbn [Z.to_nat skipn] in E.
        rewrite Z.add_0_r, Z.add_0_l in E. exact E.
      + destruct (Hpos Hge) as [Hps Hpre].
        assert (Hpre' : firstn (Z.to_nat (prefixLength lr))
                          (skipn (Z.to_nat (prefixLength lr - prefixLength lr))
                             (line lr))
                        = firstn (Z.to_nat (prefixLength lr))
                            (skipn (Z.to_nat (prefixLength lr - prefixLength lr))
                               curr))
          by (rewrite Z.sub_diag; cbn [Z.to_nat skipn]; exact Hpre).
        assert (Hsp' : prefixLength lr = 0 ->
                       prefixLength lr < len (line lr) ->
                       byteAt (line lr) (prefixLength lr) = SPACE)
          by (intros Hz _; rewrite Hz; apply index_Ok_byteAt; apply Hzero; lia).
        destruct (decompress_lineCode (line lr) curr ends Hbytes Hwhole Hpartial
                    F (prefixLength lr) (prefixLength lr) (prefixLength lr)
                    X rest dst 0 lb)
          as [f0 [Hf0' E]];
          try (reflexivity || assumption || (apply HF; lia)
               || (intros; pose proof (len_nonneg X); lia)).
        exists f0. split; [unfold len in Hf0'; lia|].
        rewrite !Z.sub_diag in E. cbn [Z.to_nat skipn] in E.
        rewrite Z.add_0_r, Z.add_0_l in E. exact E. }
  unfold lineCode. fold F. fold hb.
  destruct (Z.ltb_spec (prefixLength lr) 0) as [Hlt|Hge].
  - set (loopcode := lineCode_loop F (line lr) curr (- prefixLength lr) 0 0) in *.
    destruct (Hbody (loopcode ++ rest) eq_refl) as [f0 [Hf0' Eline]].
    cbn [app decompressChunk_loop].
    rewrite len_cons_pos, index_cons_zero. cbn [bind].
    rewrite Z.gtb_ltb.
    destruct (Z.ltb_spec ESCAPE_BYTE (Z.lor hb NO_SHARED_PREFIX_FLAG)); [|lia].
    rewrite slice_from_cons_one. cbn [bind].
    rewrite Hm', Hget. cbn [bind].
    destruct (Z.eqb_spec (Z.land (Z.lor hb NO_SHARED_PREFIX_FLAG)
                            NO_SHARED_PREFIX_FLAG) 0) as [|_]; [contradiction|].
    cbn [negb]. rewrite <- app_assoc.
    assert (Hoff : 0 < - prefixLength lr) by lia.
    rewrite decodeLength_lengthCode by exact Hoff.
    pose proof (lengthCode_len_bounds (- prefixLength lr) ltac:(lia)) as [Hlc _].
    rewrite slice_from_in_range by (rewrite len_app; pose proof (len_nonneg (loopcode ++ rest)); lia).
    cbn [bind]. rewrite to_nat_len, skipn_app, skipn_all, Nat.sub_diag.
    cbn [skipn app].
    apply (chunk_finish f f0 dring (loopcode ++ rest) dkey dst curr loopcode rest
             (- prefixLength lr) lb ends eq_refl Hf0' Eline Hlb Hroom).
  - set (loopcode := lineCode_loop F (line lr) curr (prefixLength lr)
                       (prefixLength lr) (prefixLength lr)) in *.
    destruct (Hbody (loopcode ++ rest) eq_refl) as [f0 [Hf0' Eline]].
    cbn [app decompressChunk_loop].
    rewrite len_cons_pos, index_cons_zero. cbn [bind].
    rewrite Z.gtb_ltb.
    destruct (Z.ltb_spec ESCAPE_BYTE hb); [|lia].
    rewrite slice_from_cons_one. cbn [bind].
    rewrite Hm, Hget. cbn [bind].
    rewrite Hf0, Z.eqb_refl. cbn [negb].
    apply (chunk_finish f f0 dring (loopcode ++ rest) dkey dst curr loopcode rest
             0 lb ends eq_refl Hf0' Eline Hlb Hroom).
Qed.

Lemma decompressChunk_loop_nil (f : nat) (dring : backrefBuffer)
  (dst : list Z) (bw lb : Z) :
  decompressChunk_loop (S f) dring [] dst bw lb = Ok (dst, bw).
Proof. reflexivity. Qed.

Lemma linesCode_cons (lr : lineReference) (curr : list Z)
  (items : list (lineReference * list Z)) :
  linesCode ((lr, curr) :: items) = lineCode lr curr ++ linesCode items.
Proof. reflexivity. Qed.

Lemma linesText_cons (lr : lineReference) (curr : list Z)
  (items : list (lineReference * list Z)) :
  linesText ((lr, curr) :: items) = curr ++ linesText items.
Proof. reflexivity. Qed.

(** The outer loop of [decompressChunk] on the code of the lines that
    [Compress] takes after the first. *)
Lemma decompress_lines (K : Z) (items : list (lineReference * list Z)) :
  2 <= K <= MAX_BACKREFERENCE_CAPACITY ->
  forall (history : list (list Z)) (dring : backrefBuffer) (dst : list Z)
         (lb : Z) (f : nat),
    valid_lines K history items ->
    Forall is_byte (linesText items) ->
    ring_content MAX_BACKREFERENCE_CAPACITY dring history ->
    0 <= lb -> lb + len (linesText items) <= len dst ->
    (length items < f)%nat ->
    decompressChunk_loop f dring (linesCode items) dst lb lb
    = Ok (overwrite dst lb (linesText items), lb + len (linesText items)).
Proof.
  intros HK.
  assert (H64 : 2 <= MAX_BACKREFERENCE_CAPACITY <= MAX_BACKREFERENCE_CAPACITY)
    by (unfold MAX_BACKREFERENCE_CAPACITY; lia).
  induction items as [|[lr curr] items IH];
    intros history dring dst lb f Hv Hb Hring Hlb Hroom Hf;
    (destruct f as [|f]; [lia|]).
  - cbn [linesCode linesText flat_map]. rewrite decompressChunk_loop_nil.
    rewrite overwrite_nil, (@len_nil Z), Z.add_0_r. reflexivity.
  - cbn [valid_lines] in Hv. destruct Hv as [Href [Hshape Hv]].
    rewrite linesCode_cons, linesText_cons in *.
    apply Forall_app in Hb. destruct Hb as [Hbc Hbr].
    rewrite len_app in Hroom.
    pose proof (len_nonneg curr) as Hc0.
    pose proof (len_nonneg (linesText items)) as Ht0.
    cbn [length] in Hf.
    destruct Hshape as [Hw|[Hne [Hnn ->]]].
    + rewrite (chunk_line K f dring history lr curr (linesCode items) dst lb true);
        try (assumption || lia || discriminate).
      2: { apply whole_line_nonempty. exact Hw. }
      2: { intros _. exact Hw. }
      destruct (ring_content_add MAX_BACKREFERENCE_CAPACITY H64 dring history curr
                  Hring) as [dring' [Ea Hring']].
      rewrite Ea. cbn [bind].
      rewrite (IH (history ++ [curr]) dring' (overwrite dst lb curr)
                 (lb + len curr) f); try (assumption || lia).
      * rewrite overwrite_app by lia. rewrite len_app. do 2 f_equal. lia.
      * rewrite overwrite_len by lia. lia.
    + cbn [linesCode linesText flat_map length] in *.
      rewrite (chunk_line K f dring history lr curr [] dst lb false);
        try (assumption || lia || discriminate || reflexivity).
      2: { intros _. exact Hnn. }
      destruct (ring_content_add MAX_BACKREFERENCE_CAPACITY H64 dring history []
                  Hring) as [dring' [Ea _]].
      rewrite Ea. cbn [bind].
      destruct f as [|f]; [lia|].
      rewrite decompressChunk_loop_nil, !app_nil_r. reflexivity.
Qed.

(** The first pass of the outer loop: the quoted first line. *)
Lemma chunk_first_line (f : nat) (dring : backrefBuffer)
  (text rest dst : list Z) (lb : Z) (ends : bool) :
  Forall is_byte text -> text <> [] ->
  (ends = true -> whole_line text) -> (ends = false -> ~ In NEWLINE text) ->
  (ends = false -> rest = []) ->
  0 <= lb -> lb + len text <= len dst ->
  decompressChunk_loop (S f) dring (quoted text ++ rest) dst lb lb
  = (backref <- add dring (if ends then text else []) ;;
     decompressChunk_loop f backref rest (overwrite dst lb text)
       (lb + len text) (if ends then lb + len text else lb)).
Proof.
  intros Hbytes Hne Hwhole Hpartial Hrest Hlb Hroom.
  set (X := quoted text ++ rest).
  destruct (decompress_tail [] text ends Hbytes Hwhole Hpartial
              0 0 0 X rest dst 0 lb) as [f0 [Hf0 E]];
    try (reflexivity || assumption
         || (intros; pose proof (len_nonneg X); pose proof (len_nonneg text);
             rewrite ?(@len_nil Z); lia)).
  { intros _. destruct text as [|c t]; [contradiction|].
    rewrite len_cons. pose proof (len_nonneg t). lia. }
  rewrite !Z.sub_0_r in E. cbn [Z.to_nat skipn] in E.
  rewrite Z.add_0_r, Z.add_0_l in E.
  change (lengthCode 0 ++ quoted text) with (quoted text) in E.
  assert (Hhead : exists b tl, X = b :: tl /\ b <= ESCAPE_BYTE).
  { unfold X. clear E Hwhole Hpartial. destruct text as [|c t]; [contradiction|].
    cbn [quoted]. inversion Hbytes as [|c' t' Hc Ht]; subst.
    rewrite land_escape by exact Hc.
    destruct (Z.ltb_spec c ESCAPE_BYTE); cbn [app];
      eexists; eexists; (split; [reflexivity | lia]). }
  destruct Hhead as [b [tl [EX Hb]]].
  assert (Hpos : (len X >? 0) = true) by (rewrite EX; apply len_cons_pos).
  assert (Hidx : index X 0 = Ok b) by (rewrite EX; apply index_cons_zero).
  cbn [decompressChunk_loop]. fold X. rewrite Hpos, Hidx. cbn [bind].
  rewrite Z.gtb_ltb. destruct (Z.ltb_spec ESCAPE_BYTE b); [lia|]. cbn [bind].
  apply (chunk_finish f f0 dring X [] dst text (quoted text) rest 0 lb ends
           eq_refl ltac:(unfold len in Hf0; lia) E Hlb Hroom).
Qed.

(** ** A chunk, compressed and decompressed *)

Lemma lineCode_nonempty (lr : lineReference) (curr : list Z) :
  1 <= len (lineCode lr curr).
Proof.
  unfold lineCode. destruct (prefixLength lr <? 0); rewrite len_cons;
    match goal with |- 1 <= len ?l + 1 => pose proof (len_nonneg l) end; lia.
Qed.

Lemma linesCode_length (items : list (lineReference * list Z)) :
  (length items <= length (linesCode items))%nat.
Proof.
  induction items as [|[lr curr] items IH]; [cbn; lia|].
  rewrite linesCode_cons, length_app. cbn [length].
  pose proof (lineCode_nonempty lr curr). unfold len in *. lia.
Qed.

Lemma overwrite_all (dst bytes : list Z) :
  len dst = len bytes -> overwrite dst 0 bytes = bytes.
Proof.
  intros H. unfold overwrite. cbn [Z.to_nat firstn app].
  rewrite skipn_all2 by (unfold len in *; lia). apply app_nil_r.
Qed.

Lemma quoted_head (text rest : list Z) :
  Forall is_byte text -> text <> [] ->
  exists b tl, quoted text ++ rest = b :: tl /\ b <= ESCAPE_BYTE.
Proof.
  intros Hbytes Hne. destruct text as [|c t]; [contradiction|].
  cbn [quoted]. inversion Hbytes as [|c' t' Hc Ht]; subst.
  rewrite land_escape by exact Hc. unfold is_byte in Hc.
  destruct (Z.ltb_spec c ESCAPE_BYTE); cbn [app];
    eexists; eexists; (split; [reflexivity | lia]).
Qed.

(** [decompressChunk] gives back the bytes that [Compress] has taken. *)
Lemma decompressChunk_payload (K k : Z) (firstLine out : list Z)
  (items : list (lineReference * list Z)) :
  2 <= K <= MAX_BACKREFERENCE_CAPACITY ->
  0 < k <= len firstLine ->
  whole_line firstLine \/ (~ In NEWLINE firstLine /\ items = []) ->
  k = len firstLine \/ items = [] ->
  valid_lines K [firstLine] items ->
  Forall is_byte (firstn (Z.to_nat k) firstLine ++ linesText items) ->
  len out = len (firstn (Z.to_nat k) firstLine ++ linesText items) ->
  decompressChunk (quoted (firstn (Z.to_nat k) firstLine) ++ linesCode items) out
  = Ok (firstn (Z.to_nat k) firstLine ++ linesText items, len out).
Proof.
  intros HK Hk Hshape Hfull Hv Hbytes Hout.
  assert (H64 : 2 <= MAX_BACKREFERENCE_CAPACITY <= MAX_BACKREFERENCE_CAPACITY)
    by (unfold MAX_BACKREFERENCE_CAPACITY; lia).
  set (text := firstn (Z.to_nat k) firstLine) in *.
  assert (Htl : len text = k) by (unfold text; apply len_firstn; lia).
  assert (Hne : text <> []).
  { intros E. rewrite E, (@len_nil Z) in Htl. lia. }
  apply Forall_app in Hbytes. destruct Hbytes as [Hbt Hbl].
  rewrite len_app in Hout. pose proof (len_nonneg (linesText items)) as Hl0.
  unfold decompressChunk.
  destruct (quoted_head text (linesCode items) Hbt Hne) as [b [tl [EX Hb]]].
  set (X := quoted text ++ linesCode items) in *.
  assert (Hidx : index X 0 = Ok b) by (rewrite EX; apply index_cons_zero).
  rewrite Hidx. cbn [bind]. rewrite Z.gtb_ltb.
  destruct (Z.ltb_spec ESCAPE_BYTE b); [lia|].
  assert (Hfuel : (length items < length X)%nat).
  { unfold X. rewrite length_app. pose proof (linesCode_length items).
    pose proof (quotedSize_bounds text) as Hq. rewrite <- quoted_len in Hq.
    unfold len in *. lia. }
  assert (Hcases : (k = len firstLine /\ whole_line firstLine)
                   \/ (~ In NEWLINE text /\ items = [])).
  { destruct Hshape as [Hw|[Hn Hi]].
    - destruct (Z.eq_dec k (len firstLine)) as [Hkl|Hkl]; [left; auto | right].
      split; [|destruct Hfull; [lia | assumption]].
      unfold text.
      pose proof (whole_line_firstn firstLine 0 k Hw ltac:(lia) ltac:(lia)) as Hnn.
      rewrite Z.sub_0_r in Hnn. exact Hnn.
    - right. split; [|exact Hi]. intros Hin. apply Hn.
      apply (In_firstn_incl _ _ _ Hin). }
  destruct Hcases as [[Hkl Hw]|[Hnn Hi]].
  - assert (Etext : text = firstLine).
    { unfold text. apply firstn_all2. unfold len in *. lia. }
    unfold X.
    rewrite (chunk_first_line (length X) _ text (linesCode items) out 0 true);
      try (assumption || lia || discriminate).
    2: { intros _. rewrite Etext. exact Hw. }
    destruct (ring_content_add MAX_BACKREFERENCE_CAPACITY H64
                (newBackrefBuffer MAX_BACKREFERENCE_CAPACITY) [] text
                (ring_content_fresh MAX_BACKREFERENCE_CAPACITY H64))
      as [dring [Ea Hring]].
    rewrite Ea. cbn [bind app] in *. rewrite Etext in Hring.
    rewrite (decompress_lines K items HK [firstLine] dring (overwrite out 0 text)
               (0 + len text) (length X));
      try (assumption || lia).
    + rewrite overwrite_app by lia.
      rewrite overwrite_all by (rewrite len_app; lia).
      do 2 f_equal. lia.
    + rewrite overwrite_len by lia. lia.
  - subst items.
    assert (Hlt : len (linesText []) = 0) by reflexivity.
    pose proof (chunk_first_line (length X)
                  (newBackrefBuffer MAX_BACKREFERENCE_CAPACITY) text [] out 0
                  false Hbt Hne ltac:(discriminate) ltac:(intros _; exact Hnn)
                  ltac:(reflexivity) ltac:(lia) ltac:(lia)) as Hstep.
    change (quoted text ++ []) with X in Hstep. rewrite Hstep. clear Hstep.
    change (linesText []) with (@nil Z). rewrite app_nil_r.
    destruct (ring_content_add MAX_BACKREFERENCE_CAPACITY H64
                (newBackrefBuffer MAX_BACKREFERENCE_CAPACITY) [] []
                (ring_content_fresh MAX_BACKREFERENCE_CAPACITY H64))
      as [dring [Ea _]].
    rewrite Ea. cbn [bind].
    destruct (length X) as [|n] eqn:En; [lia|].
    rewrite decompressChunk_loop_nil.
    rewrite overwrite_all by lia. do 2 f_equal. lia.
Qed.

Lemma firstn_app_exact {A : Type} (s t : list A) :
  firstn (length s) (s ++ t) = s.
Proof.
  rewrite firstn_app, firstn_all, Nat.sub_diag, firstn_O. apply app_nil_r.
Qed.

Lemma Forall_firstn' (P : Z -> Prop) (s : list Z) (n : nat) :
  Forall P s -> Forall P (firstn n s).
Proof.
  rewrite !Forall_forall. intros H x Hx. apply H.
  apply (In_firstn_incl _ _ _ Hx).
Qed.

(** What [Compress] has taken is a prefix of the source. *)
Lemma Compress_text (src firstLine rest : list Z) (k : Z) (K : Z)
  (items : list (lineReference * list Z)) :
  nextLine (limitSlice src MAX_CHUNK_SIZE) = (firstLine, linesText items ++ rest) ->
  0 <= k <= len firstLine ->
  k = len firstLine \/ items = [] ->
  firstn (Z.to_nat (k + len (linesText items))) src
  = firstn (Z.to_nat k) firstLine ++ linesText items.
Proof.
  intros En Hk Hfull.
  pose proof (nextLine_shape (limitSlice src MAX_CHUNK_SIZE)) as [Hsplit _].
  rewrite En in Hsplit. cbn [fst snd] in Hsplit.
  pose proof (len_nonneg (linesText items)) as Hl0.
  pose proof (len_nonneg rest) as Hr0.
  rewrite <- (firstn_limitSlice src _ MAX_CHUNK_SIZE)
    by (rewrite Hsplit, !len_app; lia).
  rewrite Hsplit.
  destruct Hfull as [Hkl|Hi].
  - rewrite app_assoc.
    replace (Z.to_nat (k + len (linesText items)))
      with (length (firstLine ++ linesText items))
      by (rewrite length_app; unfold len in *; lia).
    rewrite firstn_app_exact. f_equal. symmetry. apply firstn_all2.
    unfold len in *. lia.
  - subst items. cbn [linesText flat_map app]. rewrite (@len_nil Z), Z.add_0_r.
    rewrite app_nil_r, firstn_app.
    replace (Z.to_nat k - length firstLine)%nat with 0%nat
      by (unfold len in *; lia).
    rewrite firstn_O. apply app_nil_r.
Qed.

Lemma Compress_Decompress (dst src out d : list Z)
  (level bytesRead bytesWritten : Z) :
  Forall is_byte src ->
  Compress dst src level = Ok (d, bytesRead, bytesWritten) ->
  0 < bytesRead -> bytesRead <= len out ->
  Decompress out (firstn (Z.to_nat bytesWritten) d)
  = Ok (firstn (Z.to_nat bytesRead) src ++ skipn (Z.to_nat bytesRead) out,
        bytesWritten, bytesRead).
Proof.
  intros Hbytes HC Hpos Hout.
  destruct (Compress_structure _ _ _ _ _ _ HC)
    as [K [firstLine [rest [k [items [header Hs]]]]]].
  cbv zeta in Hs.
  destruct Hs as [HK [Hdst [En [Hk [Hfull [Hv [Hr [Hw [Hwd [Hpm [Ehd Hd]]]]]]]]]]].
  set (text := firstn (Z.to_nat k) firstLine) in *.
  set (payload := quoted text ++ linesCode items) in *.
  assert (H4 : HEADER_SIZE = 4) by reflexivity.
  pose proof (len_nonneg (linesText items)) as Hl0.
  pose proof (nextLine_shape (limitSlice src MAX_CHUNK_SIZE))
    as [Hsplit [Hshape Hemp]].
  rewrite En in Hsplit, Hshape, Hemp. cbn [fst snd] in Hsplit, Hshape, Hemp.
  assert (HM : 0 <= MAX_CHUNK_SIZE) by (unfold MAX_CHUNK_SIZE; lia).
  pose proof (limitSlice_len_le src MAX_CHUNK_SIZE HM) as [Hl1 Hl2].
  rewrite Hsplit, !len_app in Hl1, Hl2. pose proof (len_nonneg rest) as Hr0.
  (* the first line is not empty *)
  assert (Hk0 : 0 < k).
  { destruct (Z.eq_dec k 0) as [Hz|]; [|lia]. exfalso.
    destruct Hfull as [Hkl|Hi].
    - assert (firstLine = []).
      { destruct firstLine; [reflexivity|]. rewrite len_cons in Hkl.
        pose proof (len_nonneg firstLine). lia. }
      specialize (Hemp H). rewrite H in Hsplit. cbn [app] in Hsplit.
      rewrite Hemp in Hsplit. symmetry in Hsplit.
      apply app_eq_nil in Hsplit. destruct Hsplit as [Hlt _].
      rewrite Hlt, (@len_nil Z) in Hr. lia.
    - subst items. cbn [linesText flat_map] in Hr. rewrite (@len_nil Z) in Hr. lia. }
  assert (Htl : len text = k) by (unfold text; apply len_firstn; lia).
  pose proof (quotedSize_bounds text) as Hq.
  assert (Hpl : len payload = quotedSize text + len (linesCode items))
    by (unfold payload; rewrite len_app, quoted_len; reflexivity).
  pose proof (len_nonneg (linesCode items)) as Hc0.
  (* the header *)
  destruct (header_roundtrip (firstn (Z.to_nat HEADER_SIZE) dst) payload
              (len payload) bytesRead) as [stored [Es [Hsl Erh]]];
    try lia.
  { apply len_firstn. lia. }
  rewrite Ehd in Es. injection Es as <-.
  assert (Efirst : firstn (Z.to_nat bytesWritten) d = header ++ payload).
  { rewrite Hd, Hw, app_assoc.
    replace (Z.to_nat (HEADER_SIZE + len payload))
      with (length (header ++ payload))
      by (rewrite length_app; unfold len in *; lia).
    apply firstn_app_exact. }
  rewrite Efirst. unfold Decompress.
  destruct (Z.ltb_spec (len (header ++ payload)) HEADER_SIZE) as [Hbad|_];
    [rewrite len_app in Hbad; lia|].
  rewrite Erh. cbn [bind].
  rewrite slice_from_in_range by (rewrite len_app; lia). cbn [bind].
  replace (Z.to_nat HEADER_SIZE) with (length header) by (unfold len in *; lia).
  rewrite skipn_app, skipn_all, Nat.sub_diag. cbn [skipn app].
  rewrite Z.ltb_irrefl.
  destruct (Z.ltb_spec (len out) bytesRead) as [Hbad|_]; [lia|].
  unfold slice_to. rewrite !slice_in_range by lia. cbn [bind].
  cbn [Z.to_nat skipn]. rewrite !Z.sub_0_r, to_nat_len, firstn_all.
  (* the chunk *)
  assert (Etext : firstn (Z.to_nat bytesRead) src = text ++ linesText items).
  { rewrite Hr. apply (Compress_text src firstLine rest k K items En Hk Hfull). }
  assert (Hbt : Forall is_byte (text ++ linesText items))
    by (rewrite <- Etext; apply Forall_firstn'; exact Hbytes).
  assert (Hol : len (firstn (Z.to_nat bytesRead) out) = bytesRead)
    by (apply len_firstn; lia).
  assert (Hshape' : whole_line firstLine \/ (~ In NEWLINE firstLine /\ items = [])).
  { destruct Hshape as [Hw'|[_ [Hnil Hnn]]]; [left; exact Hw' | right].
    split.
    - intros Hin. apply Hnn. rewrite Hsplit. apply in_or_app. now left.
    - apply (valid_lines_nonempty K _ items Hv).
      apply app_eq_nil in Hnil. apply Hnil. }
  unfold payload.
  pose proof (decompressChunk_payload K k firstLine
                (firstn (Z.to_nat bytesRead) out) items HK ltac:(lia) Hshape'
                Hfull Hv Hbt ltac:(rewrite Hol, len_app; fold text; lia))
    as Hdec.
  fold text in Hdec. rewrite Hdec. clear Hdec.
  cbn [bind]. fold payload. rewrite Hol.
  destruct (Z.ltb_spec bytesRead 0) as [Hbad|_]; [lia|].
  rewrite slice_from_in_range by lia. cbn [bind].
  rewrite to_nat_len, skipn_all.
  assert (Htext : len (text ++ linesText items) = bytesRead)
    by (rewrite len_app; lia).
  rewrite slice_from_in_range
    by (rewrite len_app, Htext, len_skipn by lia; lia).
  cbn [bind length Decompress_loop].
  change (len (@nil Z) >=? HEADER_SIZE) with false. cbv iota.
  rewrite firstn_skipn, Etext. do 3 f_equal. lia.
Qed.

(** X11. Round trip of one chunk: whenever [Compress] returns with a
    positive [bytesRead] on a source of bytes, [Decompress] applied to the
    [bytesWritten] bytes that [Compress] wrote (and to an output buffer
    of [bytesRead] bytes or more) reads all of them and writes exactly
    the [bytesRead] source bytes that [Compress] consumed, leaving the
    rest of the output buffer as it was. *)
Theorem Compress_Decompress_roundtrip (dst src out d : list Z)
  (level bytesRead bytesWritten : Z) :
  Forall is_byte src ->
  Compress dst src level = Ok (d, bytesRead, bytesWritten) ->
  0 < bytesRead -> bytesRead <= len out ->
  Decompress out (firstn (Z.to_nat bytesWritten) d)
  = Ok (firstn (Z.to_nat bytesRead) src ++ skipn (Z.to_nat bytesRead) out,
        bytesWritten, bytesRead).
Proof. exact (Compress_Decompress dst src out d level bytesRead bytesWritten). Qed.

Lemma Compress_Decompress_roundtrip_witness :
  Compress (repeat 0 24) [97; 32; 98; 10; 97; 32; 195; 10; 120] 4
  = Ok ([10; 0; 8; 0; 97; 32; 98; 10; 129; 130; 128; 195; 10; 129; 120;
         0; 0; 0; 0; 0; 0; 0; 0; 0], 9, 15)
  /\ Decompress (repeat 7 10)
       (firstn (Z.to_nat 15)
          [10; 0; 8; 0; 97; 32; 98; 10; 129; 130; 128; 195; 10; 129; 120;
           0; 0; 0; 0; 0; 0; 0; 0; 0])
     = Ok (firstn (Z.to_nat 9) [97; 32; 98; 10; 97; 32; 195; 10; 120]
             ++ skipn (Z.to_nat 9) (repeat 7 10), 15, 9).
Proof.
  split; [vm_compute; reflexivity|].
  apply (Compress_Decompress_roundtrip (repeat 0 24)
           [97; 32; 98; 10; 97; 32; 195; 10; 120] (repeat 7 10)
           [10; 0; 8; 0; 97; 32; 98; 10; 129; 130; 128; 195; 10; 129; 120;
            0; 0; 0; 0; 0; 0; 0; 0; 0] 4 9 15).
  - repeat constructor; unfold is_byte; lia.
  - vm_compute. reflexivity.
  - lia.
  - vm_compute. discriminate.
Defined.

(** ** Streams of chunks *)

(** What [Compress] writes is a chunk that decodes to what it has read. *)
Lemma Compress_decodes (dst src d : list Z) (level bytesRead bytesWritten : Z) :
  Forall is_byte src ->
  Compress dst src level = Ok (d, bytesRead, bytesWritten) ->
  0 < bytesRead ->
  decodes (firstn (Z.to_nat bytesWritten) d) (firstn (Z.to_nat bytesRead) src)
  /\ len (firstn (Z.to_nat bytesWritten) d) = bytesWritten
  /\ len (firstn (Z.to_nat bytesRead) src) = bytesRead.
Proof.
  intros Hbytes HC Hpos.
  destruct (Compress_structure _ _ _ _ _ _ HC)
    as [K [firstLine [rest [k [items [header Hs]]]]]].
  cbv zeta in Hs.
  destruct Hs as [HK [Hdst [En [Hk [Hfull [Hv [Hr [Hw [Hwd [Hpm [Ehd Hd]]]]]]]]]]].
  set (text := firstn (Z.to_nat k) firstLine) in *.
  set (payload := quoted text ++ linesCode items) in *.
  assert (H4 : HEADER_SIZE = 4) by reflexivity.
  pose proof (len_nonneg (linesText items)) as Hl0.
  pose proof (nextLine_shape (limitSlice src MAX_CHUNK_SIZE))
    as [Hsplit [Hshape Hemp]].
  rewrite En in Hsplit, Hshape, Hemp. cbn [fst snd] in Hsplit, Hshape, Hemp.
  assert (HM : 0 <= MAX_CHUNK_SIZE) by (unfold MAX_CHUNK_SIZE; lia).
  pose proof (limitSlice_len_le src MAX_CHUNK_SIZE HM) as [Hl1 Hl2].
  rewrite Hsplit, !len_app in Hl1, Hl2. pose proof (len_nonneg rest) as Hr0.
  assert (Hk0 : 0 < k).
  { destruct (Z.eq_dec k 0) as [Hz|]; [|lia]. exfalso.
    destruct Hfull as [Hkl|Hi].
    - assert (Hnil : firstLine = []).
      { destruct firstLine as [|x fl]; [reflexivity|]. rewrite len_cons in Hkl.
        pose proof (len_nonneg fl). lia. }
      specialize (Hemp Hnil). rewrite Hnil in Hsplit. cbn [app] in Hsplit.
      rewrite Hemp in Hsplit. symmetry in Hsplit.
      apply app_eq_nil in Hsplit. destruct Hsplit as [Hlt _].
      rewrite Hlt, (@len_nil Z) in Hr. lia.
    - subst items. cbn [linesText flat_map] in Hr. rewrite (@len_nil Z) in Hr. lia. }
  assert (Htl : len text = k) by (unfold text; apply len_firstn; lia).
  pose proof (quotedSize_bounds text) as Hq.
  assert (Hpl : len payload = quotedSize text + len (linesCode items))
    by (unfold payload; rewrite len_app, quoted_len; reflexivity).
  pose proof (len_nonneg (linesCode items)) as Hc0.
  assert (Hhl : len header = HEADER_SIZE).
  { apply (storeHeader_len _ _ _ _ Ehd). apply len_firstn. lia. }
  assert (Efirst : firstn (Z.to_nat bytesWritten) d = header ++ payload).
  { rewrite Hd, Hw, app_assoc.
    replace (Z.to_nat (HEADER_SIZE + len payload))
      with (length (header ++ payload))
      by (rewrite length_app; unfold len in *; lia).
    apply firstn_app_exact. }
  assert (Etext : firstn (Z.to_nat bytesRead) src = text ++ linesText items).
  { rewrite Hr. apply (Compress_text src firstLine rest k K items En Hk Hfull). }
  assert (Htext : len (text ++ linesText items) = bytesRead)
    by (rewrite len_app; lia).
  assert (Hbt : Forall is_byte (text ++ linesText items))
    by (rewrite <- Etext; apply Forall_firstn'; exact Hbytes).
  assert (Hshape' : whole_line firstLine \/ (~ In NEWLINE firstLine /\ items = [])).
  { destruct Hshape as [Hw'|[_ [Hnil Hnn]]]; [left; exact Hw' | right].
    split.
    - intros Hin. apply Hnn. rewrite Hsplit. apply in_or_app. now left.
    - apply (valid_lines_nonempty K _ items Hv).
      apply app_eq_nil in Hnil. apply Hnil. }
  rewrite Efirst, Etext. split; [|split; [rewrite len_app; lia | exact Htext]].
  exists header, payload. split; [reflexivity|]. split; [exact Hhl|].
  split; [|split; [lia|]].
  - intros more.
    destruct (header_roundtrip (firstn (Z.to_nat HEADER_SIZE) dst) more
                (len payload) bytesRead) as [stored [Es [_ Erh]]];
      try lia.
    { apply len_firstn. lia. }
    rewrite Ehd in Es. injection Es as <-. rewrite Htext. exact Erh.
  - intros out Hout.
    pose proof (decompressChunk_payload K k firstLine out items HK ltac:(lia)
                  Hshape' Hfull Hv Hbt Hout) as Hdec.
    fold text in Hdec. fold payload in Hdec. rewrite Hdec, Hout. reflexivity.
Qed.

Lemma decodes_len (chunk text : list Z) :
  decodes chunk text -> HEADER_SIZE <= len chunk /\ 0 < len text.
Proof.
  intros [header [payload [-> [Hh [_ [Ht _]]]]]]. rewrite len_app.
  pose proof (len_nonneg payload). lia.
Qed.

(** The loop of [Decompress] on a sequence of chunks, followed by what
    stops it. *)
Lemma Decompress_loop_stream (items : list (list Z * list Z)) (tail : list Z) :
  forall (fuel : nat) (chunkResult : Z) (done dst : list Z)
         (bytesRead bytesWritten : Z),
    Forall (fun item => decodes (fst item) (snd item)) items ->
    0 <= chunkResult ->
    len (concat (map snd items)) <= len dst ->
    stalls tail (len dst - len (concat (map snd items))) ->
    (length items < fuel)%nat ->
    Decompress_loop fuel chunkResult done dst (concat (map fst items) ++ tail)
      bytesRead bytesWritten
    = Ok (done ++ concat (map snd items)
            ++ skipn (length (concat (map snd items))) dst,
          bytesRead + len (concat (map fst items)),
          bytesWritten + len (concat (map snd items))).
Proof.
  assert (H4 : HEADER_SIZE = 4) by reflexivity.
  induction items as [|[chunk text] items IH];
    intros fuel cr done dst br bw Hall Hcr Hroom Hstall Hfuel;
    (destruct fuel as [|fuel]; [cbn [length] in Hfuel; lia|]).
  - cbn [map concat Decompress_loop length skipn app] in *.
    rewrite (@len_nil Z), !Z.add_0_r, Z.sub_0_r in *.
    rewrite Z.geb_leb.
    destruct (Z.leb_spec HEADER_SIZE (len tail)) as [Hlong|Hshort];
      [|reflexivity].
    destruct Hstall as [Hbad|[c [r [Erh Hstop]]]]; [lia|].
    rewrite Erh. cbn [bind].
    rewrite slice_from_in_range by lia. cbn [bind].
    rewrite len_skipn by lia.
    destruct (Z.ltb_spec (len tail - HEADER_SIZE) c) as [_|Hc]; [reflexivity|].
    destruct (Z.ltb_spec (len dst) r) as [_|Hr]; [reflexivity | lia].
  - inversion Hall as [|it its Hd Hall']; subst it its. cbn [fst snd] in Hd.
    destruct Hd as [header [payload [-> [Hh [Hrh [Ht Hdec]]]]]].
    cbn [map concat fst snd length] in *.
    set (restsrc := concat (map fst items) ++ tail) in *.
    set (resttext := concat (map snd items)) in *.
    rewrite len_app in Hroom, Hstall.
    pose proof (len_nonneg payload) as Hp0.
    pose proof (len_nonneg restsrc) as Hrs0.
    pose proof (len_nonneg resttext) as Hrt0.
    rewrite <- !app_assoc. fold restsrc.
    cbn [Decompress_loop].
    rewrite Z.geb_leb.
    destruct (Z.leb_spec HEADER_SIZE (len (header ++ payload ++ restsrc)))
      as [_|Hbad]; [|rewrite !len_app in Hbad; lia].
    rewrite Hrh. cbn [bind].
    rewrite slice_from_in_range by (rewrite !len_app; lia). cbn [bind].
    replace (Z.to_nat HEADER_SIZE) with (length header) by (unfold len in *; lia).
    rewrite skipn_app, skipn_all, Nat.sub_diag. cbn [skipn app].
    destruct (Z.ltb_spec (len (payload ++ restsrc)) (len payload)) as [Hbad|_];
      [rewrite len_app in Hbad; lia|].
    destruct (Z.ltb_spec (len dst) (len text)) as [Hbad|_]; [lia|].
    unfold slice_to.
    rewrite !slice_in_range by (rewrite ?len_app; lia). cbn [bind].
    cbn [Z.to_nat skipn]. rewrite !Z.sub_0_r.
    rewrite (to_nat_len payload), firstn_app_exact.
    rewrite Hdec by (apply len_firstn; lia). cbn [bind].
    destruct (Z.ltb_spec cr 0) as [Hbad|_]; [lia|].
    rewrite slice_from_in_range by (rewrite len_app; lia). cbn [bind].
    rewrite (to_nat_len payload), skipn_app, skipn_all, Nat.sub_diag.
    cbn [skipn app].
    rewrite slice_from_in_range
      by (rewrite len_app, len_skipn by lia; lia).
    cbn [bind].
    rewrite (to_nat_len text), firstn_app_exact, skipn_app, skipn_all,
      Nat.sub_diag.
    cbn [skipn app].
    assert (Hsk : len (skipn (length text) dst) = len dst - len text)
      by (rewrite <- (to_nat_len text), len_skipn by lia; reflexivity).
    rewrite (IH fuel cr (done ++ text) (skipn (length text) dst)
               (br + (len payload + HEADER_SIZE)) (bw + len text) Hall' Hcr);
      [| fold resttext; lia
       | fold resttext; rewrite Hsk;
         replace (len dst - len text - len resttext)
           with (len dst - (len text + len resttext)) by lia; exact Hstall
       | lia].
    fold resttext.
    rewrite skipn_skipn, !len_app, length_app, <- ?app_assoc.
    replace (length resttext + length text)%nat
      with (length text + length resttext)%nat by lia.
    replace (br + (len payload + HEADER_SIZE) + len (concat (map fst items)))
      with (br + (len header + (len payload + len (concat (map fst items)))))
      by lia.
    replace (bw + len text + len resttext) with (bw + (len text + len resttext))
      by lia.
    reflexivity.
Qed.

Lemma chunks_length (items : list (list Z * list Z)) :
  Forall (fun item => decodes (fst item) (snd item)) items ->
  (length items <= length (concat (map fst items)))%nat.
Proof.
  induction 1 as [|[chunk text] items Hd _ IH]; [cbn; lia|].
  cbn [map concat fst length]. rewrite length_app.
  cbn [fst snd] in Hd. apply decodes_len in Hd.
  unfold len, HEADER_SIZE, SIZEOF_INT16 in Hd. lia.
Qed.

(** [Decompress] on one or more chunks, followed by what stops it. *)
Lemma Decompress_stream (chunk text : list Z) (items : list (list Z * list Z))
  (tail out : list Z) :
  decodes chunk text ->
  Forall (fun item => decodes (fst item) (snd item)) items ->
  len (text ++ concat (map snd items)) <= len out ->
  stalls tail (len out - len (text ++ concat (map snd items))) ->
  Decompress out ((chunk ++ concat (map fst items)) ++ tail)
  = Ok ((text ++ concat (map snd items))
          ++ skipn (length (text ++ concat (map snd items))) out,
        len (chunk ++ concat (map fst items)),
        len (text ++ concat (map snd items))).
Proof.
  intros Hd Hall Hroom Hstall.
  assert (H4 : HEADER_SIZE = 4) by reflexivity.
  destruct Hd as [header [payload [-> [Hh [Hrh [Ht Hdec]]]]]].
  set (restsrc := concat (map fst items) ++ tail) in *.
  set (resttext := concat (map snd items)) in *.
  rewrite len_app in Hroom, Hstall.
  pose proof (len_nonneg payload) as Hp0.
  pose proof (len_nonneg restsrc) as Hrs0.
  pose proof (len_nonneg resttext) as Hrt0.
  rewrite <- !app_assoc. fold restsrc.
  unfold Decompress.
  destruct (Z.ltb_spec (len (header ++ payload ++ restsrc)) HEADER_SIZE)
    as [Hbad|_]; [rewrite !len_app in Hbad; lia|].
  rewrite Hrh. cbn [bind].
  rewrite slice_from_in_range by (rewrite !len_app; lia). cbn [bind].
  replace (Z.to_nat HEADER_SIZE) with (length header) by (unfold len in *; lia).
  rewrite skipn_app, skipn_all, Nat.sub_diag. cbn [skipn app].
  destruct (Z.ltb_spec (len (payload ++ restsrc)) (len payload)) as [Hbad|_];
    [rewrite len_app in Hbad; lia|].
  destruct (Z.ltb_spec (len out) (len text)) as [Hbad|_]; [lia|].
  unfold slice_to.
  rewrite !slice_in_range by (rewrite ?len_app; lia). cbn [bind].
  cbn [Z.to_nat skipn]. rewrite !Z.sub_0_r.
  rewrite (to_nat_len payload), firstn_app_exact.
  rewrite Hdec by (apply len_firstn; lia). cbn [bind].
  destruct (Z.ltb_spec (len text) 0) as [Hbad|_]; [lia|].
  rewrite slice_from_in_range by (rewrite len_app; lia). cbn [bind].
  rewrite (to_nat_len payload), skipn_app, skipn_all, Nat.sub_diag.
  cbn [skipn app].
  rewrite slice_from_in_range
    by (rewrite len_app, len_skipn by lia; lia).
  cbn [bind].
  rewrite (to_nat_len text), firstn_app_exact, skipn_app, skipn_all,
    Nat.sub_diag.
  cbn [skipn app].
  pose proof (chunks_length items Hall) as Hcl.
  assert (Hsk : len (skipn (length text) out) = len out - len text)
    by (rewrite <- (to_nat_len text), len_skipn by lia; reflexivity).
  assert (Hfuel : (length items < S (length restsrc))%nat)
    by (unfold restsrc; rewrite length_app; lia).
  assert (Hroom' : len (concat (map snd items)) <= len (skipn (length text) out))
    by (fold resttext; lia).
  assert (Hstall' : stalls tail (len (skipn (length text) out)
                                 - len (concat (map snd items)))).
  { fold resttext. rewrite Hsk.
    replace (len out - len text - len resttext)
      with (len out - (len text + len resttext)) by lia. exact Hstall. }
  pose proof (Decompress_loop_stream items tail (S (length restsrc)) (len text)
                text (skipn (length text) out)
                (0 + (len payload + HEADER_SIZE)) (0 + len text) Hall
                ltac:(lia) Hroom' Hstall' Hfuel) as Hloop.
  fold restsrc in Hloop. fold resttext in Hloop. rewrite Hloop. clear Hloop.
  rewrite skipn_skipn, !len_app, length_app, <- ?app_assoc.
  replace (length resttext + length text)%nat
    with (length text + length resttext)%nat by lia.
  replace (0 + (len payload + HEADER_SIZE) + len (concat (map fst items)))
    with (len header + (len payload + len (concat (map fst items)))) by lia.
  replace (0 + len text + len resttext) with (len text + len resttext) by lia.
  reflexivity.
Qed.

Lemma stalls_nil (room : Z) : stalls [] room.
Proof. left. reflexivity. Qed.

Lemma Compress_short (dst src : list Z) (level : Z) :
  len dst < HEADER_SIZE -> Compress dst src level = Panic.
Proof.
  intros H. unfold Compress, Compress_start, slice_to, slice.
  pose proof (len_nonneg dst).
  destruct (Z.leb_spec HEADER_SIZE (len dst)); [lia|].
  rewrite andb_false_r. reflexivity.
Qed.

(** A call of [Compress] that takes nothing from a non-empty source has
    written a bare header into a destination of fewer than 6 bytes. *)
Lemma Compress_stall (dst src d : list Z) (level w : Z) :
  Compress dst src level = Ok (d, 0, w) -> src <> [] ->
  w = HEADER_SIZE /\ len d = len dst /\ len dst < HEADER_SIZE + 2.
Proof.
  intros HC Hne.
  assert (H4 : HEADER_SIZE = 4) by reflexivity.
  assert (HM : MAX_CHUNK_SIZE = 65536) by reflexivity.
  pose proof HC as HC'. unfold Compress in HC'.
  bind_inv HC' as st Est. bind_inv HC' as st' El. bind_inv HC' as header Eh.
  injection HC' as Ed Er Ew.
  destruct (Compress_start_spec dst src level st Est)
    as [K [firstLine [k Hst]]].
  cbv zeta in Hst.
  destruct Hst as [HK [Hdst [En [Hinv [Hcont [Hhd [Hbey [Hk [Hr [Hw [Hdone
                  [Hcd [Hq Hstop]]]]]]]]]]]]].
  destruct (Compress_loop_spec K HK (S (length (cs_src st))) st [firstLine]
              Hinv Hcont ltac:(lia))
    as [items [st'' [E [Hv [Hsrc [Hdone' [Hdst' [Hcl [Hr' [Hw' [Hh'
          [Hbe' Hroom]]]]]]]]]]]].
  rewrite El in E. injection E as <-.
  pose proof (len_nonneg (linesText items)) as Hl0.
  assert (Hk0 : k = 0) by lia.
  assert (Hit : items = []).
  { apply (valid_lines_nonempty K _ items Hv).
    destruct (linesText items) as [|x t]; [reflexivity|].
    rewrite len_cons in *. pose proof (len_nonneg t). lia. }
  subst items. rewrite Hk0 in *. clear Hk0. cbn [linesCode linesText flat_map] in *.
  rewrite (@len_nil Z) in *. cbn [Z.to_nat firstn quotedSize quoted skipn] in *.
  (* the first line is not empty *)
  pose proof (nextLine_shape (limitSlice src MAX_CHUNK_SIZE)) as [_ [_ Hemp]].
  rewrite En in Hemp. cbn [fst] in Hemp.
  assert (Hfl : 0 < len firstLine).
  { destruct firstLine as [|x fl].
    - exfalso. apply Hne. apply (limitSlice_nil src MAX_CHUNK_SIZE); [lia|].
      apply Hemp. reflexivity.
    - rewrite len_cons. pose proof (len_nonneg fl). lia. }
  destruct Hstop as [Hbad|Hsmall]; [lia|].
  rewrite Hcd in Hsmall.
  set (body := skipn (Z.to_nat HEADER_SIZE) dst) in *.
  assert (Hbody : len body = len dst - HEADER_SIZE)
    by (unfold body; apply len_skipn; lia).
  assert (Hbl : len body < 2).
  { unfold limitSlice in Hsmall. rewrite Z.gtb_ltb in Hsmall.
    destruct (Z.ltb_spec MAX_CHUNK_SIZE (len body)) as [Hlim|_]; [|exact Hsmall].
    rewrite len_firstn in Hsmall by lia. lia. }
  destruct (Compress_structure _ _ _ _ _ _ HC)
    as [K' [firstLine' [rest' [k' [items' [header' Hs]]]]]].
  cbv zeta in Hs.
  destruct Hs as [_ [_ [_ [Hk' [_ [Hv' [Hr0 [Hw0 [Hwd [_ [Ehd Hd]]]]]]]]]]].
  pose proof (len_nonneg (linesText items')) as Hl0'.
  assert (Hk0' : k' = 0) by lia.
  assert (Hit' : items' = []).
  { apply (valid_lines_nonempty K' _ items' Hv').
    destruct (linesText items') as [|x t]; [reflexivity|].
    rewrite len_cons in *. pose proof (len_nonneg t). lia. }
  subst items'. rewrite Hk0' in *. clear Hk0'.
  cbn [linesCode flat_map Z.to_nat firstn quoted app] in *.
  rewrite (@len_nil Z) in *.
  pose proof (storeHeader_len _ _ _ _ Ehd ltac:(apply len_firstn; lia)) as Hhl.
  split; [lia|]. split; [|lia].
  rewrite Hd, len_app, len_skipn by lia. lia.
Qed.

(** What [PackBuffer] leaves in the buffer is a sequence of chunks, one
    for each call of [Compress], that decode to the parts of the
    content. *)
Lemma PackBuffer_loop_spec (level : Z) (fuel : nat) :
  forall (content done outBuff buf : list Z) (total total' : Z),
    Forall is_byte content ->
    PackBuffer_loop fuel content done outBuff level total = Ok (buf, total') ->
    exists (items : list (list Z * list Z)) (rest : list Z),
      Forall (fun item => decodes (fst item) (snd item)) items
      /\ content = concat (map snd items)
      /\ buf = done ++ concat (map fst items) ++ rest
      /\ total' = total + len (concat (map fst items)).
Proof.
  assert (H4 : HEADER_SIZE = 4) by reflexivity.
  induction fuel as [|fuel IH];
    intros content done outBuff buf total total' Hbytes H; [discriminate H|].
  cbn [PackBuffer_loop] in H.
  destruct (Z.gtb_spec (len content) 0) as [Hpos|Hz].
  - bind_inv H as [[d r] w] EC. bind_inv H as content' Es.
    bind_inv H as outBuff' Eo.
    apply slice_from_Ok in Es. destruct Es as [Hr ->].
    apply slice_from_Ok in Eo. destruct Eo as [Hw ->].
    assert (Hne : content <> [])
      by (intros ->; rewrite (@len_nil Z) in Hpos; lia).
    destruct (Z.eq_dec r 0) as [Hr0|Hr0].
    + (* no progress: the next pass cannot return *)
      exfalso. subst r.
      destruct (Compress_stall _ _ _ _ _ EC Hne) as [Ew [Hd Hsmall]].
      cbn [Z.to_nat skipn] in H.
      destruct fuel as [|fuel]; [discriminate H|].
      cbn [PackBuffer_loop] in H.
      destruct (Z.gtb_spec (len content) 0); [|lia].
      rewrite Compress_short in H by (rewrite len_skipn by lia; lia).
      discriminate H.
    + destruct (Compress_decodes _ _ _ _ _ _ Hbytes EC ltac:(lia))
        as [Hdec [Hlw Hlr]].
      destruct (IH _ _ _ _ _ _ (Forall_skipn' _ _ _ Hbytes) H)
        as [items [rest [Hall [Hcontent [Hbuf Htotal]]]]].
      exists ((firstn (Z.to_nat w) d, firstn (Z.to_nat r) content) :: items), rest.
      cbn [map concat fst snd].
      split; [constructor; assumption|]. split; [|split].
      * rewrite <- Hcontent. symmetry. apply firstn_skipn.
      * rewrite Hbuf, <- !app_assoc. reflexivity.
      * rewrite Htotal, len_app, Hlw. lia.
  - injection H as <- <-. exists [], outBuff. cbn [map concat app].
    split; [constructor|]. split; [|split].
    + destruct content as [|x c]; [reflexivity|]. rewrite len_cons in Hz.
      pose proof (len_nonneg c). lia.
    + reflexivity.
    + rewrite (@len_nil Z). lia.
Qed.

Lemma PackBuffer_Decompress_stream (fileContent outBuff out buf : list Z)
  (level total : Z) :
  Forall is_byte fileContent -> fileContent <> [] ->
  PackBuffer fileContent outBuff level = Ok (buf, total) ->
  len fileContent <= len out ->
  Decompress out (firstn (Z.to_nat total) buf)
  = Ok (fileContent ++ skipn (length fileContent) out, total, len fileContent).
Proof.
  intros Hbytes Hne HP Hroom. unfold PackBuffer in HP.
  destruct (PackBuffer_loop_spec level _ _ _ _ _ _ _ Hbytes HP)
    as [items [rest [Hall [Hcontent [Hbuf Htotal]]]]].
  cbn [app] in Hbuf. rewrite Z.add_0_l in Htotal.
  assert (Efirst : firstn (Z.to_nat total) buf = concat (map fst items)).
  { rewrite Hbuf, Htotal, to_nat_len. apply firstn_app_exact. }
  rewrite Efirst, Htotal, Hcontent.
  destruct items as [|[chunk text] items].
  - exfalso. apply Hne. exact Hcontent.
  - inversion Hall as [|it its Hd Hall']; subst it its. cbn [fst snd] in Hd.
    cbn [map concat fst snd] in *.
    pose proof (Decompress_stream chunk text items [] out Hd Hall'
                  ltac:(rewrite <- Hcontent; exact Hroom) (stalls_nil _)) as E.
    rewrite app_nil_r in E. exact E.
Qed.

(** X12. Round trip of a buffer packed chunk by chunk: whenever
    [PackBuffer] returns on a non-empty content of bytes, one call of
    [Decompress] on the [totalBytesWritten] bytes it has written (with an
    output buffer that can hold the content) reads all of them and
    gives back the whole content, whatever the number of chunks. *)
Theorem PackBuffer_Decompress (fileContent outBuff out buf : list Z)
  (level total : Z) :
  Forall is_byte fileContent -> fileContent <> [] ->
  PackBuffer fileContent outBuff level = Ok (buf, total) ->
  len fileContent <= len out ->
  Decompress out (firstn (Z.to_nat total) buf)
  = Ok (fileContent ++ skipn (length fileContent) out, total, len fileContent).
Proof.
  exact (PackBuffer_Decompress_stream fileContent outBuff out buf level total).
Qed.

Lemma PackBuffer_Decompress_witness :
  PackBuffer [97; 98; 10; 99; 100; 10] (repeat 0 14) 4
  = Ok ([2; 0; 2; 0; 97; 98; 10; 2; 0; 2; 0; 99; 100; 10], 14)
  /\ Decompress (repeat 7 8)
       (firstn (Z.to_nat 14) [2; 0; 2; 0; 97; 98; 10; 2; 0; 2; 0; 99; 100; 10])
     = Ok ([97; 98; 10; 99; 100; 10]
             ++ skipn (length [97; 98; 10; 99; 100; 10]) (repeat 7 8),
           14, len [97; 98; 10; 99; 100; 10]).
Proof.
  split; [vm_compute; reflexivity|].
  apply (PackBuffer_Decompress [97; 98; 10; 99; 100; 10] (repeat 0 14)
           (repeat 7 8) [2; 0; 2; 0; 97; 98; 10; 2; 0; 2; 0; 99; 100; 10] 4 14).
  - repeat constructor; unfold is_byte; lia.
  - discriminate.
  - vm_compute. reflexivity.
  - vm_compute. discriminate.
Defined.

(** ** Streams cut short *)

Lemma stalls_truncated (chunk text : list Z) (n room : Z) :
  decodes chunk text -> 0 <= n < len chunk ->
  stalls (firstn (Z.to_nat n) chunk) room.
Proof.
  intros [header [payload [-> [Hh [Hrh _]]]]] Hn.
  assert (H4 : HEADER_SIZE = 4) by reflexivity.
  rewrite len_app in Hn. pose proof (len_nonneg payload) as Hp0.
  destruct (Z.lt_ge_cases n HEADER_SIZE) as [Hshort|Hlong].
  - left. rewrite len_firstn by (rewrite len_app; lia). exact Hshort.
  - right. exists (len payload), (len text).
    assert (E : firstn (Z.to_nat n) (header ++ payload)
                = header ++ firstn (Z.to_nat (n - HEADER_SIZE)) payload).
    { rewrite firstn_app, firstn_all2 by (unfold len in *; lia).
      do 2 f_equal. unfold len in *. lia. }
    rewrite E. split; [apply Hrh|]. left.
    rewrite len_app, len_firstn by lia. lia.
Qed.

Lemma stalls_no_room (chunk text more : list Z) (room : Z) :
  decodes chunk text -> room < len text -> stalls (chunk ++ more) room.
Proof.
  intros [header [payload [-> [Hh [Hrh _]]]]] Hroom.
  right. exists (len payload), (len text). rewrite <- app_assoc.
  split; [apply Hrh | right; exact Hroom].
Qed.

(** What [Decompress] does when its first chunk cannot be taken. *)
Lemma Decompress_stalls (out tail : list Z) :
  stalls tail (len out) ->
  exists code,
    Decompress out tail = Ok (out, code, 0)
    /\ (code = NOT_ENOUGH_INPUT \/ code = NOT_ENOUGH_OUTPUT_SPACE)
    /\ (len tail < HEADER_SIZE -> code = NOT_ENOUGH_INPUT)
    /\ (forall chunkSize rawSize,
          readHeader tail = Ok (chunkSize, rawSize) ->
          HEADER_SIZE <= len tail ->
          code = if len tail - HEADER_SIZE <? chunkSize
                 then NOT_ENOUGH_INPUT else NOT_ENOUGH_OUTPUT_SPACE).
Proof.
  intros Hstall. unfold Decompress.
  assert (H4 : HEADER_SIZE = 4) by reflexivity.
  destruct (Z.ltb_spec (len tail) HEADER_SIZE) as [Hshort|Hlong].
  - exists NOT_ENOUGH_INPUT. split; [reflexivity|]. split; [now left|].
    split; [reflexivity | intros; lia].
  - destruct Hstall as [Hbad|[c [r [Erh Hstop]]]]; [lia|].
    rewrite Erh. cbn [bind].
    rewrite slice_from_in_range by lia. cbn [bind].
    rewrite len_skipn by lia.
    destruct (Z.ltb_spec (len tail - HEADER_SIZE) c) as [Hc|Hc].
    + exists NOT_ENOUGH_INPUT. split; [reflexivity|]. split; [now left|].
      split; [reflexivity|]. intros c' r' E' _.
      assert (c' = c) by congruence. subst c'.
      destruct (Z.ltb_spec (len tail - HEADER_SIZE) c); [reflexivity | lia].
    + destruct (Z.ltb_spec (len out) r) as [Hr|Hr]; [|lia].
      exists NOT_ENOUGH_OUTPUT_SPACE. split; [reflexivity|]. split; [now right|].
      split; [intros; lia|]. intros c' r' E' _.
      assert (c' = c) by congruence. subst c'.
      destruct (Z.ltb_spec (len tail - HEADER_SIZE) c); [lia | reflexivity].
Qed.

Lemma firstn_firstn_le {A : Type} (s : list A) (n w : Z) :
  0 <= n <= w ->
  firstn (Z.to_nat n) s = firstn (Z.to_nat n) (firstn (Z.to_nat w) s).
Proof.
  intros H. rewrite firstn_firstn. f_equal. lia.
Qed.

(** X13. A stream cut inside a chunk: [Decompress] on a truncated chunk
    alone returns [NOT_ENOUGH_INPUT] and writes nothing; after a whole
    chunk it leaves the truncated one unread and returns the sizes of the
    whole chunk, so that the caller can go on from there with more
    input. *)
Theorem Decompress_truncated_chunk
  (dst1 src1 d1 dst2 src2 d2 out : list Z)
  (level1 level2 bytesRead1 bytesWritten1 bytesRead2 bytesWritten2 n : Z) :
  Forall is_byte src1 -> Forall is_byte src2 ->
  Compress dst1 src1 level1 = Ok (d1, bytesRead1, bytesWritten1) ->
  0 < bytesRead1 ->
  Compress dst2 src2 level2 = Ok (d2, bytesRead2, bytesWritten2) ->
  0 < bytesRead2 ->
  0 <= n < bytesWritten2 -> bytesRead1 <= len out ->
  Decompress out (firstn (Z.to_nat n) d2) = Ok (out, NOT_ENOUGH_INPUT, 0)
  /\ Decompress out (firstn (Z.to_nat bytesWritten1) d1
                     ++ firstn (Z.to_nat n) d2)
     = Ok (firstn (Z.to_nat bytesRead1) src1
             ++ skipn (Z.to_nat bytesRead1) out,
           bytesWritten1, bytesRead1).
Proof.
  intros Hb1 Hb2 HC1 Hr1 HC2 Hr2 Hn Hout.
  destruct (Compress_decodes _ _ _ _ _ _ Hb1 HC1 Hr1) as [Hd1 [Hw1 Hl1]].
  destruct (Compress_decodes _ _ _ _ _ _ Hb2 HC2 Hr2) as [Hd2 [Hw2 Hl2]].
  rewrite (firstn_firstn_le d2 n bytesWritten2) by lia.
  set (chunk1 := firstn (Z.to_nat bytesWritten1) d1) in *.
  set (chunk2 := firstn (Z.to_nat bytesWritten2) d2) in *.
  set (text1 := firstn (Z.to_nat bytesRead1) src1) in *.
  set (text2 := firstn (Z.to_nat bytesRead2) src2) in *.
  assert (Hstall : forall room, stalls (firstn (Z.to_nat n) chunk2) room)
    by (intros room; apply (stalls_truncated chunk2 text2); [exact Hd2 | lia]).
  split.
  - destruct (Decompress_stalls out _ (Hstall (len out)))
      as [code [E [_ [Hshort Hhdr]]]].
    rewrite E. do 2 f_equal. f_equal.
    destruct Hd2 as [header [payload [Ec [Hh [Hrh _]]]]].
    assert (H4 : HEADER_SIZE = 4) by reflexivity.
    pose proof (len_nonneg payload) as Hp0.
    assert (Hcl : len chunk2 = HEADER_SIZE + len payload)
      by (rewrite Ec, len_app; lia).
    assert (Hnl : len (firstn (Z.to_nat n) chunk2) = n)
      by (apply len_firstn; lia).
    destruct (Z.lt_ge_cases n HEADER_SIZE) as [Hs|Hlong]; [apply Hshort; lia|].
    assert (E' : firstn (Z.to_nat n) chunk2
                 = header ++ firstn (Z.to_nat (n - HEADER_SIZE)) payload).
    { rewrite Ec, firstn_app, firstn_all2 by (unfold len in *; lia).
      do 2 f_equal. unfold len in *. lia. }
    rewrite (Hhdr (len payload) (len text2)
               ltac:(rewrite E'; apply Hrh) ltac:(rewrite Hnl; lia)).
    rewrite Hnl.
    destruct (Z.ltb_spec (n - HEADER_SIZE) (len payload)); [reflexivity | lia].
  - pose proof (Decompress_stream chunk1 text1 [] (firstn (Z.to_nat n) chunk2)
                  out Hd1 (Forall_nil _)) as E.
    cbn [map concat] in E. rewrite !app_nil_r in E.
    rewrite E by (rewrite ?Hl1; (lia || apply Hstall)).
    rewrite Hw1, Hl1, <- (to_nat_len text1), Hl1. reflexivity.
Qed.

Lemma Decompress_truncated_chunk_witness :
  Decompress (repeat 7 4) (firstn (Z.to_nat 5) [2; 0; 2; 0; 97; 98; 10])
  = Ok (repeat 7 4, NOT_ENOUGH_INPUT, 0)
  /\ Decompress (repeat 7 4)
       (firstn (Z.to_nat 7) [2; 0; 2; 0; 97; 98; 10]
        ++ firstn (Z.to_nat 5) [2; 0; 2; 0; 97; 98; 10])
     = Ok (firstn (Z.to_nat 3) [97; 98; 10] ++ skipn (Z.to_nat 3) (repeat 7 4),
           7, 3).
Proof.
  apply (Decompress_truncated_chunk (repeat 0 7) [97; 98; 10]
           [2; 0; 2; 0; 97; 98; 10] (repeat 0 7) [97; 98; 10]
           [2; 0; 2; 0; 97; 98; 10] (repeat 7 4) 4 4 3 7 3 7 5).
  - repeat constructor; unfold is_byte; lia.
  - repeat constructor; unfold is_byte; lia.
  - vm_compute. reflexivity.
  - lia.
  - vm_compute. reflexivity.
  - lia.
  - lia.
  - vm_compute. discriminate.
Defined.

(** X14. Output space: [Decompress] returns [NOT_ENOUGH_OUTPUT_SPACE] and
    writes nothing when the output buffer is shorter than the first
    chunk's raw size; when the first chunk fits and the second does not,
    it decodes the first chunk only and returns its sizes. *)
Theorem Decompress_output_space
  (dst1 src1 d1 dst2 src2 d2 out1 out2 more : list Z)
  (level1 level2 bytesRead1 bytesWritten1 bytesRead2 bytesWritten2 : Z) :
  Forall is_byte src1 -> Forall is_byte src2 ->
  Compress dst1 src1 level1 = Ok (d1, bytesRead1, bytesWritten1) ->
  0 < bytesRead1 ->
  Compress dst2 src2 level2 = Ok (d2, bytesRead2, bytesWritten2) ->
  0 < bytesRead2 ->
  len out1 < bytesRead1 ->
  bytesRead1 <= len out2 < bytesRead1 + bytesRead2 ->
  Decompress out1 (firstn (Z.to_nat bytesWritten1) d1 ++ more)
  = Ok (out1, NOT_ENOUGH_OUTPUT_SPACE, 0)
  /\ Decompress out2 (firstn (Z.to_nat bytesWritten1) d1
                      ++ firstn (Z.to_nat bytesWritten2) d2 ++ more)
     = Ok (firstn (Z.to_nat bytesRead1) src1
             ++ skipn (Z.to_nat bytesRead1) out2,
           bytesWritten1, bytesRead1).
Proof.
  intros Hb1 Hb2 HC1 Hr1 HC2 Hr2 Hout1 Hout2.
  destruct (Compress_decodes _ _ _ _ _ _ Hb1 HC1 Hr1) as [Hd1 [Hw1 Hl1]].
  destruct (Compress_decodes _ _ _ _ _ _ Hb2 HC2 Hr2) as [Hd2 [Hw2 Hl2]].
  set (chunk1 := firstn (Z.to_nat bytesWritten1) d1) in *.
  set (chunk2 := firstn (Z.to_nat bytesWritten2) d2) in *.
  set (text1 := firstn (Z.to_nat bytesRead1) src1) in *.
  set (text2 := firstn (Z.to_nat bytesRead2) src2) in *.
  split.
  - destruct (Decompress_stalls out1 (chunk1 ++ more)
                (stalls_no_room chunk1 text1 more (len out1) Hd1 ltac:(lia)))
      as [code [E [_ [_ Hhdr]]]].
    rewrite E. do 2 f_equal. f_equal.
    destruct Hd1 as [header [payload [Ec [Hh [Hrh _]]]]].
    pose proof (len_nonneg payload) as Hp0. pose proof (len_nonneg more) as Hm0.
    assert (Hcl : len (chunk1 ++ more) = HEADER_SIZE + len payload + len more)
      by (rewrite Ec, !len_app; lia).
    rewrite (Hhdr (len payload) (len text1)
               ltac:(rewrite Ec, <- app_assoc; apply Hrh) ltac:(lia)).
    rewrite Hcl.
    destruct (Z.ltb_spec (HEADER_SIZE + len payload + len more - HEADER_SIZE)
                (len payload)); [lia | reflexivity].
  - pose proof (Decompress_stream chunk1 text1 [] (chunk2 ++ more)
                  out2 Hd1 (Forall_nil _)) as E.
    cbn [map concat] in E. rewrite !app_nil_r in E.
    rewrite E.
    + rewrite Hw1, Hl1, <- (to_nat_len text1), Hl1. reflexivity.
    + lia.
    + apply (stalls_no_room chunk2 text2). exact Hd2. lia.
Qed.

Lemma Decompress_output_space_witness :
  Decompress (repeat 7 2) (firstn (Z.to_nat 7) [2; 0; 2; 0; 97; 98; 10] ++ [1])
  = Ok (repeat 7 2, NOT_ENOUGH_OUTPUT_SPACE, 0)
  /\ Decompress (repeat 7 5)
       (firstn (Z.to_nat 7) [2; 0; 2; 0; 97; 98; 10]
        ++ firstn (Z.to_nat 7) [2; 0; 2; 0; 97; 98; 10] ++ [1])
     = Ok (firstn (Z.to_nat 3) [97; 98; 10] ++ skipn (Z.to_nat 3) (repeat 7 5),
           7, 3).
Proof.
  apply (Decompress_output_space (repeat 0 7) [97; 98; 10]
           [2; 0; 2; 0; 97; 98; 10] (repeat 0 7) [97; 98; 10]
           [2; 0; 2; 0; 97; 98; 10] (repeat 7 2) (repeat 7 5) [1]
           4 4 3 7 3 7).
  - repeat constructor; unfold is_byte; lia.
  - repeat constructor; unfold is_byte; lia.
  - vm_compute. reflexivity.
  - lia.
  - vm_compute. reflexivity.
  - lia.
  - vm_compute. reflexivity.
  - vm_compute. split; [discriminate | reflexivity].
Defined.

(** ** Room for a whole buffer *)

Lemma linesCode_bound (K : Z) (items : list (lineReference * list Z)) :
  forall history : list (list Z),
    valid_lines K history items ->
    len (linesCode items) <= 4 * len (linesText items).
Proof.
  induction items as [|[lr curr] items IH]; intros history Hv.
  - cbn [linesCode linesText flat_map]. rewrite (@len_nil Z). lia.
  - cbn [valid_lines] in Hv. destruct Hv as [Href [Hshape Hv]].
    rewrite linesCode_cons, linesText_cons, !len_app.
    specialize (IH _ Hv).
    assert (Hcode : len (lineCode lr curr) <= 2 * len curr + 2).
    { apply lineCode_len_core.
      destruct Href as [Hd|[_ [_ [Es _]]]];
        [left; exact Hd | right; eexists; exact Es]. }
    assert (Hpos : 1 <= len curr).
    { assert (Hne : curr <> [])
        by (destruct Hshape as [Hw|[Hne _]];
            [apply whole_line_nonempty; exact Hw | exact Hne]).
      destruct curr as [|x c]; [contradiction|].
      rewrite len_cons. pose proof (len_nonneg c). lia. }
    lia.
Qed.

(** A chunk is at most four times what it encodes, plus its header. *)
Lemma Compress_written_bound (dst src d : list Z) (level r w : Z) :
  Compress dst src level = Ok (d, r, w) -> w <= 4 * r + HEADER_SIZE.
Proof.
  intros HC.
  destruct (Compress_structure _ _ _ _ _ _ HC)
    as [K [firstLine [rest [k [items [header Hs]]]]]].
  cbv zeta in Hs.
  destruct Hs as [_ [_ [_ [Hk [_ [Hv [Hr [Hw _]]]]]]]].
  pose proof (linesCode_bound K items _ Hv) as Hb.
  pose proof (quotedSize_bounds (firstn (Z.to_nat k) firstLine)) as Hq.
  rewrite len_firstn in Hq by lia.
  rewrite len_app, quoted_len in Hw. lia.
Qed.

Lemma PackBuffer_loop_total (level : Z) (fuel : nat) :
  forall (content done outBuff : list Z) (total : Z),
    len content <= 32768 ->
    8 * len content <= len outBuff ->
    (length content < fuel)%nat ->
    exists buf total',
      PackBuffer_loop fuel content done outBuff level total = Ok (buf, total').
Proof.
  assert (H4 : HEADER_SIZE = 4) by reflexivity.
  assert (HM : MAX_CHUNK_SIZE = 65536) by reflexivity.
  induction fuel as [|fuel IH]; intros content done outBuff total Hsmall Hroom
    Hfuel; [lia|].
  cbn [PackBuffer_loop].
  destruct (Z.gtb_spec (len content) 0) as [Hpos|Hz]; [|eauto].
  set (firstLine := fst (nextLine (limitSlice content MAX_CHUNK_SIZE))).
  assert (Hfl : len firstLine <= len content).
  { pose proof (nextLine_shape (limitSlice content MAX_CHUNK_SIZE)) as [Hsplit _].
    fold firstLine in Hsplit.
    pose proof (limitSlice_len_le content MAX_CHUNK_SIZE ltac:(lia)) as [_ Hl].
    rewrite Hsplit, len_app in Hl.
    pose proof (len_nonneg (snd (nextLine (limitSlice content MAX_CHUNK_SIZE)))).
    lia. }
  pose proof (quotedSize_bounds firstLine) as Hq.
  assert (Hne : content <> [])
    by (intros ->; rewrite (@len_nil Z) in Hpos; lia).
  destruct (Compress_total outBuff content level)
    as [d [r [w [EC [Hr1 [Hr2 [_ [Hr0 [Hw [_ [Hd _]]]]]]]]]]];
    try (fold firstLine; lia).
  specialize (Hr0 Hne).
  pose proof (Compress_written_bound _ _ _ _ _ _ EC) as Hwb.
  rewrite EC. cbn [bind].
  rewrite slice_from_in_range by lia. cbn [bind].
  rewrite slice_from_in_range by lia. cbn [bind].
  apply IH.
  - rewrite len_skipn by lia. lia.
  - rewrite !len_skipn by lia. lia.
  - rewrite length_skipn. unfold len in *. lia.
Qed.

(** X15. Packing and unpacking a whole buffer: for a non-empty content
    of at most 32768 bytes and an [outBuff] of eight times its length or
    more, [PackBuffer] returns (no call of [Compress] panics or stalls),
    and [Decompress] on what it wrote gives the content back. *)
Theorem PackBuffer_roundtrip (fileContent outBuff out : list Z) (level : Z) :
  Forall is_byte fileContent -> fileContent <> [] ->
  len fileContent <= 32768 ->
  8 * len fileContent <= len outBuff ->
  len fileContent <= len out ->
  exists (buf : list Z) (total : Z),
    PackBuffer fileContent outBuff level = Ok (buf, total)
    /\ Decompress out (firstn (Z.to_nat total) buf)
       = Ok (fileContent ++ skipn (length fileContent) out,
             total, len fileContent).
Proof.
  intros Hbytes Hne Hsmall Hroom Hout.
  destruct (PackBuffer_loop_total level (S (S (length fileContent)))
              fileContent [] outBuff 0 Hsmall Hroom ltac:(lia))
    as [buf [total E]].
  exists buf, total. split; [exact E|].
  apply (PackBuffer_Decompress_stream fileContent outBuff out buf level total
           Hbytes Hne E Hout).
Qed.

Lemma PackBuffer_roundtrip_witness :
  exists (buf : list Z) (total : Z),
    PackBuffer [97; 98; 10; 99; 100; 10] (repeat 0 48) 9 = Ok (buf, total)
    /\ Decompress (repeat 7 8) (firstn (Z.to_nat total) buf)
       = Ok ([97; 98; 10; 99; 100; 10]
               ++ skipn (length [97; 98; 10; 99; 100; 10]) (repeat 7 8),
             total, len [97; 98; 10; 99; 100; 10]).
Proof.
  apply (PackBuffer_roundtrip [97; 98; 10; 99; 100; 10] (repeat 0 48)
           (repeat 7 8) 9).
  - repeat constructor; unfold is_byte; lia.
  - discriminate.
  - vm_compute. discriminate.
  - vm_compute. discriminate.
  - vm_compute. discriminate.
Defined.

(** ** Termination *)

(** The loops of the embedding run on fuel; the lemmas below show that the
    fuel given to them is never used up, on any input: every call returns
    or panics. *)

Lemma bind_fuel {A B : Type} (m : result A) (k : A -> result B) :
  m <> OutOfFuel -> (forall a, m = Ok a -> k a <> OutOfFuel) ->
  bind m k <> OutOfFuel.
Proof.
  intros Hm Hk. destruct m as [a| |]; cbn [bind];
    [apply Hk; reflexivity | discriminate | contradiction].
Qed.

Lemma index_fuel {A : Type} (s : list A) (i : Z) : index s i <> OutOfFuel.
Proof.
  unfold index. destruct (0 <=? i); [|discriminate].
  destruct (nth_error s (Z.to_nat i)); discriminate.
Qed.

Lemma store_fuel {A : Type} (s : list A) (i : Z) (v : A) :
  store s i v <> OutOfFuel.
Proof. unfold store. destruct (_ && _); discriminate. Qed.

Lemma slice_fuel {A : Type} (s : list A) (lo hi : Z) : slice s lo hi <> OutOfFuel.
Proof. unfold slice. destruct (_ && _); discriminate. Qed.

Lemma slice_from_fuel {A : Type} (s : list A) (lo : Z) :
  slice_from s lo <> OutOfFuel.
Proof. apply slice_fuel. Qed.

Lemma slice_to_fuel {A : Type} (s : list A) (hi : Z) :
  slice_to s hi <> OutOfFuel.
Proof. apply slice_fuel. Qed.

Lemma indexOfFirstSpace_fuel (i : Z) (buffer : list Z) :
  indexOfFirstSpace i buffer <> OutOfFuel.
Proof. unfold indexOfFirstSpace. destruct (i <? 0); discriminate. Qed.

Lemma go_rem_fuel (a b : Z) : go_rem a b <> OutOfFuel.
Proof. unfold go_rem. destruct (b =? 0); discriminate. Qed.

Lemma add_fuel (backref : backrefBuffer) (l : list Z) :
  add backref l <> OutOfFuel.
Proof.
  unfold add. apply bind_fuel; [apply store_fuel|]. intros ls _.
  apply bind_fuel; [apply go_rem_fuel|]. intros w _.
  destruct (w =? oldestLineIdx backref); [|discriminate].
  apply bind_fuel; [apply go_rem_fuel|]. intros o _. discriminate.
Qed.

Lemma getLineAt_fuel (backref : backrefBuffer) (before : Z) :
  getLineAt backref before <> OutOfFuel.
Proof.
  unfold getLineAt. destruct (before >? capacity backref); [discriminate|].
  apply index_fuel.
Qed.

Lemma Uint16_fuel (b : list Z) : Uint16 b <> OutOfFuel.
Proof.
  unfold Uint16. apply bind_fuel; [apply index_fuel|]. intros _ _.
  apply bind_fuel; [apply index_fuel|]. intros b0 _.
  apply bind_fuel; [apply index_fuel|]. intros b1 _. discriminate.
Qed.

Lemma readHeader_fuel (header : list Z) : readHeader header <> OutOfFuel.
Proof.
  unfold readHeader. apply bind_fuel; [apply Uint16_fuel|]. intros c _.
  apply bind_fuel; [apply slice_from_fuel|]. intros rest _.
  apply bind_fuel; [apply Uint16_fuel|]. intros r _. discriminate.
Qed.

Lemma decodeLength_loop_progress (compressed : list Z) (acc k : Z) :
  compressed <> [] -> k + 1 <= snd (decodeLength_loop compressed acc k).
Proof.
  destruct compressed as [|bite rest]; [contradiction|]. intros _.
  cbn [decodeLength_loop].
  destruct (bite <? Z.lor ESCAPE_BYTE LENGTH_BASE); cbn [snd]; [lia|].
  pose proof (decodeLength_loop_read rest
                (acc + to_byte (bite - ESCAPE_BYTE)) (k + 1)).
  lia.
Qed.

Ltac fuel_bind lem :=
  match goal with
  | |- context [bind ?m _] =>
      let E := fresh "E" in
      destruct m eqn:E; cbn [bind];
      [ | exact I | exfalso; eapply lem; exact E ]
  end.

(** The inner loop of [decompressChunk] ends, and moves forward when there
    is input left. *)
Lemma decompressLine_loop_progress (fuel : nat) :
  forall (compressed key dst : list Z) (i dk bw lb : Z),
    0 <= i -> (Z.to_nat (len compressed - i) < fuel)%nat ->
    match decompressLine_loop fuel compressed key dst i dk bw lb with
    | OutOfFuel => False
    | Ok (LineDone _ idxCompressed _ _ _) =>
        i <= idxCompressed /\ (i < len compressed -> i < idxCompressed)
    | _ => True
    end.
Proof.
  induction fuel as [|fuel IH]; intros compressed key dst i dk bw lb Hi Hfuel;
    [lia|].
  cbn [decompressLine_loop].
  destruct (Z.ltb_spec i (len compressed)) as [Hlt|Hge]; [|split; lia].
  assert (Hnext : forall (d : list Z) (i' dk' bw' : Z), i + 1 <= i' ->
            match decompressLine_loop fuel compressed key d i' dk' bw' lb with
            | OutOfFuel => False
            | Ok (LineDone _ idxCompressed _ _ _) =>
                i <= idxCompressed /\ (i < len compressed -> i < idxCompressed)
            | _ => True
            end).
  { intros d i' dk' bw' Hi'.
    specialize (IH compressed key d i' dk' bw' lb ltac:(lia) ltac:(lia)).
    destruct (decompressLine_loop fuel compressed key d i' dk' bw' lb)
      as [[|? ? ? ? ?]| |]; try exact I; try exact IH. lia. }
  fuel_bind @index_fuel.
  destruct (a >? ESCAPE_BYTE).
  - fuel_bind @slice_from_fuel.
    apply slice_from_Ok in E0. destruct E0 as [_ Etail].
    destruct (decodeLength a0) as [length diff] eqn:Ed.
    assert (Hdiff : 1 <= diff).
    { pose proof (decodeLength_loop_progress a0 0 0) as Hp.
      unfold decodeLength in Ed. rewrite Ed in Hp. cbn [snd] in Hp.
      apply Hp. intros Hnil. rewrite Hnil in Etail.
      assert (Hl : len (skipn (Z.to_nat i) compressed) = 0)
        by (rewrite <- Etail; reflexivity).
      rewrite len_skipn in Hl by lia. lia. }
    destruct (len key - dk <? length); [exact I|].
    fuel_bind @slice_from_fuel.
    fuel_bind @slice_fuel.
    fuel_bind indexOfFirstSpace_fuel.
    fuel_bind @index_fuel.
    destruct (a4 =? NEWLINE).
    + fuel_bind @slice_fuel. split; lia.
    + apply Hnext. lia.
  - cbv zeta.
    destruct ((a =? ESCAPE_BYTE) && (i + 1 >=? len compressed)); [exact I|].
    destruct (bw >=? len dst); [exact I|].
    fuel_bind @index_fuel.
    fuel_bind @store_fuel.
    fuel_bind @index_fuel.
    destruct (a2 =? NEWLINE).
    + fuel_bind @slice_fuel. destruct (a =? ESCAPE_BYTE); split; lia.
    + apply Hnext. destruct (a =? ESCAPE_BYTE); lia.
Qed.

(** The outer loop of [decompressChunk] consumes at least one byte of the
    chunk in every pass. *)
Lemma decompressChunk_loop_fuel (fuel : nat) :
  forall (backref : backrefBuffer) (compressed dst : list Z)
    (bytesWritten idxLineBegin : Z),
    (length compressed < fuel)%nat ->
    decompressChunk_loop fuel backref compressed dst bytesWritten idxLineBegin
    <> OutOfFuel.
Proof.
  induction fuel as [|fuel IH];
    intros backref compressed dst bw lb Hfuel; [lia|].
  cbn [decompressChunk_loop].
  destruct (Z.gtb_spec (len compressed) 0) as [Hpos|_]; [|discriminate].
  apply bind_fuel; [apply index_fuel|]. intros first _.
  match goal with
  | |- bind ?m _ <> _ =>
      assert (Hpre : m <> OutOfFuel
                     /\ forall c key ik, m = Ok (c, key, ik) ->
                          c = compressed \/ len c < len compressed)
  end.
  { destruct (first >? ESCAPE_BYTE).
    - split.
      + apply bind_fuel; [apply slice_from_fuel|]. intros c1 _.
        apply bind_fuel; [apply getLineAt_fuel|]. intros key _.
        destruct (negb _); [|discriminate].
        destruct (decodeLength c1) as [ik n].
        apply bind_fuel; [apply slice_from_fuel|]. intros c2 _. discriminate.
      + intros c key ik.
        destruct (slice_from compressed 1) as [c1| |] eqn:E1; cbn [bind];
          [|discriminate|discriminate].
        apply slice_from_Ok in E1. destruct E1 as [H1 Ec1].
        assert (Hc1 : len c1 = len compressed - 1)
          by (rewrite Ec1; apply len_skipn; lia).
        clear Ec1.
        destruct (getLineAt backref _) as [key'| |]; cbn [bind];
          [|discriminate|discriminate].
        destruct (negb _).
        * destruct (decodeLength _) as [ik' n].
          destruct (slice_from _ n) as [c2| |] eqn:E2; cbn [bind];
            [|discriminate|discriminate].
          apply slice_from_Ok in E2. destruct E2 as [H2 ->].
          intros H. injection H as <- _ _. right.
          rewrite len_skipn by lia. lia.
        * intros H. injection H as <- _ _. right. lia.
    - split; [discriminate|]. intros c key ik H. injection H as <- _ _.
      now left. }
  destruct Hpre as [Hpre1 Hpre2].
  apply bind_fuel; [exact Hpre1|]. intros [[c key] ik] Epre.
  specialize (Hpre2 c key ik Epre).
  pose proof (decompressLine_loop_progress (S (length c)) c key dst 0 ik bw lb
                ltac:(lia) ltac:(unfold len; lia)) as Hline.
  destruct (decompressLine_loop (S (length c)) c key dst 0 ik bw lb)
    as [[d|d idxC bw' lb' last]| |]; cbn [bind];
    [discriminate| |discriminate|contradiction].
  apply bind_fuel; [apply add_fuel|]. intros backref' _.
  apply bind_fuel; [apply slice_from_fuel|]. intros c' Ec'.
  apply slice_from_Ok in Ec'. destruct Ec' as [Hc' ->].
  apply IH.
  assert (Hl : len (skipn (Z.to_nat idxC) c) = len c - idxC)
    by (apply len_skipn; lia).
  destruct Hpre2 as [->|Hlt]; unfold len in *; lia.
Qed.

Lemma decompressChunk_fuel (compressed dst : list Z) :
  decompressChunk compressed dst <> OutOfFuel.
Proof.
  unfold decompressChunk. apply bind_fuel; [apply index_fuel|]. intros first _.
  destruct (first >? ESCAPE_BYTE); [discriminate|].
  apply decompressChunk_loop_fuel. lia.
Qed.

(** Every pass of the loop of [Decompress] consumes a header. *)
Lemma Decompress_loop_fuel (fuel : nat) :
  forall (chunkResult : Z) (done dst srcCompressed : list Z)
    (bytesRead bytesWritten : Z),
    (length srcCompressed < fuel)%nat ->
    Decompress_loop fuel chunkResult done dst srcCompressed bytesRead
      bytesWritten <> OutOfFuel.
Proof.
  induction fuel as [|fuel IH];
    intros chunkResult done dst src bytesRead bytesWritten Hfuel; [lia|].
  cbn [Decompress_loop].
  destruct (len src >=? HEADER_SIZE); [|discriminate].
  apply bind_fuel; [apply readHeader_fuel|]. intros [chunkSize rawSize] _.
  apply bind_fuel; [apply slice_from_fuel|]. intros src1 E1.
  apply slice_from_Ok in E1. destruct E1 as [H1 ->].
  assert (H4 : HEADER_SIZE = 4) by reflexivity.
  assert (Hl1 : len (skipn (Z.to_nat HEADER_SIZE) src) = len src - HEADER_SIZE)
    by (apply len_skipn; lia).
  destruct (len _ <? chunkSize); [discriminate|].
  destruct (len dst <? rawSize); [discriminate|].
  apply bind_fuel; [apply slice_to_fuel|]. intros chunk _.
  apply bind_fuel; [apply slice_to_fuel|]. intros out _.
  apply bind_fuel; [apply decompressChunk_fuel|]. intros [out' r] _.
  destruct (chunkResult <? 0); [discriminate|].
  apply bind_fuel; [apply slice_from_fuel|]. intros src2 E2.
  apply slice_from_Ok in E2. destruct E2 as [H2 ->].
  apply bind_fuel; [apply slice_from_fuel|]. intros dst' _.
  apply IH.
  assert (Hl2 : len (skipn (Z.to_nat chunkSize)
                       (skipn (Z.to_nat HEADER_SIZE) src))
                = len (skipn (Z.to_nat HEADER_SIZE) src) - chunkSize)
    by (apply len_skipn; lia).
  unfold len in *. lia.
Qed.

Lemma Decompress_fuel (dst srcCompressed : list Z) :
  Decompress dst srcCompressed <> OutOfFuel.
Proof.
  unfold Decompress.
  destruct (len srcCompressed <? HEADER_SIZE); [discriminate|].
  apply bind_fuel; [apply readHeader_fuel|]. intros [chunkSize rawSize] _.
  apply bind_fuel; [apply slice_from_fuel|]. intros src1 _.
  destruct (len src1 <? chunkSize); [discriminate|].
  destruct (len dst <? rawSize); [discriminate|].
  cbv zeta.
  apply bind_fuel; [apply slice_to_fuel|]. intros chunk _.
  apply bind_fuel; [apply slice_to_fuel|]. intros out _.
  apply bind_fuel; [apply decompressChunk_fuel|]. intros [out' r] _.
  destruct (r <? 0); [discriminate|].
  apply bind_fuel; [apply slice_from_fuel|]. intros src2 _.
  apply bind_fuel; [apply slice_from_fuel|]. intros dst' _.
  apply Decompress_loop_fuel. lia.
Qed.

Lemma quoteSafely_loop_fuel (n : Z) (src : list Z) :
  forall (dst : list Z) (i escapedCharsCount : Z),
    quoteSafely_loop n src dst i escapedCharsCount <> OutOfFuel.
Proof.
  induction src as [|char rest IH]; intros dst i e; cbn [quoteSafely_loop];
    [discriminate|].
  destruct (Z.land char ESCAPE_BYTE =? 0).
  - apply bind_fuel; [apply store_fuel|]. intros d _. apply IH.
  - destruct (i + e + 2 >? len dst); [discriminate|].
    apply bind_fuel; [apply store_fuel|]. intros d _.
    apply bind_fuel; [apply store_fuel|]. intros d' _. apply IH.
Qed.

Lemma PutUint16_fuel (b : list Z) (v : Z) : PutUint16 b v <> OutOfFuel.
Proof.
  unfold PutUint16. apply bind_fuel; [apply index_fuel|]. intros _ _.
  apply bind_fuel; [apply store_fuel|]. intros b' _. apply store_fuel.
Qed.

Lemma storeHeader_fuel (header : list Z) (compressedSize rawSize : Z) :
  storeHeader header compressedSize rawSize <> OutOfFuel.
Proof.
  unfold storeHeader. apply bind_fuel; [apply PutUint16_fuel|]. intros h _.
  apply bind_fuel; [apply slice_from_fuel|]. intros rest _.
  apply bind_fuel; [apply PutUint16_fuel|]. intros rest' _. discriminate.
Qed.

Lemma Compress_start_fuel (dst src : list Z) (compressionLevel : Z) :
  Compress_start dst src compressionLevel <> OutOfFuel.
Proof.
  unfold Compress_start.
  apply bind_fuel; [apply slice_to_fuel|]. intros header _.
  apply bind_fuel; [apply slice_from_fuel|]. intros body _.
  cbv zeta.
  apply bind_fuel; [apply index_fuel|]. intros params _.
  destruct (nextLine (limitSlice src MAX_CHUNK_SIZE)) as [firstLine rest].
  apply bind_fuel; [apply add_fuel|]. intros backref _.
  apply bind_fuel; [apply quoteSafely_loop_fuel|]. intros [[w r] bw] _.
  apply bind_fuel; [apply slice_from_fuel|]. intros dst' _. discriminate.
Qed.

(** The loops of [Compress] and of the functions it calls end on every
    input. *)
Lemma Compress_fuel (dst src : list Z) (compressionLevel : Z) :
  Compress dst src compressionLevel <> OutOfFuel.
Proof.
  unfold Compress.
  apply bind_fuel; [apply Compress_start_fuel|]. intros st Est.
  destruct (Compress_start_spec dst src compressionLevel st Est)
    as [K [firstLine [k Hspec]]].
  cbv zeta in Hspec.
  destruct Hspec as [HK [_ [_ [Hinv [Hcont _]]]]].
  destruct (Compress_loop_spec K HK (S (length (cs_src st))) st [firstLine]
              Hinv Hcont ltac:(lia)) as [items [st' [El _]]].
  rewrite El. cbn [bind].
  apply bind_fuel; [apply storeHeader_fuel|]. intros header _. discriminate.
Qed.

(** A pass of [PackBuffer] over a destination too short for a header
    panics, unless the source is empty. *)
Lemma PackBuffer_loop_short (fuel : nat) (content done outBuff : list Z)
  (level total : Z) :
  len outBuff < HEADER_SIZE ->
  PackBuffer_loop (S fuel) content done outBuff level total <> OutOfFuel.
Proof.
  intros Hshort. cbn [PackBuffer_loop].
  destruct (len content >? 0); [|discriminate].
  rewrite (Compress_short outBuff content level Hshort). discriminate.
Qed.

(** Every pass of [PackBuffer] consumes a byte of the source, but for one
    pass that leaves fewer than [HEADER_SIZE] bytes of destination. *)
Lemma PackBuffer_loop_fuel (level : Z) (fuel : nat) :
  forall (content done outBuff : list Z) (total : Z),
    (S (length content) < fuel)%nat ->
    PackBuffer_loop fuel content done outBuff level total <> OutOfFuel.
Proof.
  assert (H4 : HEADER_SIZE = 4) by reflexivity.
  induction fuel as [|fuel IH]; intros content done outBuff total Hfuel; [lia|].
  cbn [PackBuffer_loop].
  destruct (Z.gtb_spec (len content) 0) as [Hpos|_]; [|discriminate].
  apply bind_fuel; [apply Compress_fuel|]. intros [[d read] written] EC.
  apply bind_fuel; [apply slice_from_fuel|]. intros content' Ec.
  apply slice_from_Ok in Ec. destruct Ec as [Hread Ec].
  apply bind_fuel; [apply slice_from_fuel|]. intros outBuff' Eo.
  apply slice_from_Ok in Eo. destruct Eo as [Hwritten Eo].
  assert (Hlc : len content' = len content - read)
    by (rewrite Ec; apply len_skipn; lia).
  assert (Hlo : len outBuff' = len d - written)
    by (rewrite Eo; apply len_skipn; lia).
  destruct (Z.eq_dec read 0) as [Hz|Hnz].
  - subst read.
    assert (Hne : content <> []) by (intros ->; cbn in Hpos; lia).
    destruct (Compress_stall outBuff content d level written EC Hne)
      as [Hw [Hd Hsmall]].
    destruct fuel as [|fuel]; [lia|].
    apply PackBuffer_loop_short. lia.
  - apply IH. unfold len in *. lia.
Qed.

Lemma PackBuffer_fuel (fileContent outBuff : list Z) (compressionLevel : Z) :
  PackBuffer fileContent outBuff compressionLevel <> OutOfFuel.
Proof. unfold PackBuffer. apply PackBuffer_loop_fuel. lia. Qed.

(** X16.  [Compress], [Decompress] and the packing loop [PackBuffer] end on
    every input, valid or not: each of their loops makes progress in every
    pass, so that a call either returns or panics.  The inner loop of
    [decompressChunk] moves forward in the chunk in every pass, its outer
    loop consumes one byte or more for every line, the loop of [Decompress]
    consumes a header in every pass, and the line loop of [Compress]
    consumes a line in every pass. *)
Theorem codec_terminates (dst src : list Z) (compressionLevel : Z) :
  Compress dst src compressionLevel <> OutOfFuel
  /\ Decompress dst src <> OutOfFuel
  /\ PackBuffer src dst compressionLevel <> OutOfFuel.
Proof.
  split; [apply Compress_fuel|].
  split; [apply Decompress_fuel | apply PackBuffer_fuel].
Qed.

(** ** The size of a chunk *)

(** A plain byte costs one byte of output and a byte with the high bit set
    two; a line after the first costs a reference byte more, and up to two
    bytes more still when the reference carries the offset of a space in
    the key line.  The newline that ends a line is plain, and so is the
    space that such a reference needs in the line and in its key. *)

Lemma endsLine_range (s : list Z) : 0 <= endsLine s <= 1.
Proof. unfold endsLine. destruct (last s 0 =? NEWLINE); lia. Qed.

Lemma endsLine_newline (body : list Z) : endsLine (body ++ [NEWLINE]) = 1.
Proof. unfold endsLine. rewrite last_last. reflexivity. Qed.

Lemma last_app_nonempty (s t : list Z) (d : Z) :
  t <> [] -> last (s ++ t) d = last t d.
Proof.
  intros Ht. induction s as [|a s IH]; [reflexivity|].
  cbn [app last]. destruct (s ++ t) as [|b u] eqn:E; [|exact IH].
  apply app_eq_nil in E. destruct E as [_ E]. contradiction.
Qed.

Lemma endsLine_app (s t : list Z) :
  t <> [] -> endsLine (s ++ t) = endsLine t.
Proof. intros Ht. unfold endsLine. rewrite last_app_nonempty by exact Ht. reflexivity. Qed.

Lemma endsLine_inv (s : list Z) :
  endsLine s = 1 -> exists body, s = body ++ [NEWLINE].
Proof.
  unfold endsLine. pattern s. apply rev_ind.
  - cbn. discriminate.
  - intros x body _. rewrite last_last.
    destruct (Z.eqb_spec x NEWLINE) as [->|_]; [|discriminate].
    intros _. exists body. reflexivity.
Qed.

Lemma endsLine_plain (s : list Z) : ~ In NEWLINE s -> endsLine s = 0.
Proof.
  intros Hn. pose proof (endsLine_range s) as Hr.
  destruct (Z.eq_dec (endsLine s) 1) as [E|E]; [|lia].
  apply endsLine_inv in E. destruct E as [body ->].
  exfalso. apply Hn. apply in_or_app. right. left. reflexivity.
Qed.

Lemma newlines_plain (s : list Z) : ~ In NEWLINE s -> newlines s = 0.
Proof.
  intros Hn. unfold newlines.
  rewrite (proj1 (count_occ_not_In Z.eq_dec s NEWLINE) Hn). reflexivity.
Qed.

(** A line as [Compress] takes it holds a newline at its end or none. *)
Lemma line_newlines {A : Type} (curr : list Z) (rest : list A) :
  whole_line curr \/ (curr <> [] /\ ~ In NEWLINE curr /\ rest = []) ->
  newlines curr = endsLine curr.
Proof.
  intros [[body [-> Hn]]|[_ [Hn _]]].
  - rewrite newlines_app, endsLine_newline, (newlines_plain body Hn).
    reflexivity.
  - rewrite newlines_plain, endsLine_plain by exact Hn. reflexivity.
Qed.

Lemma quotedSize_newline : quotedSize [NEWLINE] = 1.
Proof. reflexivity. Qed.

Lemma len_one {A : Type} (a : A) : len [a] = 1.
Proof. reflexivity. Qed.

Lemma quotedSize_line (s : list Z) : quotedSize s <= 2 * len s - endsLine s.
Proof.
  pose proof (endsLine_range s) as Hr.
  destruct (Z.eq_dec (endsLine s) 1) as [E|E].
  - rewrite E. apply endsLine_inv in E. destruct E as [body ->].
    rewrite quotedSize_app, len_app, quotedSize_newline, len_one.
    pose proof (quotedSize_bounds body). lia.
  - pose proof (quotedSize_bounds s). lia.
Qed.

Lemma quotedSize_line_space (s : list Z) :
  In SPACE s -> quotedSize s <= 2 * len s - 1 - endsLine s.
Proof.
  intros Hin. pose proof (endsLine_range s) as Hr.
  destruct (Z.eq_dec (endsLine s) 1) as [E|E].
  - rewrite E. apply endsLine_inv in E. destruct E as [body ->].
    apply in_app_or in Hin. destruct Hin as [Hin|[Hin|[]]]; [|discriminate Hin].
    rewrite quotedSize_app, len_app, quotedSize_newline, len_one.
    pose proof (quotedSize_space body Hin). lia.
  - pose proof (quotedSize_space s Hin). lia.
Qed.

(** [p] matched bytes and the rest quoted. *)
Lemma quotedSize_tail (s : list Z) (p : Z) :
  0 <= p <= len s ->
  p + quotedSize (skipn (Z.to_nat p) s) <= 2 * len s - endsLine s.
Proof.
  intros Hp. pose proof (endsLine_range s) as Hr.
  destruct (Z.eq_dec p (len s)) as [->|Hlt].
  - rewrite to_nat_len, skipn_all. cbn [quotedSize].
    destruct (Z.eq_dec (endsLine s) 1) as [E|E]; [|lia].
    apply endsLine_inv in E. destruct E as [body ->].
    rewrite len_app, len_one. pose proof (len_nonneg body). lia.
  - assert (Hne : skipn (Z.to_nat p) s <> []).
    { intros E. apply (f_equal len) in E. rewrite len_skipn in E by lia.
      cbn in E. lia. }
    pose proof (quotedSize_line (skipn (Z.to_nat p) s)) as Hq.
    rewrite len_skipn in Hq by lia.
    rewrite <- (firstn_skipn (Z.to_nat p) s) at 3.
    rewrite endsLine_app by exact Hne. lia.
Qed.

Lemma index_Ok_In {A : Type} (s : list A) (i : Z) (a : A) :
  index s i = Ok a -> In a s.
Proof.
  unfold index. destruct (0 <=? i); [|discriminate].
  destruct (nth_error s (Z.to_nat i)) as [x|] eqn:E; [|discriminate].
  intros H. injection H as <-. exact (nth_error_In _ _ E).
Qed.

Lemma recent_in (ls : list (list Z)) (i : Z) :
  recent ls i = [] \/ In (recent ls i) ls.
Proof.
  unfold recent.
  destruct (Z.leb_spec 1 i); cbn [andb]; [|now left].
  destruct (Z.leb_spec i (len ls)); [|now left].
  right. apply nth_In. unfold len in *. lia.
Qed.

(** The bytes of one line after the first: one more than the line with
    its bytes quoted; two more only with a key line that holds a space. *)
Lemma lineCode_len_line (lineRef : lineReference) (curr : list Z) :
  lineRef = mkLineRef [] 1 0 0
  \/ (exists s, estimateSimilarity (line lineRef) curr
                = Ok (prefixLength lineRef, s)) ->
  len (lineCode lineRef curr) <= 2 * len curr + 2 - endsLine curr
  /\ (len (lineCode lineRef curr) <= 2 * len curr + 1 - endsLine curr
      \/ In SPACE (line lineRef)).
Proof.
  pose proof (len_nonneg curr) as Hcurr.
  pose proof (endsLine_range curr) as He.
  intros [->|[s0 Es]]; unfold lineCode.
  - cbn [prefixLength line linesBefore]. cbn [Z.ltb Z.compare].
    pose proof (lineCode_loop_len [] curr (S (length (@nil Z) + length curr))
                  0 0 0 ltac:(lia) ltac:(lia) ltac:(lia)) as Hl.
    cbn [Z.to_nat skipn] in Hl.
    pose proof (quotedSize_line curr) as Hq.
    rewrite len_cons. split; [lia | left; lia].
  - destruct (estimateSimilarity_facts (line lineRef) curr)
      as [p [s [E [Hsb [Hpos [Hneg _]]]]]].
    rewrite Es in E. injection E as <- <-.
    pose proof (min3_bounds (len (line lineRef)) (len curr) MAX_SIMILARITY)
      as [_ [Hm2 [Hm3 _]]].
    set (key := line lineRef) in *. set (p := prefixLength lineRef) in *.
    set (F := S (length key + length curr)).
    destruct (Z.ltb_spec p 0) as [Hlt|Hge].
    + destruct (Hneg Hlt) as [Hoff [Hsp Hin]].
      pose proof (quotedSize_line_space curr Hin) as Hq.
      pose proof (lineCode_loop_len key curr F (- p) 0 0
                    ltac:(lia) ltac:(lia) ltac:(lia)) as Hl.
      cbn [Z.to_nat skipn] in Hl.
      pose proof (lengthCode_len_bounds (- p) ltac:(lia)) as [Hlc [Hlc2 _]].
      unfold MAX_SIMILARITY in *.
      rewrite len_cons, len_app.
      split; [lia | right; exact (index_Ok_In _ _ _ Hsp)].
    + destruct (Hpos Hge) as [Hps _].
      pose proof (lineCode_loop_len key curr F p p p
                    ltac:(lia) ltac:(lia) ltac:(lia)) as Hl.
      pose proof (quotedSize_tail curr p ltac:(lia)) as Hq.
      rewrite len_cons. split; [lia | left; lia].
Qed.

Lemma valid_reference_core (K : Z) (history : list (list Z)) (curr : list Z)
  (lineRef : lineReference) :
  valid_reference K history curr lineRef ->
  lineRef = mkLineRef [] 1 0 0
  \/ (exists s, estimateSimilarity (line lineRef) curr
                = Ok (prefixLength lineRef, s)).
Proof.
  intros [Hd|[_ [_ [Es _]]]]; [left; exact Hd | right; eexists; exact Es].
Qed.

(** The key line of a reference is one of the lines before, or empty. *)
Lemma valid_reference_key (K : Z) (history : list (list Z)) (curr : list Z)
  (lineRef : lineReference) :
  valid_reference K history curr lineRef ->
  line lineRef = [] \/ In (line lineRef) history.
Proof.
  intros [->|[_ [Hl _]]]; [left; reflexivity|].
  rewrite Hl. apply recent_in.
Qed.

(** The lines after the first: two bytes more than quoted for each. *)
Lemma linesCode_cost (K : Z) (items : list (lineReference * list Z)) :
  forall history : list (list Z),
    valid_lines K history items ->
    len (linesCode items)
    <= 2 * len (linesText items) - newlines (linesText items) + 2 * len items.
Proof.
  induction items as [|[lineRef curr] rest IH]; intros history Hv.
  - cbn. lia.
  - cbn [valid_lines] in Hv. destruct Hv as [Href [Hshape Hrest]].
    rewrite linesCode_cons, linesText_cons, !len_app, newlines_app, len_cons.
    specialize (IH _ Hrest).
    pose proof (lineCode_len_line lineRef curr
                  (valid_reference_core _ _ _ _ Href)) as [Hl _].
    rewrite (line_newlines curr rest Hshape). lia.
Qed.

(** As long as no line before holds a space, the next line costs one byte
    more than quoted at most. *)
Lemma linesCode_cost_first (K : Z) (items : list (lineReference * list Z))
  (history : list (list Z)) :
  valid_lines K history items ->
  (forall l, In l history -> ~ In SPACE l) ->
  items <> [] ->
  len (linesCode items)
  <= 2 * len (linesText items) - newlines (linesText items)
     + 2 * len items - 1.
Proof.
  destruct items as [|[lineRef curr] rest]; intros Hv Hplain Hne;
    [contradiction|].
  cbn [valid_lines] in Hv. destruct Hv as [Href [Hshape Hrest]].
  rewrite linesCode_cons, linesText_cons, !len_app, newlines_app, len_cons.
  pose proof (linesCode_cost K rest _ Hrest) as Hr.
  pose proof (lineCode_len_line lineRef curr
                (valid_reference_core _ _ _ _ Href)) as [_ [Hl|Hsp]].
  - rewrite (line_newlines curr rest Hshape). lia.
  - exfalso.
    destruct (valid_reference_key _ _ _ _ Href) as [E|Hin].
    + rewrite E in Hsp. exact Hsp.
    + exact (Hplain _ Hin Hsp).
Qed.

(** Every line but the last ends with a newline. *)
Lemma linesText_newlines (K : Z) (items : list (lineReference * list Z)) :
  forall history : list (list Z),
    valid_lines K history items -> items <> [] ->
    newlines (linesText items) = len items - 1 + endsLine (linesText items).
Proof.
  induction items as [|[lineRef curr] rest IH]; intros history Hv Hne;
    [contradiction|].
  cbn [valid_lines] in Hv. destruct Hv as [_ [Hshape Hrest]].
  rewrite linesText_cons, newlines_app, len_cons.
  rewrite (line_newlines curr rest Hshape).
  destruct rest as [|item rest'].
  - cbn [linesText flat_map]. rewrite app_nil_r.
    change (len (@nil (lineReference * list Z))) with 0.
    change (newlines []) with 0. lia.
  - assert (Hne' : item :: rest' <> []) by discriminate.
    assert (Htext : linesText (item :: rest') <> []).
    { intros E. apply (valid_lines_nonempty _ _ _ Hrest) in E. discriminate E. }
    rewrite (IH _ Hrest Hne'), (endsLine_app _ _ Htext).
    destruct Hshape as [[body [-> _]]|[_ [_ E]]]; [|discriminate E].
    rewrite endsLine_newline. rewrite len_cons. lia.
Qed.

Lemma firstn_consumed (firstLine text rest : list Z) (k : Z) :
  0 <= k <= len firstLine -> k = len firstLine \/ text = [] ->
  firstn (Z.to_nat (k + len text)) (firstLine ++ text ++ rest)
  = firstn (Z.to_nat k) firstLine ++ text.
Proof.
  intros Hk [->| ->].
  - rewrite app_assoc.
    replace (Z.to_nat (len firstLine + len text))
      with (length (firstLine ++ text) + 0)%nat
      by (rewrite length_app; unfold len; lia).
    rewrite firstn_app_2. cbn [firstn]. rewrite app_nil_r.
    rewrite to_nat_len, firstn_all. reflexivity.
  - rewrite len_nil, Z.add_0_r, app_nil_r. cbn [app].
    rewrite firstn_app.
    replace (Z.to_nat k - length firstLine)%nat with 0%nat
      by (unfold len in Hk; lia).
    cbn [firstn]. apply app_nil_r.
Qed.

Lemma newlines_newline : newlines [NEWLINE] = 1.
Proof. reflexivity. Qed.

(** The bytes that one call of [Compress] consumes and the size of what
    it writes for them. *)
Lemma Compress_cost (dst src d : list Z) (level r w : Z) :
  Compress dst src level = Ok (d, r, w) ->
  w <= 2 * r + 4 - endsLine (firstn (Z.to_nat r) src)
       + Z.max 0 (newlines (firstn (Z.to_nat r) src)
                  - endsLine (firstn (Z.to_nat r) src) - 1).
Proof.
  intros HC.
  destruct (Compress_structure _ _ _ _ _ _ HC)
    as [K [firstLine [rest [k [items [header Hs]]]]]].
  cbv zeta in Hs.
  destruct Hs as [_ [_ [En [Hk [Hki [Hv [Hr [Hw _]]]]]]]].
  assert (H4 : HEADER_SIZE = 4) by reflexivity.
  rewrite len_app, quoted_len in Hw.
  pose proof (nextLine_shape (limitSlice src MAX_CHUNK_SIZE)) as [Hsplit [Hshape _]].
  rewrite En in Hsplit, Hshape. cbn [fst snd] in Hsplit, Hshape.
  set (text := linesText items) in *.
  assert (Hki' : k = len firstLine \/ text = [])
    by (destruct Hki as [E|E]; [left; exact E | right; subst items; reflexivity]).
  assert (Hcons : firstn (Z.to_nat r) src = firstn (Z.to_nat k) firstLine ++ text).
  { rewrite <- (firstn_limitSlice src r MAX_CHUNK_SIZE).
    - rewrite Hsplit, Hr. apply firstn_consumed; assumption.
    - rewrite Hsplit, Hr, !len_app.
      pose proof (len_nonneg text). pose proof (len_nonneg rest). lia. }
  rewrite Hcons.
  assert (Hcase : items = [] \/ items <> [])
    by (destruct items; [left; reflexivity | right; discriminate]).
  destruct Hcase as [Enil|Hne].
  - subst items text. cbn [linesText flat_map] in *. rewrite app_nil_r.
    change (len (@nil Z)) with 0 in Hr.
    change (len (linesCode [])) with 0 in Hw.
    pose proof (quotedSize_line (firstn (Z.to_nat k) firstLine)) as Hq.
    rewrite len_firstn in Hq by lia. lia.
  - assert (Hk' : k = len firstLine).
    { destruct Hki as [E|E]; [exact E | contradiction]. }
    assert (Htext : text <> []).
    { intros E. apply Hne. exact (valid_lines_nonempty _ _ _ Hv E). }
    destruct Hshape as [[body [Ebody Hplain]]|[_ [E _]]].
    2: { apply app_eq_nil in E. destruct E as [E _]. contradiction. }
    rewrite Hk', to_nat_len, firstn_all in *.
    rewrite (endsLine_app _ _ Htext), newlines_app.
    assert (Hn1 : newlines firstLine = 1)
      by (rewrite Ebody, newlines_app, (newlines_plain body Hplain),
            newlines_newline; reflexivity).
    assert (He1 : endsLine firstLine = 1)
      by (rewrite Ebody; apply endsLine_newline).
    pose proof (linesText_newlines K items _ Hv Hne) as HN. fold text in HN.
    pose proof (endsLine_range text) as Her.
    assert (HL : 1 <= len items).
    { destruct items; [contradiction|]. rewrite len_cons.
      pose proof (len_nonneg items). lia. }
    destruct (in_dec Z.eq_dec SPACE firstLine) as [Hsp|Hnsp].
    + pose proof (quotedSize_line_space firstLine Hsp) as Hq.
      pose proof (linesCode_cost K items _ Hv) as Hc. fold text in Hc. lia.
    + pose proof (quotedSize_line firstLine) as Hq.
      assert (Hhist : forall l, In l [firstLine] -> ~ In SPACE l).
      { intros l [<-|[]]. exact Hnsp. }
      pose proof (linesCode_cost_first K items _ Hv Hhist Hne) as Hc.
      fold text in Hc. lia.
Qed.

Lemma Compress_costlyLines :
  exists d,
    Compress (repeat 0 1400) costlyLines COMPRESSION_LEVEL_WORST
    = Ok (d, 646, 1299).
Proof. vm_compute. eexists. reflexivity. Qed.

(** C8, amended.  For every call [Compress(dst, src, level)] that returns
    [(bytesRead, bytesWritten)], with [N] the number of newline bytes among
    the [bytesRead] bytes consumed and [e] 1 when the last of them is a
    newline and 0 otherwise:
    [bytesWritten <= 2 * bytesRead + 4 - e + max(0, N - e - 1)], and
    [bytesWritten <= DecompressBound()].  [N - e] is the number of lines
    consumed after the first: the header takes 4 bytes, every byte
    consumed 2 at most, a closing newline 1, and every line after the
    second one byte more. *)
Theorem Compress_output_bound (dst src d : list Z) (level bytesRead bytesWritten : Z) :
  Compress dst src level = Ok (d, bytesRead, bytesWritten) ->
  let consumed := firstn (Z.to_nat bytesRead) src in
  bytesWritten
  <= 2 * bytesRead + 4 - endsLine consumed
     + Z.max 0 (newlines consumed - endsLine consumed - 1)
  /\ bytesWritten <= DecompressBound.
Proof.
  intros HC. cbv zeta. split; [exact (Compress_cost _ _ _ _ _ _ HC)|].
  destruct (Compress_structure _ _ _ _ _ _ HC)
    as [K [firstLine [rest [k [items [header Hs]]]]]].
  cbv zeta in Hs.
  destruct Hs as [_ [_ [_ [_ [_ [_ [_ [Hw [_ [Hmax _]]]]]]]]]].
  unfold DecompressBound. lia.
Qed.

Lemma Compress_output_bound_witness :
  Compress (repeat 0 12) [195; 10; 196] 4
  = Ok ([5; 0; 2; 0; 128; 195; 10; 129; 128; 196; 0; 0], 3, 10)
  /\ 10 <= 2 * 3 + 4 - endsLine (firstn (Z.to_nat 3) [195; 10; 196])
           + Z.max 0 (newlines (firstn (Z.to_nat 3) [195; 10; 196])
                      - endsLine (firstn (Z.to_nat 3) [195; 10; 196]) - 1)
  /\ 10 <= DecompressBound.
Proof.
  split.
  - vm_compute. reflexivity.
  - apply (Compress_output_bound (repeat 0 12) [195; 10; 196]
             [5; 0; 2; 0; 128; 195; 10; 129; 128; 196; 0; 0] 4 3 10).
    vm_compute. reflexivity.
Defined.

(** C8 fails as stated: at level 1 the 646 bytes of [costlyLines] are
    compressed into 1299 bytes, more than [2 * 646 + 6]. *)
Lemma Compress_constant_bound_counterexample :
  (exists d,
     Compress (repeat 0 1400) costlyLines COMPRESSION_LEVEL_WORST
     = Ok (d, 646, 1299))
  /\ ~ (exists C, C <= 6 /\ 1299 <= 2 * 646 + C)
  /\ ~ (forall (dst src d : list Z) (level bytesRead bytesWritten : Z),
          Compress dst src level = Ok (d, bytesRead, bytesWritten) ->
          exists C, C <= 6 /\ bytesWritten <= 2 * bytesRead + C).
Proof.
  pose proof Compress_costlyLines as E.
  split; [exact E|]. split.
  - intros [C [HC Hb]]. lia.
  - intros H. destruct E as [d E]. apply H in E.
    destruct E as [C [HC Hb]]. lia.
Qed.

(** The bound is reached: for the five lines of [costlyLines], without a
    newline at the end, and for a first line of one byte with the high
    bit set and its newline. *)
Lemma Compress_bound_reached :
  (exists d,
     Compress (repeat 0 1400) costlyLines COMPRESSION_LEVEL_WORST
     = Ok (d, 646, 1299))
  /\ 1299 = 2 * 646 + 4 - endsLine (firstn (Z.to_nat 646) costlyLines)
            + Z.max 0 (newlines (firstn (Z.to_nat 646) costlyLines)
                       - endsLine (firstn (Z.to_nat 646) costlyLines) - 1)
  /\ Compress (repeat 0 8) [195; 10] COMPRESSION_LEVEL_DEFAULT
     = Ok ([2; 0; 1; 0; 128; 195; 10; 0], 2, 7)
  /\ 7 = 2 * 2 + 4 - endsLine (firstn (Z.to_nat 2) [195; 10])
         + Z.max 0 (newlines (firstn (Z.to_nat 2) [195; 10])
                    - endsLine (firstn (Z.to_nat 2) [195; 10]) - 1).
Proof.
  split; [exact Compress_costlyLines|].
  split; [vm_compute; reflexivity|].
  split; vm_compute; reflexivity.
Qed.
